(* ===== verification/_CoqProject ===== *)
-Q . S2P
Prelude.v
Double.v
Common.v
Configuration.v
Timing.v
BankState.v
ChannelState.v
ChannelSafety.v
Protocol.v
SimpleStats.v
Refresh.v
CommandQueue.v
Controller.v
ControllerSafety.v
ControllerRuns.v
ControllerTrace.v
Divergences.v
DramSystem.v
DramSystemSafety.v
SystemTrace.v
IdealSafety.v
Hmc.v
HmcSafety.v
HmcRuns.v
MemorySystem.v
Random.v
TraceFile.v
TraceText.v
AddressTrace.v
Cpu.v
Energy.v
Tuning.v
Solver.v
SolverSafety.v
SolverRuns.v
Thermal.v
ThermalSafety.v
ThermalRuns.v
Replay.v
ReplayRuns.v
StackSystem.v
ReplayTrace.v
ThermalSystem.v
