(* ===== verification/Prelude.v ===== *)
(** * DRAMsim3: a verification library

    DRAMsim3 (src/src) is a cycle-accurate simulator of a DRAM memory system.
    A client asks [WillAcceptTransaction], hands over a request with
    [AddTransaction], and calls [ClockTick] once a cycle; the system answers
    through a read and a write callback.  Inside, each channel has a
    controller.  It keeps transactions in its queues, translates them into
    commands for a command queue, asks the channel state which command may be
    issued in this cycle, issues it, and completes the transactions whose
    column command went out.  A refresh counter interleaves refresh commands.
    In a hybrid memory cube the controllers are the vaults: requests reach
    them from the links through a crossbar, and responses cross back.  The
    facade [MemorySystem] builds the system that the configuration names, and
    the clients, random, stream or trace, are run by [main].  A system can
    write the commands of each channel (CMD_TRACE) and the requests it is given
    (ADDR_TRACE) to traces.  From its counts a channel computes energies and averages at the end of every epoch.  With
    THERMAL, each command's energy is charged to the cells of the die that it
    heats, and a solver turns the maps into temperatures; a replay tool does
    the same for the commands of a recorded trace.

    ** How the files correspond to the code

    - [Prelude] (this file): record update, the [res] monad (a C++ call
      returns or stops the run, with the reason as a [fault]) and the
      judgement [ensures] of a computation that returns with a postcondition,
      loops over vectors ([foldM], [for_upto], and loops that write,
      [foldM_writes]), vectors indexed by [int] with the out-of-range access as
      a fault, three-dimensional vectors,
      [uint64_t] and [int] conversions, vectors with their capacity ([rvec])
      and multimaps; the hint database [dram].
    - [Double]: the type double, binary64 as the Standard Library's SpecFloat
      computes it, rounded to nearest, with the conversions from and to [int].
    - [Common]: common.h, common.cc.  [Configuration]: configuration.h/.cc.
      [Timing]: timing.h/.cc.  [BankState]: bankstate.h/.cc.  [ChannelState]:
      channel_state.h/.cc.  [SimpleStats]: simple_stats.h/.cc.  [Refresh]:
      refresh.h/.cc.  [CommandQueue]: command_queue.h/.cc.  [Controller]:
      controller.h/.cc.  [DramSystem]: dram_system.h/.cc, with the ideal
      system in Module [Ideal].  [Hmc]: hmc.h/.cc.  [MemorySystem]:
      memory_system.h/.cc.  [Energy]: the power parameters of
      configuration.h/.cc and the energies and averages of simple_stats.h/.cc.
      [Solver]: thermal_solver.c and thermal_config.h.  [Thermal]: thermal.h/.cc.
      [Replay]: thermal_replay.h/.cc.  [TraceFile]: the extraction of a transaction from
      a stream (common.cc).  [TraceText]: the output operators of common.cc and
      the lines of the traces.  [ThermalSystem]: what dram_system.cc and
      controller.cc do with the calculator in a build with THERMAL.  [Tuning]:
      sp_ienv.c.  [Cpu]: cpu.h/.cc and main.cc.  Every file has one record per class and one definition per method, under the
      method's name; a method that changes its object takes the record last
      and returns the new one, and a method that may stop the run returns in
      [res].  The loop bodies of long methods are definitions of their own.
    - [ChannelSafety], [Protocol], [ControllerSafety], [ControllerRuns], [ControllerTrace],
      [DramSystemSafety], [SystemTrace], [AddressTrace], [IdealSafety], [HmcSafety], [HmcRuns],
      [SolverSafety], [SolverRuns], [ThermalSafety], [ThermalRuns],
      [ReplayRuns], [ReplayTrace] and [StackSystem] hold the invariants and theorems of the layer they are named after;
      [Divergences] the runs in which the code does not do what it is meant
      to.
    - [Random] is std::mt19937_64 as the C++ standard defines it, checked
      against the value that the standard prescribes.

    Objects that share state in the code (the controller's channel state and
    statistics are referenced by its command queue and its refresh counter)
    are components of one value that is threaded through the calls; there is
    no other aliasing.  A packet of the cube is in one queue at a time, so
    the queues hold the packets themselves.  Callbacks are a log of calls in
    [BaseDRAMSystem], the traces lists of lines in the controller and in the
    system.  The relation [ChannelSafety.issued] holds between a trace and the
    channel state it leads to; it is an invariant of every controller, which
    carries the timing theorems of the channel over to whole systems.

    The class [MemorySystem.Memory] is the contract between a memory and its
    clients: a cycle returns, what [WillAcceptTransaction] promises
    [AddTransaction] keeps, and no request is answered more often than it was
    accepted.  The JEDEC systems, the cube and the facade are its instances;
    the clients are verified against the class alone.

    ** What the theorems show

    - JEDEC systems: no operation stops the simulation (C1), every accepted
      request is reported once or still in flight, in its own channel (C2), a
      cycle reports exactly what has completed (C9).  Whatever the requests, the
      command trace of every channel respects each timing constraint and the
      four-activate window (C6), holds only commands that the device has
      (C25), and is one that the abstract device of [Protocol], which keeps
      the open row of each bank, accepts command by command (C5); the address trace can be read back as the requests that were
      made (C30).
    - Controller: no reachable controller faults (C3), requests are conserved
      (C4), each pending address has one carrier (C18), the queues keep to
      their capacity (C19).
    - Channel: in every trace each timing constraint is respected
      ([issued_commands_respect_timing]), as is the four-activate window
      ([four_activate_window]), and the rows are those of the abstract device
      ([issued_rows]); what is declared ready
      is accepted (C7);
      the timing propagation implements its specification (C8).
    - Hybrid memory cube: no operation stops the simulation (C10), requests
      are conserved across links, crossbar, table and vaults (C11), the two
      clocks keep step and their loop ends (C22), a request is accepted
      exactly when announced (C23), the arbiter serves each waiting queue once
      (C37); its queues keep to their depth ([cube_queues_bounded]).
    - Facade and clients: every run through the facade returns (C12), so does
      the program, with its exit status (C13); the clients submit what their
      trace (C24), arrays ([stream_cpu_submits]) or generator
      ([random_cpu_submits]) prescribe; a trace is read as written
      ([trace_read_back]).
    - Thermal model: a memory system that feeds the thermal model of a stacked
      device runs to its end (C14, and [stacked_thermal_runs] for any sequence
      of calls);
      energy stays on the bank that it belongs to and the refresh counters
      walk through the rows (C15); banks do not share cells (C27).  The replay
      reads the trace that a system wrote, but for the rows and columns, and
      runs to its end unless the trace holds a refresh (C26); a trace of plain
      decimal numbers it reads as written ([replay_runs]).  Solvers:
      the conductance matrix is complete and symmetric (C16), the transient
      solver is the plain iteration (C17), the steady solver hands over the
      system it means to (C28).
    - Command queue: choosing a command is total and loses none (C20), and
      what may overtake what (C21).  Bank: requests are served (C31).
    - Refresh schedule (C32).  Ideal memory (C33).  Address mapping: both
      round trips and the range of the decoded coordinates (C34 to C36).
      Statistics: exact counters (C38) and histograms ([fill_bins_counts]),
      energies and the printed list of an epoch (C29).
    - Divergences: a lost read with dual commands (C39), epochs that never end
      on devices that are not stacked (C40); as lemmas, the abort on waking a
      rank ([sref_wakeup_aborts]), the misread end of a trace
      ([trace_end_misread]), an arbiter that does not serve the oldest
      ([age_queue_unsorted]), a refreshed bank that is not held back
      ([refreshed_bank_unconstrained]), histogram bins that survive a reset
      ([Reset_keeps_bins]), power at the node of another cell
      ([transient_power_misplaced]), refresh counters that never return to
      the first row ([refresh_never_wraps]), banks outside the die
      ([grouped_bank_off_die]).

    The guarantees of the controllers and of everything built on them are for
    configurations in the class [SafeConfig]: a sane geometry, a refresh
    interval that is not zero, no self-refresh (it aborts), and, where the HBM
    dual-command mode is on, column delays that are positive (otherwise it
    loses requests, C39).  [SafeHmc] adds what a cube needs of
    its links: at least one of them, a block size that the packets know, and a
    logic clock of at least a picosecond a cycle.  The thermal theorems are for
    devices whose banks fit the floor plan ([device_fits]; the DDR4 x4 devices
    do not), whose refresh steps divide the rows ([geometry_ok]; several
    shipped ones do not), and whose grid has fewer than 2^31 nodes.

    ** Numbers, fuel and loops

    [uint64_t] values are integers in [0, 2^64) and every operation on them
    wraps ([u64]); conversions to [int] wrap too ([i32]).  Arithmetic on [int]
    is on unbounded integers: its overflow is undefined behaviour in C++, and
    the parameters are configuration values of a few thousands; the ages of
    the cube's arbiter grow by one a cycle and would take 2^31 cycles of
    waiting.  A shift by a negative or too large amount, a division by zero, a
    conversion of a number out of range and an index outside a vector are
    faults.  Loops over vectors are structural.  [LogBase2] has fuel 32,
    enough for every [int]; the loops over completed transactions ([drain],
    [drain_vault]) have one unit of fuel more than there are transactions, and
    are proved to end within it; [insert_elsewhere] has one more than there
    are links, [logic_loop] 800, the picoseconds of a DRAM cycle, and both are
    proved to end within them (C23, C22); [command_to_issue] runs over the
    number of queues, as the code does; [serve] drives a bank for three
    commands, which C31 shows to be enough.  The cube's picosecond counters
    are [uint64_t]: its theorems are for runs of less than 2^53 cycles.
    [sweep_blocks] has one unit of fuel more than there are entries and is
    proved to do them all; [row_tile_loop] doubles from 1 and leaves the range
    of [int] within its 17 steps; [search] looks through all numbers up to the
    overflow of [int]; the fuel of [UpdateEpoch] is used on devices that are
    not stacked only, where no amount of it is enough (C40).

    ** What is not modelled

    The text of floating-point numbers, JSON objects and CSV files (the values
    written are modelled), and command-line parsing.  The INI reader is
    third-party code: [Config_new], [InitPowerParams] and [InitThermalParams]
    take its lookup functions; the contents of the trace file and what the
    command-line parser returns are arguments of [Cpu.main] and [Replay.main];
    whether the output directory exists is a parameter of [InitOutputNames].
    The formatting library fmt is third-party code: its format specifications
    are the operations of the class [TraceText.Fmt], and [FmtLaws] is what its
    documentation says of them.  SuperLU is third-party code: [pdgssv] is a
    parameter of the steady solver, of which only the length of the answer is
    assumed, and the machine macros of its header are arguments of [sp_ienv].
    Three members that thermal_replay.cc, and controller.cc under THERMAL, call
    are declared nowhere in the sources, so neither compiles; they are
    parameters of [Replay] and [ThermalSystem], of which C14 and C26 assume
    that they return and keep the statistics well-formed.  In [ThermalSystem]
    the charges of a cycle are made after the controller has run instead of
    within [IssueCommand]; nothing that the controllers do reads the
    calculator.  A hybrid memory cube in a build with THERMAL is not modelled. *)

From Stdlib Require Export ZArith Lia.
From stdpp Require Export base numbers list gmap strings option.

Create HintDb dram.

Declare Scope dram_scope.
Delimit Scope dram_scope with dram.
Open Scope dram_scope.
Local Open Scope Z_scope.

(** ** Record update

    [r <| f := v |>] is the C++ assignment [r.f = v] on a value, and
    [r <| f ::= g |>] is [r.f = g(r.f)].  A record type gives its
    eta-expansion once ([RecordEta]); the update of each field is derived
    from it by abstracting the projection of that field. *)

Class RecordEta (R : Type) := eta : R → R.
Class FieldUpdate {R T : Type} (field : R → T) := update_field : (T → T) → R → R.

Ltac derive_field_update :=
  lazymatch goal with
  | |- @FieldUpdate ?R ?T ?field =>
    let e := constr:(_ : RecordEta R) in
    let body := constr:(fun (upd : T → T) (r : R) =>
      ltac:(let t := eval hnf in e in
            let t := eval cbv beta in (t r) in
            lazymatch (eval pattern (field r) in t) with
            | ?F _ => let s := eval cbv beta in (F (upd (field r))) in exact s
            end)) in
    exact body
  end.

#[export] Hint Extern 1 (FieldUpdate _) => derive_field_update : typeclass_instances.

Notation "r <| f := v |>" := (update_field (field:=f) (λ _, v) r)
  (at level 1, left associativity, f at level 9, v at level 200,
   format "r  <| f  :=  v |>") : dram_scope.
Notation "r <| f ::= g |>" := (update_field (field:=f) g r)
  (at level 1, left associativity, f at level 9, g at level 200,
   format "r  <| f  ::=  g |>") : dram_scope.

(** ** Outcomes of a call

    A C++ call either returns or stops the run: through [AbruptExit] of
    common.cc, through [exit], or by an operation that C++ leaves undefined
    (an index outside a vector, the front of an empty vector, a division by
    zero, a floating-point value that does not fit its integer type).  Each of them is a value of [fault]. *)

Inductive fault : Type :=
  | AbruptExit (file : string) (line : Z)
  | ExitCode (code : Z)
  | AssertFailed
  | OutOfRange
  | UncaughtException
  | UndefinedShift
  | UndefinedConversion
  | DivideByZero
  | SignedOverflow
  | NoFuel.

Inductive res (A : Type) : Type :=
  | Ok (a : A)
  | Fault (f : fault).
Arguments Ok {A} a.
Arguments Fault {A} f.

#[export] Instance fault_eq_dec : EqDecision fault.
Proof. solve_decision. Defined.

#[export] Instance res_ret : MRet res := @Ok.
#[export] Instance res_bind : MBind res := λ A B k m,
  match m with Ok a => k a | Fault f => Fault f end.

Definition is_ok {A} (m : res A) : bool :=
  match m with Ok _ => true | Fault _ => false end.

Definition of_option {A} (f : fault) (o : option A) : res A :=
  match o with Some a => Ok a | None => Fault f end.

Section res_lemmas.
Context {A B : Type}.
Implicit Types (m : res A) (k : A → res B).

Lemma bind_Ok_inv m k b : m ≫= k = Ok b → ∃ a, m = Ok a ∧ k a = Ok b.
Proof. destruct m; simpl; [eauto | discriminate]. Qed.

Lemma bind_of_Ok m k a : m = Ok a → m ≫= k = k a.
Proof. by intros ->. Qed.

Lemma of_option_Ok f (o : option A) a : of_option f o = Ok a ↔ o = Some a.
Proof. destruct o; simpl; naive_solver. Qed.
End res_lemmas.

(** Inverts every hypothesis [m ≫= k = Ok b] and every equation between
    outcomes, as a reader of the monadic code would. *)
Ltac simplify_res :=
  repeat match goal with
  | H : mbind _ _ = Ok _ |- _ =>
      let a := fresh "a" in let Ha := fresh "Hrun" in
      apply bind_Ok_inv in H as (a & Ha & H)
  | H : Ok _ = Ok _ |- _ => injection H as H; try subst
  | H : Fault _ = Ok _ |- _ => discriminate H
  | H : Ok _ = Fault _ |- _ => discriminate H
  | H : mret _ = Ok _ |- _ => unfold mret, res_ret in H
  | H : of_option _ _ = Ok _ |- _ => apply of_option_Ok in H
  | p : (_ * _)%type |- _ => destruct p
  end.

(** A postcondition: the call returns, and its result satisfies [Q]. *)
Definition ensures {A} (m : res A) (Q : A → Prop) : Prop := ∃ a, m = Ok a ∧ Q a.

Lemma ensures_ret {A} (a : A) (Q : A → Prop) : Q a → ensures (Ok a) Q.
Proof. by exists a. Qed.

Lemma ensures_bind {A B} (m : res A) (k : A → res B) P Q :
  ensures m P → (∀ a, P a → ensures (k a) Q) → ensures (m ≫= k) Q.
Proof. intros (a & -> & Ha) Hk. by apply Hk. Qed.

Lemma ensures_mono {A} (m : res A) (P Q : A → Prop) :
  ensures m P → (∀ a, P a → Q a) → ensures m Q.
Proof. intros (a & -> & Ha) HPQ. exists a. auto. Qed.

#[export] Hint Resolve ensures_ret : dram.

(** Running a computation and testing its result. *)
Definition res_check {A} (r : res A) (p : A → bool) : bool :=
  match r with Ok a => p a | Fault _ => false end.

Lemma res_check_Ok {A} (r : res A) p : res_check r p = true → ∃ a, r = Ok a ∧ p a = true.
Proof. destruct r as [a|]; [by exists a|done]. Qed.

(** ** Loops

    [foldM f l s] is a [for] loop over the elements of [l] whose body [f]
    rewrites the state and may stop the run. *)

Fixpoint foldM {A S : Type} (f : A → S → res S) (l : list A) (s : S) : res S :=
  match l with
  | [] => Ok s
  | x :: l' => s' ← f x s; foldM f l' s'
  end.

(** [for (int i = 0; i < n; i++)] *)
Definition for_upto {S : Type} (n : Z) (f : Z → S → res S) (s : S) : res S :=
  foldM f (seqZ 0 n) s.

Section foldM_lemmas.
Context {A S : Type} (f : A → S → res S).

Lemma foldM_app l1 l2 s : foldM f (l1 ++ l2) s = foldM f l1 s ≫= foldM f l2.
Proof.
  revert s; induction l1 as [|x l1 IH]; intros s; simpl; [done|].
  destruct (f x s); simpl; auto.
Qed.

Lemma foldM_snoc l x s : foldM f (l ++ [x]) s = foldM f l s ≫= f x.
Proof. rewrite foldM_app. destruct (foldM f l s); simpl; [by destruct (f x a)|done]. Qed.

(** Total correctness of a loop, from an invariant on the elements done. *)
Lemma foldM_total (P : list A → S → Prop) l s :
  P [] s →
  (∀ pre x s1, x ∈ l → pre ++ [x] `prefix_of` l → P pre s1 →
     ∃ s2, f x s1 = Ok s2 ∧ P (pre ++ [x]) s2) →
  ∃ s', foldM f l s = Ok s' ∧ P l s'.
Proof.
  intros H0 Hstep.
  induction l as [|x l IH] using rev_ind; [by exists s|].
  destruct IH as (s1 & Hrun & HP).
  { intros pre y s1 Hy Hpre HPre. apply Hstep; [set_solver| |done].
    by apply prefix_app_r. }
  destruct (Hstep l x s1) as (s2 & Hf & HP2); [set_solver|done|done|].
  exists s2. by rewrite foldM_snoc, Hrun.
Qed.

(** Partial correctness: what every iteration preserves. *)
Lemma foldM_preserves (P : S → Prop) l s s' :
  (∀ x s1 s2, x ∈ l → P s1 → f x s1 = Ok s2 → P s2) →
  P s → foldM f l s = Ok s' → P s'.
Proof.
  revert s; induction l as [|x l IH]; intros s Hstep HP Hrun; simpl in *; simplify_res; [done|].
  eapply IH; [| |done]; [set_solver|]. eapply Hstep; [|done..]. set_solver.
Qed.

(** Total correctness with an invariant on the state alone. *)
Lemma foldM_ok (P : S → Prop) l s :
  (∀ x s1, x ∈ l → P s1 → ∃ s2, f x s1 = Ok s2 ∧ P s2) →
  P s → ∃ s', foldM f l s = Ok s' ∧ P s'.
Proof.
  intros Hstep HP.
  destruct (foldM_total (λ _, P) l s) as (s' & ? & ?); eauto.
Qed.

Lemma foldM_ensures (P : S → Prop) l s :
  (∀ x s1, x ∈ l → P s1 → ensures (f x s1) P) → P s → ensures (foldM f l s) P.
Proof. apply foldM_ok. Qed.
End foldM_lemmas.

Lemma for_upto_ensures {S} (P : S → Prop) n (f : Z → S → res S) s :
  (∀ i s1, 0 ≤ i < n → P s1 → ensures (f i s1) P) → P s → ensures (for_upto n f s) P.
Proof.
  intros Hf. apply foldM_ensures. intros i s1 Hi%elem_of_seqZ. apply Hf. lia.
Qed.

(** Total correctness of a counting loop, with an invariant of the counter. *)
Lemma for_upto_total {S} (P : Z → S → Prop) n (f : Z → S → res S) s :
  0 ≤ n → P 0 s →
  (∀ i s1, 0 ≤ i < n → P i s1 → ∃ s2, f i s1 = Ok s2 ∧ P (i + 1) s2) →
  ∃ s', for_upto n f s = Ok s' ∧ P n s'.
Proof.
  intros Hn H0 Hstep. unfold for_upto.
  destruct (foldM_total f (λ pre, P (Z.of_nat (length pre))) (seqZ 0 n) s) as (s' & Hrun & HP);
    [done| |].
  - intros pre x s1 _ [k Hk] HP.
    assert (seqZ 0 n !! length pre = Some x) as Hx%lookup_seqZ.
    { rewrite Hk, <- app_assoc, lookup_app_r, Nat.sub_diag; done. }
    destruct Hx as [-> Hx]. destruct (Hstep (0 + Z.of_nat (length pre)) s1) as (s2 & Hf & HP2);
      [lia|done|].
    exists s2. split; [done|]. rewrite length_app. simpl. by rewrite Nat2Z.inj_add, Z.add_0_l in *.
  - exists s'. split; [done|]. by rewrite length_seqZ, Z2Nat.id in HP.
Qed.

(** Partial correctness of a counting loop. *)
Lemma for_upto_preserves {S} (P : Z → S → Prop) n (f : Z → S → res S) s s' :
  0 ≤ n → P 0 s →
  (∀ i s1 s2, 0 ≤ i < n → P i s1 → f i s1 = Ok s2 → P (i + 1) s2) →
  for_upto n f s = Ok s' → P n s'.
Proof.
  intros Hn H0 Hstep. rewrite <- (Z2Nat.id n Hn) in *. unfold for_upto.
  generalize (Z.to_nat n), Hstep. clear Hstep Hn n. intros n. revert s'.
  induction n as [|n IH]; intros s' Hstep Hrun; [simpl in Hrun; by simplify_res|].
  rewrite Nat2Z.inj_succ, <- Z.add_1_r, seqZ_app in * by lia. rewrite foldM_app in Hrun.
  apply bind_Ok_inv in Hrun as (s1 & Hrun & Hf). cbn [seqZ] in Hf.
  change (foldM f [0 + Z.of_nat n] s1 = Ok s') in Hf. simpl in Hf. simplify_res.
  eapply (Hstep (Z.of_nat n)); [lia| |done]. apply IH; [|done].
  intros i s3 s4 Hi. apply Hstep. lia.
Qed.

(** Two nested loops are one loop over the pairs of their counters. *)
Definition pairs {A B} (xs : list A) (ys : list B) : list (A * B) :=
  concat ((λ x, (λ y, (x, y)) <$> ys) <$> xs).

Lemma elem_of_pairs {A B} (xs : list A) (ys : list B) x y :
  (x, y) ∈ pairs xs ys ↔ x ∈ xs ∧ y ∈ ys.
Proof.
  unfold pairs. induction xs as [|x' xs IH]; [simpl; set_solver|].
  rewrite fmap_cons. cbn [concat]. rewrite elem_of_app, IH, elem_of_cons, list_elem_of_fmap. split.
  - intros [(y' & [= -> ->] & Hy)|[??]]; auto.
  - intros [[->|Hx] Hy]; [left; by exists y|auto].
Qed.

Lemma foldM_nested {A B S} (f : A → B → S → res S) (xs : list A) (ys : list B) s :
  foldM (λ x, foldM (f x) ys) xs s = foldM (λ p, f p.1 p.2) (pairs xs ys) s.
Proof.
  revert s. induction xs as [|x xs IH]; intros s; [done|].
  unfold pairs. rewrite fmap_cons. cbn [concat foldM]. rewrite foldM_app.
  replace (foldM (λ p, f p.1 p.2) ((λ y, (x, y)) <$> ys) s) with (foldM (f x) ys s).
  - destruct (foldM (f x) ys s); simpl; [apply IH|done].
  - clear. revert s. induction ys as [|y ys IH]; intros s; [done|].
    rewrite fmap_cons. simpl. destruct (f x y s); simpl; auto.
Qed.

Lemma foldM_ext {A S} (f g : A → S → res S) l s :
  (∀ x s, x ∈ l → f x s = g x s) → foldM f l s = foldM g l s.
Proof.
  revert s; induction l as [|x l IH]; intros s Hfg; simpl; [done|].
  rewrite Hfg by set_solver. destruct (g x s); simpl; [|done]. apply IH; set_solver.
Qed.

(** ** Vectors

    [std::vector] indexed by an [int]: reading or writing outside the range
    is undefined in C++ and is the fault [OutOfRange] here. *)

Definition vlookup {A} (v : list A) (i : Z) : option A :=
  if decide (0 ≤ i) then v !! Z.to_nat i else None.

Definition vec_get {A} (v : list A) (i : Z) : res A := of_option OutOfRange (vlookup v i).

Definition vec_modify {A} (v : list A) (i : Z) (f : A → res A) : res (list A) :=
  a ← vec_get v i; a' ← f a; Ok (<[Z.to_nat i := a']> v).

Definition vec_set {A} (v : list A) (i : Z) (a : A) : res (list A) :=
  vec_modify v i (λ _, Ok a).

Section vectors.
Context {A : Type}.
Implicit Types (v w : list A) (i j : Z).

Lemma vlookup_Some v i a : vlookup v i = Some a ↔ 0 ≤ i ∧ v !! Z.to_nat i = Some a.
Proof.
  unfold vlookup. destruct (decide (0 ≤ i)).
  - split; [done|by intros [_ ?]].
  - split; [done|by intros [? _]].
Qed.

Lemma vlookup_is_Some v i : is_Some (vlookup v i) ↔ 0 ≤ i < Z.of_nat (length v).
Proof.
  unfold vlookup. case_decide as Hi.
  - rewrite lookup_lt_is_Some. lia.
  - split; [by intros [? ?]|lia].
Qed.

Lemma vlookup_lt v i : 0 ≤ i < Z.of_nat (length v) → ∃ a, vlookup v i = Some a.
Proof. intros H. by apply vlookup_is_Some. Qed.

Lemma vlookup_range v i a : vlookup v i = Some a → 0 ≤ i < Z.of_nat (length v).
Proof. intros H. apply vlookup_is_Some. eauto. Qed.

Lemma vlookup_elem v i a : vlookup v i = Some a → a ∈ v.
Proof. intros [_ H]%vlookup_Some. by apply list_elem_of_lookup_2 in H. Qed.

Lemma vec_get_Ok v i a : vec_get v i = Ok a ↔ vlookup v i = Some a.
Proof. apply of_option_Ok. Qed.

Lemma vec_get_lt v i : 0 ≤ i < Z.of_nat (length v) → ∃ a, vec_get v i = Ok a.
Proof. intros [a Ha]%vlookup_lt. exists a. by apply vec_get_Ok. Qed.

Lemma vlookup_insert v i j a :
  0 ≤ i < Z.of_nat (length v) → 
  vlookup (<[Z.to_nat i := a]> v) j = if decide (j = i) then Some a else vlookup v j.
Proof.
  intros Hi. unfold vlookup. repeat case_decide; subst; try done; try lia.
  - apply list_lookup_insert_eq. lia.
  - apply list_lookup_insert_ne. lia.
Qed.

Lemma vec_modify_inv v i f w :
  vec_modify v i f = Ok w →
  ∃ a a', vlookup v i = Some a ∧ f a = Ok a' ∧ length w = length v ∧
    ∀ j, vlookup w j = if decide (j = i) then Some a' else vlookup v j.
Proof.
  unfold vec_modify. intros H. simplify_res.
  match goal with H : vec_get _ _ = Ok _ |- _ => apply vec_get_Ok in H as Hg end.
  eexists _, _. split_and!; [done|done|by rewrite length_insert|].
  intros j. apply vlookup_insert. by eapply vlookup_range.
Qed.

Lemma vec_modify_Ok v i f a a' :
  vlookup v i = Some a → f a = Ok a' →
  ∃ w, vec_modify v i f = Ok w ∧ length w = length v ∧
    ∀ j, vlookup w j = if decide (j = i) then Some a' else vlookup v j.
Proof.
  intros Hg Hf. exists (<[Z.to_nat i := a']> v).
  pose proof (vlookup_range _ _ _ Hg) as Hr.
  unfold vec_modify. apply vec_get_Ok in Hg as ->. simpl. rewrite Hf. simpl.
  split_and!; [done|by rewrite length_insert|].
  intros j. by apply vlookup_insert.
Qed.

(** The element behind a prefix of known length. *)
Lemma vec_get_middle v a w i : i = Z.of_nat (length v) → vec_get (v ++ a :: w) i = Ok a.
Proof.
  intros ->. apply vec_get_Ok, vlookup_Some. split; [lia|].
  by rewrite Nat2Z.id, list_lookup_middle.
Qed.

Lemma vec_modify_middle v a w i f :
  i = Z.of_nat (length v) → vec_modify (v ++ a :: w) i f = a' ← f a; Ok (v ++ a' :: w).
Proof.
  intros ->. unfold vec_modify. rewrite vec_get_middle by done. simpl.
  destruct (f a) as [a'|]; simpl; [|done].
  by rewrite Nat2Z.id, insert_app_r_alt, Nat.sub_diag by lia.
Qed.

Lemma vec_set_middle v a w i b :
  i = Z.of_nat (length v) → vec_set (v ++ a :: w) i b = Ok (v ++ b :: w).
Proof. intros Hi. unfold vec_set. by rewrite vec_modify_middle. Qed.

Lemma vec_modify_run v i f w :
  vec_modify v i f = Ok w →
  ∃ a a', vlookup v i = Some a ∧ f a = Ok a' ∧ w = <[Z.to_nat i := a']> v.
Proof.
  unfold vec_modify. intros H. simplify_res.
  match goal with H : vec_get _ _ = Ok _ |- _ => apply vec_get_Ok in H end. eauto.
Qed.

Lemma vlookup_ext v w :
  (∀ i, vlookup v i = vlookup w i) → v = w.
Proof.
  intros H. apply list_eq. intros i. specialize (H (Z.of_nat i)).
  unfold vlookup in H. by rewrite !decide_True, !Nat2Z.id in H by lia.
Qed.

Lemma vlookup_replicate n (a : A) i :
  vlookup (replicate n a) i = if decide (0 ≤ i < Z.of_nat n) then Some a else None.
Proof.
  unfold vlookup.
  destruct (decide (0 ≤ i)), (decide (0 ≤ i < Z.of_nat n)); try done; try lia.
  - apply lookup_replicate_2. lia.
  - apply lookup_ge_None. rewrite length_replicate. lia.
Qed.

Lemma vlookup_replicate_inv n (a b : A) i : vlookup (replicate n a) i = Some b → b = a.
Proof. rewrite vlookup_replicate. destruct (decide _); [by intros [= ->]|done]. Qed.
End vectors.

Lemma Forall_vlookup {A} (P : A → Prop) (v : list A) i a :
  Forall P v → vlookup v i = Some a → P a.
Proof.
  intros HP Ha. apply vlookup_elem in Ha. rewrite list.Forall_forall in HP. by apply HP.
Qed.

(** A loop that writes [value x] at [index x]: what it leaves, when writes to
    one index agree. *)
Lemma foldM_writes {A B} (index : A → Z) (get : A → res B) (value : A → B) (v : list B) xs :
  (∀ x, x ∈ xs → get x = Ok (value x) ∧ 0 ≤ index x < Z.of_nat (length v)) →
  (∀ x y, x ∈ xs → y ∈ xs → index x = index y → value x = value y) →
  ensures (foldM (λ x v, b ← get x; vec_set v (index x) b) xs v) (λ w,
    length w = length v ∧
    (∀ x, x ∈ xs → vlookup w (index x) = Some (value x)) ∧
    (∀ k, (∀ x, x ∈ xs → index x ≠ k) → vlookup w k = vlookup v k)).
Proof.
  revert v; induction xs as [|x xs IH]; intros v Hget Hagree; cbn [foldM].
  { apply ensures_ret. split_and!; [done|set_solver|done]. }
  destruct (Hget x) as [-> Hx]; [set_solver|]. cbn [mbind res_bind].
  destruct (vlookup_lt v (index x) Hx) as [b Hb].
  destruct (vec_modify_Ok v (index x) (λ _, Ok (value x)) _ _ Hb eq_refl) as (v1 & Hset & Hl & Hlk).
  change (vec_set v (index x) (value x) = Ok v1) in Hset. rewrite Hset. cbn [mbind res_bind].
  destruct (IH v1) as (w & -> & Hlw & H1 & H2).
  { intros y Hy. rewrite Hl. apply Hget. set_solver. }
  { intros y z Hy Hz. apply Hagree; set_solver. }
  apply ensures_ret. split_and!; [congruence| |].
  - intros y [->|Hy]%elem_of_cons; [|by apply H1].
    destruct (decide (Exists (λ z, index z = index x) xs)) as [(z & Hz & Hzx)%list.Exists_exists|Hno].
    + rewrite <- Hzx, H1 by done. f_equal. apply Hagree; [set_solver..|done].
    + rewrite H2, Hlk, decide_True; [done..|]. intros z Hz Hzx. apply Hno, list.Exists_exists. eauto.
  - intros k Hk. rewrite H2, Hlk, decide_False; [done| |].
    + intros ->. by apply (Hk x); [set_solver|].
    + intros y Hy. apply Hk. set_solver.
Qed.

(** [std::vector<std::vector<std::vector<T>>>], the shape of the bank states:
    [get3 v i j k] is [v[i][j][k]]. *)

Definition lookup3 {A} (v : list (list (list A))) (i j k : Z) : option A :=
  v1 ← vlookup v i; v2 ← vlookup v1 j; vlookup v2 k.

Definition get3 {A} (v : list (list (list A))) (i j k : Z) : res A :=
  v1 ← vec_get v i; v2 ← vec_get v1 j; vec_get v2 k.

Definition modify3 {A} (v : list (list (list A))) (i j k : Z) (f : A → res A)
    : res (list (list (list A))) :=
  vec_modify v i (λ v1, vec_modify v1 j (λ v2, vec_modify v2 k f)).

(** The vector has the dimensions [n1] x [n2] x [n3]. *)
Definition dims3 {A} (n1 n2 n3 : Z) (v : list (list (list A))) : Prop :=
  ∀ i j k, is_Some (lookup3 v i j k) ↔ 0 ≤ i < n1 ∧ 0 ≤ j < n2 ∧ 0 ≤ k < n3.

Section vectors3.
Context {A : Type}.
Implicit Types (v w : list (list (list A))) (i j k : Z).

Lemma get3_Ok v i j k a : get3 v i j k = Ok a ↔ lookup3 v i j k = Some a.
Proof.
  unfold get3, lookup3, vec_get.
  destruct (vlookup v i) as [v1|]; simpl; [|done].
  destruct (vlookup v1 j) as [v2|]; simpl; [|done].
  apply of_option_Ok.
Qed.

Lemma modify3_inv v i j k f w :
  modify3 v i j k f = Ok w →
  ∃ a a', lookup3 v i j k = Some a ∧ f a = Ok a' ∧
    ∀ i' j' k', lookup3 w i' j' k' =
      if decide ((i', j', k') = (i, j, k)) then Some a' else lookup3 v i' j' k'.
Proof.
  unfold modify3, lookup3.
  intros (v1 & w1 & Hv1 & (v2 & w2 & Hv2 & (a & a' & Ha & Hf & _ & H3)%vec_modify_inv
    & _ & H2)%vec_modify_inv & _ & H1)%vec_modify_inv.
  exists a, a'. rewrite Hv1; simpl. rewrite Hv2; simpl. split_and!; [done..|].
  intros i' j' k'. rewrite H1. destruct (decide (i' = i)) as [->|]; simpl.
  2:{ rewrite decide_False by congruence. done. }
  rewrite H2, Hv1. simpl. destruct (decide (j' = j)) as [->|]; simpl.
  2:{ rewrite decide_False by congruence. done. }
  rewrite H3, Hv2. simpl. repeat case_decide; naive_solver.
Qed.

Lemma modify3_Ok v i j k f a a' :
  lookup3 v i j k = Some a → f a = Ok a' → ∃ w, modify3 v i j k f = Ok w.
Proof.
  unfold modify3, lookup3. intros H Hf.
  destruct (vlookup v i) as [v1|] eqn:Hv1; [simpl in H|done].
  destruct (vlookup v1 j) as [v2|] eqn:Hv2; [simpl in H|done].
  destruct (vec_modify_Ok v2 k f a a') as (w2 & Hw2 & _); [done..|].
  destruct (vec_modify_Ok v1 j (λ x, vec_modify x k f) v2 w2) as (w1 & Hw1 & _); [done..|].
  destruct (vec_modify_Ok v i (λ x, vec_modify x j (λ y, vec_modify y k f)) v1 w1)
    as (w & Hw & _); eauto.
Qed.

Lemma modify3_dims n1 n2 n3 v i j k f w :
  modify3 v i j k f = Ok w → dims3 n1 n2 n3 v → dims3 n1 n2 n3 w.
Proof.
  intros (a & a' & Ha & _ & H)%modify3_inv Hd i' j' k'.
  rewrite H, <- (Hd i' j' k'). case_decide as He; [|done].
  simplify_eq. rewrite Ha. split; eauto.
Qed.

Lemma dims3_lookup n1 n2 n3 v i j k :
  dims3 n1 n2 n3 v → 0 ≤ i < n1 → 0 ≤ j < n2 → 0 ≤ k < n3 →
  ∃ a, lookup3 v i j k = Some a.
Proof. intros Hd ???. by apply Hd. Qed.

Lemma dims3_replicate n1 n2 n3 (a : A) :
  dims3 n1 n2 n3
    (replicate (Z.to_nat n1) (replicate (Z.to_nat n2) (replicate (Z.to_nat n3) a))).
Proof.
  intros i j k. unfold lookup3. rewrite vlookup_replicate.
  case_decide; simpl; [|split; [by intros [? ?]|lia]].
  rewrite vlookup_replicate. case_decide; simpl; [|split; [by intros [? ?]|lia]].
  rewrite vlookup_replicate.
  case_decide; (split; [|]); [lia|eauto|by intros [? ?]|lia].
Qed.

Lemma lookup3_replicate n1 n2 n3 (a b : A) i j k :
  lookup3 (replicate n1 (replicate n2 (replicate n3 a))) i j k = Some b → b = a.
Proof.
  unfold lookup3. rewrite vlookup_replicate. case_decide; simpl; [|done].
  rewrite vlookup_replicate. case_decide; simpl; [|done].
  rewrite vlookup_replicate. destruct (decide _); [by intros [= ->]|done].
Qed.
End vectors3.

(** A modification that a view does not see. *)
Lemma vec_modify_fmap {A B} (g : A → B) v i f w :
  vec_modify v i f = Ok w → (∀ a a', vlookup v i = Some a → f a = Ok a' → g a' = g a) → g <$> w = g <$> v.
Proof.
  intros (a & a' & Ha & Hf & ->)%vec_modify_run Hg. rewrite list_fmap_insert.
  apply list_insert_id. pose proof Ha as [_ Hl]%vlookup_Some.
  rewrite list_lookup_fmap, Hl. simpl. f_equal. symmetry. by eapply Hg.
Qed.

(** A vector with one entry replaced. *)
Definition replaced {A} (v : list A) (i : Z) (a : A) (w : list A) : Prop :=
  length w = length v ∧ ∀ j, vlookup w j = if decide (j = i) then Some a else vlookup v j.

Lemma replaced_same {A} (v : list A) i a : vlookup v i = Some a → replaced v i a v.
Proof. intros H. split; [done|]. intros j. case_decide; congruence. Qed.

Lemma replaced_trans {A} (v w u : list A) i a b :
  replaced v i a w → replaced w i b u → replaced v i b u.
Proof.
  intros [L1 R1] [L2 R2]. split; [congruence|]. intros j. rewrite R2, R1. by case_decide.
Qed.

Lemma vec_set_replaced {A} (v : list A) i a b :
  vlookup v i = Some a → ∃ w, vec_set v i b = Ok w ∧ replaced v i b w.
Proof.
  intros Ha. destruct (vec_modify_Ok v i (λ _, Ok b) a b Ha eq_refl) as (w & Hw & H1 & H2).
  by exists w.
Qed.

(** A vector of queues with one queue changed. *)
Lemma concat_insert {A} (v : list (list A)) n l l' :
  v !! n = Some l → ∃ rest, concat v ≡ₚ l ++ rest ∧ concat (<[n := l']> v) ≡ₚ l' ++ rest.
Proof.
  intros Hn. exists (concat (take n v) ++ concat (drop (S n) v)).
  pose proof (lookup_lt_Some _ _ _ Hn) as Hlt. split.
  - rewrite <- (take_drop_middle v n l Hn) at 1. rewrite concat_app. cbn [concat].
    apply Permutation_app_swap_app.
  - rewrite insert_take_drop by done. rewrite concat_app. cbn [concat].
    apply Permutation_app_swap_app.
Qed.

(** ** Machine integers

    [uint64_t] values are integers in [0, 2^64) and every operation reduces
    its result with [u64]; [i32] is the conversion of an integer to [int]. *)

Definition two64 : Z := 18446744073709551616.
Definition two32 : Z := 4294967296.
Definition u64 (z : Z) : Z := z mod two64.
Definition u32 (z : Z) : Z := z mod two32.
Definition i32 (z : Z) : Z := (z + 2147483648) mod two32 - 2147483648.

Definition is_u64 (z : Z) : Prop := 0 ≤ z < two64.

Lemma u64_range z : is_u64 (u64 z).
Proof. unfold is_u64, u64. apply Z.mod_pos_bound. done. Qed.

Lemma u64_id z : is_u64 z → u64 z = z.
Proof. apply Z.mod_small. Qed.

Lemma u64_small z : 0 ≤ z < two64 → u64 z = z.
Proof. apply Z.mod_small. Qed.

Lemma i32_range z : -2147483648 ≤ i32 z < 2147483648.
Proof. unfold i32. pose proof (Z.mod_pos_bound (z + 2147483648) two32 eq_refl). unfold two32 in *. lia. Qed.

Lemma i32_small z : -2147483648 ≤ z < 2147483648 → i32 z = z.
Proof. intros H. unfold i32. rewrite Z.mod_small; unfold two32; lia. Qed.

(** ** Vectors with a capacity

    The transaction queues compare [size()] with [capacity()], so the
    capacity is part of the state.  [reserve(n)] on a fresh vector gives
    capacity [n], and throws [std::length_error] for a negative [int], which
    is a huge [size_t]; [push_back] on a full vector doubles the capacity
    (libstdc++). *)

Definition check_reserve (n : Z) : res unit :=
  if decide (0 ≤ n) then Ok tt else Fault UncaughtException.

Record rvec (A : Type) : Type := RVec { rv_data : list A; rv_cap : Z }.
Arguments RVec {A} _ _.
Arguments rv_data {A} _.
Arguments rv_cap {A} _.

Section rvec.
Context {A : Type}.
Implicit Types (v : rvec A).

Definition rv_size v : Z := Z.of_nat (length (rv_data v)).
Definition rv_reserve (n : Z) : rvec A := RVec [] n.
Definition rv_empty : rvec A := RVec [] 0.

Definition rv_push_back v (a : A) : rvec A :=
  RVec (rv_data v ++ [a])
    (if decide (rv_size v < rv_cap v) then rv_cap v else rv_size v + Z.max (rv_size v) 1).

Definition rv_with v (l : list A) : rvec A := RVec l (rv_cap v).

Lemma rv_push_back_data v a : rv_data (rv_push_back v a) = rv_data v ++ [a].
Proof. done. Qed.

Lemma rv_push_back_cap v a : rv_size v < rv_cap v → rv_cap (rv_push_back v a) = rv_cap v.
Proof. intros. unfold rv_push_back; simpl. by rewrite decide_True. Qed.

Lemma rv_push_back_size v a : rv_size (rv_push_back v a) = rv_size v + 1.
Proof. unfold rv_size. rewrite rv_push_back_data, length_app. simpl. lia. Qed.
End rvec.

(** ** Multimaps

    [std::multimap<uint64_t, T>]: the values of one key in insertion order.
    [find] returns the first of them (libstdc++ searches the lower bound) and
    [erase(it)] removes that one. *)

Section multimap.
Context {A : Type}.
Implicit Types (m : gmap Z (list A)) (k : Z) (a : A).

Definition mm_at m k : list A := default [] (m !! k).
Definition mm_count m k : Z := Z.of_nat (length (mm_at m k)).
Definition mm_insert m k a : gmap Z (list A) := <[k := mm_at m k ++ [a]]> m.
Definition mm_find m k : option A := head (mm_at m k).
Definition mm_erase_first m k : gmap Z (list A) := <[k := tail (mm_at m k)]> m.

Lemma mm_at_insert m k a k' :
  mm_at (mm_insert m k a) k' = if decide (k' = k) then mm_at m k ++ [a] else mm_at m k'.
Proof.
  unfold mm_insert, mm_at at 1. case_decide; subst.
  - by rewrite lookup_insert_eq.
  - by rewrite lookup_insert_ne by done.
Qed.

Lemma mm_at_erase m k k' :
  mm_at (mm_erase_first m k) k' = if decide (k' = k) then tail (mm_at m k) else mm_at m k'.
Proof.
  unfold mm_erase_first, mm_at at 1. case_decide; subst.
  - by rewrite lookup_insert_eq.
  - by rewrite lookup_insert_ne by done.
Qed.

Lemma mm_count_pos m k : 0 < mm_count m k ↔ mm_at m k ≠ [].
Proof. unfold mm_count. destruct (mm_at m k); simpl; split; intros; try done; lia. Qed.

Lemma mm_count_zero m k : mm_count m k = 0 ↔ mm_at m k = [].
Proof. unfold mm_count. destruct (mm_at m k); simpl; split; intros; try done; lia. Qed.

Lemma mm_find_Some m k : mm_at m k ≠ [] → ∃ a, mm_find m k = Some a.
Proof. unfold mm_find. destruct (mm_at m k); naive_solver. Qed.
End multimap.

(** Removing the element at position [i] of a vector: [v.erase(v.begin()+i)]. *)
Definition erase_at {A} (i : nat) (l : list A) : list A := take i l ++ drop (S i) l.

Lemma erase_at_perm {A} (l : list A) i a :
  l !! i = Some a → l ≡ₚ a :: erase_at i l.
Proof. intros H. unfold erase_at. rewrite <- (take_drop_middle l i a H) at 1. by rewrite Permutation_middle. Qed.

Lemma erase_at_length {A} (l : list A) i a :
  l !! i = Some a → length l = S (length (erase_at i l)).
Proof. intros H%erase_at_perm%Permutation_length. done. Qed.
