(* ===== verification/Double.v ===== *)
(** * Double: IEEE 754 binary64 arithmetic

    The [double] of the C++ code, as the standard library's specification of
    floating-point numbers at precision 53 and maximal exponent 1024, rounded
    to nearest with ties to even: what the compiler emits for a machine with
    SSE2 and no contraction.  The values are plain data and the operations
    plain functions, so they compute inside the kernel and rest on no axiom.
    Besides the operations, the file holds the conversions between [int] and
    [double] and the facts about them that the thermal solver relies on: an
    integer below 2^53 converts exactly, the comparison of two such doubles is
    the comparison of the integers, and [(int)(d + 0.01)] recovers an index. *)

From Stdlib Require Import SpecFloat.
From S2P Require Import Prelude.
Local Open Scope Z_scope.

Definition double : Type := spec_float.

Definition dadd : double → double → double := SFadd 53 1024.
Definition dsub : double → double → double := SFsub 53 1024.
Definition dmul : double → double → double := SFmul 53 1024.
Definition ddiv : double → double → double := SFdiv 53 1024.
Definition dlt : double → double → bool := SFltb.
Definition dle : double → double → bool := SFleb.

Declare Scope double_scope.
Delimit Scope double_scope with D.
Bind Scope double_scope with double.
Infix "+" := dadd : double_scope.
Infix "-" := dsub : double_scope.
Infix "*" := dmul : double_scope.
Infix "/" := ddiv : double_scope.
Infix "<?" := dlt : double_scope.
Infix "<=?" := dle : double_scope.

(** [static_cast<double>(z)]; the zero is positive. *)
Definition of_Z (z : Z) : double := binary_normalize 53 1024 z 0 false.

(** The literal [m * 10^-k]: the double nearest to the decimal number. *)
Definition dec (m k : positive) : double :=
  SFdiv 53 1024 (S754_finite false m 0) (S754_finite false (10 ^ k)%positive 0).

Definition d0 : double := S754_zero false.

(** The integer part of a finite double. *)
Definition trunc (d : double) : option Z :=
  match d with
  | S754_zero _ => Some 0
  | S754_finite s m e =>
    let v := if decide (0 ≤ e) then Zpos m * 2 ^ e else Zpos m / 2 ^ (- e) in
    Some (if s then - v else v)
  | _ => None
  end.

(** [static_cast<int>(d)], undefined when the integer part is no [int]. *)
Definition int_of_double (d : double) : res Z :=
  match trunc d with
  | Some v => if decide (- 2 ^ 31 ≤ v < 2 ^ 31) then Ok v else Fault UndefinedConversion
  | None => Fault UndefinedConversion
  end.

(** [ceil(d)]; the result of a number in (-1, 0) is the negative zero. *)
Definition dceil (d : double) : double :=
  match d with
  | S754_finite s m e =>
    if decide (0 ≤ e) then d
    else
      let v := if s then Zpos m / 2 ^ (- e) else - ((- Zpos m) / 2 ^ (- e)) in
      if decide (v = 0) then S754_zero s else of_Z (if s then - v else v)
  | _ => d
  end.

(** ** Integers as doubles *)

Lemma digits2_log2 m : Zpos (digits2_pos m) = Z.log2 (Zpos m) + 1.
Proof.
  induction m as [m IH|m IH|]; [..|done]; cbn [digits2_pos]; rewrite Pos2Z.inj_succ, IH.
  - rewrite Pos2Z.inj_xI, Z.log2_succ_double by lia. lia.
  - rewrite Pos2Z.inj_xO, Z.log2_double by lia. lia.
Qed.

Lemma iter_xO m k : Zpos (Pos.iter xO m k) = Zpos m * 2 ^ Zpos k.
Proof.
  induction k as [|k IH] using Pos.peano_ind; [simpl; lia|].
  rewrite Pos.iter_succ, Pos2Z.inj_succ, Z.pow_succ_r by lia.
  rewrite Pos2Z.inj_xO, IH. lia.
Qed.

Lemma fexp_small e : -1021 ≤ e → fexp 53 1024 e = e - 53.
Proof. unfold fexp, emin. lia. Qed.

(** A shift to the right by the rounding drops the low bits of the mantissa. *)
Lemma shr_1_m r : 0 ≤ shr_m r → shr_m (shr_1 r) = shr_m r / 2.
Proof.
  destruct r as [[|[m|m|]|m] ? ?]; simpl; intros H; try done.
  - rewrite Pos2Z.inj_xI. apply (Z.div_unique _ 2 (Zpos m) 1); lia.
  - rewrite Pos2Z.inj_xO. apply (Z.div_unique _ 2 (Zpos m) 0); lia.
Qed.

Lemma shr_iter_m p r :
  0 ≤ shr_m r → shr_m (SpecFloat.iter_pos shr_1 p r) = shr_m r / 2 ^ Zpos p.
Proof.
  revert r; induction p as [p IH|p IH|]; intros r Hr; cbn [SpecFloat.iter_pos].
  - assert (0 ≤ shr_m (shr_1 r)) as H1 by (rewrite shr_1_m by done; apply Z.div_pos; lia).
    rewrite !IH; [|done|rewrite IH by done; apply Z.div_pos; lia].
    rewrite shr_1_m, !Z.div_div by lia. f_equal.
    replace (Zpos p~1) with (1 + Zpos p + Zpos p) by lia. rewrite !Z.pow_add_r by lia. lia.
  - rewrite !IH; [|done|rewrite IH by done; apply Z.div_pos; lia].
    rewrite Z.div_div by lia. f_equal.
    replace (Zpos p~0) with (Zpos p + Zpos p) by lia. rewrite Z.pow_add_r by lia. lia.
  - by rewrite shr_1_m.
Qed.

Lemma shl_align_left m e e' :
  e' ≤ e → shl_align m e e' = (Z.to_pos (Zpos m * 2 ^ (e - e')), e').
Proof.
  intros H. unfold shl_align. destruct (e' - e) as [|p|p] eqn:E; [|lia|].
  - replace (e - e') with 0 by lia. rewrite Z.pow_0_r, Z.mul_1_r. simpl. f_equal. lia.
  - f_equal. apply Pos2Z.inj. rewrite iter_xO, Z2Pos.id; [f_equal; f_equal; lia|].
    apply Z.mul_pos_pos; [lia|]. apply Z.pow_pos_nonneg; lia.
Qed.

Lemma shl_align_none m e e' : e ≤ e' → shl_align m e e' = (m, e).
Proof. intros H. unfold shl_align. by destruct (e' - e) eqn:E; [| |lia]. Qed.

(** Nothing to round: a mantissa of 53 bits and an exponent in range. *)
Lemma shr_fexp_exact m e :
  Z.log2 m = 52 → -1074 ≤ e →
  shr_fexp 53 1024 m e loc_Exact = (Build_shr_record m false false, e).
Proof.
  intros Hm He. unfold shr_fexp. destruct m as [|m|m]; [done| |done].
  cbn [Zdigits2]. rewrite digits2_log2, Hm, fexp_small by lia.
  by replace (52 + 1 + e - 53 - e) with 0 by lia.
Qed.

Lemma round_exact s m e :
  Z.log2 (Zpos m) = 52 → -1074 ≤ e ≤ 971 →
  binary_round_aux 53 1024 s (Zpos m) e loc_Exact = S754_finite s m e.
Proof.
  intros Hm He. unfold binary_round_aux. rewrite shr_fexp_exact by (done || lia).
  cbn [shr_m loc_of_shr_record round_nearest_even]. rewrite shr_fexp_exact by (done || lia).
  cbn [shr_m]. by rewrite (proj2 (Z.leb_le _ _)) by lia.
Qed.

Lemma log2_scaled z k : 0 < z → 0 ≤ k → Z.log2 (z * 2 ^ k) = Z.log2 z + k.
Proof. intros. rewrite <- Z.shiftl_mul_pow2 by done. apply Z.log2_shiftl; lia. Qed.

(** Positive integers below 2^53, with the mantissa scaled to 53 bits. *)
Lemma of_Z_pos z :
  0 < z < 2 ^ 53 →
  of_Z z = S754_finite false (Z.to_pos (z * 2 ^ (52 - Z.log2 z))) (Z.log2 z - 52).
Proof.
  intros Hz. destruct z as [|m|m]; [lia| |lia].
  assert (0 ≤ Z.log2 (Zpos m) ≤ 52) as Hl.
  { split; [apply Z.log2_nonneg|]. apply Z.lt_succ_r, Z.log2_lt_pow2; lia. }
  unfold of_Z, binary_normalize, binary_round.
  rewrite digits2_log2, fexp_small, shl_align_left by lia.
  replace (0 - _) with (52 - Z.log2 (Zpos m)) by lia.
  assert (0 < Zpos m * 2 ^ (52 - Z.log2 (Zpos m))) as Hpos
    by (apply Z.mul_pos_pos; [lia|apply Z.pow_pos_nonneg; lia]).
  rewrite round_exact; [f_equal; lia| |lia].
  rewrite Z2Pos.id by done. rewrite log2_scaled; lia.
Qed.

(** ** Comparison *)

Lemma dlt_of_Z_pos x y : 0 < x < 2 ^ 53 → 0 < y < 2 ^ 53 → dlt (of_Z x) (of_Z y) = (x <? y).
Proof.
  intros Hx Hy. rewrite !of_Z_pos by done. unfold dlt, SFltb, SFcompare.
  assert (∀ z, 0 < z < 2 ^ 53 → 0 ≤ Z.log2 z ≤ 52) as Hl.
  { intros z Hz. split; [apply Z.log2_nonneg|]. apply Z.lt_succ_r, Z.log2_lt_pow2; lia. }
  specialize (Hl x Hx) as Hlx. specialize (Hl y Hy) as Hly.
  destruct (Z.compare_spec (Z.log2 x - 52) (Z.log2 y - 52)) as [E|E|E].
  - change (Pos.compare_cont Eq ?a ?b) with (Pos.compare a b).
    replace (Z.log2 y) with (Z.log2 x) by lia.
    set (k := 2 ^ (52 - Z.log2 x)). assert (0 < k) by (apply Z.pow_pos_nonneg; lia).
    rewrite Pos2Z.inj_compare, !Z2Pos.id by nia.
    rewrite <- (Zmult_compare_compat_r x y k) by lia. unfold Z.ltb. by destruct (x ?= y).
  - symmetry. apply Z.ltb_lt, Z.log2_lt_cancel. lia.
  - symmetry. apply Z.ltb_ge, Z.lt_le_incl, Z.log2_lt_cancel. lia.
Qed.

(** The comparison of two integers below 2^53 as doubles is that of the integers. *)
Lemma dlt_of_Z x y : 0 ≤ x < 2 ^ 53 → 0 ≤ y < 2 ^ 53 → dlt (of_Z x) (of_Z y) = (x <? y).
Proof.
  intros Hx Hy.
  destruct (decide (x = 0)) as [->|], (decide (y = 0)) as [->|]; [done|..].
  - rewrite (of_Z_pos y) by lia. symmetry. apply Z.ltb_lt. lia.
  - rewrite (of_Z_pos x) by lia. symmetry. apply Z.ltb_ge. lia.
  - apply dlt_of_Z_pos; lia.
Qed.

(** ** Indices kept as doubles *)

Lemma shr_fexp_drop m e n :
  0 < m → 0 < n → Z.log2 m = 52 + n → -1074 ≤ e →
  ∃ r s, shr_fexp 53 1024 m e loc_Exact = (Build_shr_record (m / 2 ^ n) r s, e + n).
Proof.
  intros Hm Hn Hl He. unfold shr_fexp. destruct m as [|m|m]; [done| |done].
  cbn [Zdigits2]. rewrite digits2_log2, Hl, fexp_small by lia.
  replace (52 + n + 1 + e - 53 - e) with n by lia. destruct n as [|n|n]; [lia| |lia].
  cbn [shr shr_record_of_loc].
  destruct (SpecFloat.iter_pos shr_1 n (Build_shr_record (Zpos m) false false)) as [q r s] eqn:E.
  exists r, s. f_equal. f_equal.
  change q with (shr_m (Build_shr_record q r s)). by rewrite <- E, shr_iter_m by done.
Qed.

(** Rounding a mantissa of more than 53 bits gives one of its neighbours. *)
Lemma round_neighbour m e n :
  0 < n → Z.log2 (Zpos m) = 52 + n → -1074 ≤ e → e + n ≤ 971 →
  Zpos m / 2 ^ n + 1 < 2 ^ 53 →
  ∃ q, binary_round_aux 53 1024 false (Zpos m) e loc_Exact = S754_finite false q (e + n) ∧
    Zpos m / 2 ^ n ≤ Zpos q ≤ Zpos m / 2 ^ n + 1.
Proof.
  intros Hn Hl He Hmax Hq. unfold binary_round_aux.
  destruct (shr_fexp_drop (Zpos m) e n) as (r & s & ->); [lia..|]. cbn [shr_m loc_of_shr_record].
  set (q := Zpos m / 2 ^ n) in *.
  assert (Z.log2 q = 52) as Hlq.
  { unfold q. rewrite <- Z.shiftr_div_pow2, Z.log2_shiftr by lia. lia. }
  set (v := round_nearest_even _ _).
  assert (q ≤ v ≤ q + 1) as Hv.
  { unfold v. destruct r, s; simpl; try lia. by destruct (Z.even q); lia. }
  assert (Z.log2 v = 52) as Hlv.
  { apply Z.log2_unique; [lia|]. split.
    - transitivity q; [|lia]. rewrite <- Hlq. apply Z.log2_spec.
      destruct (decide (q ≤ 0)) as [Hq0|]; [|lia]. rewrite Z.log2_nonpos in Hlq; lia.
    - change (Z.succ 52) with 53. lia. }
  rewrite shr_fexp_exact by (done || lia). cbn [shr_m].
  destruct v as [|v|v]; [done| |done]. exists v. split; [|done].
  by rewrite (proj2 (Z.leb_le _ _)) by lia.
Qed.

Definition hundredth : double := dec 1 2.

Lemma hundredth_value : hundredth = S754_finite false 5764607523034235 (-59).
Proof. by vm_compute. Qed.

(** [z + 0.01] before rounding, as a mantissa for the exponent of the sum, and
    the mantissa that the rounding leaves of it. *)
Lemma index_mantissa z (l := Z.log2 z) (p := 2 ^ (52 - l)) (r := 2 ^ (l + 7))
    (m := z * 2 ^ 59 + 5764607523034235) :
  0 < z < 2 ^ 31 →
  Z.log2 m = l + 59 ∧ z * p ≤ m / r ∧ m / r + 1 < (z + 1) * p ∧ (z + 1) * p ≤ 2 ^ 53.
Proof.
  intros Hz.
  assert (0 ≤ l ≤ 30) as Hl.
  { split; [apply Z.log2_nonneg|]. apply Z.lt_succ_r, Z.log2_lt_pow2; lia. }
  assert (2 ^ l ≤ z < 2 ^ (l + 1)) as Hzl by (apply Z.log2_spec; lia).
  assert (p * r = 2 ^ 59) as Hpr by (unfold p, r; rewrite <- Z.pow_add_r by lia; f_equal; lia).
  assert (0 < p) by (apply Z.pow_pos_nonneg; lia).
  assert (0 < r ≤ 2 ^ 37) as Hr.
  { split; [apply Z.pow_pos_nonneg; lia|]. apply Z.pow_le_mono_r; lia. }
  assert (m / r = z * p + 5764607523034235 / r) as ->.
  { unfold m. rewrite <- Hpr, Z.mul_assoc. apply Z.div_add_l. lia. }
  assert (0 ≤ 5764607523034235 / r < p - 1) as Hc.
  { split; [apply Z.div_pos; lia|]. apply Z.div_lt_upper_bound; [lia|]. nia. }
  split_and!; [|lia..|].
  - apply Z.log2_unique; [lia|]. unfold m.
    replace (Z.succ (l + 59)) with (l + 1 + 59) by lia. rewrite !Z.pow_add_r by lia.
    rewrite Z.pow_add_r in Hzl by lia. lia.
  - replace (2 ^ 53) with (2 ^ (l + 1) * p); [apply Z.mul_le_mono_nonneg_r; lia|].
    unfold p. rewrite <- Z.pow_add_r by lia. f_equal. lia.
Qed.

(** [(int)(z + 0.01)] is [z] for every index: the solver keeps the row and
    the column of a matrix entry in doubles and reads them back this way. *)
Lemma index_of_double z : 0 ≤ z < 2 ^ 31 → int_of_double (of_Z z + hundredth)%D = Ok z.
Proof.
  intros Hz. destruct (decide (z = 0)) as [->|Hz0]; [by vm_compute|].
  destruct (index_mantissa z) as (Hlog & Hlo & Hhi & Hmax); [lia|].
  assert (0 ≤ Z.log2 z ≤ 30) as Hl.
  { split; [apply Z.log2_nonneg|]. apply Z.lt_succ_r, Z.log2_lt_pow2; lia. }
  rewrite hundredth_value, of_Z_pos by lia. set (l := Z.log2 z) in *.
  set (p := 2 ^ (52 - l)) in *. assert (0 < p) by (apply Z.pow_pos_nonneg; lia).
  unfold dadd, SFadd. replace (Z.min (l - 52) (-59)) with (-59) by lia.
  rewrite shl_align_left, (shl_align_none _ (-59)) by lia. cbn [fst cond_Zopp].
  rewrite !Z2Pos.id by (rewrite ?Z2Pos.id; repeat apply Z.mul_pos_pos;
    (lia || apply Z.pow_pos_nonneg; lia)).
  replace (z * p * 2 ^ (l - 52 - -59)) with (z * 2 ^ 59).
  2: { unfold p. rewrite <- Z.mul_assoc, <- Z.pow_add_r by lia. do 2 f_equal. lia. }
  destruct (z * 2 ^ 59 + 5764607523034235) as [|m|m] eqn:Em; [lia| |lia].
  unfold binary_normalize, binary_round.
  rewrite digits2_log2, Hlog, fexp_small, shl_align_none by lia.
  destruct (round_neighbour m (-59) (l + 7)) as (q & -> & Hq); [lia..|].
  unfold int_of_double, trunc. rewrite (decide_False (P:=0 ≤ -59 + (l + 7))) by lia.
  replace (- (-59 + (l + 7))) with (52 - l) by lia. fold p.
  assert (Zpos q / p = z) as ->.
  { symmetry. apply (Z.div_unique_pos _ p z (Zpos q - z * p)); lia. }
  by rewrite decide_True by lia.
Qed.
