(* ===== verification/Common.v ===== *)
(** * Common: the shared data of the simulator (src/src/common.h, common.cc)

    Addresses, command types, commands and transactions, and the bit and
    string helpers.  [LogBase2] is a loop in the code; it is run here with
    fuel 32, which [LogBase2_log2] shows is enough for every [int]. *)

From S2P Require Import Prelude.
Local Open Scope Z_scope.

(** ** Data *)

Record Address : Type := MkAddress {
  channel : Z; rank : Z; bankgroup : Z; bank : Z; row : Z; column : Z }.

#[export] Instance Address_eta : RecordEta Address := λ a,
  MkAddress (channel a) (rank a) (bankgroup a) (bank a) (row a) (column a).

#[export] Instance Address_eq_dec : EqDecision Address.
Proof. solve_decision. Defined.

(** The default constructor [Address()]. *)
Definition Address_default : Address := MkAddress (-1) (-1) (-1) (-1) (-1) (-1).

Inductive CommandType : Type :=
  | READ | READ_PRECHARGE | WRITE | WRITE_PRECHARGE | ACTIVATE | PRECHARGE
  | REFRESH_BANK | REFRESH | SREF_ENTER | SREF_EXIT | SIZE.

#[export] Instance CommandType_eq_dec : EqDecision CommandType.
Proof. solve_decision. Defined.

(** [static_cast<int>(CommandType::X)] *)
Definition CommandType_int (t : CommandType) : Z :=
  match t with
  | READ => 0 | READ_PRECHARGE => 1 | WRITE => 2 | WRITE_PRECHARGE => 3
  | ACTIVATE => 4 | PRECHARGE => 5 | REFRESH_BANK => 6 | REFRESH => 7
  | SREF_ENTER => 8 | SREF_EXIT => 9 | SIZE => 10
  end.

Record Command : Type := MkCommand {
  cmd_type : CommandType; addr : Address; hex_addr : Z }.

#[export] Instance Command_eta : RecordEta Command := λ c,
  MkCommand (cmd_type c) (addr c) (hex_addr c).

#[export] Instance Command_eq_dec : EqDecision Command.
Proof. solve_decision. Defined.

(** [Command()], the invalid command. *)
Definition Command_default : Command := MkCommand SIZE Address_default 0.

Definition IsValid (c : Command) : bool := bool_decide (cmd_type c ≠ SIZE).

Definition IsRefresh (c : Command) : bool :=
  bool_decide (cmd_type c = REFRESH) || bool_decide (cmd_type c = REFRESH_BANK).

Definition IsRead (c : Command) : bool :=
  bool_decide (cmd_type c = READ) || bool_decide (cmd_type c = READ_PRECHARGE).

Definition IsWrite (c : Command) : bool :=
  bool_decide (cmd_type c = WRITE) || bool_decide (cmd_type c = WRITE_PRECHARGE).

Definition IsReadWrite (c : Command) : bool := IsRead c || IsWrite c.

Definition IsRankCMD (c : Command) : bool :=
  bool_decide (cmd_type c = REFRESH) || bool_decide (cmd_type c = SREF_ENTER)
  || bool_decide (cmd_type c = SREF_EXIT).

Definition Channel (c : Command) : Z := channel (addr c).
Definition Rank (c : Command) : Z := rank (addr c).
Definition Bankgroup (c : Command) : Z := bankgroup (addr c).
Definition Bank (c : Command) : Z := bank (addr c).
Definition Row (c : Command) : Z := row (addr c).
Definition Column (c : Command) : Z := column (addr c).

Record Transaction : Type := MkTransaction {
  t_addr : Z; added_cycle : Z; complete_cycle : Z; is_write : bool }.

#[export] Instance Transaction_eta : RecordEta Transaction := λ t,
  MkTransaction (t_addr t) (added_cycle t) (complete_cycle t) (is_write t).

#[export] Instance Transaction_eq_dec : EqDecision Transaction.
Proof. solve_decision. Defined.

(** [Transaction(uint64_t addr, bool is_write)] *)
Definition Transaction_new (a : Z) (w : bool) : Transaction := MkTransaction a 0 0 w.

(** ** Helpers *)

Definition ModuloWidth (a bit_width pos : Z) : Z :=
  let a1 := Z.shiftr a pos in
  let store := a1 in
  let a2 := Z.shiftr a1 bit_width in
  let a3 := u64 (Z.shiftl a2 bit_width) in
  u32 (Z.lxor store a3).

Definition GetBitInPos (bits pos : Z) : Z := Z.land (Z.shiftr bits pos) 1.

Fixpoint LogBase2_loop (fuel : nat) (power_of_two i : Z) : res Z :=
  match fuel with
  | O => Fault NoFuel
  | S fuel' =>
    if decide (1 < power_of_two)
    then LogBase2_loop fuel' (Z.quot power_of_two 2) (i + 1)
    else Ok i
  end.

Definition LogBase2 (power_of_two : Z) : res Z := LogBase2_loop 32 power_of_two 0.

(** [StringSplit]: successive [std::getline] up to [delim], empty items
    dropped.  [item] is the item read so far. *)
Definition keep_item (item : string) : list string :=
  if decide (item = ""%string) then [] else [item].

Fixpoint StringSplit_loop (s : string) (delim : Ascii.ascii) (item : string) : list string :=
  match s with
  | EmptyString => keep_item item
  | String c s' =>
    if decide (c = delim) then keep_item item ++ StringSplit_loop s' delim ""
    else StringSplit_loop s' delim (item +:+ String c "")
  end.

Definition StringSplit (s : string) (delim : Ascii.ascii) : list string :=
  StringSplit_loop s delim "".

(** ** Lemmas *)

Lemma IsValid_true c : IsValid c = true ↔ cmd_type c ≠ SIZE.
Proof. apply bool_decide_eq_true. Qed.

Lemma Command_default_invalid : IsValid Command_default = false.
Proof. reflexivity. Qed.

Lemma CommandType_int_range t : t ≠ SIZE → 0 ≤ CommandType_int t < 10.
Proof. destruct t; simpl; (done || lia). Qed.

Lemma CommandType_int_inj t t' : CommandType_int t = CommandType_int t' → t = t'.
Proof. destruct t, t'; simpl; (done || lia). Qed.

(** Case analysis on the kind of a command, resolving the class predicates. *)
Ltac by_type c :=
  let t := fresh "ty" in let a := fresh "ad" in let h := fresh "hx" in
  destruct c as [t a h]; destruct t;
  unfold IsValid, IsRefresh, IsRead, IsWrite, IsReadWrite, IsRankCMD in *; simpl in *.

Lemma IsReadWrite_not_rank c : IsReadWrite c = true → IsRankCMD c = false.
Proof. by by_type c. Qed.

Lemma IsReadWrite_valid c : IsReadWrite c = true → IsValid c = true.
Proof. by by_type c. Qed.

Lemma IsReadWrite_cases c :
  IsReadWrite c = true →
  cmd_type c = READ ∨ cmd_type c = READ_PRECHARGE ∨ cmd_type c = WRITE ∨
  cmd_type c = WRITE_PRECHARGE.
Proof. by_type c; intros; try done; auto. Qed.

Lemma LogBase2_loop_correct fuel p i :
  p < 2 ^ Z.of_nat fuel → (0 < fuel)%nat → LogBase2_loop fuel p i = Ok (i + Z.log2 p).
Proof.
  revert p i; induction fuel as [|fuel IH]; intros p i Hp Hf; [lia|]. simpl.
  case_decide as H1.
  - destruct fuel as [|fuel]; [simpl in Hp; lia|].
    rewrite IH; [|rewrite Nat2Z.inj_succ, Z.pow_succ_r in Hp by lia;
      apply Z.quot_lt_upper_bound; lia|lia].
    f_equal. rewrite Z.quot_div_nonneg by lia.
    change 2 with (2 ^ 1) at 1. rewrite <- Z.shiftr_div_pow2 by lia.
    rewrite Z.log2_shiftr by lia.
    assert (1 ≤ Z.log2 p) by (apply Z.log2_le_pow2; lia). lia.
  - f_equal. assert (Z.log2 p = 0) as ->; [|lia].
    destruct (decide (p ≤ 0)); [by apply Z.log2_nonpos|]. by replace p with 1 by lia.
Qed.

Lemma LogBase2_loop_inv fuel p i v : LogBase2_loop fuel p i = Ok v → v = i + Z.log2 p.
Proof.
  revert p i; induction fuel as [|fuel IH]; intros p i H; simpl in H; [done|].
  destruct (decide (1 < p)) as [H1|H1].
  - apply IH in H as ->. rewrite Z.quot_div_nonneg by lia.
    change 2 with (2 ^ 1) at 1. rewrite <- Z.shiftr_div_pow2 by lia.
    rewrite Z.log2_shiftr by lia.
    assert (1 ≤ Z.log2 p) by (apply Z.log2_le_pow2; lia). lia.
  - simplify_res. assert (Z.log2 p = 0) as ->; [|lia].
    destruct (decide (p ≤ 0)); [by apply Z.log2_nonpos|]. by replace p with 1 by lia.
Qed.

Lemma LogBase2_Ok p v : LogBase2 p = Ok v → v = Z.log2 p.
Proof. intros H. apply LogBase2_loop_inv in H. lia. Qed.

Lemma LogBase2_log2 p : p < 2 ^ 32 → LogBase2 p = Ok (Z.log2 p).
Proof. intros. unfold LogBase2. rewrite LogBase2_loop_correct; [done|done|lia]. Qed.

(** The field of [w] bits at position [p]. *)
Lemma land_ones_mod x w : 0 ≤ w → Z.land x (2 ^ w - 1) = x mod 2 ^ w.
Proof. intros. rewrite <- Z.land_ones by done. f_equal. rewrite Z.ones_equiv. lia. Qed.
