(* ===== verification/Configuration.v ===== *)
(** * Configuration (src/src/configuration.h, configuration.cc)

    The parameters of a run, how they are initialised from an INI file, and
    the decoding of a physical address into channel, rank, bank group, bank,
    row and column.  The INI reader is third-party code and is a parameter:
    a record of its lookup functions.  Members of [Config] that C++ leaves
    indeterminate before their initialisation start at zero here; every
    initialisation step writes them before any step reads them.  The members
    that are floating-point are in records of their own: the power parameters
    in Energy.v, the thermal ones in Thermal.v; and so are the names of the
    output files ([OutputNames]). *)

From S2P Require Import Prelude Common.
Local Open Scope Z_scope.

Inductive DRAMProtocol : Type :=
  | DDR3 | DDR4 | GDDR5 | GDDR5X | GDDR6 | LPDDR | LPDDR3 | LPDDR4 | HBM | HBM2 | HMC
  | DRAMProtocol_SIZE.

#[export] Instance DRAMProtocol_eq_dec : EqDecision DRAMProtocol.
Proof. solve_decision. Defined.

Inductive RefreshPolicy : Type :=
  | RANK_LEVEL_SIMULTANEOUS | RANK_LEVEL_STAGGERED | BANK_LEVEL_STAGGERED
  | RefreshPolicy_SIZE.

#[export] Instance RefreshPolicy_eq_dec : EqDecision RefreshPolicy.
Proof. solve_decision. Defined.

Record Config : Type := MkConfig {
  protocol : DRAMProtocol;
  channel_size : Z; channels : Z; ranks : Z; banks : Z; bankgroups : Z;
  banks_per_group : Z; rows : Z; columns : Z; device_width : Z; bus_width : Z;
  devices_per_rank : Z; BL : Z;
  shift_bits : Z;
  ch_pos : Z; ra_pos : Z; bg_pos : Z; ba_pos : Z; ro_pos : Z; co_pos : Z;
  ch_mask : Z; ra_mask : Z; bg_mask : Z; ba_mask : Z; ro_mask : Z; co_mask : Z;
  burst_cycle : Z; AL : Z; CL : Z; CWL : Z; RL : Z; WL : Z;
  tCCD_L : Z; tCCD_S : Z; tRTRS : Z; tRTP : Z; tWTR_L : Z; tWTR_S : Z; tWR : Z;
  tRP : Z; tRRD_L : Z; tRRD_S : Z; tRAS : Z; tRCD : Z; tRFC : Z; tRC : Z;
  tCKE : Z; tCKESR : Z; tXS : Z; tXP : Z; tRFCb : Z; tREFI : Z; tREFIb : Z;
  tFAW : Z; tRPRE : Z; tWPRE : Z; read_delay : Z; write_delay : Z;
  tPPD : Z; t32AW : Z; tRCDRD : Z; tRCDWR : Z;
  num_links : Z; num_dies : Z; link_width : Z; link_speed : Z; block_size : Z;
  xbar_queue_depth : Z;
  address_mapping : string; queue_structure : string; row_buf_policy : string;
  refresh_policy : RefreshPolicy;
  cmd_queue_size : Z; unified_queue : bool; trans_queue_size : Z; write_buf_size : Z;
  enable_self_refresh : bool; sref_threshold : Z;
  aggressive_precharging_enabled : bool; enable_hbm_dual_cmd : bool;
  epoch_period : Z; output_level : Z;
  request_size_bytes : Z;
  ideal_memory_latency : Z }.

#[export] Instance Config_eta : RecordEta Config := λ c, MkConfig
  (protocol c) (channel_size c) (channels c) (ranks c) (banks c) (bankgroups c)
  (banks_per_group c) (rows c) (columns c) (device_width c) (bus_width c)
  (devices_per_rank c) (BL c) (shift_bits c)
  (ch_pos c) (ra_pos c) (bg_pos c) (ba_pos c) (ro_pos c) (co_pos c)
  (ch_mask c) (ra_mask c) (bg_mask c) (ba_mask c) (ro_mask c) (co_mask c)
  (burst_cycle c) (AL c) (CL c) (CWL c) (RL c) (WL c)
  (tCCD_L c) (tCCD_S c) (tRTRS c) (tRTP c) (tWTR_L c) (tWTR_S c) (tWR c)
  (tRP c) (tRRD_L c) (tRRD_S c) (tRAS c) (tRCD c) (tRFC c) (tRC c)
  (tCKE c) (tCKESR c) (tXS c) (tXP c) (tRFCb c) (tREFI c) (tREFIb c)
  (tFAW c) (tRPRE c) (tWPRE c) (read_delay c) (write_delay c)
  (tPPD c) (t32AW c) (tRCDRD c) (tRCDWR c)
  (num_links c) (num_dies c) (link_width c) (link_speed c) (block_size c)
  (xbar_queue_depth c)
  (address_mapping c) (queue_structure c) (row_buf_policy c) (refresh_policy c)
  (cmd_queue_size c) (unified_queue c) (trans_queue_size c) (write_buf_size c)
  (enable_self_refresh c) (sref_threshold c)
  (aggressive_precharging_enabled c) (enable_hbm_dual_cmd c)
  (epoch_period c) (output_level c) (request_size_bytes c) (ideal_memory_latency c).

Definition Config_uninit : Config := MkConfig
  DDR3 0 0 0 0 0 0 0 0 0 0 0 0 0 0 0 0 0 0 0 0 0 0 0 0 0
  0 0 0 0 0 0 0 0 0 0 0 0 0 0 0 0 0 0 0 0 0 0 0 0 0 0 0 0 0 0 0 0 0 0 0 0
  0 0 0 0 0 0 "" "" "" RANK_LEVEL_STAGGERED 0 false 0 0 false 0 false false 0 0 0 0.

Definition IsGDDR (c : Config) : bool :=
  bool_decide (protocol c = GDDR5) || bool_decide (protocol c = GDDR5X)
  || bool_decide (protocol c = GDDR6).
Definition IsHBM (c : Config) : bool :=
  bool_decide (protocol c = HBM) || bool_decide (protocol c = HBM2).
Definition IsHMC (c : Config) : bool := bool_decide (protocol c = HMC).
Definition IsDDR4 (c : Config) : bool := bool_decide (protocol c = DDR4).

(** ** The INI reader: section, option, default *)

Record INIReader : Type := MkINIReader {
  Get : string → string → string → string;
  reader_GetInteger : string → string → Z → Z;
  GetBoolean : string → string → bool → bool }.

(** [GetInteger]: the reader's [long] cast to [int]. *)
Definition GetInteger (reader : INIReader) (sec opt : string) (default_val : Z) : Z :=
  i32 (reader_GetInteger reader sec opt default_val).

(** C++ integer division. *)
Definition int_div (a b : Z) : res Z :=
  if decide (b = 0) then Fault DivideByZero else Ok (Z.quot a b).

(** ** Initialisation, in the order of the constructor *)

Definition ref_policy_of (s : string) : res RefreshPolicy :=
  if decide (s = "RANK_LEVEL_SIMULTANEOUS"%string) then Ok RANK_LEVEL_SIMULTANEOUS
  else if decide (s = "RANK_LEVEL_STAGGERED"%string) then Ok RANK_LEVEL_STAGGERED
  else if decide (s = "BANK_LEVEL_STAGGERED"%string) then Ok BANK_LEVEL_STAGGERED
  else Fault (AbruptExit "configuration.cc" 250).

Definition InitSystemParams (reader : INIReader) (c : Config) : res Config :=
  let gi := GetInteger reader "system" in
  let c := c
    <| channel_size := gi "channel_size" 1024 |>
    <| channels := gi "channels" 1 |>
    <| bus_width := gi "bus_width" 64 |>
    <| address_mapping := Get reader "system" "address_mapping" "chrobabgraco" |>
    <| queue_structure := Get reader "system" "queue_structure" "PER_BANK" |>
    <| row_buf_policy := Get reader "system" "row_buf_policy" "OPEN_PAGE" |>
    <| cmd_queue_size := gi "cmd_queue_size" 16 |>
    <| trans_queue_size := gi "trans_queue_size" 32 |>
    <| unified_queue := GetBoolean reader "system" "unified_queue" false |>
    <| write_buf_size := gi "write_buf_size" 16 |> in
  policy ← ref_policy_of (Get reader "system" "refresh_policy" "RANK_LEVEL_STAGGERED");
  Ok (c
    <| refresh_policy := policy |>
    <| enable_self_refresh := GetBoolean reader "system" "enable_self_refresh" false |>
    <| sref_threshold := gi "sref_threshold" 1000 |>
    <| aggressive_precharging_enabled :=
         GetBoolean reader "system" "aggressive_precharging_enabled" false |>).

Definition protocol_pairs : list (string * DRAMProtocol) :=
  [("DDR3", DDR3); ("DDR4", DDR4); ("GDDR5", GDDR5); ("GDDR5X", GDDR5X); ("GDDR6", GDDR6);
   ("LPDDR", LPDDR); ("LPDDR3", LPDDR3); ("LPDDR4", LPDDR4); ("HBM", HBM);
   ("HBM2", HBM2); ("HMC", HMC)]%string.

Definition GetDRAMProtocol (protocol_str : string) : res DRAMProtocol :=
  of_option (AbruptExit "configuration.cc" 88)
    ((list_to_map protocol_pairs : gmap string DRAMProtocol) !! protocol_str).

(** The burst length in cycles by protocol; [BL = 0] simulates perfect
    bandwidth. *)
Definition set_burst_cycle (c : Config) : Config :=
  let bl := BL c in
  let with_bl d b0 := c <| burst_cycle := if decide (bl = 0) then 0 else Z.quot bl d |>
                        <| BL := if decide (bl = 0) then b0 else bl |> in
  match protocol c with
  | GDDR5 => with_bl 4 8
  | GDDR5X => with_bl 8 8
  | GDDR6 => with_bl 16 8
  | _ => with_bl 2 (if IsHBM c then 4 else 8)
  end.

Definition InitDRAMParams (reader : INIReader) (c : Config) : res Config :=
  let gi := GetInteger reader "dram_structure" in
  p ← GetDRAMProtocol (Get reader "dram_structure" "protocol" "DDR3");
  let c := c <| protocol := p |>
             <| bankgroups := gi "bankgroups" 2 |>
             <| banks_per_group := gi "banks_per_group" 2 |> in
  let bankgroup_enable := GetBoolean reader "dram_structure" "bankgroup_enable" true in
  let c := if bankgroup_enable then c
           else c <| banks_per_group ::= λ n, n * bankgroups c |> <| bankgroups := 1 |> in
  let c := c <| banks := bankgroups c * banks_per_group c |>
             <| rows := gi "rows" 65536 |>
             <| columns := gi "columns" 1024 |>
             <| device_width := gi "device_width" 8 |>
             <| BL := gi "BL" 8 |>
             <| num_dies := gi "num_dies" 1 |>
             <| enable_hbm_dual_cmd :=
                  GetBoolean reader "dram_structure" "hbm_dual_cmd" true && IsHBM c |>
             <| num_links := GetInteger reader "hmc" "num_links" 4 |>
             <| link_width := GetInteger reader "hmc" "link_width" 16 |>
             <| link_speed := GetInteger reader "hmc" "link_speed" 15000 |>
             <| block_size := GetInteger reader "hmc" "block_size" 64 |>
             <| xbar_queue_depth := GetInteger reader "hmc" "xbar_queue_depth" 16 |> in
  c ← (if IsHMC c
       then bl ← int_div (block_size c * 8) (device_width c); Ok (c <| BL := bl |>)
       else Ok c);
  let c := set_burst_cycle c in
  Ok (if IsGDDR c then c <| columns ::= λ n, n * BL c |>
      else if IsHBM c then c <| columns ::= λ n, n * 2 |> else c).

Definition CalculateSize (c : Config) : res Config :=
  dpr ← int_div (bus_width c) (device_width c);
  let c := c <| devices_per_rank := dpr |> in
  let page_size := Z.quot (columns c * device_width c) 8 in
  let megs_per_bank := Z.quot (page_size * Z.quot (rows c) 1024) 1024 in
  let megs_per_rank := megs_per_bank * banks c * devices_per_rank c in
  if decide (channel_size c < megs_per_rank)
  then Ok (c <| ranks := 1 |> <| channel_size := megs_per_rank |>)
  else r ← int_div (channel_size c) megs_per_rank;
       Ok (c <| ranks := r |> <| channel_size := r * megs_per_rank |>).

(** [SetAddressMapping]: the six two-character fields of [address_mapping],
    most significant first, are laid out from bit 0 upwards. *)

Definition address_fields (s : string) : list string :=
  (λ i, String.substring i 2 s) <$> [0; 2; 4; 6; 8; 10]%nat.

Definition place_field (widths : gmap string Z) (token : string)
    (st : gmap string Z * Z) : res (gmap string Z * Z) :=
  let '(field_pos, pos) := st in
  w ← of_option (AbruptExit "configuration.cc" 401) (widths !! token);
  Ok (<[token := pos]> field_pos, pos + w).

(** [map::at], which throws [std::out_of_range] when the key is missing. *)
Definition map_at (m : gmap string Z) (k : string) : res Z :=
  of_option UncaughtException (m !! k).

(** [(1 << w) - 1] on [int]. *)
Definition mask_of_width (w : Z) : res Z :=
  if decide (0 ≤ w < 31) then Ok (Z.shiftl 1 w - 1) else Fault UndefinedShift.

Definition field_widths_of (ch ra bg ba ro co : Z) : gmap string Z :=
  <["co":=co]> (<["ro":=ro]> (<["ba":=ba]> (<["bg":=bg]> (<["ra":=ra]> (<["ch":=ch]> ∅)))))%string.

Definition SetAddressMapping (c : Config) : res Config :=
  let rsb := Z.quot (bus_width c) 8 * BL c in
  sb ← LogBase2 rsb;
  col_low_bits ← LogBase2 (BL c);
  col_bits ← LogBase2 (columns c);
  let actual_col_bits := col_bits - col_low_bits in
  chw ← LogBase2 (channels c); raw ← LogBase2 (ranks c);
  bgw ← LogBase2 (bankgroups c); baw ← LogBase2 (banks_per_group c);
  row ← LogBase2 (rows c);
  let field_widths := field_widths_of chw raw bgw baw row actual_col_bits in
  if decide (String.length (address_mapping c) ≠ 12%nat)
  then Fault (AbruptExit "configuration.cc" 381)
  else
    '(field_pos, _) ← foldM (place_field field_widths)
                        (rev (address_fields (address_mapping c))) (∅, 0);
    chp ← map_at field_pos "ch"; rap ← map_at field_pos "ra";
    bgp ← map_at field_pos "bg"; bap ← map_at field_pos "ba";
    rop ← map_at field_pos "ro"; cop ← map_at field_pos "co";
    chm ← mask_of_width chw; ram ← mask_of_width raw; bgm ← mask_of_width bgw;
    bam ← mask_of_width baw; rom ← mask_of_width row; com ← mask_of_width actual_col_bits;
    Ok (c <| request_size_bytes := rsb |> <| shift_bits := sb |>
          <| ch_pos := chp |> <| ra_pos := rap |> <| bg_pos := bgp |>
          <| ba_pos := bap |> <| ro_pos := rop |> <| co_pos := cop |>
          <| ch_mask := chm |> <| ra_mask := ram |> <| bg_mask := bgm |>
          <| ba_mask := bam |> <| ro_mask := rom |> <| co_mask := com |>).

Definition InitTimingParams (reader : INIReader) (c : Config) : Config :=
  let gi := GetInteger reader "timing" in
  let c := c
    <| AL := gi "AL" 0 |> <| CL := gi "CL" 12 |> <| CWL := gi "CWL" 12 |>
    <| tCCD_L := gi "tCCD_L" 6 |> <| tCCD_S := gi "tCCD_S" 4 |>
    <| tRTRS := gi "tRTRS" 2 |> <| tRTP := gi "tRTP" 5 |>
    <| tWTR_L := gi "tWTR_L" 5 |> <| tWTR_S := gi "tWTR_S" 5 |>
    <| tWR := gi "tWR" 10 |> <| tRP := gi "tRP" 10 |>
    <| tRRD_L := gi "tRRD_L" 4 |> <| tRRD_S := gi "tRRD_S" 4 |>
    <| tRAS := gi "tRAS" 24 |> <| tRCD := gi "tRCD" 10 |> <| tRFC := gi "tRFC" 74 |> in
  let c := c <| tRC := tRAS c + tRP c |>
    <| tCKE := gi "tCKE" 6 |> <| tCKESR := gi "tCKESR" 12 |>
    <| tXS := gi "tXS" 432 |> <| tXP := gi "tXP" 8 |>
    <| tRFCb := gi "tRFCb" 20 |> <| tREFI := gi "tREFI" 7800 |>
    <| tREFIb := gi "tREFIb" 1950 |> <| tFAW := gi "tFAW" 50 |>
    <| tRPRE := gi "tRPRE" 1 |> <| tWPRE := gi "tWPRE" 1 |>
    <| tPPD := gi "tPPD" 0 |> <| t32AW := gi "t32AW" 330 |>
    <| tRCDRD := gi "tRCDRD" 24 |> <| tRCDWR := gi "tRCDWR" 20 |>
    <| ideal_memory_latency := gi "ideal_memory_latency" 10 |> in
  let c := c <| RL := AL c + CL c |> <| WL := AL c + CWL c |> in
  c <| read_delay := RL c + burst_cycle c |> <| write_delay := WL c + burst_cycle c |>.

Definition InitOtherParams (reader : INIReader) (c : Config) : Config :=
  c <| epoch_period := GetInteger reader "other" "epoch_period" 100000 |>
    <| output_level := i32 (reader_GetInteger reader "other" "output_level" 1) |>.

(** The names of the output files.  Whether a directory exists ([stat]) is up to
    the file system. *)
Record OutputNames : Type := MkOutputNames {
  output_dir : string; output_prefix : string; json_stats_name : string;
  json_epoch_name : string; txt_stats_name : string }.

Definition InitOutputNames (reader : INIReader) (DirExist : string → bool) (out_dir : string)
    : OutputNames :=
  let dir := (if DirExist out_dir then out_dir ++ "/" else "./")%string in
  let prefix := (dir ++ Get reader "other" "output_prefix" "dramsim3")%string in
  MkOutputNames dir prefix (prefix ++ ".json") (prefix ++ "epoch.json") (prefix ++ ".txt").

(** The constructor [Config(config_file, out_dir)] once the file is parsed;
    [parse_error] is [reader_->ParseError()]. *)
Definition Config_new (reader : INIReader) (parse_error : Z) : res Config :=
  if decide (parse_error < 0) then Fault (AbruptExit "configuration.cc" 16)
  else
    c ← InitSystemParams reader Config_uninit;
    c ← InitDRAMParams reader c;
    c ← CalculateSize c;
    c ← SetAddressMapping c;
    Ok (InitOtherParams reader (InitTimingParams reader c)).

(** ** Address decoding *)

Definition AddressMapping (c : Config) (hex_addr : Z) : Address :=
  let h := Z.shiftr hex_addr (shift_bits c) in
  let field pos mask := i32 (Z.land (Z.shiftr h pos) mask) in
  MkAddress (field (ch_pos c) (ch_mask c)) (field (ra_pos c) (ra_mask c))
            (field (bg_pos c) (bg_mask c)) (field (ba_pos c) (ba_mask c))
            (field (ro_pos c) (ro_mask c)) (field (co_pos c) (co_mask c)).

(** ** Layout of the address fields *)

Section layout.
Context (width value : string → Z).

(** Bits used by the fields [ts], and the number whose fields, from the
    least significant one, are the values of [ts]. *)
Definition wsum (ts : list string) : Z := foldr (λ t s, width t + s) 0 ts.
Definition pack (ts : list string) : Z :=
  foldr (λ t s, value t + 2 ^ width t * s) 0 ts.

Hypothesis width_nonneg : ∀ t, 0 ≤ width t.

Lemma wsum_nonneg ts : 0 ≤ wsum ts.
Proof. induction ts as [|t ts IH]; simpl; [lia|]. specialize (width_nonneg t). lia. Qed.

Lemma wsum_app ts1 ts2 : wsum (ts1 ++ ts2) = wsum ts1 + wsum ts2.
Proof. induction ts1; simpl; lia. Qed.

Hypothesis value_fits : ∀ t, 0 ≤ value t < 2 ^ width t.

Lemma pack_bounds ts : 0 ≤ pack ts < 2 ^ wsum ts.
Proof.
  induction ts as [|t ts IH]; simpl; [lia|].
  pose proof (value_fits t). pose proof (wsum_nonneg ts). specialize (width_nonneg t).
  rewrite Z.pow_add_r by done. nia.
Qed.

Lemma pack_field ts i t :
  ts !! i = Some t → (pack ts / 2 ^ wsum (take i ts)) mod 2 ^ width t = value t.
Proof.
  revert i; induction ts as [|t0 ts IH]; intros [|i] Ht; simpl in *; simplify_eq.
  - rewrite Z.div_1_r, Z.mul_comm, Z_mod_plus_full. by apply Z.mod_small.
  - pose proof (value_fits t0). pose proof (width_nonneg t0).
    rewrite Z.pow_add_r by (done || apply wsum_nonneg).
    rewrite <- Zdiv_Zdiv by (apply Z.pow_nonneg; lia).
    rewrite Z.mul_comm, Z.div_add by (apply Z.pow_nonzero; lia).
    rewrite (Z.div_small (value t0)) by done. rewrite Z.add_0_l. by apply IH.
Qed.

(** [pack] as the sum of the shifted fields, in any order. *)
Lemma pack_sum (pos : string → Z) ts p :
  0 ≤ p → (∀ i t, ts !! i = Some t → pos t = p + wsum (take i ts)) →
  pack ts * 2 ^ p = foldr (λ t s, value t * 2 ^ pos t + s) 0 ts.
Proof.
  revert p; induction ts as [|t ts IH]; intros p Hp Hpos; simpl; [lia|].
  rewrite (Hpos O t) by done. simpl. rewrite Z.add_0_r.
  rewrite <- (IH (p + width t)).
  - rewrite Z.pow_add_r by done. ring.
  - specialize (width_nonneg t); lia.
  - intros i t' Ht'. rewrite (Hpos (S i) t') by done. simpl. lia.
Qed.

(** The fields of a number within the layout determine it. *)
Lemma pack_unpack ts h :
  (∀ i t, ts !! i = Some t → value t = (h / 2 ^ wsum (take i ts)) mod 2 ^ width t) →
  0 ≤ h < 2 ^ wsum ts → pack ts = h.
Proof.
  revert h; induction ts as [|t ts IH]; intros h Hv Hh; simpl in *; [lia|].
  specialize (width_nonneg t) as Hw. pose proof (wsum_nonneg ts).
  assert (0 < 2 ^ width t) by (apply Z.pow_pos_nonneg; lia).
  rewrite Z.pow_add_r in Hh by done.
  rewrite (Hv O t) by done. simpl. rewrite Z.div_1_r.
  rewrite (IH (h / 2 ^ width t)).
  - rewrite Z.add_comm. symmetry. apply Z.div_mod. lia.
  - intros i t' Ht'. rewrite (Hv (S i) t') by done. simpl.
    rewrite Z.pow_add_r by (done || apply wsum_nonneg).
    rewrite <- Zdiv_Zdiv by (apply Z.pow_nonneg; lia). done.
  - split; [apply Z.div_pos; lia|]. apply Z.div_lt_upper_bound; lia.
Qed.
End layout.

Lemma foldr_sum_perm (f : string → Z) ts1 ts2 :
  ts1 ≡ₚ ts2 → foldr (λ t s, f t + s) 0 ts1 = foldr (λ t s, f t + s) 0 ts2.
Proof. induction 1; simpl; lia. Qed.

(** What the layout loop computes. *)
Lemma place_field_spec widths ts m p m' p' :
  foldM (place_field widths) ts (m, p) = Ok (m', p') → NoDup ts →
  let w t := default 0 (widths !! t) in
  (∀ i t, ts !! i = Some t → m' !! t = Some (p + wsum w (take i ts)) ∧ is_Some (widths !! t)) ∧
  (∀ t, t ∉ ts → m' !! t = m !! t) ∧ p' = p + wsum w ts.
Proof.
  simpl. revert m p; induction ts as [|t ts IH]; intros m p Hrun Hnd; simpl in *.
  - simplify_eq. split_and!; [done..|lia].
  - apply bind_Ok_inv in Hrun as ([m1 p1] & H1 & Hrun). simplify_res.
    apply list.NoDup_cons in Hnd as [Hnin Hnd].
    destruct (IH _ _ Hrun Hnd) as (Hin & Hout & ->). rewrite Hrun0. simpl. split_and!; [| |lia].
    + intros [|i] t' Ht'; simpl in *; simplify_eq.
      * rewrite Hout, lookup_insert_eq by done. rewrite Z.add_0_r. eauto.
      * destruct (Hin _ _ Ht') as [-> ?]. rewrite Hrun0. simpl. split; [f_equal; lia|done].
    + intros t' Ht'. apply not_elem_of_cons in Ht' as [??].
      rewrite Hout by done. by apply lookup_insert_ne.
Qed.

Lemma place_field_dom widths ts m p m' p' t :
  foldM (place_field widths) ts (m, p) = Ok (m', p') →
  is_Some (m' !! t) → t ∈ ts ∨ is_Some (m !! t).
Proof.
  revert m p; induction ts as [|t0 ts IH]; intros m p Hrun Ht; simpl in *.
  - simplify_eq. by right.
  - apply bind_Ok_inv in Hrun as ([m1 p1] & H1 & Hrun). simplify_res.
    destruct (IH _ _ Hrun Ht) as [?|Hm]; [set_solver|].
    destruct (decide (t0 = t)) as [->|]; [set_solver|].
    rewrite lookup_insert_ne in Hm by done. auto.
Qed.

Definition field_names : list string := ["ch"; "ra"; "bg"; "ba"; "ro"; "co"]%string.

Definition select_field (ch ra bg ba ro co : Z) (t : string) : Z :=
  if decide (t = "ch"%string) then ch else if decide (t = "ra"%string) then ra
  else if decide (t = "bg"%string) then bg else if decide (t = "ba"%string) then ba
  else if decide (t = "ro"%string) then ro else if decide (t = "co"%string) then co else 0.

Definition pos_of (c : Config) : string → Z :=
  select_field (ch_pos c) (ra_pos c) (bg_pos c) (ba_pos c) (ro_pos c) (co_pos c).
Definition mask_of (c : Config) : string → Z :=
  select_field (ch_mask c) (ra_mask c) (bg_mask c) (ba_mask c) (ro_mask c) (co_mask c).
Definition field_of (a : Address) : string → Z :=
  select_field (channel a) (rank a) (bankgroup a) (bank a) (row a) (column a).

(** The address layout of a configuration: its six fields, in some order
    [ts] from the least significant bit, are contiguous and do not overlap. *)
Definition layout_ok (c : Config) (width : string → Z) (ts : list string) : Prop :=
  ts ≡ₚ field_names ∧
  (∀ t, 0 ≤ width t < 31) ∧
  (∀ t, mask_of c t = 2 ^ width t - 1) ∧
  (∀ i t, ts !! i = Some t → pos_of c t = wsum width (take i ts)) ∧
  0 ≤ shift_bits c.

(** The width of each field: the logarithms of the geometry. *)
Definition field_width (c : Config) : string → Z :=
  select_field (Z.log2 (channels c)) (Z.log2 (ranks c)) (Z.log2 (bankgroups c))
    (Z.log2 (banks_per_group c)) (Z.log2 (rows c)) (Z.log2 (columns c) - Z.log2 (BL c)).

Lemma mask_of_width_Ok w m : mask_of_width w = Ok m → 0 ≤ w < 31 ∧ m = 2 ^ w - 1.
Proof.
  unfold mask_of_width. case_decide; [|done]. intros [= <-]. split; [done|].
  rewrite Z.shiftl_mul_pow2 by lia. lia.
Qed.

Lemma select_field_default ch ra bg ba ro co t :
  t ∉ field_names → select_field ch ra bg ba ro co t = 0.
Proof. intros H. unfold select_field. repeat case_decide; subst; set_solver. Qed.

Lemma field_widths_of_lookup ch ra bg ba ro co t :
  default 0 (field_widths_of ch ra bg ba ro co !! t) = select_field ch ra bg ba ro co t.
Proof.
  unfold field_widths_of, select_field.
  repeat (case_decide; [subst; by simplify_map_eq|]).
  by rewrite !lookup_insert_ne, lookup_empty by done.
Qed.

Lemma address_fields_length s : length (address_fields s) = 6%nat.
Proof. reflexivity. Qed.

Lemma six_keys_perm (m : gmap string Z) ts :
  length ts = 6%nat → (∀ t, is_Some (m !! t) → t ∈ ts) →
  Forall (λ t, is_Some (m !! t)) field_names → ts ≡ₚ field_names.
Proof.
  intros Hlen Hdom Hall. symmetry. apply submseteq_length_Permutation.
  - apply NoDup_submseteq.
    + unfold field_names. repeat (apply list.NoDup_cons; split; [set_solver|]). constructor.
    + intros t Ht. rewrite list.Forall_forall in Hall. auto.
  - by rewrite Hlen.
Qed.

Lemma map_at_Some m k v : map_at m k = Ok v ↔ m !! k = Some v.
Proof. apply of_option_Ok. Qed.

Theorem SetAddressMapping_layout c c' :
  SetAddressMapping c = Ok c' → ∃ ts, layout_ok c' (field_width c) ts.
Proof.
  unfold SetAddressMapping. intros H. simplify_res.
  repeat match goal with H : LogBase2 _ = Ok _ |- _ => apply LogBase2_Ok in H as -> end.
  case_decide as Hlen; [done|]. simplify_res.
  repeat match goal with
  | H : map_at _ _ = Ok _ |- _ => apply map_at_Some in H
  | H : mask_of_width _ = Ok _ |- _ => apply mask_of_width_Ok in H as [? ->]
  end.
  set (ts := rev (address_fields (address_mapping c))) in *.
  assert (ts ≡ₚ field_names) as Hperm.
  { match goal with H : foldM _ _ _ = Ok _ |- _ => rename H into Hrun end.
    eapply six_keys_perm.
    - unfold ts. by rewrite length_rev, address_fields_length.
    - intros t Ht. destruct (place_field_dom _ _ _ _ _ _ _ Hrun Ht) as [|[? ?]]; done.
    - repeat constructor; eauto. }
  exists ts. match goal with H : foldM _ _ _ = Ok _ |- _ => rename H into Hrun end.
  apply place_field_spec in Hrun as (Hpos & _ & _).
  2:{ rewrite Hperm. unfold field_names.
      repeat (apply list.NoDup_cons; split; [set_solver|]). constructor. }
  assert (∀ t, 0 ≤ field_width c t < 31) as Hw.
  { intros t. unfold field_width, select_field. repeat case_decide; lia. }
  split_and!; [done|done| | |apply Z.log2_nonneg].
  - intros t. unfold mask_of, field_width, select_field. simpl.
    repeat (case_decide; [done|]). done.
  - intros i t Ht. destruct (Hpos i t Ht) as [Hm _].
    assert (t ∈ field_names) as Hin by (rewrite <- Hperm; by eapply list_elem_of_lookup_2).
    rewrite Z.add_0_l in Hm.
    replace (wsum (field_width c) (take i ts)) with
      (wsum (λ t, default 0 (field_widths_of (Z.log2 (channels c)) (Z.log2 (ranks c))
         (Z.log2 (bankgroups c)) (Z.log2 (banks_per_group c)) (Z.log2 (rows c))
         (Z.log2 (columns c) - Z.log2 (BL c)) !! t)) (take i ts)).
    2:{ generalize (take i ts). intros l. induction l as [|x l IH]; simpl; [done|].
        by rewrite field_widths_of_lookup, IH. }
    unfold pos_of, select_field. simpl.
    repeat (case_decide; [subst; congruence|]).
    exfalso. unfold field_names in Hin. set_solver.
Qed.

(** ** Encoding an address, and the round trip *)

(** The hex address whose fields are those of [a]. *)
Definition encode (c : Config) (a : Address) : Z :=
  Z.shiftl (Z.shiftl (channel a) (ch_pos c) + Z.shiftl (rank a) (ra_pos c)
    + Z.shiftl (bankgroup a) (bg_pos c) + Z.shiftl (bank a) (ba_pos c)
    + Z.shiftl (row a) (ro_pos c) + Z.shiftl (column a) (co_pos c)) (shift_bits c).

(** Every field of [a] fits the mask of its field. *)
Definition addr_fits (c : Config) (a : Address) : Prop :=
  ∀ t, t ∈ field_names → 0 ≤ field_of a t ≤ mask_of c t.

#[export] Instance addr_fits_dec c a : Decision (addr_fits c a).
Proof.
  refine (cast_if (decide (Forall (λ t, 0 ≤ field_of a t ≤ mask_of c t) field_names)));
    unfold addr_fits; by rewrite <- list.Forall_forall.
Defined.

Lemma field_of_eq a b :
  (∀ t, t ∈ field_names → field_of a t = field_of b t) → a = b.
Proof.
  intros H. destruct a, b. unfold field_of in H; simpl in *.
  f_equal; [apply (H "ch"%string)|apply (H "ra"%string)|apply (H "bg"%string)
    |apply (H "ba"%string)|apply (H "ro"%string)|apply (H "co"%string)]; set_solver.
Qed.

Lemma field_of_mapping c h t :
  t ∈ field_names →
  field_of (AddressMapping c h) t =
    i32 (Z.land (Z.shiftr (Z.shiftr h (shift_bits c)) (pos_of c t)) (mask_of c t)).
Proof.
  intros Ht. unfold field_names in Ht. unfold field_of, pos_of, mask_of, select_field.
  repeat (case_decide; [done|]). set_solver.
Qed.

Section roundtrip.
Context (c : Config) (width : string → Z) (ts : list string).
Hypothesis Hlay : layout_ok c width ts.

Lemma layout_width t : 0 ≤ width t.
Proof. destruct Hlay as (_ & H & _). by apply H. Qed.

Lemma layout_NoDup : NoDup ts.
Proof.
  destruct Hlay as (-> & _). unfold field_names.
  repeat (apply list.NoDup_cons; split; [set_solver|]). constructor.
Qed.

(** A field of the decoded address is the bits of its segment. *)
Lemma mapping_field h i t :
  0 ≤ h → ts !! i = Some t →
  field_of (AddressMapping c h) t =
    (h / 2 ^ shift_bits c / 2 ^ wsum width (take i ts)) mod 2 ^ width t.
Proof.
  intros Hh Ht. destruct Hlay as (Hperm & Hw & Hm & Hp & Hs).
  rewrite field_of_mapping by (rewrite <- Hperm; by eapply list_elem_of_lookup_2).
  rewrite (Hp i t Ht), Hm, land_ones_mod by (apply layout_width).
  rewrite !Z.shiftr_div_pow2 by (done || apply wsum_nonneg, layout_width).
  apply i32_small. specialize (Hw t).
  assert (0 < 2 ^ width t ≤ 2 ^ 31)
    by (split; [apply Z.pow_pos_nonneg|apply Z.pow_le_mono_r]; lia).
  change (2 ^ 31) with 2147483648 in *.
  pose proof (Z.mod_pos_bound (h / 2 ^ shift_bits c / 2 ^ wsum width (take i ts))
    (2 ^ width t)). lia.
Qed.

Lemma encode_pack a :
  encode c a = 2 ^ shift_bits c * pack width (field_of a) ts.
Proof.
  destruct Hlay as (Hperm & Hw & Hm & Hp & Hs).
  rewrite <- (Z.mul_1_r (pack _ _ _)). change 1 with (2 ^ 0) at 1.
  rewrite (pack_sum width (field_of a) layout_width (pos_of c) ts 0) by (done || lia).
  rewrite (foldr_sum_perm (λ t, field_of a t * 2 ^ pos_of c t) _ _ Hperm).
  assert (∀ t, t ∈ field_names → 0 ≤ pos_of c t) as Hpos.
  { intros t Ht. rewrite <- Hperm in Ht. apply list_elem_of_lookup_1 in Ht as [i Hi].
    rewrite (Hp i t Hi). apply wsum_nonneg, layout_width. }
  unfold encode. rewrite Z.shiftl_mul_pow2, Z.mul_comm by done. f_equal.
  simpl. rewrite !Z.shiftl_mul_pow2 by (apply (Hpos "ch"%string) || apply (Hpos "ra"%string)
    || apply (Hpos "bg"%string) || apply (Hpos "ba"%string) || apply (Hpos "ro"%string)
    || apply (Hpos "co"%string); set_solver).
  unfold field_of, pos_of, select_field; simpl. lia.
Qed.

Lemma field_fits a t : addr_fits c a → 0 ≤ field_of a t < 2 ^ width t.
Proof.
  intros Ha. destruct Hlay as (Hperm & Hw & Hm & Hp & Hs).
  destruct (decide (t ∈ field_names)) as [Ht|Ht].
  - specialize (Ha t Ht). rewrite Hm in Ha. lia.
  - unfold field_of. rewrite select_field_default by done.
    specialize (Hw t). split; [lia|]. apply Z.pow_pos_nonneg; lia.
Qed.

Lemma mapping_encode a low :
  addr_fits c a → 0 ≤ low < 2 ^ shift_bits c →
  AddressMapping c (encode c a + low) = a.
Proof.
  intros Ha Hlow. destruct (Hlay) as (Hperm & _). apply field_of_eq. intros t Ht.
  rewrite <- Hperm in Ht. apply list_elem_of_lookup_1 in Ht as [i Hi].
  assert (0 ≤ pack width (field_of a) ts).
  { apply pack_bounds; [apply layout_width|]. intros; by apply field_fits. }
  rewrite encode_pack, (mapping_field _ i t) by (done || nia).
  rewrite (Z.mul_comm (2 ^ _)), Z.add_comm, Z.div_add, (Z.div_small low), Z.add_0_l by lia.
  apply pack_field; [apply layout_width| |done]. intros; by apply field_fits.
Qed.

Lemma encode_mapping h :
  0 ≤ h < 2 ^ (shift_bits c + wsum width ts) →
  encode c (AddressMapping c h) + h mod 2 ^ shift_bits c = h.
Proof.
  intros Hh. destruct (Hlay) as (_ & _ & _ & _ & Hs).
  rewrite Z.pow_add_r in Hh by (done || apply wsum_nonneg, layout_width).
  assert (0 < 2 ^ shift_bits c) by (apply Z.pow_pos_nonneg; lia).
  rewrite encode_pack, (pack_unpack width _ layout_width ts (h / 2 ^ shift_bits c)).
  - symmetry. apply Z.div_mod. lia.
  - intros i t Ht. rewrite (mapping_field h i t) by (done || lia). done.
  - split; [apply Z.div_pos; lia|]. apply Z.div_lt_upper_bound; lia.
Qed.

Lemma mapping_fits h : 0 ≤ h → addr_fits c (AddressMapping c h).
Proof.
  intros Hh t Ht. destruct (Hlay) as (Hperm & Hw & Hm & _).
  rewrite <- Hperm in Ht. apply list_elem_of_lookup_1 in Ht as [i Hi].
  rewrite (mapping_field h i t), Hm by done. specialize (Hw t).
  pose proof (Z.mod_pos_bound (h / 2 ^ shift_bits c / 2 ^ wsum width (take i ts))
    (2 ^ width t) ltac:(apply Z.pow_pos_nonneg; lia)). lia.
Qed.
End roundtrip.

(** ** What the configuration promises the other components *)

(** The counts of ranks, bank groups and banks are positive and agree, and
    decoding an address stays inside them: the rank, bank group and bank that
    [AddressMapping] returns are valid indices. *)
Class Geometry (c : Config) : Prop := {
  geo_ranks : 1 ≤ ranks c;
  geo_bankgroups : 1 ≤ bankgroups c;
  geo_banks_per_group : 1 ≤ banks_per_group c;
  geo_banks : banks c = bankgroups c * banks_per_group c;
  geo_decode : ∀ h, 0 ≤ h → let a := AddressMapping c h in
    0 ≤ rank a < ranks c ∧ 0 ≤ bankgroup a < bankgroups c ∧ 0 ≤ bank a < banks_per_group c
}.

(** The channel that an address decodes to is one of the controllers. *)
Definition channel_in_range (c : Config) : Prop :=
  ∀ h, 0 ≤ h → 0 ≤ channel (AddressMapping c h) < channels c.

Lemma mask_lt_count n : 0 < n → 2 ^ Z.log2 n - 1 < n.
Proof. intros H. pose proof (Z.log2_spec n H). lia. Qed.

Lemma SetAddressMapping_counts c c' :
  SetAddressMapping c = Ok c' →
  channels c' = channels c ∧ ranks c' = ranks c ∧ banks c' = banks c ∧
  bankgroups c' = bankgroups c ∧ banks_per_group c' = banks_per_group c ∧
  rows c' = rows c ∧ columns c' = columns c ∧ BL c' = BL c.
Proof.
  unfold SetAddressMapping. intros H. simplify_res. case_decide; [done|]. simplify_res. done.
Qed.

Lemma mapping_below_counts c c' h :
  SetAddressMapping c = Ok c' → 0 ≤ h →
  let a := AddressMapping c' h in
  (0 < channels c → 0 ≤ channel a < channels c) ∧
  (0 < ranks c → 0 ≤ rank a < ranks c) ∧
  (0 < bankgroups c → 0 ≤ bankgroup a < bankgroups c) ∧
  (0 < banks_per_group c → 0 ≤ bank a < banks_per_group c) ∧
  (0 < rows c → 0 ≤ row a < rows c).
Proof.
  intros Hset Hh a. destruct (SetAddressMapping_layout c c' Hset) as [ts Hlay].
  pose proof (mapping_fits c' _ ts Hlay h Hh) as Hf. fold a in Hf.
  destruct Hlay as (_ & _ & Hm & _).
  assert (∀ t, t ∈ field_names → 0 ≤ field_of a t ≤ 2 ^ field_width c t - 1) as Hf'.
  { intros t Ht. rewrite <- Hm. by apply Hf. }
  assert (0 ≤ channel a ≤ 2 ^ Z.log2 (channels c) - 1) by (apply (Hf' "ch"%string); set_solver).
  assert (0 ≤ rank a ≤ 2 ^ Z.log2 (ranks c) - 1) by (apply (Hf' "ra"%string); set_solver).
  assert (0 ≤ bankgroup a ≤ 2 ^ Z.log2 (bankgroups c) - 1)
    by (apply (Hf' "bg"%string); set_solver).
  assert (0 ≤ bank a ≤ 2 ^ Z.log2 (banks_per_group c) - 1)
    by (apply (Hf' "ba"%string); set_solver).
  assert (0 ≤ row a ≤ 2 ^ Z.log2 (rows c) - 1) by (apply (Hf' "ro"%string); set_solver).
  clearbody a. split_and!; intros Hpos; pose proof (mask_lt_count _ Hpos) as Hlt; lia.
Qed.

Lemma InitDRAMParams_banks reader c c' :
  InitDRAMParams reader c = Ok c' → banks c' = bankgroups c' * banks_per_group c'.
Proof.
  unfold InitDRAMParams. intros H. simplify_res.
  match goal with H : (if ?b then _ else _) = Ok ?x |- _ =>
    assert (banks x = bankgroups x * banks_per_group x) as Hb;
    [destruct b; simplify_res; simpl; by case_match|] end.
  match goal with |- context [set_burst_cycle ?x] =>
    assert (banks (set_burst_cycle x) = banks x ∧ bankgroups (set_burst_cycle x) = bankgroups x
      ∧ banks_per_group (set_burst_cycle x) = banks_per_group x) as (E1 & E2 & E3);
    [unfold set_burst_cycle; by destruct (protocol x)|] end.
  repeat case_match; simpl; by rewrite E1, E2, E3.
Qed.

Lemma CalculateSize_banks c c' :
  CalculateSize c = Ok c' → banks c' = banks c ∧ bankgroups c' = bankgroups c ∧
    banks_per_group c' = banks_per_group c.
Proof.
  unfold CalculateSize. intros H. simplify_res. case_decide; simplify_res; done.
Qed.

Lemma Config_new_geometry reader e c :
  Config_new reader e = Ok c → 0 < ranks c → 0 < bankgroups c → 0 < banks_per_group c →
  Geometry c.
Proof.
  unfold Config_new. case_decide; [done|]. intros H1. simplify_res.
  rename a into c1, a0 into c2, a1 into c3, a2 into c4.
  intros Hr Hg Hb. simpl in Hr, Hg, Hb.
  pose proof (SetAddressMapping_counts _ _ Hrun2) as (_ & E1 & E2 & E3 & E4 & _).
  pose proof (InitDRAMParams_banks _ _ _ Hrun0) as Hbk.
  pose proof (CalculateSize_banks _ _ Hrun1) as (F1 & F2 & F3).
  constructor; simpl; [lia|lia|lia|congruence|].
  intros h Hh. pose proof (mapping_below_counts _ _ h Hrun2 Hh) as (_ & M1 & M2 & M3 & _).
  change (AddressMapping _ h) with (AddressMapping c4 h). 
  rewrite E1, E3, E4 in *. auto.
Qed.

Lemma Config_new_channels reader e c :
  Config_new reader e = Ok c → 0 < channels c → channel_in_range c.
Proof.
  unfold Config_new. case_decide; [done|]. intros H1 Hch h Hh. simplify_res.
  match goal with H : SetAddressMapping ?x = Ok ?y |- _ => rename y into c4, H into Hset end.
  pose proof (SetAddressMapping_counts _ _ Hset) as (E0 & _).
  pose proof (mapping_below_counts _ _ h Hset Hh) as (M & _).
  simpl in *. rewrite E0 in *. auto.
Qed.

(** The row of a decoded address exists, and a burst from its column does. *)
Definition rows_in_range (c : Config) : Prop :=
  ∀ h, 0 ≤ h → let a := AddressMapping c h in
    0 ≤ row a < rows c ∧ 0 ≤ column a ∧ column a + BL c ≤ columns c.

(** The number of bursts in a row is at least what the column field holds. *)
Lemma burst_columns_fit b n :
  0 < b ≤ n → 2 ^ (Z.log2 n - Z.log2 b) - 1 + b ≤ n.
Proof.
  intros H. pose proof (Z.log2_le_mono b n ltac:(lia)) as Hl. pose proof (Z.log2_nonneg b).
  pose proof (Z.log2_spec b ltac:(lia)) as [B1 B2]. pose proof (Z.log2_spec n ltac:(lia)) as [N1 _].
  destruct (Z.eq_dec (Z.log2 n) (Z.log2 b)) as [E|E].
  - rewrite E, Z.sub_diag. simpl. lia.
  - assert (2 ^ Z.log2 n = 2 ^ (Z.log2 n - Z.log2 b) * 2 ^ Z.log2 b) as E2.
    { rewrite <- Z.pow_add_r by lia. f_equal. lia. }
    assert (2 ^ 1 ≤ 2 ^ (Z.log2 n - Z.log2 b)) by (apply Z.pow_le_mono_r; lia).
    rewrite Z.pow_succ_r in B2 by lia.
    assert (1 ≤ 2 ^ Z.log2 b) by (apply (Z.pow_le_mono_r 2 0); lia). nia.
Qed.

Lemma mapping_column_below c c' h :
  SetAddressMapping c = Ok c' → 0 ≤ h → 0 < BL c ≤ columns c →
  let a := AddressMapping c' h in 0 ≤ column a ∧ column a + BL c ≤ columns c.
Proof.
  intros Hset Hh Hbl a. destruct (SetAddressMapping_layout c c' Hset) as [ts Hlay].
  pose proof (mapping_fits c' _ ts Hlay h Hh) as Hf. fold a in Hf. destruct Hlay as (_ & _ & Hm & _).
  assert (0 ≤ column a ≤ 2 ^ (Z.log2 (columns c) - Z.log2 (BL c)) - 1) as Hc.
  { specialize (Hf "co"%string ltac:(set_solver)). rewrite Hm in Hf by set_solver. exact Hf. }
  pose proof (burst_columns_fit _ _ Hbl). lia.
Qed.

Lemma Config_new_rows reader e c :
  Config_new reader e = Ok c → 0 < rows c → 0 < BL c ≤ columns c → rows_in_range c.
Proof.
  unfold Config_new. case_decide; [done|]. intros H1 Hr Hbl h Hh. simplify_res.
  match goal with H : SetAddressMapping ?x = Ok ?y |- _ => rename y into c4, H into Hset end.
  pose proof (SetAddressMapping_counts _ _ Hset) as (_ & _ & _ & _ & _ & E5 & E6 & E7).
  pose proof (mapping_below_counts _ _ h Hset Hh) as (_ & _ & _ & _ & M5).
  pose proof (mapping_column_below _ _ h Hset Hh) as M6.
  simpl in *. rewrite E5, E6, E7 in *. split; [by auto|]. by auto.
Qed.

Lemma layout_total c c' ts :
  layout_ok c' (field_width c) ts →
  wsum (field_width c) ts = wsum (field_width c) field_names.
Proof. intros (Hp & _). unfold wsum. by apply foldr_sum_perm. Qed.

(** ** A sample configuration: configs/DDR4_8Gb_x16_2400.ini *)

Definition sample_integers : list (string * Z) :=
  [("bankgroups", 2); ("banks_per_group", 4); ("rows", 65536); ("columns", 1024);
   ("device_width", 16); ("BL", 8); ("AL", 0); ("CL", 17); ("CWL", 12); ("tRCD", 17);
   ("tRP", 17); ("tRAS", 39); ("tRFC", 420); ("tREFI", 9360); ("tRPRE", 1); ("tWPRE", 1);
   ("tRRD_S", 7); ("tRRD_L", 8); ("tWTR_S", 3); ("tWTR_L", 9); ("tFAW", 36); ("tWR", 18);
   ("tRTP", 9); ("tCCD_S", 4); ("tCCD_L", 6); ("tCKE", 6); ("tCKESR", 7); ("tXS", 432);
   ("tXP", 8); ("tRTRS", 1); ("channel_size", 8192); ("channels", 1); ("bus_width", 64);
   ("cmd_queue_size", 8); ("trans_queue_size", 32); ("epoch_period", 1204819);
   ("output_level", 1)]%string.

Definition sample_strings : list (string * string) :=
  [("protocol", "DDR4"); ("address_mapping", "rochrababgco"); ("queue_structure", "PER_BANK");
   ("refresh_policy", "RANK_LEVEL_STAGGERED"); ("row_buf_policy", "OPEN_PAGE")]%string.

Definition assoc {A} (l : list (string * A)) (k : string) (d : A) : A :=
  match list_find (λ p, p.1 = k) l with Some (_, (_, v)) => v | None => d end.

Definition sample_reader : INIReader :=
  MkINIReader (λ _ k d, assoc sample_strings k d) (λ _ k d, assoc sample_integers k d)
    (λ _ _ d, d).

Definition sample_config : Config :=
  Eval vm_compute in
    match Config_new sample_reader 0 with Ok c => c | Fault _ => Config_uninit end.

Lemma sample_config_new : Config_new sample_reader 0 = Ok sample_config.
Proof. vm_compute. reflexivity. Qed.

#[export] Instance sample_geometry : Geometry sample_config.
Proof.
  apply (Config_new_geometry sample_reader 0); [apply sample_config_new|done..].
Qed.

(** ** Properties *)





(** C36: a configuration that [Config]'s constructor builds decodes every
    address inside the machine: channel, rank, bank group, bank and row are
    valid indices of the structures the simulator allocates, whether or not
    the counts are powers of two. *)
Theorem Config_new_decodes_in_range (reader : INIReader) (e : Z) (c : Config) (h : Z) :
  Config_new reader e = Ok c →
  0 < channels c → 0 < ranks c → 0 < bankgroups c → 0 < banks_per_group c → 0 < rows c →
  0 ≤ h →
  let a := AddressMapping c h in
  (0 ≤ channel a < channels c) ∧ (0 ≤ rank a < ranks c) ∧ (0 ≤ bankgroup a < bankgroups c) ∧
  (0 ≤ bank a < banks_per_group c) ∧ (0 ≤ row a < rows c).
Proof.
  unfold Config_new. case_decide; [done|]. intros H1 H2 H3 H4 H5 H6 Hh. simplify_res.
  match goal with H : SetAddressMapping ?x = Ok ?y |- _ => rename y into c4, H into Hset end.
  pose proof (SetAddressMapping_counts _ _ Hset) as (E0 & E1 & E2 & E3 & E4 & E5 & _).
  pose proof (mapping_below_counts _ _ h Hset Hh) as M.
  simpl in *. rewrite E0, E1, E3, E4, E5 in *. destruct M as (M1 & M2 & M3 & M4 & M5).
  do 4 (split; [by auto|]). by auto.
Qed.

Lemma Config_new_decodes_in_range_witness :
  let a := AddressMapping sample_config 987654321 in
  (0 ≤ channel a < channels sample_config) ∧ (0 ≤ rank a < ranks sample_config) ∧
  (0 ≤ bankgroup a < bankgroups sample_config) ∧
  (0 ≤ bank a < banks_per_group sample_config) ∧ (0 ≤ row a < rows sample_config).
Proof.
  exact (Config_new_decodes_in_range sample_reader 0 sample_config 987654321 sample_config_new
    eq_refl eq_refl eq_refl eq_refl eq_refl ltac:(done)).
Defined.
