(* ===== verification/Timing.v ===== *)
(** * Timing: the delays between commands (src/src/timing.h, timing.cc)

    The constructor [Timing(config)] computes the delays once ([delays_of],
    its local variables) and fills five vectors indexed by the type of the
    command that has just been issued: each entry lists the types of the
    commands it holds back and for how long.  The rows of one issued command
    in the five vectors are one definition here, in the order of the code. *)

From S2P Require Import Prelude Common Configuration.
Local Open Scope Z_scope.

(** The local variables of the constructor. *)
Record Delays : Type := MkDelays {
  read_to_read_l : Z; read_to_read_s : Z; read_to_read_o : Z;
  read_to_write : Z; read_to_write_o : Z; read_to_precharge : Z; readp_to_act : Z;
  write_to_read_l : Z; write_to_read_s : Z; write_to_read_o : Z;
  write_to_write_l : Z; write_to_write_s : Z; write_to_write_o : Z;
  write_to_precharge : Z;
  precharge_to_activate : Z; precharge_to_precharge : Z;
  read_to_activate : Z; write_to_activate : Z;
  activate_to_activate : Z; activate_to_activate_l : Z; activate_to_activate_s : Z;
  activate_to_precharge : Z; activate_to_read : Z; activate_to_write : Z;
  activate_to_refresh : Z;
  refresh_to_refresh : Z; refresh_to_activate : Z; refresh_to_activate_bank : Z;
  self_refresh_entry_to_exit : Z; self_refresh_exit : Z }.

#[export] Instance Delays_eta : RecordEta Delays := λ d, MkDelays
  (read_to_read_l d) (read_to_read_s d) (read_to_read_o d)
  (read_to_write d) (read_to_write_o d) (read_to_precharge d) (readp_to_act d)
  (write_to_read_l d) (write_to_read_s d) (write_to_read_o d)
  (write_to_write_l d) (write_to_write_s d) (write_to_write_o d)
  (write_to_precharge d)
  (precharge_to_activate d) (precharge_to_precharge d)
  (read_to_activate d) (write_to_activate d)
  (activate_to_activate d) (activate_to_activate_l d) (activate_to_activate_s d)
  (activate_to_precharge d) (activate_to_read d) (activate_to_write d)
  (activate_to_refresh d)
  (refresh_to_refresh d) (refresh_to_activate d) (refresh_to_activate_bank d)
  (self_refresh_entry_to_exit d) (self_refresh_exit d).

Definition delays_of (config : Config) : Delays :=
  let read_to_precharge := AL config + tRTP config in
  let write_to_precharge := WL config + burst_cycle config + tWR config in
  let precharge_to_activate := tRP config in
  let slow_activate := IsGDDR config || IsHBM config in
  let d := {|
    read_to_read_l := Z.max (burst_cycle config) (tCCD_L config);
    read_to_read_s := Z.max (burst_cycle config) (tCCD_S config);
    read_to_read_o := burst_cycle config + tRTRS config;
    read_to_write := RL config + burst_cycle config - WL config + tRTRS config;
    read_to_write_o :=
      read_delay config + burst_cycle config + tRTRS config - write_delay config;
    read_to_precharge := read_to_precharge;
    readp_to_act := AL config + burst_cycle config + tRTP config + tRP config;
    write_to_read_l := write_delay config + tWTR_L config;
    write_to_read_s := write_delay config + tWTR_S config;
    write_to_read_o :=
      write_delay config + burst_cycle config + tRTRS config - read_delay config;
    write_to_write_l := Z.max (burst_cycle config) (tCCD_L config);
    write_to_write_s := Z.max (burst_cycle config) (tCCD_S config);
    write_to_write_o := burst_cycle config;
    write_to_precharge := write_to_precharge;
    precharge_to_activate := precharge_to_activate;
    precharge_to_precharge := tPPD config;
    read_to_activate := read_to_precharge + precharge_to_activate;
    write_to_activate := write_to_precharge + precharge_to_activate;
    activate_to_activate := tRC config;
    activate_to_activate_l := tRRD_L config;
    activate_to_activate_s := tRRD_S config;
    activate_to_precharge := tRAS config;
    activate_to_read := if slow_activate then tRCDRD config else tRCD config - AL config;
    activate_to_write := if slow_activate then tRCDWR config else tRCD config - AL config;
    activate_to_refresh := tRC config;
    refresh_to_refresh := tREFI config;
    refresh_to_activate := tRFC config;
    refresh_to_activate_bank := tRFCb config;
    self_refresh_entry_to_exit := tCKESR config;
    self_refresh_exit := tXS config |} in
  if decide (bankgroups config = 1)
  then d <| read_to_read_l := Z.max (burst_cycle config) (tCCD_S config) |>
         <| write_to_read_l := write_delay config + tWTR_S config |>
         <| write_to_write_l := Z.max (burst_cycle config) (tCCD_S config) |>
         <| activate_to_activate_l := tRRD_S config |>
  else d.

(** One entry of a vector: the held-back command types and their delays. *)
Definition timing_list : Type := list (CommandType * Z).

(** The entries of one issued command in the five vectors. *)
Record Rows : Type := MkRows {
  r_same_bank : timing_list;
  r_other_banks_same_bankgroup : timing_list;
  r_other_bankgroups_same_rank : timing_list;
  r_other_ranks : timing_list;
  r_same_rank : timing_list }.

Definition READ_rows (d : Delays) : Rows := MkRows
  [(READ, read_to_read_l d); (WRITE, read_to_write d);
   (READ_PRECHARGE, read_to_read_l d); (WRITE_PRECHARGE, read_to_write d);
   (PRECHARGE, read_to_precharge d)]
  [(READ, read_to_read_l d); (WRITE, read_to_write d);
   (READ_PRECHARGE, read_to_read_l d); (WRITE_PRECHARGE, read_to_write d)]
  [(READ, read_to_read_s d); (WRITE, read_to_write d);
   (READ_PRECHARGE, read_to_read_s d); (WRITE_PRECHARGE, read_to_write d)]
  [(READ, read_to_read_o d); (WRITE, read_to_write_o d);
   (READ_PRECHARGE, read_to_read_o d); (WRITE_PRECHARGE, read_to_write_o d)]
  [].

Definition WRITE_rows (d : Delays) : Rows := MkRows
  [(READ, write_to_read_l d); (WRITE, write_to_write_l d);
   (READ_PRECHARGE, write_to_read_l d); (WRITE_PRECHARGE, write_to_write_l d);
   (PRECHARGE, write_to_precharge d)]
  [(READ, write_to_read_l d); (WRITE, write_to_write_l d);
   (READ_PRECHARGE, write_to_read_l d); (WRITE_PRECHARGE, write_to_write_l d)]
  [(READ, write_to_read_s d); (WRITE, write_to_write_s d);
   (READ_PRECHARGE, write_to_read_s d); (WRITE_PRECHARGE, write_to_write_s d)]
  [(READ, write_to_read_o d); (WRITE, write_to_write_o d);
   (READ_PRECHARGE, write_to_read_o d); (WRITE_PRECHARGE, write_to_write_o d)]
  [].

Definition READ_PRECHARGE_rows (d : Delays) : Rows := MkRows
  [(ACTIVATE, readp_to_act d); (REFRESH, read_to_activate d);
   (REFRESH_BANK, read_to_activate d); (SREF_ENTER, read_to_activate d)]
  [(READ, read_to_read_l d); (WRITE, read_to_write d);
   (READ_PRECHARGE, read_to_read_l d); (WRITE_PRECHARGE, read_to_write d)]
  [(READ, read_to_read_s d); (WRITE, read_to_write d);
   (READ_PRECHARGE, read_to_read_s d); (WRITE_PRECHARGE, read_to_write d)]
  [(READ, read_to_read_o d); (WRITE, read_to_write_o d);
   (READ_PRECHARGE, read_to_read_o d); (WRITE_PRECHARGE, read_to_write_o d)]
  [].

Definition WRITE_PRECHARGE_rows (d : Delays) : Rows := MkRows
  [(ACTIVATE, write_to_activate d); (REFRESH, write_to_activate d);
   (REFRESH_BANK, write_to_activate d); (SREF_ENTER, write_to_activate d)]
  [(READ, write_to_read_l d); (WRITE, write_to_write_l d);
   (READ_PRECHARGE, write_to_read_l d); (WRITE_PRECHARGE, write_to_write_l d)]
  [(READ, write_to_read_s d); (WRITE, write_to_write_s d);
   (READ_PRECHARGE, write_to_read_s d); (WRITE_PRECHARGE, write_to_write_s d)]
  [(READ, write_to_read_o d); (WRITE, write_to_write_o d);
   (READ_PRECHARGE, write_to_read_o d); (WRITE_PRECHARGE, write_to_write_o d)]
  [].

Definition ACTIVATE_rows (d : Delays) : Rows := MkRows
  [(ACTIVATE, activate_to_activate d); (READ, activate_to_read d);
   (WRITE, activate_to_write d); (READ_PRECHARGE, activate_to_read d);
   (WRITE_PRECHARGE, activate_to_write d); (PRECHARGE, activate_to_precharge d)]
  [(ACTIVATE, activate_to_activate_l d); (REFRESH_BANK, activate_to_refresh d)]
  [(ACTIVATE, activate_to_activate_s d); (REFRESH_BANK, activate_to_refresh d)]
  [] [].

(** [tPPD] only for GDDR and LPDDR4. *)
Definition PRECHARGE_rows (config : Config) (d : Delays) : Rows :=
  let ppd := if IsGDDR config || bool_decide (protocol config = LPDDR4)
             then [(PRECHARGE, precharge_to_precharge d)] else [] in
  MkRows
  [(ACTIVATE, precharge_to_activate d); (REFRESH, precharge_to_activate d);
   (REFRESH_BANK, precharge_to_activate d); (SREF_ENTER, precharge_to_activate d)]
  ppd ppd [] [].

(** The first list of the code's REFRESH_BANK goes to [same_rank]. *)
Definition REFRESH_BANK_rows (d : Delays) : Rows := MkRows
  []
  [(ACTIVATE, refresh_to_activate d); (REFRESH_BANK, refresh_to_refresh d)]
  [(ACTIVATE, refresh_to_activate d); (REFRESH_BANK, refresh_to_refresh d)]
  []
  [(ACTIVATE, refresh_to_activate_bank d); (REFRESH, refresh_to_activate_bank d);
   (REFRESH_BANK, refresh_to_activate_bank d); (SREF_ENTER, refresh_to_activate_bank d)].

Definition REFRESH_rows (d : Delays) : Rows := MkRows [] [] [] []
  [(ACTIVATE, refresh_to_activate d); (REFRESH, refresh_to_activate d);
   (SREF_ENTER, refresh_to_activate d)].

Definition SREF_ENTER_rows (d : Delays) : Rows := MkRows [] [] [] []
  [(SREF_EXIT, self_refresh_entry_to_exit d)].

Definition SREF_EXIT_rows (d : Delays) : Rows := MkRows [] [] [] []
  [(ACTIVATE, self_refresh_exit d); (REFRESH, self_refresh_exit d);
   (REFRESH_BANK, self_refresh_exit d); (SREF_ENTER, self_refresh_exit d)].

Definition rows_of (config : Config) (d : Delays) (t : CommandType) : Rows :=
  match t with
  | READ => READ_rows d
  | READ_PRECHARGE => READ_PRECHARGE_rows d
  | WRITE => WRITE_rows d
  | WRITE_PRECHARGE => WRITE_PRECHARGE_rows d
  | ACTIVATE => ACTIVATE_rows d
  | PRECHARGE => PRECHARGE_rows config d
  | REFRESH_BANK => REFRESH_BANK_rows d
  | REFRESH => REFRESH_rows d
  | SREF_ENTER => SREF_ENTER_rows d
  | SREF_EXIT => SREF_EXIT_rows d
  | SIZE => MkRows [] [] [] [] []
  end.

(** The command types in the order of their integers, without [SIZE]. *)
Definition command_types : list CommandType :=
  [READ; READ_PRECHARGE; WRITE; WRITE_PRECHARGE; ACTIVATE; PRECHARGE; REFRESH_BANK;
   REFRESH; SREF_ENTER; SREF_EXIT].

Record Timing : Type := MkTiming {
  same_bank : list timing_list;
  other_banks_same_bankgroup : list timing_list;
  other_bankgroups_same_rank : list timing_list;
  other_ranks : list timing_list;
  same_rank : list timing_list }.

Definition Timing_new (config : Config) : Timing :=
  let rows := rows_of config (delays_of config) <$> command_types in
  MkTiming (r_same_bank <$> rows) (r_other_banks_same_bankgroup <$> rows)
    (r_other_bankgroups_same_rank <$> rows) (r_other_ranks <$> rows) (r_same_rank <$> rows).

(** ** Well-formed tables *)

(** A list only holds back commands that a bank has a slot for. *)
Definition timing_list_ok (l : timing_list) : Prop := Forall (λ p, p.1 ≠ SIZE) l.

(** A table has one entry per command type and its lists are well formed. *)
Definition table_ok (v : list timing_list) : Prop :=
  length v = 10%nat ∧ Forall timing_list_ok v.

Record Timing_ok (tm : Timing) : Prop := {
  tm_same_bank : table_ok (same_bank tm);
  tm_other_banks : table_ok (other_banks_same_bankgroup tm);
  tm_other_bankgroups : table_ok (other_bankgroups_same_rank tm);
  tm_other_ranks : table_ok (other_ranks tm);
  tm_same_rank : table_ok (same_rank tm) }.

(** The list of a table for an issued command. *)
Definition timing_at (v : list timing_list) (t : CommandType) : timing_list :=
  default [] (vlookup v (CommandType_int t)).

Lemma table_ok_get v t :
  table_ok v → t ≠ SIZE → vec_get v (CommandType_int t) = Ok (timing_at v t).
Proof.
  intros [Hlen _] Ht. pose proof (CommandType_int_range t Ht) as Hr.
  destruct (vlookup_lt v (CommandType_int t)) as [l Hl]; [rewrite Hlen; lia|].
  unfold timing_at. rewrite Hl. by apply vec_get_Ok.
Qed.

Lemma timing_at_ok v t : table_ok v → timing_list_ok (timing_at v t).
Proof.
  intros [_ Hall]. unfold timing_at. destruct (vlookup v _) eqn:E; simpl.
  - by eapply Forall_vlookup in E.
  - constructor.
Qed.

Lemma Timing_new_ok config : Timing_ok (Timing_new config).
Proof.
  constructor; (split; [reflexivity|]); unfold Timing_new; simpl;
    repeat (apply list.Forall_cons; split); try apply list.Forall_nil_2;
    unfold timing_list_ok, PRECHARGE_rows; simpl;
    try (destruct (_ || _)); by repeat (constructor; simpl).
Qed.

Lemma Timing_new_at config t :
  let r := rows_of config (delays_of config) t in
  let tm := Timing_new config in
  timing_at (same_bank tm) t = r_same_bank r ∧
  timing_at (other_banks_same_bankgroup tm) t = r_other_banks_same_bankgroup r ∧
  timing_at (other_bankgroups_same_rank tm) t = r_other_bankgroups_same_rank r ∧
  timing_at (other_ranks tm) t = r_other_ranks r ∧
  timing_at (same_rank tm) t = r_same_rank r.
Proof. destruct t; by split_and!. Qed.
