(* ===== verification/BankState.v ===== *)
(** * BankState: one bank (src/src/bankstate.h, bankstate.cc)

    The state machine of a bank (open, closed, self-refresh), the earliest
    cycle at which each command may be executed in it, and the command that
    must come next for a given request. *)

From S2P Require Import Prelude Common Timing.
Local Open Scope Z_scope.

(** [enum class State] *)
Inductive State : Type := OPEN | CLOSED | SREF | PD | State_SIZE.

#[export] Instance State_eq_dec : EqDecision State.
Proof. solve_decision. Defined.

Record BankState : Type := MkBankState {
  state_ : State;
  cmd_timing_ : list Z;
  open_row_ : Z;
  row_hit_count_ : Z;
  in_serve : bool;
  serve_end_cycle : Z;
  precharge_by_refresh : bool;
  activate_by_who : bool }.

#[export] Instance BankState_eta : RecordEta BankState := λ b, MkBankState
  (state_ b) (cmd_timing_ b) (open_row_ b) (row_hit_count_ b) (in_serve b)
  (serve_end_cycle b) (precharge_by_refresh b) (activate_by_who b).

(** The constructor: a vector of [SIZE] zeros, some of them written again. *)
Definition BankState_new : BankState := {|
  state_ := CLOSED;
  cmd_timing_ := replicate 10 0;
  open_row_ := -1;
  row_hit_count_ := 0;
  in_serve := false;
  serve_end_cycle := 0;
  precharge_by_refresh := false;
  activate_by_who := false |}.

Definition IsRowOpen (b : BankState) : bool := bool_decide (state_ b = OPEN).
Definition OpenRow (b : BankState) : Z := open_row_ b.
Definition RowHitCount (b : BankState) : Z := row_hit_count_ b.
Definition IsRowClosed (b : BankState) : bool := bool_decide (state_ b = CLOSED).
Definition SetInServe (in_ : bool) (b : BankState) : BankState := b <| in_serve := in_ |>.
Definition SetServeEndCycle (end_cycle : Z) (b : BankState) : BankState :=
  b <| serve_end_cycle := end_cycle |>.
Definition ReturnInServe (b : BankState) : bool := in_serve b.
Definition ReturnServeEndCycle (b : BankState) : Z := serve_end_cycle b.
Definition ReturnPrechargeByRefresh (b : BankState) : bool := precharge_by_refresh b.
Definition ReturnActivateByWho (b : BankState) : bool := activate_by_who b.

(** The switch of [GetReadyCommand]: the command type required next, and the
    bank with its [activate_by_who] and [precharge_by_refresh] marks. *)
Definition required_type (cmd : Command) (b : BankState) : res (CommandType * BankState) :=
  match state_ b with
  | CLOSED =>
    match cmd_type cmd with
    | READ | READ_PRECHARGE => Ok (ACTIVATE, b <| activate_by_who := false |>)
    | WRITE | WRITE_PRECHARGE => Ok (ACTIVATE, b <| activate_by_who := true |>)
    | REFRESH | REFRESH_BANK | SREF_ENTER => Ok (cmd_type cmd, b)
    | _ => Fault (AbruptExit "bankstate.cc" 51)
    end
  | OPEN =>
    match cmd_type cmd with
    | READ | READ_PRECHARGE | WRITE | WRITE_PRECHARGE =>
      if decide (Row cmd = open_row_ b) then Ok (cmd_type cmd, b)
      else Ok (PRECHARGE, b <| precharge_by_refresh := true |>)
    | REFRESH | REFRESH_BANK | SREF_ENTER =>
      Ok (PRECHARGE, b <| precharge_by_refresh := false |>)
    | _ => Fault (AbruptExit "bankstate.cc" 76)
    end
  | SREF =>
    match cmd_type cmd with
    | READ | READ_PRECHARGE | WRITE | WRITE_PRECHARGE => Ok (SREF_EXIT, b)
    | _ => Fault (AbruptExit "bankstate.cc" 90)
    end
  | PD | State_SIZE => Fault (AbruptExit "bankstate.cc" 97)
  end.

Definition GetReadyCommand (cmd : Command) (clk : Z) (b : BankState)
    : res (Command * BankState) :=
  '(required, b') ← required_type cmd b;
  if decide (required ≠ SIZE) then
    t ← vec_get (cmd_timing_ b') (CommandType_int required);
    if decide (t ≤ clk) then Ok (MkCommand required (addr cmd) (hex_addr cmd), b')
    else Ok (Command_default, b')
  else Ok (Command_default, b').

Definition UpdateState (cmd : Command) (b : BankState) : res BankState :=
  match state_ b with
  | OPEN =>
    match cmd_type cmd with
    | READ | WRITE => Ok (b <| row_hit_count_ ::= λ n, n + 1 |>)
    | READ_PRECHARGE | WRITE_PRECHARGE | PRECHARGE =>
      Ok (b <| state_ := CLOSED |> <| open_row_ := -1 |> <| row_hit_count_ := 0 |>)
    | _ => Fault (AbruptExit "bankstate.cc" 134)
    end
  | CLOSED =>
    match cmd_type cmd with
    | REFRESH | REFRESH_BANK => Ok b
    | ACTIVATE => Ok (b <| state_ := OPEN |> <| open_row_ := Row cmd |>)
    | SREF_ENTER => Ok (b <| state_ := SREF |>)
    | _ => Fault (AbruptExit "bankstate.cc" 157)
    end
  | SREF =>
    match cmd_type cmd with
    | SREF_EXIT => Ok (b <| state_ := CLOSED |>)
    | _ => Fault (AbruptExit "bankstate.cc" 175)
    end
  | PD | State_SIZE => Fault (AbruptExit "bankstate.cc" 179)
  end.

Definition UpdateTiming (t : CommandType) (time : Z) (b : BankState) : res BankState :=
  ts ← vec_modify (cmd_timing_ b) (CommandType_int t) (λ old, Ok (Z.max old time));
  Ok (b <| cmd_timing_ := ts |>).

(** ** Invariant *)

(** The earliest cycle for a command type; zero for [SIZE]. *)
Definition ready_at (b : BankState) (t : CommandType) : Z :=
  default 0 (vlookup (cmd_timing_ b) (CommandType_int t)).

(** A reachable bank: a timing slot per command type, each a machine integer;
    no power-down state; a closed or self-refreshing bank has no open row. *)
Record bank_ok (b : BankState) : Prop := {
  bank_slots : length (cmd_timing_ b) = 10%nat;
  bank_times : Forall is_u64 (cmd_timing_ b);
  bank_state : state_ b = OPEN ∨ state_ b = CLOSED ∨ state_ b = SREF;
  bank_closed : state_ b ≠ OPEN → open_row_ b = -1 ∧ row_hit_count_ b = 0;
  bank_hits : 0 ≤ row_hit_count_ b }.

Lemma BankState_new_ok : bank_ok BankState_new.
Proof.
  constructor; simpl; [done| |auto|done|lia].
  repeat (constructor; [by split|]). constructor.
Qed.

Lemma ready_at_get b t :
  bank_ok b → t ≠ SIZE → vec_get (cmd_timing_ b) (CommandType_int t) = Ok (ready_at b t).
Proof.
  intros Hb Ht. pose proof (CommandType_int_range t Ht) as Hr.
  destruct (vlookup_lt (cmd_timing_ b) (CommandType_int t)) as [x Hx].
  { rewrite (bank_slots b Hb). lia. }
  unfold ready_at. rewrite Hx. by apply vec_get_Ok.
Qed.

Lemma ready_at_u64 b t : bank_ok b → is_u64 (ready_at b t).
Proof.
  intros Hb. unfold ready_at. destruct (vlookup _ _) eqn:E; simpl; [|by split].
  eapply Forall_vlookup in E; [done|]. apply Hb.
Qed.

Lemma ready_at_new t : ready_at BankState_new t = 0.
Proof. by destruct t. Qed.

(** Two banks that differ in their bookkeeping marks only. *)
Definition same_bank_core (b b' : BankState) : Prop :=
  state_ b' = state_ b ∧ cmd_timing_ b' = cmd_timing_ b ∧ open_row_ b' = open_row_ b ∧
  row_hit_count_ b' = row_hit_count_ b ∧ in_serve b' = in_serve b ∧
  serve_end_cycle b' = serve_end_cycle b.

#[export] Instance same_bank_core_refl : Reflexive same_bank_core.
Proof. intros b. by split_and!. Qed.

#[export] Instance same_bank_core_trans : Transitive same_bank_core.
Proof. unfold same_bank_core. intros b1 b2 b3 ??. destruct_and!. split_and!; congruence. Qed.

Lemma same_bank_core_ok b b' : same_bank_core b b' → bank_ok b → bank_ok b'.
Proof.
  intros (E1 & E2 & E3 & E4 & _) [H1 H2 H3 H4 H5].
  constructor; rewrite ?E1, ?E2, ?E3, ?E4; done.
Qed.

Lemma same_bank_core_ready b b' t : same_bank_core b b' → ready_at b' t = ready_at b t.
Proof. intros (_ & E & _). unfold ready_at. by rewrite E. Qed.

(** ** The switch *)

(** The command types a request may ask of a bank. *)
Definition is_request (t : CommandType) : Prop :=
  t ≠ ACTIVATE ∧ t ≠ PRECHARGE ∧ t ≠ SREF_EXIT ∧ t ≠ SIZE.

#[export] Instance is_request_dec t : Decision (is_request t).
Proof. unfold is_request. apply _. Defined.

Lemma required_type_core cmd b t b' : required_type cmd b = Ok (t, b') → same_bank_core b b'.
Proof.
  unfold required_type.
  destruct (state_ b), (cmd_type cmd); intros; try case_decide; simplify_res; by split_and!.
Qed.

Lemma required_type_valid cmd b t b' : required_type cmd b = Ok (t, b') → t ≠ SIZE.
Proof.
  unfold required_type.
  destruct (state_ b) eqn:?, (cmd_type cmd) eqn:?; intros; try case_decide; by simplify_res.
Qed.

Lemma required_type_total cmd b :
  bank_ok b → is_request (cmd_type cmd) → (state_ b = SREF → IsReadWrite cmd = true) →
  ∃ t b', required_type cmd b = Ok (t, b').
Proof.
  intros [_ _ Hst _ _] Hr Hs. unfold required_type. unfold is_request in Hr.
  destruct (state_ b); [| | |naive_solver..]; revert Hr Hs; by_type cmd;
    intros (?&?&?&?) Hs; try done; try case_decide; eauto; by specialize (Hs eq_refl).
Qed.

(** A column command is asked for only when its row is the open one. *)
Lemma required_type_row cmd b t b' a h :
  required_type cmd b = Ok (t, b') → IsReadWrite (MkCommand t a h) = true → open_row_ b = Row cmd.
Proof.
  unfold required_type. destruct (state_ b), (cmd_type cmd); intros; try case_decide; by simplify_res.
Qed.

(** The required command is accepted by the state machine. *)
Lemma required_type_accepted cmd b t b' a h :
  required_type cmd b = Ok (t, b') → ∃ b'', UpdateState (MkCommand t a h) b' = Ok b''.
Proof.
  unfold required_type, UpdateState.
  destruct (state_ b) eqn:E, (cmd_type cmd) eqn:?; intros; try case_decide; simplify_res;
    simpl; rewrite E; eauto.
Qed.

Lemma GetReadyCommand_inv cmd clk b rc b' :
  GetReadyCommand cmd clk b = Ok (rc, b') →
  ∃ t, required_type cmd b = Ok (t, b') ∧
    (rc = Command_default ∨
     (rc = MkCommand t (addr cmd) (hex_addr cmd) ∧
      ∃ time, vlookup (cmd_timing_ b') (CommandType_int t) = Some time ∧ time ≤ clk)).
Proof.
  unfold GetReadyCommand. intros H. simplify_res. simpl in *.
  rewrite decide_True in H by (by eapply required_type_valid). simplify_res.
  exists c. match goal with H : vec_get _ _ = Ok _ |- _ => apply vec_get_Ok in H end.
  case_decide; simplify_res; eauto 10.
Qed.

Lemma GetReadyCommand_total cmd clk b :
  bank_ok b → is_request (cmd_type cmd) → (state_ b = SREF → IsReadWrite cmd = true) →
  ∃ rc b', GetReadyCommand cmd clk b = Ok (rc, b').
Proof.
  intros Hb Hr Hs. destruct (required_type_total cmd b Hb Hr Hs) as (t & b' & H).
  unfold GetReadyCommand. rewrite H. simpl.
  pose proof (required_type_valid _ _ _ _ H). rewrite decide_True by done.
  rewrite (ready_at_get b' t); [|by eapply same_bank_core_ok, Hb; eapply required_type_core|done].
  simpl. case_decide; eauto.
Qed.

Lemma GetReadyCommand_core cmd clk b rc b' :
  GetReadyCommand cmd clk b = Ok (rc, b') → same_bank_core b b'.
Proof. intros (t & H & _)%GetReadyCommand_inv. by eapply required_type_core. Qed.

Lemma UpdateState_timing cmd b b' :
  UpdateState cmd b = Ok b' → cmd_timing_ b' = cmd_timing_ b.
Proof.
  unfold UpdateState. destruct (state_ b), (cmd_type cmd); intros; by simplify_res.
Qed.

Lemma UpdateState_bank_ok cmd b b' : UpdateState cmd b = Ok b' → bank_ok b → bank_ok b'.
Proof.
  unfold UpdateState. intros H [H1 H2 H3 H4 H5].
  destruct (state_ b) eqn:E, (cmd_type cmd) eqn:?; simplify_res;
    try (destruct H4 as [H6 H7]; [done|]);
    constructor; simpl; rewrite ?E; auto; try lia; try done; naive_solver.
Qed.

Lemma UpdateTiming_spec t time b :
  bank_ok b → t ≠ SIZE → is_u64 time →
  ∃ b', UpdateTiming t time b = Ok b' ∧ bank_ok b' ∧
    (∀ t', ready_at b' t' = if decide (t' = t) then Z.max (ready_at b t) time else ready_at b t') ∧
    state_ b' = state_ b ∧ open_row_ b' = open_row_ b.
Proof.
  intros Hb Ht Htime. unfold UpdateTiming.
  pose proof (ready_at_get b t Hb Ht) as Hg. apply vec_get_Ok in Hg.
  pose proof (vlookup_range _ _ _ Hg) as Hr.
  destruct (vec_modify_Ok (cmd_timing_ b) (CommandType_int t) (λ old, Ok (Z.max old time))
    _ _ Hg eq_refl) as (w & Hw & Hlen & Hl).
  pose proof (ready_at_u64 b t Hb) as Hu.
  rewrite Hw. simpl. eexists. split_and!; [done| | |done..].
  - destruct Hb. constructor; simpl; [congruence| |done..].
    apply vec_modify_run in Hw as (x & x' & Hx & [= <-] & ->). rewrite Hg in Hx. simplify_eq.
    apply list.Forall_insert; [done|]. unfold is_u64 in *. lia.
  - intros t'. unfold ready_at at 1. simpl. rewrite Hl.
    destruct (decide (t' = t)) as [->|Hne]; [by rewrite decide_True|].
    rewrite decide_False; [done|]. intros ?%CommandType_int_inj. done.
Qed.

(** A command that is ready is accepted by the state machine. *)
Lemma GetReadyCommand_accepted cmd clk b rc b' :
  GetReadyCommand cmd clk b = Ok (rc, b') → IsValid rc = true →
  ∃ b'', UpdateState rc b' = Ok b''.
Proof.
  intros (t & Hr & [->|[-> _]])%GetReadyCommand_inv Hv; [done|].
  by eapply required_type_accepted.
Qed.

(** What a request becomes: itself, or the command that prepares the bank. *)
Lemma GetReadyCommand_type cmd clk b rc b' :
  GetReadyCommand cmd clk b = Ok (rc, b') → IsValid rc = true →
  required_type cmd b = Ok (cmd_type rc, b') ∧ addr rc = addr cmd ∧ hex_addr rc = hex_addr cmd ∧
  (bank_ok b → ready_at b (cmd_type rc) ≤ clk).
Proof.
  intros (t & Hr & [->|[-> (time & Hl & Hle)]])%GetReadyCommand_inv Hv; [done|].
  split_and!; [done..|]. intros Hb. rewrite <- (same_bank_core_ready b b' _).
  - unfold ready_at. simpl. by rewrite Hl.
  - by eapply required_type_core.
Qed.

(** ** Serving a request

    [serve fuel cmd clk b] issues to one bank what [GetReadyCommand] asks for
    until the request itself is issued, all at a cycle [clk] when no timing
    constraint is left, and returns the types issued. *)
Fixpoint serve (fuel : nat) (cmd : Command) (clk : Z) (b : BankState)
    : res (list CommandType * BankState) :=
  match fuel with
  | O => Fault NoFuel
  | S fuel' =>
    '(rc, b1) ← GetReadyCommand cmd clk b;
    if IsValid rc then
      b2 ← UpdateState rc b1;
      if decide (cmd_type rc = cmd_type cmd) then Ok ([cmd_type rc], b2)
      else '(l, b3) ← serve fuel' cmd clk b2; Ok (cmd_type rc :: l, b3)
    else Fault AssertFailed
  end.

Lemma GetReadyCommand_now cmd clk b t b' :
  bank_ok b → (∀ t, ready_at b t ≤ clk) → required_type cmd b = Ok (t, b') →
  GetReadyCommand cmd clk b = Ok (MkCommand t (addr cmd) (hex_addr cmd), b').
Proof.
  intros Hb Hclk Hr. unfold GetReadyCommand. rewrite Hr. simpl.
  pose proof (required_type_valid _ _ _ _ Hr). rewrite decide_True by done.
  pose proof (required_type_core _ _ _ _ Hr) as Hc.
  rewrite (ready_at_get b' t) by (done || by eapply same_bank_core_ok). simpl.
  rewrite decide_True; [done|]. rewrite (same_bank_core_ready b b'); auto.
Qed.

(** The banks for which every timing constraint has passed. *)
Definition settled (clk : Z) (b : BankState) : Prop := bank_ok b ∧ ∀ t, ready_at b t ≤ clk.

Lemma serve_step cmd clk b t b1 n :
  settled clk b → required_type cmd b = Ok (t, b1) →
  ∃ b2, UpdateState (MkCommand t (addr cmd) (hex_addr cmd)) b1 = Ok b2 ∧ settled clk b2 ∧
    serve (S n) cmd clk b =
      (if decide (t = cmd_type cmd) then Ok ([t], b2)
       else '(l, b3) ← serve n cmd clk b2; Ok (t :: l, b3)).
Proof.
  intros [Hb Hclk] Hr. pose proof (required_type_core _ _ _ _ Hr) as Hc.
  destruct (required_type_accepted cmd b t b1 (addr cmd) (hex_addr cmd) Hr) as [b2 Hu].
  exists b2. split_and!; [done| |].
  - split; [by eapply UpdateState_bank_ok, same_bank_core_ok|]. intros t'.
    unfold ready_at. rewrite (UpdateState_timing _ _ _ Hu). fold (ready_at b1 t').
    rewrite (same_bank_core_ready b b1); auto.
  - pose proof (required_type_valid _ _ _ _ Hr).
    simpl. rewrite (GetReadyCommand_now cmd clk b t b1) by done. simpl.
    replace (IsValid _) with true by (symmetry; by apply bool_decide_eq_true).
    by rewrite Hu.
Qed.

Lemma serve_open cmd clk b n :
  settled clk b → IsReadWrite cmd = true → state_ b = OPEN → open_row_ b = Row cmd →
  ∃ b', serve (S n) cmd clk b = Ok ([cmd_type cmd], b').
Proof.
  intros Hs Hrw Ho Hrow. destruct (serve_step cmd clk b (cmd_type cmd) b n Hs) as (b2 & _ & _ & ->).
  - unfold required_type. rewrite Ho, Hrow. revert Hrw. by_type cmd; intros; by rewrite ?decide_True.
  - rewrite decide_True by done. eauto.
Qed.

Lemma serve_closed cmd clk b n :
  settled clk b → IsReadWrite cmd = true → state_ b = CLOSED →
  ∃ b', serve (S (S n)) cmd clk b = Ok ([ACTIVATE; cmd_type cmd], b').
Proof.
  intros Hs Hrw Ho.
  assert (∃ b1, required_type cmd b = Ok (ACTIVATE, b1) ∧ state_ b1 = CLOSED) as (b1 & Hr & Ho1).
  { unfold required_type. rewrite Ho. revert Hrw. by_type cmd; intros; try done; eauto. }
  destruct (serve_step cmd clk b ACTIVATE b1 (S n) Hs Hr) as (b2 & Hu & Hs2 & ->).
  rewrite decide_False by (by destruct (IsReadWrite_cases _ Hrw) as [->|[->|[->| ->]]]).
  unfold UpdateState in Hu. rewrite Ho1 in Hu. simpl in Hu. simplify_res.
  destruct (serve_open cmd clk _ n Hs2 Hrw) as [b' ->]; [done|done|]. simpl. eauto.
Qed.

(** ** Properties *)


