(* ===== verification/ChannelState.v ===== *)
(** * ChannelState: the banks of a channel (src/src/channel_state.h, channel_state.cc)

    The banks of every rank, the self-refresh flag of each rank, the queue of
    pending refreshes and the activation windows.  The command that must come
    next for a request, the state changes of an issued command, and the
    timing constraints it puts on every bank.  A refresh command has no
    physical address: its [hex_addr] is -1 converted to [uint64_t]. *)

From S2P Require Import Prelude Common Configuration Timing BankState.
Local Open Scope Z_scope.

Record ChannelState : Type := MkChannelState {
  rank_idle_cycles : list Z;
  rank_is_sref_ : list bool;
  bank_states_ : list (list (list BankState));
  refresh_q_ : list Command;
  four_aw_ : list (list Z);
  thirty_two_aw_ : list (list Z) }.

#[export] Instance ChannelState_eta : RecordEta ChannelState := λ s, MkChannelState
  (rank_idle_cycles s) (rank_is_sref_ s) (bank_states_ s) (refresh_q_ s) (four_aw_ s)
  (thirty_two_aw_ s).

Section channel.
Context (config_ : Config) (timing_ : Timing).

(** [std::vector(n, a)] *)
Definition vector_of {A} (n : Z) (a : A) : list A := replicate (Z.to_nat n) a.

Definition ChannelState_new : ChannelState := {|
  rank_idle_cycles := vector_of (ranks config_) 0;
  rank_is_sref_ := vector_of (ranks config_) false;
  bank_states_ := vector_of (ranks config_) (vector_of (bankgroups config_)
                    (vector_of (banks_per_group config_) BankState_new));
  refresh_q_ := [];
  four_aw_ := vector_of (ranks config_) [];
  thirty_two_aw_ := vector_of (ranks config_) [] |}.

(** Reads of one bank. *)
Definition IsRowOpen (rank bankgroup bank : Z) (s : ChannelState) : res bool :=
  b ← get3 (bank_states_ s) rank bankgroup bank; Ok (BankState.IsRowOpen b).
Definition GetInServeBank (rank bankgroup bank : Z) (s : ChannelState) : res bool :=
  b ← get3 (bank_states_ s) rank bankgroup bank; Ok (ReturnInServe b).
Definition GetServeEndCycleBank (rank bankgroup bank : Z) (s : ChannelState) : res Z :=
  b ← get3 (bank_states_ s) rank bankgroup bank; Ok (ReturnServeEndCycle b).
Definition IsRowClosed (rank bankgroup bank : Z) (s : ChannelState) : res bool :=
  b ← get3 (bank_states_ s) rank bankgroup bank; Ok (BankState.IsRowClosed b).
Definition GetPrechargeByRefreshBank (rank bankgroup bank : Z) (s : ChannelState) : res bool :=
  b ← get3 (bank_states_ s) rank bankgroup bank; Ok (ReturnPrechargeByRefresh b).
Definition GetActivateByWhoBank (rank bankgroup bank : Z) (s : ChannelState) : res bool :=
  b ← get3 (bank_states_ s) rank bankgroup bank; Ok (ReturnActivateByWho b).
Definition OpenRow (rank bankgroup bank : Z) (s : ChannelState) : res Z :=
  b ← get3 (bank_states_ s) rank bankgroup bank; Ok (BankState.OpenRow b).
Definition RowHitCount (rank bankgroup bank : Z) (s : ChannelState) : res Z :=
  b ← get3 (bank_states_ s) rank bankgroup bank; Ok (BankState.RowHitCount b).

(** A write of one bank. *)
Definition update_bank (rank bankgroup bank : Z) (f : BankState → res BankState)
    (s : ChannelState) : res ChannelState :=
  v ← modify3 (bank_states_ s) rank bankgroup bank f; Ok (s <| bank_states_ := v |>).

Definition SetInServeBank (rank bankgroup bank : Z) (in_serve : bool) (s : ChannelState)
    : res ChannelState :=
  update_bank rank bankgroup bank (λ b, Ok (SetInServe in_serve b)) s.
Definition SetServeEndCycleBank (rank bankgroup bank end_cycle : Z) (s : ChannelState)
    : res ChannelState :=
  update_bank rank bankgroup bank (λ b, Ok (SetServeEndCycle end_cycle b)) s.

Definition IsRankSelfRefreshing (rank : Z) (s : ChannelState) : res bool :=
  vec_get (rank_is_sref_ s) rank.
Definition IsRefreshWaiting (s : ChannelState) : bool := bool_decide (refresh_q_ s ≠ []).
Definition PendingRefCommand (s : ChannelState) : res Command :=
  of_option OutOfRange (head (refresh_q_ s)).

(** The loops [for j < bankgroups, for k < banks_per_group]. *)
Definition for_banks {S} (f : Z → Z → S → res S) (s : S) : res S :=
  for_upto (bankgroups config_) (λ j, for_upto (banks_per_group config_) (f j)) s.

(** Their index pairs in order. *)
Definition bank_pairs : list (Z * Z) :=
  concat ((λ j, (λ k, (j, k)) <$> seqZ 0 (banks_per_group config_))
            <$> seqZ 0 (bankgroups config_)).

(** The early [return false] leaves the answer at [false]. *)
Fixpoint all_idle (rank : Z) (jks : list (Z * Z)) (s : ChannelState) : res bool :=
  match jks with
  | [] => Ok true
  | (j, k) :: rest =>
    open ← IsRowOpen rank j k s;
    if (open : bool) then Ok false else all_idle rank rest s
  end.

Definition IsAllBankIdleInRank (rank : Z) (s : ChannelState) : res bool :=
  all_idle rank bank_pairs s.

Definition InServeBankNum (rank : Z) (s : ChannelState) : res Z :=
  for_banks (λ j k count,
    b ← GetInServeBank rank j k s; Ok (if (b : bool) then count + 1 else count)) 0.

Definition IsRWPendingOnRef (cmd : Command) (s : ChannelState) : res bool :=
  open ← IsRowOpen (Rank cmd) (Bankgroup cmd) (Bank cmd) s;
  if negb open then Ok false else
  hits ← RowHitCount (Rank cmd) (Bankgroup cmd) (Bank cmd) s;
  if decide (hits ≠ 0) then Ok false else
  row ← OpenRow (Rank cmd) (Bankgroup cmd) (Bank cmd) s;
  Ok (bool_decide (row = Row cmd)).

(** [erase] of the first element that satisfies [p]. *)
Fixpoint erase_first {A} (p : A → bool) (l : list A) : list A :=
  match l with
  | [] => []
  | x :: l' => if p x then l' else x :: erase_first p l'
  end.

Definition BankNeedRefresh (rank bankgroup bank : Z) (need : bool) (s : ChannelState)
    : ChannelState :=
  if need then
    s <| refresh_q_ ::= λ q, q ++
           [MkCommand REFRESH_BANK (MkAddress (-1) rank bankgroup bank (-1) (-1)) (u64 (-1))] |>
  else
    s <| refresh_q_ ::= erase_first (λ it, bool_decide
           (Rank it = rank ∧ Bankgroup it = bankgroup ∧ Bank it = bank)) |>.

Definition RankNeedRefresh (rank : Z) (need : bool) (s : ChannelState) : ChannelState :=
  if need then
    s <| refresh_q_ ::= λ q, q ++
           [MkCommand REFRESH (MkAddress (-1) rank (-1) (-1) (-1) (-1)) (u64 (-1))] |>
  else s <| refresh_q_ ::= erase_first (λ it, bool_decide (Rank it = rank)) |>.

(** ** Activation windows *)

(** [IsFAWReady] and [Is32AWReady] on the window [w] of a rank. *)
Definition window_ready (w : list Z) (limit curr_time : Z) : bool :=
  match w with
  | [] => true
  | t :: _ => negb (bool_decide (curr_time < t ∧ limit ≤ Z.of_nat (length w)))
  end.

Definition IsFAWReady (rank curr_time : Z) (s : ChannelState) : res bool :=
  w ← vec_get (four_aw_ s) rank; Ok (window_ready w 4 curr_time).

Definition Is32AWReady (rank curr_time : Z) (s : ChannelState) : res bool :=
  w ← vec_get (thirty_two_aw_ s) rank; Ok (window_ready w 32 curr_time).

Definition ActivationWindowOk (rank curr_time : Z) (s : ChannelState) : res bool :=
  tfaw_ok ← IsFAWReady rank curr_time s;
  if IsGDDR config_ then
    if negb tfaw_ok then Ok false else Is32AWReady rank curr_time s
  else Ok tfaw_ok.

(** One window at an activation: drop the front if it has expired, then add
    the end of the new window. *)
Definition window_push (delay curr_time : Z) (w : list Z) : list Z :=
  (match w with
   | t :: w' => if decide (t ≤ curr_time) then w' else w
   | [] => []
   end) ++ [u64 (curr_time + delay)].

Definition UpdateActivationTimes (rank curr_time : Z) (s : ChannelState) : res ChannelState :=
  f ← vec_modify (four_aw_ s) rank (λ w, Ok (window_push (tFAW config_) curr_time w));
  let s := s <| four_aw_ := f |> in
  if IsGDDR config_ then
    t ← vec_modify (thirty_two_aw_ s) rank (λ w, Ok (window_push (t32AW config_) curr_time w));
    Ok (s <| thirty_two_aw_ := t |>)
  else Ok s.

(** ** The command that must come next *)

(** [bank_states_[rank][j][k].GetReadyCommand(cmd, clk)], which marks the bank. *)
Definition bank_ready (rank j k : Z) (cmd : Command) (clk : Z) (s : ChannelState)
    : res (Command * ChannelState) :=
  b ← get3 (bank_states_ s) rank j k;
  '(rc, b') ← BankState.GetReadyCommand cmd clk b;
  s' ← update_bank rank j k (λ _, Ok b') s;
  Ok (rc, s').

(** The loop of a rank command over the banks [jks] of its rank. *)
Fixpoint rank_ready (cmd : Command) (clk : Z) (jks : list (Z * Z)) (ready_cmd : Command)
    (num_ready : Z) (s : ChannelState) : res (Command * ChannelState) :=
  match jks with
  | [] => Ok (if decide (num_ready = banks config_) then ready_cmd else Command_default, s)
  | (j, k) :: rest =>
    '(ready_cmd, s) ← bank_ready (Rank cmd) j k cmd clk s;
    if negb (IsValid ready_cmd) then rank_ready cmd clk rest ready_cmd num_ready s
    else if decide (cmd_type ready_cmd ≠ cmd_type cmd)
    then Ok (ready_cmd <| addr := MkAddress (-1) (Rank cmd) j k (-1) (-1) |>, s)
    else rank_ready cmd clk rest ready_cmd (num_ready + 1) s
  end.

Definition GetReadyCommand (cmd : Command) (clk : Z) (s : ChannelState)
    : res (Command * ChannelState) :=
  if IsRankCMD cmd then rank_ready cmd clk bank_pairs Command_default 0 s
  else
    '(ready_cmd, s) ← bank_ready (Rank cmd) (Bankgroup cmd) (Bank cmd) cmd clk s;
    if negb (IsValid ready_cmd) then Ok (Command_default, s)
    else if decide (cmd_type ready_cmd = ACTIVATE) then
      ok ← ActivationWindowOk (Rank ready_cmd) clk s;
      Ok (if (ok : bool) then ready_cmd else Command_default, s)
    else Ok (ready_cmd, s).

(** ** The effects of an issued command *)

Definition UpdateState (cmd : Command) (clk : Z) (s : ChannelState) : res ChannelState :=
  if IsRankCMD cmd then
    s ← for_banks (λ j k, update_bank (Rank cmd) j k (BankState.UpdateState cmd)) s;
    if IsRefresh cmd then Ok (RankNeedRefresh (Rank cmd) false s)
    else if decide (cmd_type cmd = SREF_ENTER) then
      v ← vec_set (rank_is_sref_ s) (Rank cmd) true; Ok (s <| rank_is_sref_ := v |>)
    else if decide (cmd_type cmd = SREF_EXIT) then
      v ← vec_set (rank_is_sref_ s) (Rank cmd) false; Ok (s <| rank_is_sref_ := v |>)
    else Ok s
  else
    s ← update_bank (Rank cmd) (Bankgroup cmd) (Bank cmd) (BankState.UpdateState cmd) s;
    if IsRefresh cmd
    then Ok (BankNeedRefresh (Rank cmd) (Bankgroup cmd) (Bank cmd) false s)
    else Ok s.

(** [for (auto cmd_timing : cmd_timing_list)] on one bank. *)
Definition hold_back (cmd_timing_list : timing_list) (clk rank j k : Z) (s : ChannelState)
    : res ChannelState :=
  foldM (λ cmd_timing, update_bank rank j k
           (BankState.UpdateTiming cmd_timing.1 (u64 (clk + cmd_timing.2))))
    cmd_timing_list s.

Definition UpdateSameBankTiming (a : Address) (l : timing_list) (clk : Z)
    : ChannelState → res ChannelState :=
  hold_back l clk (rank a) (bankgroup a) (bank a).

Definition UpdateOtherBanksSameBankgroupTiming (a : Address) (l : timing_list) (clk : Z)
    : ChannelState → res ChannelState :=
  for_upto (banks_per_group config_) (λ k s,
    if decide (k ≠ bank a) then hold_back l clk (rank a) (bankgroup a) k s else Ok s).

Definition UpdateOtherBankgroupsSameRankTiming (a : Address) (l : timing_list) (clk : Z)
    : ChannelState → res ChannelState :=
  for_upto (bankgroups config_) (λ j s,
    if decide (j ≠ bankgroup a)
    then for_upto (banks_per_group config_) (λ k, hold_back l clk (rank a) j k) s
    else Ok s).

Definition UpdateOtherRanksTiming (a : Address) (l : timing_list) (clk : Z)
    : ChannelState → res ChannelState :=
  for_upto (ranks config_) (λ i s,
    if decide (i ≠ rank a) then for_banks (λ j k, hold_back l clk i j k) s else Ok s).

Definition UpdateSameRankTiming (a : Address) (l : timing_list) (clk : Z)
    : ChannelState → res ChannelState :=
  for_banks (λ j k, hold_back l clk (rank a) j k).

Definition UpdateTiming (cmd : Command) (clk : Z) (s : ChannelState) : res ChannelState :=
  let at_cmd (v : list timing_list) := vec_get v (CommandType_int (cmd_type cmd)) in
  match cmd_type cmd with
  | ACTIVATE | READ | READ_PRECHARGE | WRITE | WRITE_PRECHARGE | PRECHARGE | REFRESH_BANK =>
    s ← (if decide (cmd_type cmd = ACTIVATE) then UpdateActivationTimes (Rank cmd) clk s
         else Ok s);
    l ← at_cmd (same_bank timing_);
    s ← UpdateSameBankTiming (addr cmd) l clk s;
    l ← at_cmd (other_banks_same_bankgroup timing_);
    s ← UpdateOtherBanksSameBankgroupTiming (addr cmd) l clk s;
    l ← at_cmd (other_bankgroups_same_rank timing_);
    s ← UpdateOtherBankgroupsSameRankTiming (addr cmd) l clk s;
    l ← at_cmd (other_ranks timing_);
    UpdateOtherRanksTiming (addr cmd) l clk s
  | REFRESH | SREF_ENTER | SREF_EXIT =>
    l ← at_cmd (same_rank timing_);
    UpdateSameRankTiming (addr cmd) l clk s
  | SIZE => Fault (AbruptExit "channel_state.cc" 207)
  end.

Definition UpdateTimingAndStates (cmd : Command) (clk : Z) (s : ChannelState)
    : res ChannelState :=
  s ← UpdateState cmd clk s; UpdateTiming cmd clk s.

(** ** Timing constraints, bank by bank

    The specification of [UpdateTiming]: an issued command holds back, on
    every bank, the command types of one list of the timing tables. *)

(** The list that applies to bank [(i, j, k)] when [cmd] is issued. *)
Definition constraints_for (cmd : Command) (i j k : Z) : timing_list :=
  let t := cmd_type cmd in
  match t with
  | REFRESH | SREF_ENTER | SREF_EXIT =>
    if decide (i = Rank cmd) then timing_at (same_rank timing_) t else []
  | _ =>
    if decide (i ≠ Rank cmd) then timing_at (other_ranks timing_) t
    else if decide (j ≠ Bankgroup cmd) then timing_at (other_bankgroups_same_rank timing_) t
    else if decide (k ≠ Bank cmd) then timing_at (other_banks_same_bankgroup timing_) t
    else timing_at (same_bank timing_) t
  end.

(** A bank after the constraints of a list. *)
Definition raise_times (l : timing_list) (clk : Z) (ts : list Z) : list Z :=
  foldl (λ ts p, alter (λ old, Z.max old (u64 (clk + p.2)))
                   (Z.to_nat (CommandType_int p.1)) ts) ts l.
Definition raise_bank (l : timing_list) (clk : Z) (b : BankState) : BankState :=
  b <| cmd_timing_ ::= raise_times l clk |>.

(** The earliest cycle for type [t] after the constraints of a list. *)
Definition raise_to (l : timing_list) (clk : Z) (t : CommandType) (x : Z) : Z :=
  foldl (λ acc p, if decide (p.1 = t) then Z.max acc (u64 (clk + p.2)) else acc) x l.

(** Only the timing of the banks changes, by the lists [cs]. *)
Definition raised (cs : Z → Z → Z → timing_list) (clk : Z) (s s' : ChannelState) : Prop :=
  ∃ v, s' = s <| bank_states_ := v |> ∧
    ∀ i j k, lookup3 v i j k = raise_bank (cs i j k) clk <$> lookup3 (bank_states_ s) i j k.

(** The banks have the dimensions of the configuration and ten slots each. *)
Definition banks_shape (s : ChannelState) : Prop :=
  dims3 (ranks config_) (bankgroups config_) (banks_per_group config_) (bank_states_ s) ∧
  ∀ i j k b, lookup3 (bank_states_ s) i j k = Some b → length (cmd_timing_ b) = 10%nat.

(** [op] returns, and raises the constraints [cs]. *)
Definition raises (op : ChannelState → res ChannelState) (cs : Z → Z → Z → timing_list)
    (clk : Z) : Prop :=
  ∀ s, banks_shape s → ∃ s', op s = Ok s' ∧ raised cs clk s s'.

Lemma raise_times_length l clk ts : length (raise_times l clk ts) = length ts.
Proof.
  revert ts; induction l as [|p l IH]; intros ts; simpl; [done|].
  unfold raise_times in *. simpl. by rewrite IH, length_alter.
Qed.

Lemma raise_times_app l1 l2 clk ts :
  raise_times (l1 ++ l2) clk ts = raise_times l2 clk (raise_times l1 clk ts).
Proof. apply foldl_app. Qed.

Lemma raise_bank_app l1 l2 clk b :
  raise_bank (l1 ++ l2) clk b = raise_bank l2 clk (raise_bank l1 clk b).
Proof.
  unfold raise_bank, update_field. cbn. by rewrite raise_times_app.
Qed.

Lemma raise_bank_nil clk b : raise_bank [] clk b = b.
Proof. by destruct b. Qed.

Lemma raised_shape cs clk s s' : raised cs clk s s' → banks_shape s → banks_shape s'.
Proof.
  intros (v & -> & Hv) [Hd Hl]. split; simpl.
  - intros i j k. rewrite Hv, fmap_is_Some. apply Hd.
  - intros i j k b. rewrite Hv. intros (b0 & Hb & ->)%fmap_Some.
    unfold raise_bank. simpl. rewrite raise_times_length. eauto.
Qed.

Lemma raised_trans cs1 cs2 clk s1 s2 s3 :
  raised cs1 clk s1 s2 → raised cs2 clk s2 s3 →
  raised (λ i j k, cs1 i j k ++ cs2 i j k) clk s1 s3.
Proof.
  intros (v & -> & Hv) (w & -> & Hw). exists w. split; [done|]. intros i j k.
  rewrite Hw. simpl. rewrite Hv. destruct (lookup3 _ i j k); simpl; [|done].
  by rewrite raise_bank_app.
Qed.

Lemma raised_ext cs1 cs2 clk s s' :
  (∀ i j k, is_Some (lookup3 (bank_states_ s) i j k) → cs1 i j k = cs2 i j k) →
  raised cs1 clk s s' → raised cs2 clk s s'.
Proof.
  intros H (v & -> & Hv). exists v. split; [done|]. intros i j k. rewrite Hv.
  destruct (lookup3 _ i j k) eqn:E; simpl; [|done]. by rewrite H by eauto.
Qed.

Lemma raises_ext op cs1 cs2 clk :
  (∀ i j k, 0 ≤ i < ranks config_ → 0 ≤ j < bankgroups config_ →
     0 ≤ k < banks_per_group config_ → cs1 i j k = cs2 i j k) →
  raises op cs1 clk → raises op cs2 clk.
Proof.
  intros Heq Hop s Hs. destruct (Hop s Hs) as (s' & Hrun & Hr). exists s'. split; [done|].
  eapply raised_ext, Hr. intros i j k Hsome. apply Hs in Hsome. apply Heq; lia.
Qed.

Lemma raises_skip clk : raises (λ s, Ok s) (λ _ _ _, []) clk.
Proof.
  intros s Hs. exists s. split; [done|]. exists (bank_states_ s). split; [by destruct s|].
  intros i j k. destruct (lookup3 _ i j k); simpl; [|done]. by rewrite raise_bank_nil.
Qed.

Lemma raises_bind op1 op2 cs1 cs2 clk :
  raises op1 cs1 clk → raises op2 cs2 clk →
  raises (λ s, op1 s ≫= op2) (λ i j k, cs1 i j k ++ cs2 i j k) clk.
Proof.
  intros H1 H2 s Hs. destruct (H1 s Hs) as (s1 & Hr1 & Hra1).
  destruct (H2 s1) as (s2 & Hr2 & Hra2); [by eapply raised_shape|].
  exists s2. rewrite Hr1. split; [done|]. by eapply raised_trans.
Qed.

Lemma raises_loop {A} (op : A → ChannelState → res ChannelState) cs clk (xs : list A) :
  (∀ x, x ∈ xs → raises (op x) (cs x) clk) →
  raises (foldM op xs) (λ i j k, concat ((λ x, cs x i j k) <$> xs)) clk.
Proof.
  induction xs as [|x xs IH]; intros Hop; simpl; [apply raises_skip|].
  apply (raises_bind (op x) (foldM op xs)); [set_solver|]. apply IH. set_solver.
Qed.

Lemma concat_select {A B} `{EqDecision A} (g : A → list B) (k : A) (xs : list A) :
  NoDup xs →
  concat ((λ x, if decide (k = x) then g x else []) <$> xs) = if decide (k ∈ xs) then g k else [].
Proof.
  induction xs as [|x xs IH]; intros Hnd; [done|]. rewrite fmap_cons. cbn [concat].
  apply list.NoDup_cons in Hnd as [Hnin Hnd]. rewrite IH by done.
  destruct (decide (k = x)) as [->|], (decide (_ ∈ xs)), (decide (_ ∈ x :: xs));
    simpl; rewrite ?app_nil_r; done || set_solver.
Qed.

Lemma concat_nil {A B} (xs : list A) : concat ((λ _, @nil B) <$> xs) = [].
Proof. by induction xs. Qed.

(** A loop over a range whose body [x] concerns one index only. *)
Lemma concat_seqZ {B} (g : Z → list B) (k n : Z) :
  0 ≤ k < n → concat ((λ x, if decide (k = x) then g x else []) <$> seqZ 0 n) = g k.
Proof.
  intros Hk. rewrite concat_select by apply NoDup_seqZ.
  by rewrite decide_True by (apply elem_of_seqZ; lia).
Qed.

Lemma UpdateTiming_raise t time b :
  length (cmd_timing_ b) = 10%nat → t ≠ SIZE →
  BankState.UpdateTiming t time b =
    Ok (b <| cmd_timing_ ::= alter (λ old, Z.max old time) (Z.to_nat (CommandType_int t)) |>).
Proof.
  intros Hlen Ht. unfold BankState.UpdateTiming, vec_modify.
  pose proof (CommandType_int_range t Ht) as Hr.
  destruct (vlookup_lt (cmd_timing_ b) (CommandType_int t)) as [x Hx]; [rewrite Hlen; lia|].
  pose proof Hx as [_ Hl]%vlookup_Some. apply vec_get_Ok in Hx as ->. simpl.
  unfold update_field. cbn. do 2 f_equal.
  apply list_eq. intros i. destruct (decide (i = Z.to_nat (CommandType_int t))) as [->|].
  - rewrite list_lookup_alter_eq, list_lookup_insert_eq, Hl; [done|]. rewrite Hlen. lia.
  - by rewrite list_lookup_alter_ne, list_lookup_insert_ne by done.
Qed.

Lemma update_bank_raise r j k t d clk s :
  t ≠ SIZE → banks_shape s →
  0 ≤ r < ranks config_ → 0 ≤ j < bankgroups config_ → 0 ≤ k < banks_per_group config_ →
  ∃ s', update_bank r j k (BankState.UpdateTiming t (u64 (clk + d))) s = Ok s' ∧
    raised (λ i' j' k', if decide ((i', j', k') = (r, j, k)) then [(t, d)] else []) clk s s'.
Proof.
  intros Ht [Hd Hl] Hr Hj Hk. destruct (dims3_lookup _ _ _ _ r j k Hd Hr Hj Hk) as [b Hb].
  pose proof (UpdateTiming_raise t (u64 (clk + d)) b (Hl _ _ _ _ Hb) Ht) as Hu.
  destruct (modify3_Ok _ _ _ _ (BankState.UpdateTiming t (u64 (clk + d))) _ _ Hb Hu) as [v Hv].
  unfold update_bank. rewrite Hv. simpl. eexists. split; [done|]. exists v. split; [done|].
  intros i' j' k'. apply modify3_inv in Hv as (a & a' & Ha & Hf & Hv).
  rewrite Hv. case_decide; simplify_eq.
  - rewrite Hb. simpl. rewrite Hu in Hf. injection Hf as <-. done.
  - destruct (lookup3 _ i' j' k'); simpl; [|done]. by rewrite raise_bank_nil.
Qed.

Lemma hold_back_raises l clk r j k :
  timing_list_ok l →
  0 ≤ r < ranks config_ → 0 ≤ j < bankgroups config_ → 0 ≤ k < banks_per_group config_ →
  raises (hold_back l clk r j k)
    (λ i' j' k', if decide ((i', j', k') = (r, j, k)) then l else []) clk.
Proof.
  intros Hok Hr Hj Hk. unfold hold_back.
  eapply (raises_ext _ (λ i' j' k', concat ((λ p : CommandType * Z,
    if decide ((i', j', k') = (r, j, k)) then [p] else []) <$> l))).
  { intros i' j' k' _ _ _. destruct (decide _); [|apply concat_nil].
    clear Hok. induction l as [|p l IH]; [done|]. simpl. by f_equal. }
  apply (raises_loop (λ p, update_bank r j k (BankState.UpdateTiming p.1 (u64 (clk + p.2))))
    (λ p i' j' k', if decide ((i', j', k') = (r, j, k)) then [p] else [])).
  intros [t d] Hin s Hs. simpl.
  unfold timing_list_ok in Hok. rewrite list.Forall_forall in Hok. apply Hok in Hin.
  by apply update_bank_raise.
Qed.

(** Rewrites [decide] on a triple of indices into nested decisions. *)
Lemma decide_triple (i j k i' j' k' : Z) (l : timing_list) :
  (if decide ((i', j', k') = (i, j, k)) then l else []) =
  (if decide (i' = i) then if decide (j' = j) then if decide (k' = k) then l else [] else [] else []).
Proof. repeat case_decide; simplify_eq; done || congruence. Qed.

Lemma seqZ_range x n : x ∈ seqZ 0 n → 0 ≤ x < n.
Proof. intros ?%elem_of_seqZ. lia. Qed.

(** A loop over all banks of rank [r]. *)
Lemma for_banks_raises l clk r :
  timing_list_ok l → 0 ≤ r < ranks config_ →
  raises (for_banks (λ j k, hold_back l clk r j k))
    (λ i' _ _, if decide (i' = r) then l else []) clk.
Proof.
  intros Hok Hr.
  eapply raises_ext; [|apply (raises_loop _ (λ j i' j' k', concat ((λ k,
    if decide ((i', j', k') = (r, j, k)) then l else []) <$> seqZ 0 (banks_per_group config_))));
    intros j Hj%seqZ_range; apply (raises_loop _ (λ k i' j' k',
      if decide ((i', j', k') = (r, j, k)) then l else []));
    intros k Hk%seqZ_range; by apply hold_back_raises].
  intros i j k Hi Hj Hk. simpl.
  rewrite (list_fmap_ext _ (λ j0, if decide (j = j0) then if decide (i = r) then l else [] else [])).
  - by rewrite (concat_seqZ (λ _, if decide (i = r) then l else [])).
  - intros n j0 _.
    rewrite (list_fmap_ext _ (λ k0, if decide (k = k0)
      then if decide (j = j0) then if decide (i = r) then l else [] else [] else [])).
    + rewrite (concat_seqZ (λ _, if decide (j = j0) then if decide (i = r) then l else []
        else [])) by done. repeat case_decide; done.
    + intros ? k0 _. cbn beta. rewrite decide_triple. repeat case_decide; done.
Qed.

Section of_address.
Context (a : Address) (l : timing_list) (clk : Z).
Hypothesis Hl : timing_list_ok l.
Hypothesis Ha : 0 ≤ rank a < ranks config_.

Lemma UpdateSameRankTiming_raises :
  raises (UpdateSameRankTiming a l clk) (λ i _ _, if decide (i = rank a) then l else []) clk.
Proof. by apply for_banks_raises. Qed.

Lemma UpdateOtherRanksTiming_raises :
  raises (UpdateOtherRanksTiming a l clk) (λ i _ _, if decide (i ≠ rank a) then l else []) clk.
Proof.
  unfold UpdateOtherRanksTiming, for_upto.
  eapply raises_ext; [|apply (raises_loop _ (λ x i' _ _,
    if decide (i' = x) then if decide (x ≠ rank a) then l else [] else []));
    intros x Hx%seqZ_range; destruct (decide (x ≠ rank a))].
  - intros i j k Hi Hj Hk. simpl. by rewrite (concat_seqZ (λ x, if decide (x ≠ rank a) then l else [])).
  - eapply raises_ext; [|by apply for_banks_raises]. intros. simpl. repeat case_decide; done.
  - eapply raises_ext; [|apply raises_skip]. intros. simpl. repeat case_decide; done.
Qed.

Hypothesis Hg : 0 ≤ bankgroup a < bankgroups config_.

Lemma UpdateOtherBankgroupsSameRankTiming_raises :
  raises (UpdateOtherBankgroupsSameRankTiming a l clk)
    (λ i j _, if decide (i = rank a) then if decide (j ≠ bankgroup a) then l else [] else []) clk.
Proof.
  unfold UpdateOtherBankgroupsSameRankTiming, for_upto.
  eapply raises_ext; [|apply (raises_loop _ (λ x i' j' _, if decide (j' = x) then
    if decide (i' = rank a) then if decide (x ≠ bankgroup a) then l else [] else [] else []));
    intros x Hx%seqZ_range; destruct (decide (x ≠ bankgroup a))].
  - intros i j k Hi Hj Hk. simpl. rewrite (concat_seqZ (λ x, if decide (i = rank a)
      then if decide (x ≠ bankgroup a) then l else [] else [])) by done. done.
  - eapply raises_ext; [|apply (raises_loop _ (λ k i' j' k',
      if decide ((i', j', k') = (rank a, x, k)) then l else []));
      intros k Hk%seqZ_range; by apply hold_back_raises].
    intros i j k Hi Hj Hk. simpl.
    rewrite (list_fmap_ext _ (λ k0, if decide (k = k0)
      then if decide (j = x) then if decide (i = rank a) then l else [] else [] else [])).
    + rewrite (concat_seqZ (λ _, if decide (j = x) then if decide (i = rank a) then l else []
        else [])) by done. repeat case_decide; done.
    + intros ? k0 _. cbn beta. rewrite decide_triple. repeat case_decide; done.
  - eapply raises_ext; [|apply raises_skip]. intros. simpl. repeat case_decide; done.
Qed.

Lemma UpdateOtherBanksSameBankgroupTiming_raises :
  raises (UpdateOtherBanksSameBankgroupTiming a l clk)
    (λ i j k, if decide (i = rank a) then if decide (j = bankgroup a) then
       if decide (k ≠ bank a) then l else [] else [] else []) clk.
Proof.
  unfold UpdateOtherBanksSameBankgroupTiming, for_upto.
  eapply raises_ext; [|apply (raises_loop _ (λ x i' j' k', if decide (k' = x) then
    if decide (i' = rank a) then if decide (j' = bankgroup a) then
      if decide (x ≠ bank a) then l else [] else [] else [] else []));
    intros x Hx%seqZ_range; destruct (decide (x ≠ bank a))].
  - intros i j k Hi Hj Hk. simpl. by rewrite (concat_seqZ (λ x, if decide (i = rank a)
      then if decide (j = bankgroup a) then if decide (x ≠ bank a) then l else [] else [] else [])).
  - eapply raises_ext; [|by apply hold_back_raises]. intros. simpl. rewrite decide_triple.
    repeat case_decide; done.
  - eapply raises_ext; [|apply raises_skip]. intros. simpl. repeat case_decide; done.
Qed.

Hypothesis Hb : 0 ≤ bank a < banks_per_group config_.

Lemma UpdateSameBankTiming_raises :
  raises (UpdateSameBankTiming a l clk)
    (λ i j k, if decide (i = rank a) then if decide (j = bankgroup a) then
       if decide (k = bank a) then l else [] else [] else []) clk.
Proof.
  eapply raises_ext; [|by apply hold_back_raises]. intros. simpl. by rewrite decide_triple.
Qed.
End of_address.

(** ** Addresses a command may carry *)

Definition rank_ok (a : Address) : Prop := 0 ≤ rank a < ranks config_.
Definition bank_addr_ok (a : Address) : Prop :=
  rank_ok a ∧ 0 ≤ bankgroup a < bankgroups config_ ∧ 0 ≤ bank a < banks_per_group config_.

(** Rank commands need a rank, the others a bank. *)
Definition cmd_addr_ok (cmd : Command) : Prop :=
  if IsRankCMD cmd then rank_ok (addr cmd) else bank_addr_ok (addr cmd).

#[global] Instance cmd_addr_ok_dec cmd : Decision (cmd_addr_ok cmd).
Proof. unfold cmd_addr_ok, bank_addr_ok, rank_ok. destruct (IsRankCMD cmd); apply _. Defined.

Lemma bank_addr_cmd_ok cmd : bank_addr_ok (addr cmd) → cmd_addr_ok cmd.
Proof. unfold cmd_addr_ok, bank_addr_ok. destruct (IsRankCMD cmd); tauto. Qed.

Definition windows_shape (s : ChannelState) : Prop :=
  length (four_aw_ s) = Z.to_nat (ranks config_) ∧
  length (thirty_two_aw_ s) = Z.to_nat (ranks config_).

(** The activation windows after an issued command. *)
Definition activation_step (cmd : Command) (clk : Z) (s : ChannelState) : res ChannelState :=
  if decide (cmd_type cmd = ACTIVATE) then UpdateActivationTimes (Rank cmd) clk s else Ok s.

Lemma UpdateActivationTimes_inv r clk s s' :
  UpdateActivationTimes r clk s = Ok s' →
  ∃ f t, s' = s <| four_aw_ := f |> <| thirty_two_aw_ := t |> ∧
    length f = length (four_aw_ s) ∧ length t = length (thirty_two_aw_ s) ∧
    (∃ w, vlookup (four_aw_ s) r = Some w ∧
      ∀ i, vlookup f i = if decide (i = r) then Some (window_push (tFAW config_) clk w)
                         else vlookup (four_aw_ s) i).
Proof.
  unfold UpdateActivationTimes. intros H. apply bind_Ok_inv in H as (f & Hf & H).
  apply vec_modify_inv in Hf as (w & w' & Hw & [= <-] & Hlen & Hl).
  destruct (IsGDDR config_); simplify_res.
  - apply vec_modify_inv in Hrun as (x & x' & Hx & [= <-] & Hlen2 & _).
    exists f, a. split_and!; [by destruct s|done|done|eauto].
  - exists f, (thirty_two_aw_ s). split_and!; [by destruct s|done|done|eauto].
Qed.

Lemma UpdateActivationTimes_total r clk s :
  windows_shape s → 0 ≤ r < ranks config_ → ∃ s', UpdateActivationTimes r clk s = Ok s'.
Proof.
  intros [H4 H32] Hr. unfold UpdateActivationTimes.
  destruct (vlookup_lt (four_aw_ s) r) as [w Hw]; [lia|].
  destruct (vec_modify_Ok _ _ (λ w, Ok (window_push (tFAW config_) clk w)) _ _ Hw eq_refl)
    as (f & -> & _). simpl. destruct (IsGDDR config_); [|eauto].
  destruct (vlookup_lt (thirty_two_aw_ s) r) as [w2 Hw2]; [lia|].
  destruct (vec_modify_Ok _ _ (λ w, Ok (window_push (t32AW config_) clk w)) _ _ Hw2 eq_refl)
    as (t & -> & _). simpl. eauto.
Qed.

Lemma activation_step_banks cmd clk s s' :
  activation_step cmd clk s = Ok s' → bank_states_ s' = bank_states_ s.
Proof.
  unfold activation_step. case_decide; [|intros; by simplify_res].
  by intros (f & t & -> & _)%UpdateActivationTimes_inv.
Qed.

Lemma UpdateTiming_raises cmd clk s s1 :
  Timing_ok timing_ → cmd_addr_ok cmd → IsValid cmd = true → banks_shape s →
  activation_step cmd clk s = Ok s1 →
  ∃ s', UpdateTiming cmd clk s = Ok s' ∧ raised (constraints_for cmd) clk s1 s'.
Proof.
  intros [T1 T2 T3 T4 T5] Haddr Hv Hs Hact.
  assert (banks_shape s1) as Hs1 by (unfold banks_shape; by rewrite (activation_step_banks _ _ _ _ Hact)).
  assert (cmd_type cmd ≠ SIZE) as Hty by by apply IsValid_true.
  unfold UpdateTiming. rewrite !table_ok_get by done.
  set (l1 := timing_at (same_bank timing_) (cmd_type cmd)).
  set (l2 := timing_at (other_banks_same_bankgroup timing_) (cmd_type cmd)).
  set (l3 := timing_at (other_bankgroups_same_rank timing_) (cmd_type cmd)).
  set (l4 := timing_at (other_ranks timing_) (cmd_type cmd)).
  set (l5 := timing_at (same_rank timing_) (cmd_type cmd)).
  assert (IsRankCMD cmd = true → ∃ s', UpdateSameRankTiming (addr cmd) l5 clk s1 = Ok s' ∧
            raised (λ i _ _, if decide (i = Rank cmd) then l5 else []) clk s1 s') as Hrank.
  { intros E. unfold cmd_addr_ok in Haddr. rewrite E in Haddr.
    apply UpdateSameRankTiming_raises; [by apply timing_at_ok|done|done]. }
  assert (IsRankCMD cmd = false → ∃ s', (s ← UpdateSameBankTiming (addr cmd) l1 clk s1;
      s ← UpdateOtherBanksSameBankgroupTiming (addr cmd) l2 clk s;
      s ← UpdateOtherBankgroupsSameRankTiming (addr cmd) l3 clk s;
      UpdateOtherRanksTiming (addr cmd) l4 clk s) = Ok s' ∧
      raised (λ i j k, if decide (i ≠ Rank cmd) then l4 else if decide (j ≠ Bankgroup cmd)
        then l3 else if decide (k ≠ Bank cmd) then l2 else l1) clk s1 s') as Hbank.
  { intros E. unfold cmd_addr_ok in Haddr. rewrite E in Haddr. destruct Haddr as (Hr & Hg & Hb).
    unfold rank_ok in Hr.
    edestruct (raises_bind _ _ _ _ clk
      (UpdateSameBankTiming_raises (addr cmd) l1 clk ltac:(by apply timing_at_ok) Hr Hg Hb)
      (raises_bind _ _ _ _ clk
        (UpdateOtherBanksSameBankgroupTiming_raises (addr cmd) l2 clk ltac:(by apply timing_at_ok) Hr Hg)
        (raises_bind _ _ _ _ clk
          (UpdateOtherBankgroupsSameRankTiming_raises (addr cmd) l3 clk ltac:(by apply timing_at_ok) Hr)
          (UpdateOtherRanksTiming_raises (addr cmd) l4 clk ltac:(by apply timing_at_ok)))))
      as (s' & Hrun & Hra); [exact Hs1|].
    exists s'. split; [exact Hrun|]. eapply raised_ext, Hra.
    intros i j k _. unfold Rank, Bankgroup, Bank.
    repeat case_decide; simpl; rewrite ?app_nil_r; done || congruence. }
  unfold activation_step in Hact. unfold constraints_for. fold l1 l2 l3 l4 l5.
  clearbody l1 l2 l3 l4 l5.
  by_type cmd; try done; simpl in *;
    first [injection Hact as <-; first [by apply Hrank|by apply Hbank]|rewrite Hact; by apply Hbank].
Qed.

(** ** The earliest cycles after a list of constraints *)

Lemma vlookup_alter_Z {A} (f : A → A) (v : list A) (i j : Z) :
  0 ≤ i → vlookup (alter f (Z.to_nat i) v) j =
          if decide (j = i) then f <$> vlookup v j else vlookup v j.
Proof.
  intros Hi. unfold vlookup. destruct (decide (j = i)) as [->|].
  - rewrite !decide_True by done. apply list_lookup_alter_eq.
  - case_decide; [|done]. apply list_lookup_alter_ne. lia.
Qed.

Lemma ready_at_raise_one t0 d clk b t :
  length (cmd_timing_ b) = 10%nat → t0 ≠ SIZE →
  ready_at (raise_bank [(t0, d)] clk b) t = raise_to [(t0, d)] clk t (ready_at b t).
Proof.
  intros Hlen Ht0. pose proof (CommandType_int_range t0 Ht0) as Hr.
  unfold ready_at, raise_bank, raise_to. simpl. rewrite vlookup_alter_Z by lia.
  destruct (decide (t0 = t)) as [->|Hne].
  - rewrite decide_True by done.
    destruct (vlookup_lt (cmd_timing_ b) (CommandType_int t)) as [x ->]; [rewrite Hlen; lia|done].
  - rewrite decide_False by (intros ?%CommandType_int_inj; congruence). done.
Qed.

Lemma ready_at_raise l clk b t :
  length (cmd_timing_ b) = 10%nat → timing_list_ok l →
  ready_at (raise_bank l clk b) t = raise_to l clk t (ready_at b t).
Proof.
  intros Hlen. induction l as [|[t0 d] l IH] using rev_ind; intros Hl; [by rewrite raise_bank_nil|].
  apply list.Forall_app in Hl as [Hl [Hp _]%list.Forall_cons].
  rewrite raise_bank_app, ready_at_raise_one; [|simpl; by rewrite raise_times_length|exact Hp].
  rewrite IH by done. unfold raise_to. by rewrite foldl_app.
Qed.

Lemma raise_to_ge l clk t x : x ≤ raise_to l clk t x.
Proof.
  revert x; induction l as [|p l IH]; intros x; simpl; [lia|].
  unfold raise_to in *. simpl. etransitivity; [|apply IH]. case_decide; lia.
Qed.

Lemma raise_to_in l clk t d x : (t, d) ∈ l → u64 (clk + d) ≤ raise_to l clk t x.
Proof.
  revert x; induction l as [|p l IH]; intros x Hin; [by apply not_elem_of_nil in Hin|].
  apply elem_of_cons in Hin as [<-|Hin]; unfold raise_to; simpl.
  - rewrite decide_True by done. etransitivity; [|apply raise_to_ge]. lia.
  - by apply IH.
Qed.

Lemma raise_to_u64 l clk t x : is_u64 x → is_u64 (raise_to l clk t x).
Proof.
  revert x; induction l as [|p l IH]; intros x Hx; [done|]. unfold raise_to. simpl. apply IH.
  case_decide; [|done]. pose proof (u64_range (clk + p.2)). unfold is_u64 in *. lia.
Qed.

Lemma raise_bank_ok l clk b : timing_list_ok l → bank_ok b → bank_ok (raise_bank l clk b).
Proof.
  intros Hl [H1 H2 H3 H4 H5]. constructor; simpl; [by rewrite raise_times_length| |done..].
  clear Hl. revert H2. generalize (cmd_timing_ b). clear.
  induction l as [|p l IH]; intros ts Hts; [done|]. apply (IH (alter _ _ ts)).
  apply list.Forall_alter; [done|]. intros x _ Hx.
  pose proof (u64_range (clk + p.2)). unfold is_u64 in *. lia.
Qed.

Lemma constraints_for_ok cmd i j k : Timing_ok timing_ → timing_list_ok (constraints_for cmd i j k).
Proof.
  intros [T1 T2 T3 T4 T5]. unfold constraints_for.
  destruct (cmd_type cmd); repeat case_decide; by (apply timing_at_ok || constructor).
Qed.
End channel.

(** ** Properties *)

(** C8: [ChannelState::UpdateTiming] implements its specification.  For every
    command with a valid target it returns, and every bank of the channel
    ends with exactly the earliest cycles of the constraint list that its
    position relative to the command selects (same bank, same bank group, same
    rank, other rank, or the whole rank), each the maximum of the old one and
    the issue cycle plus the delay; the four nested loops forget no bank and
    touch none twice, and nothing but the timing of a bank changes. *)
Theorem UpdateTiming_refines (c : Config) (cmd : Command) (clk : Z) (s : ChannelState) :
  cmd_addr_ok c cmd → IsValid cmd = true → banks_shape c s → windows_shape c s →
  ∃ s', UpdateTiming c (Timing_new c) cmd clk s = Ok s' ∧
    refresh_q_ s' = refresh_q_ s ∧ rank_is_sref_ s' = rank_is_sref_ s ∧
    ∀ i j k b, lookup3 (bank_states_ s) i j k = Some b →
      ∃ b', lookup3 (bank_states_ s') i j k = Some b' ∧ state_ b' = state_ b ∧
        open_row_ b' = open_row_ b ∧ ∀ t,
        ready_at b' t = raise_to (constraints_for (Timing_new c) cmd i j k) clk t (ready_at b t).
Proof.
  intros Ha Hv Hs Hw. pose proof (Timing_new_ok c) as Htm.
  assert (∃ s1, activation_step c cmd clk s = Ok s1 ∧ refresh_q_ s1 = refresh_q_ s ∧
    rank_is_sref_ s1 = rank_is_sref_ s) as (s1 & Hact & E1 & E2).
  { unfold activation_step. case_decide as Hty; [|by eauto].
    destruct (UpdateActivationTimes_total c (Rank cmd) clk s) as [s1 H1]; [done| |].
    - revert Ha. unfold cmd_addr_ok. by_type cmd; try done. by intros (? & _).
    - exists s1. split; [done|]. by apply UpdateActivationTimes_inv in H1 as (f & t & -> & _). }
  destruct (UpdateTiming_raises c (Timing_new c) cmd clk s s1) as (s' & Hrun & v & -> & Hv'); try done.
  eexists. split_and!; [done|done|done|]. intros i j k b Hb.
  pose proof (activation_step_banks _ _ _ _ _ Hact) as Eb.
  eexists. simpl. rewrite Hv', Eb, Hb. split_and!; [done|done|done|].
  intros t. apply ready_at_raise; [by eapply Hs|by apply constraints_for_ok].
Qed.

Lemma UpdateTiming_refines_witness :
  let c := sample_config in let s := ChannelState_new c in
  let cmd := MkCommand ACTIVATE (MkAddress 0 0 1 2 40 0) 0 in
  ∃ s', UpdateTiming c (Timing_new c) cmd 100 s = Ok s' ∧
    refresh_q_ s' = refresh_q_ s ∧ rank_is_sref_ s' = rank_is_sref_ s ∧
    ∀ i j k b, lookup3 (bank_states_ s) i j k = Some b →
      ∃ b', lookup3 (bank_states_ s') i j k = Some b' ∧ state_ b' = state_ b ∧
        open_row_ b' = open_row_ b ∧ ∀ t,
        ready_at b' t = raise_to (constraints_for (Timing_new c) cmd i j k) 100 t (ready_at b t).
Proof.
  apply UpdateTiming_refines.
  - vm_compute. repeat split; discriminate || reflexivity.
  - reflexivity.
  - split; [apply dims3_replicate|]. intros i j k b ->%lookup3_replicate. reflexivity.
  - split; reflexivity.
Defined.
