(* ===== verification/ChannelSafety.v ===== *)
(** * ChannelSafety: what a channel guarantees (src/src/channel_state.cc, bankstate.cc)

    The invariant of a channel, the step relation of everything its owner may
    do with it, and what holds of every reachable channel: no command that is
    ready is ever refused, and issued commands respect the delays of the
    timing tables and the activation windows. *)

From S2P Require Import Prelude Common Configuration Timing BankState ChannelState.
Local Open Scope Z_scope.

(** Which command types the state machine of a bank accepts. *)
Definition accepts (st : State) (t : CommandType) : bool :=
  match st, t with
  | OPEN, (READ | WRITE | READ_PRECHARGE | WRITE_PRECHARGE | PRECHARGE) => true
  | CLOSED, (REFRESH | REFRESH_BANK | ACTIVATE | SREF_ENTER) => true
  | SREF, SREF_EXIT => true
  | _, _ => false
  end.

(** The state a bank is left in. *)
Definition next_state (t : CommandType) : State :=
  match t with
  | READ | WRITE | ACTIVATE => OPEN
  | SREF_ENTER => SREF
  | _ => CLOSED
  end.

Lemma accepts_UpdateState cmd b :
  accepts (state_ b) (cmd_type cmd) = true →
  ∃ b', BankState.UpdateState cmd b = Ok b' ∧ state_ b' = next_state (cmd_type cmd).
Proof.
  unfold accepts, BankState.UpdateState.
  destruct (state_ b) eqn:E, (cmd_type cmd); intros; try done; eexists; by split.
Qed.

Lemma required_type_accepts cmd b t b' :
  required_type cmd b = Ok (t, b') → accepts (state_ b) t = true.
Proof.
  unfold required_type.
  destruct (state_ b) eqn:E, (cmd_type cmd) eqn:?; intros; try case_decide; by simplify_res.
Qed.

(** The coordinates of a refresh, and of what prepares for one: no channel, no
    row, no column. *)
Definition for_refresh (c : Config) (a : Address) : Prop :=
  channel a = -1 ∧ row a = -1 ∧ column a = -1 ∧
  -1 ≤ bankgroup a < bankgroups c ∧ -1 ≤ bank a < banks_per_group c.

(** A refresh demand in the queue of a channel. *)
Definition refresh_cmd_ok (c : Config) (cmd : Command) : Prop :=
  IsRefresh cmd = true ∧ cmd_addr_ok c cmd ∧ for_refresh c (addr cmd).

Lemma rank_demand_ok c `{!Geometry c} r h :
  0 ≤ r < ranks c → refresh_cmd_ok c (MkCommand REFRESH (MkAddress (-1) r (-1) (-1) (-1) (-1)) h).
Proof.
  intros Hr. pose proof (geo_bankgroups (c:=c)). pose proof (geo_banks_per_group (c:=c)).
  split; [done|]. split; [exact Hr|]. unfold for_refresh. simpl. lia.
Qed.

Lemma bank_demand_ok c `{!Geometry c} r g b h :
  bank_addr_ok c (MkAddress (-1) r g b (-1) (-1)) →
  refresh_cmd_ok c (MkCommand REFRESH_BANK (MkAddress (-1) r g b (-1) (-1)) h).
Proof.
  intros Ha. split; [done|]. split; [exact Ha|]. destruct Ha as (_ & Hg & Hb).
  unfold for_refresh. simpl in *. lia.
Qed.

Record channel_ok (c : Config) (s : ChannelState) : Prop := {
  ch_dims : dims3 (ranks c) (bankgroups c) (banks_per_group c) (bank_states_ s);
  ch_banks : ∀ i j k b, lookup3 (bank_states_ s) i j k = Some b → bank_ok b;
  ch_windows : windows_shape c s;
  ch_flags : length (rank_is_sref_ s) = Z.to_nat (ranks c);
  ch_idle : length (rank_idle_cycles s) = Z.to_nat (ranks c);
  ch_sref : ∀ i j k b, lookup3 (bank_states_ s) i j k = Some b →
    (state_ b = SREF ↔ vlookup (rank_is_sref_ s) i = Some true);
  ch_refresh_q : Forall (refresh_cmd_ok c) (refresh_q_ s) }.

(** Only the bookkeeping marks of the banks differ. *)
Definition marks_only (s s' : ChannelState) : Prop :=
  ∃ v, s' = s <| bank_states_ := v |> ∧
    ∀ i j k, option_Forall2 same_bank_core (lookup3 (bank_states_ s) i j k) (lookup3 v i j k).

#[export] Instance marks_only_refl : Reflexive marks_only.
Proof.
  intros s. exists (bank_states_ s). split; [by destruct s|]. intros i j k.
  destruct (lookup3 _ i j k); by constructor.
Qed.

#[export] Instance marks_only_trans : Transitive marks_only.
Proof.
  intros s1 s2 s3 (v & -> & Hv) (w & -> & Hw). exists w. split; [done|]. intros i j k.
  specialize (Hv i j k). specialize (Hw i j k). simpl in Hw.
  destruct Hv; inversion Hw; subst; constructor. by etransitivity.
Qed.

Lemma marks_only_lookup s s' i j k b :
  marks_only s s' → lookup3 (bank_states_ s) i j k = Some b →
  ∃ b', lookup3 (bank_states_ s') i j k = Some b' ∧ same_bank_core b b'.
Proof.
  intros (v & -> & Hv) Hb. specialize (Hv i j k). rewrite Hb in Hv.
  inversion Hv; subst. simpl. eauto.
Qed.

Lemma marks_only_lookup_inv s s' i j k b' :
  marks_only s s' → lookup3 (bank_states_ s') i j k = Some b' →
  ∃ b, lookup3 (bank_states_ s) i j k = Some b ∧ same_bank_core b b'.
Proof.
  intros (v & -> & Hv) Hb. specialize (Hv i j k). simpl in Hb. rewrite Hb in Hv.
  inversion Hv; subst. simpl. eauto.
Qed.

Lemma marks_only_ok c s s' : marks_only s s' → channel_ok c s → channel_ok c s'.
Proof.
  intros Hm [H1 H2 H3 H4 H5 H6 H7]. pose proof Hm as (v & E & Hv).
  constructor; try (rewrite E; done).
  - intros i j k. rewrite E. simpl. rewrite <- (H1 i j k). specialize (Hv i j k).
    destruct Hv; split; intros [? ?]; try done; eauto.
  - intros i j k b' Hb'. destruct (marks_only_lookup_inv _ _ _ _ _ _ Hm Hb') as (b & Hb & Hc).
    apply (same_bank_core_ok b); [done|by eapply H2].
  - intros i j k b' Hb'. destruct (marks_only_lookup_inv _ _ _ _ _ _ Hm Hb') as (b & Hb & Hc).
    destruct Hc as (-> & _). rewrite E. simpl. by eapply H6.
Qed.

Lemma channel_ok_shape c s : channel_ok c s → banks_shape c s.
Proof. intros Hs. split; [apply Hs|]. intros i j k b Hb. by eapply Hs in Hb as []. Qed.

Lemma channel_lookup c s i j k :
  channel_ok c s → 0 ≤ i < ranks c → 0 ≤ j < bankgroups c → 0 ≤ k < banks_per_group c →
  ∃ b, lookup3 (bank_states_ s) i j k = Some b ∧ bank_ok b.
Proof.
  intros Hs Hi Hj Hk. destruct (dims3_lookup _ _ _ _ i j k (ch_dims _ _ Hs)) as [b Hb]; [done..|].
  exists b. split; [done|]. by eapply Hs.
Qed.

Lemma ChannelState_new_ok c : channel_ok c (ChannelState_new c).
Proof.
  constructor; simpl; unfold windows_shape, vector_of; simpl; rewrite ?length_replicate; try done.
  - apply dims3_replicate.
  - intros i j k b ->%lookup3_replicate. apply BankState_new_ok.
  - split; apply length_replicate.
  - intros i j k b ->%lookup3_replicate. rewrite vlookup_replicate. simpl.
    case_decide; split; intros; discriminate.
Qed.

(** ** Querying a bank *)

Lemma bank_ready_inv r j k cmd clk s rc s' :
  bank_ready r j k cmd clk s = Ok (rc, s') →
  marks_only s s' ∧ ∃ b b', lookup3 (bank_states_ s) r j k = Some b ∧
    BankState.GetReadyCommand cmd clk b = Ok (rc, b').
Proof.
  unfold bank_ready. intros H. apply bind_Ok_inv in H as (b & Hb & H).
  apply bind_Ok_inv in H as ([rc' b'] & Hg & H). apply bind_Ok_inv in H as (s1 & Hu & H).
  simplify_res. apply get3_Ok in Hb. split; [|eauto].
  unfold update_bank in Hu. apply bind_Ok_inv in Hu as (v & Hv & Hu). simplify_res.
  apply modify3_inv in Hv as (x & x' & Hx & [= <-] & Hl). exists v. split; [done|].
  intros i' j' k'. rewrite Hl. case_decide; simplify_eq.
  - rewrite Hb. constructor. by eapply GetReadyCommand_core.
  - destruct (lookup3 _ i' j' k'); by constructor.
Qed.

Lemma bank_ready_total r j k cmd clk s b :
  lookup3 (bank_states_ s) r j k = Some b → bank_ok b →
  is_request (cmd_type cmd) → (state_ b = SREF → IsReadWrite cmd = true) →
  ∃ rc s', bank_ready r j k cmd clk s = Ok (rc, s').
Proof.
  intros Hb Hok Hreq Hsr. destruct (GetReadyCommand_total cmd clk b Hok Hreq Hsr) as (rc & b' & Hg).
  unfold bank_ready. apply get3_Ok in Hb as Hb'. rewrite Hb'. simpl. rewrite Hg. simpl.
  unfold update_bank.
  destruct (modify3_Ok _ _ _ _ (λ _, Ok b') _ b' Hb) as [v ->]; [done|]. simpl. eauto.
Qed.

(** ** Queries the owner of a channel may make *)

(** A request for a valid target; a rank in self-refresh is only asked for
    reads and writes. *)
Definition request_ok (c : Config) (cmd : Command) (s : ChannelState) : Prop :=
  is_request (cmd_type cmd) ∧ cmd_addr_ok c cmd ∧
  (vlookup (rank_is_sref_ s) (Rank cmd) = Some true → IsReadWrite cmd = true).

(** The banks an issued command changes, and those whose timing it has to
    respect: a rank refresh or self-refresh entry waits for every bank. *)
Definition targeted (rc : Command) (i j k : Z) : Prop :=
  i = Rank rc ∧ (IsRankCMD rc = true ∨ (j = Bankgroup rc ∧ k = Bank rc)).
Definition checked (rc : Command) (i j k : Z) : Prop :=
  i = Rank rc ∧ (cmd_type rc = REFRESH ∨ cmd_type rc = SREF_ENTER ∨
                 (j = Bankgroup rc ∧ k = Bank rc)).

Lemma bank_pairs_spec c j k :
  (j, k) ∈ bank_pairs c ↔ 0 ≤ j < bankgroups c ∧ 0 ≤ k < banks_per_group c.
Proof.
  unfold bank_pairs. rewrite list_elem_of_In, in_concat. split.
  - intros (l & Hl%list_elem_of_In & Hin%list_elem_of_In).
    apply list_elem_of_fmap in Hl as (j' & -> & Hj%elem_of_seqZ).
    apply list_elem_of_fmap in Hin as (k' & [= <- <-] & Hk%elem_of_seqZ). lia.
  - intros [Hj Hk]. exists ((λ k, (j, k)) <$> seqZ 0 (banks_per_group c)).
    split; apply list_elem_of_In, list_elem_of_fmap; eexists;
      (split; [done|]); apply elem_of_seqZ; lia.
Qed.

Lemma bank_pairs_length c `{!Geometry c} : Z.of_nat (length (bank_pairs c)) = banks c.
Proof.
  rewrite (geo_banks (c:=c)). pose proof (geo_bankgroups (c:=c)).
  pose proof (geo_banks_per_group (c:=c)). unfold bank_pairs.
  replace (bankgroups c) with (Z.of_nat (length (seqZ 0 (bankgroups c)))) at 2
    by (rewrite length_seqZ; lia).
  induction (seqZ 0 (bankgroups c)) as [|x l IH]; [done|].
  rewrite fmap_cons. cbn [concat length]. rewrite length_app, length_fmap, length_seqZ.
  rewrite Nat2Z.inj_add, IH. lia.
Qed.

Lemma bank_pairs_NoDup c : NoDup (bank_pairs c).
Proof.
  unfold bank_pairs. pose proof (NoDup_seqZ 0 (bankgroups c)) as Hnd. revert Hnd.
  induction (seqZ 0 (bankgroups c)) as [|x l IH]; intros Hnd; [constructor|].
  apply list.NoDup_cons in Hnd as [Hnin Hnd].
  rewrite fmap_cons. cbn [concat]. apply list.NoDup_app. split_and!.
  - apply NoDup_fmap_2; [by intros ?? [= ->]|apply NoDup_seqZ].
  - intros [j k] (k' & [= -> ->] & _)%list_elem_of_fmap Hin.
    apply list_elem_of_In, in_concat in Hin as (l' & Hl'%list_elem_of_In & Hin%list_elem_of_In).
    apply list_elem_of_fmap in Hl' as (j' & -> & Hj').
    apply list_elem_of_fmap in Hin as (? & [= <- _] & _). done.
  - by apply IH.
Qed.

(** ** What [GetReadyCommand] returns *)

Section safety.
Context (c : Config) `{Geo : !Geometry c}.

(** A command that may be issued at [clk]. *)
Record issuable (rc : Command) (clk : Z) (s : ChannelState) : Prop := {
  iss_valid : IsValid rc = true;
  iss_addr : cmd_addr_ok c rc;
  iss_accepts : ∀ i j k b, targeted rc i j k → lookup3 (bank_states_ s) i j k = Some b →
    accepts (state_ b) (cmd_type rc) = true;
  iss_time : ∀ i j k b, checked rc i j k → lookup3 (bank_states_ s) i j k = Some b →
    ready_at b (cmd_type rc) ≤ clk;
  iss_row : IsReadWrite rc = true → ∀ b,
    lookup3 (bank_states_ s) (Rank rc) (Bankgroup rc) (Bank rc) = Some b → open_row_ b = Row rc;
  iss_window : cmd_type rc = ACTIVATE → ActivationWindowOk c (Rank rc) clk s = Ok true }.

(** Bank [(j, k)] of the rank of [cmd] can take [cmd] itself at [clk]. *)
Definition takes (cmd : Command) (clk : Z) (s : ChannelState) (jk : Z * Z) : Prop :=
  ∃ b, lookup3 (bank_states_ s) (Rank cmd) jk.1 jk.2 = Some b ∧
    accepts (state_ b) (cmd_type cmd) = true ∧ ready_at b (cmd_type cmd) ≤ clk.

Lemma takes_marks cmd clk s s' jk : marks_only s s' → takes cmd clk s jk → takes cmd clk s' jk.
Proof.
  intros Hm (b & Hb & Ha & Hr).
  destruct (marks_only_lookup _ _ _ _ _ _ Hm Hb) as (b' & Hb' & Hc).
  exists b'. split; [done|]. rewrite (same_bank_core_ready b b') by done.
  by destruct Hc as (-> & _).
Qed.

(** What asking one bank gives. *)
Lemma bank_ready_valid r j k cmd clk s rc s' :
  channel_ok c s → bank_ready r j k cmd clk s = Ok (rc, s') → IsValid rc = true →
  (∃ b, lookup3 (bank_states_ s') r j k = Some b ∧ bank_ok b ∧
     accepts (state_ b) (cmd_type rc) = true ∧ ready_at b (cmd_type rc) ≤ clk ∧
     (IsReadWrite rc = true → open_row_ b = Row rc)) ∧
  addr rc = addr cmd ∧ hex_addr rc = hex_addr cmd.
Proof.
  intros Hs (Hm & b & b' & Hb & Hg)%bank_ready_inv Hv.
  destruct (GetReadyCommand_type _ _ _ _ _ Hg Hv) as (Hr & Ha & Hh & Ht).
  destruct (marks_only_lookup _ _ _ _ _ _ Hm Hb) as (b2 & Hb2 & Hc).
  pose proof (ch_banks _ _ Hs _ _ _ _ Hb) as Hbok.
  split_and!; [|done|done]. exists b2. split_and!; [done| | | |].
  - by eapply same_bank_core_ok.
  - destruct Hc as (-> & _). by eapply required_type_accepts.
  - rewrite (same_bank_core_ready b b2) by done. by apply Ht.
  - intros Hrw. destruct Hc as (_ & _ & -> & _). unfold Row. rewrite Ha. destruct rc.
    by eapply required_type_row.
Qed.

(** The type asked of a bank, when it is not the request itself, is a
    precharge for a rank command. *)
Lemma rank_required_type cmd clk b rc b' :
  IsRankCMD cmd = true → BankState.GetReadyCommand cmd clk b = Ok (rc, b') → IsValid rc = true →
  cmd_type rc ≠ cmd_type cmd → cmd_type rc = PRECHARGE.
Proof.
  intros Hrk Hg Hv Hne. destruct (GetReadyCommand_type _ _ _ _ _ Hg Hv) as (Hr & _).
  revert Hr Hrk Hne. unfold required_type. by_type cmd; intros Hr Hrk Hne; try done;
    destruct (state_ b); simplify_res; done.
Qed.

(** A rank command returned by the loop over the banks: every bank can take
    it, or it is a precharge of one bank that can take it. *)
Lemma rank_ready_sound cmd clk jks rc0 n s rc s' pre :
  channel_ok c s → IsRankCMD cmd = true → rank_ok c (addr cmd) →
  pre ++ jks = bank_pairs c →
  n ≤ Z.of_nat (length pre) →
  (n = Z.of_nat (length pre) → Forall (takes cmd clk s) pre ∧
     (pre = [] ∧ rc0 = Command_default ∨ rc0 = cmd)) →
  rank_ready c cmd clk jks rc0 n s = Ok (rc, s') →
  marks_only s s' ∧
  (IsValid rc = true →
   (rc = cmd ∧ Forall (takes cmd clk s') (bank_pairs c)) ∨
   (cmd_type rc = PRECHARGE ∧ Rank rc = Rank cmd ∧ (Bankgroup rc, Bank rc) ∈ bank_pairs c ∧
    takes rc clk s' (Bankgroup rc, Bank rc) ∧
    addr rc = MkAddress (-1) (Rank cmd) (Bankgroup rc) (Bank rc) (-1) (-1))).
Proof.
  revert rc0 n s pre; induction jks as [|[j k] jks IH];
    intros rc0 n s pre Hs Hrk Hro Hpre Hn Hall Hrun; simpl in Hrun.
  - simplify_res. split; [done|]. rewrite app_nil_r in Hpre. subst pre.
    case_decide as Hb; [|done]. rewrite (bank_pairs_length c) in Hn, Hall.
    destruct (Hall Hb) as [Hf [[_ ->]| ->]]; [done|]. auto.
  - apply bind_Ok_inv in Hrun as ([rc1 s1] & Hb & Hrun).
    pose proof (bank_ready_inv _ _ _ _ _ _ _ _ Hb) as (Hm & b & b1 & Hlb & Hg).
    assert (channel_ok c s1) as Hs1 by by eapply marks_only_ok.
    assert ((j, k) ∈ bank_pairs c) as Hjk by (rewrite <- Hpre; set_solver).
    assert ((pre ++ [(j, k)]) ++ jks = bank_pairs c) as Hpre' by by rewrite <- app_assoc.
    assert (Z.of_nat (length (pre ++ [(j, k)])) = Z.of_nat (length pre) + 1) as Hlen
      by (rewrite length_app; simpl; lia).
    destruct (IsValid rc1) eqn:Hv; simpl in Hrun.
    2:{ destruct (IH rc1 n s1 _ Hs1 Hrk Hro Hpre') as [Hm' HV]; [lia|intros; lia|done|].
        split; [by etransitivity|done]. }
    destruct (bank_ready_valid _ _ _ _ _ _ _ _ Hs Hb Hv) as ((b2 & Hb2 & _ & Hacc & Hrd & _) & Ha & Hh).
    case_decide as Hty.
    + simplify_res. split; [done|]. intros _. right. unfold Rank, Bankgroup, Bank. simpl.
      split_and!; [by eapply rank_required_type|done|done| |done]. by exists b2.
    +
      destruct (IH rc1 (n + 1) s1 _ Hs1 Hrk Hro Hpre') as [Hm' HV]; [lia| |done|].
      * intros Hn'. destruct (Hall ltac:(lia)) as [Hf _]. split.
        -- apply list.Forall_app. split; [|constructor; [|constructor]].
           ++ eapply list.Forall_impl; [exact Hf|]. intros ?. by apply takes_marks.
           ++ exists b2. by rewrite <- Hty.
        -- right. destruct rc1, cmd; simpl in *; congruence.
      * split; [by etransitivity|done].
Qed.

Lemma takes_all cmd clk s :
  Forall (takes cmd clk s) (bank_pairs c) → channel_ok c s → rank_ok c (addr cmd) →
  ∀ i j k b, i = Rank cmd → lookup3 (bank_states_ s) i j k = Some b →
    accepts (state_ b) (cmd_type cmd) = true ∧ ready_at b (cmd_type cmd) ≤ clk.
Proof.
  intros Hf Hs Hr i j k b -> Hb. rewrite list.Forall_forall in Hf.
  assert ((j, k) ∈ bank_pairs c) as Hin.
  { apply bank_pairs_spec. destruct (ch_dims _ _ Hs (Rank cmd) j k) as [H _].
    destruct H; [by rewrite Hb|lia]. }
  destruct (Hf _ Hin) as (b' & Hb' & ?). simpl in Hb'. by simplify_eq.
Qed.

Lemma accepts_SREF st t : accepts st t = true → (t = SREF_EXIT ↔ st = SREF).
Proof. destruct st, t; simpl; intros; split; congruence. Qed.

Lemma required_SREF_EXIT cmd b b' :
  required_type cmd b = Ok (SREF_EXIT, b') → state_ b = SREF ∧ IsReadWrite cmd = true.
Proof.
  unfold required_type. destruct (state_ b) eqn:?; by_type cmd; intros;
    try case_decide; by simplify_res.
Qed.

(** What a single bank asks for can be issued, but for the activation window. *)
Lemma bank_ready_issuable cmd clk s rc s' :
  channel_ok c s → IsRankCMD cmd = false → cmd_addr_ok c cmd →
  bank_ready (Rank cmd) (Bankgroup cmd) (Bank cmd) cmd clk s = Ok (rc, s') →
  IsValid rc = true → cmd_type rc ≠ ACTIVATE → issuable rc clk s'.
Proof.
  intros Hs Hrk Haddr Hb Hv Hna.
  pose proof (bank_ready_inv _ _ _ _ _ _ _ _ Hb) as (Hm & b0 & b1 & Hb0 & Hg).
  destruct (bank_ready_valid _ _ _ _ _ _ _ _ Hs Hb Hv) as ((b & Hlb & Hbok & Hacc & Hrd & Hrow) & Ha & Hh).
  assert (channel_ok c s') as Hs1 by by eapply marks_only_ok.
  assert (bank_addr_ok c (addr cmd)) as Hba by (unfold cmd_addr_ok in Haddr; by rewrite Hrk in Haddr).
  constructor; [done|apply bank_addr_cmd_ok; by rewrite Ha| | | |done].
  3:{ intros Hrw b'. unfold Rank, Bankgroup, Bank in *. rewrite Ha. intros Hb'. simplify_eq. by apply Hrow. }
  - intros i j k b' [-> Htg] Hb'. unfold Rank, Bankgroup, Bank in *. rewrite Ha in *.
    destruct Htg as [Hrc|[-> ->]]; [|by simplify_eq].
    assert (cmd_type rc = SREF_EXIT) as E.
    { destruct (GetReadyCommand_type _ _ _ _ _ Hg Hv) as (Hreqd & _). revert Hreqd Hrc Hrk.
      unfold required_type. by_type rc; by_type cmd; intros; try done;
        destruct (state_ b0); try case_decide; by simplify_res. }
    rewrite E in *. assert (state_ b = SREF) as Hst by by apply (accepts_SREF _ _ Hacc).
    apply (ch_sref _ _ Hs1 _ _ _ _ Hlb) in Hst.
    apply (ch_sref _ _ Hs1 _ _ _ _ Hb') in Hst. by rewrite Hst.
  - intros i j k b' [-> Htg] Hb'. unfold Rank, Bankgroup, Bank in *. rewrite Ha in *.
    destruct Htg as [E|[E|[-> ->]]]; [exfalso..|by simplify_eq].
    all: destruct (GetReadyCommand_type _ _ _ _ _ Hg Hv) as (Hreqd & _); revert Hreqd E Hrk;
      unfold required_type; by_type rc; by_type cmd; intros; try done;
      destruct (state_ b0); try case_decide; by simplify_res.
Qed.

(** Everything [GetReadyCommand] returns can be issued. *)
Lemma GetReadyCommand_sound cmd clk s rc s' :
  channel_ok c s → is_request (cmd_type cmd) → cmd_addr_ok c cmd →
  GetReadyCommand c cmd clk s = Ok (rc, s') →
  marks_only s s' ∧ (IsValid rc = true → issuable rc clk s').
Proof.
  intros Hs Hreq Haddr. unfold GetReadyCommand. destruct (IsRankCMD cmd) eqn:Hrk; intros Hrun.
  - assert (rank_ok c (addr cmd)) as Hro by (unfold cmd_addr_ok in Haddr; by rewrite Hrk in Haddr).
    destruct (rank_ready_sound cmd clk (bank_pairs c) Command_default 0 s rc s' [] Hs Hrk Hro eq_refl) as [Hm HV];
      [simpl; lia|split; [constructor|by left]|done|].
    split; [done|]. intros Hv. assert (channel_ok c s') as Hs' by by eapply marks_only_ok.
    destruct (HV Hv) as [[-> Hall]|(Hty & Hr & Hbp & Ht & _)].
    + pose proof (takes_all _ _ _ Hall Hs' Hro) as Hta.
      constructor; [done|done| | | |].
      * intros i j k b [-> _] Hb. by eapply Hta.
      * intros i j k b [-> _] Hb. by eapply Hta.
      * intros Hrw. revert Hrk Hrw. by_type cmd; done.
      * intros E. revert Hrk. by_type cmd; done.
    + destruct Ht as (b & Hb & Hacc & Hrd). simpl in Hb.
      assert (IsRankCMD rc = false) as Hnr by (revert Hty; by_type rc; done).
      apply bank_pairs_spec in Hbp.
      constructor; [done| | | | |intros; congruence].
      4:{ intros Hrw. revert Hrw Hty. by_type rc; done. }
      * unfold cmd_addr_ok. rewrite Hnr. unfold bank_addr_ok, rank_ok in *.
        unfold Rank, Bankgroup, Bank in *. rewrite Hr. by split.
      * intros i j k b' [-> [?|[-> ->]]] Hb'; [congruence|]. by simplify_eq.
      * intros i j k b' [-> [?|[?|[-> ->]]]] Hb'; [congruence..|]. by simplify_eq.
  - apply bind_Ok_inv in Hrun as ([rc1 s1] & Hb & Hrun).
    pose proof (bank_ready_inv _ _ _ _ _ _ _ _ Hb) as (Hm & b0 & b1 & Hb0 & Hg).
    destruct (IsValid rc1) eqn:Hv; simpl in Hrun; [|by simplify_res].
    destruct (bank_ready_valid _ _ _ _ _ _ _ _ Hs Hb Hv) as ((b & Hlb & Hbok & Hacc & Hrd & Hrow) & Ha & Hh).
    assert (channel_ok c s1) as Hs1 by by eapply marks_only_ok.
    assert (bank_addr_ok c (addr cmd)) as Hba by (unfold cmd_addr_ok in Haddr; by rewrite Hrk in Haddr).
    case_decide as Hact.
    + apply bind_Ok_inv in Hrun as (ok & Hwin & Hrun).
      destruct ok; simplify_res; [|done]. split; [done|]. intros _.
      constructor; [done|apply bank_addr_cmd_ok; by rewrite Ha| | | |done].
      3:{ intros Hrw. revert Hrw Hact. by_type rc; done. }
      * intros i j k b' [-> [Hrc|[-> ->]]] Hb'; [revert Hrc Hact; by_type rc; done|].
        unfold Rank, Bankgroup, Bank in *. rewrite Ha in *. by simplify_eq.
      * intros i j k b' [-> [?|[?|[-> ->]]]] Hb'; [congruence..|].
        unfold Rank, Bankgroup, Bank in *. rewrite Ha in *. by simplify_eq.
    + simplify_res. split; [done|]. intros _. by apply (bank_ready_issuable cmd clk s).
Qed.


Lemma rank_ready_total cmd clk jks rc0 n s :
  channel_ok c s → request_ok c cmd s → rank_ok c (addr cmd) →
  (∀ jk, jk ∈ jks → jk ∈ bank_pairs c) →
  ∃ rc s', rank_ready c cmd clk jks rc0 n s = Ok (rc, s').
Proof.
  revert rc0 n s; induction jks as [|[j k] jks IH]; intros rc0 n s Hs Hreq Hro Hin; simpl; [eauto|].
  pose proof (proj1 (bank_pairs_spec c j k) (Hin (j, k) ltac:(set_solver))) as [Hj Hk].
  destruct (channel_lookup c s (Rank cmd) j k Hs Hro Hj Hk) as (b & Hb & Hbok).
  destruct Hreq as (Hreq & Haddr & Hsref).
  destruct (bank_ready_total (Rank cmd) j k cmd clk s b Hb Hbok Hreq) as (rc & s1 & Hrun).
  { intros Hst. apply Hsref. by apply (ch_sref _ _ Hs _ _ _ _ Hb). }
  rewrite Hrun. simpl. apply bank_ready_inv in Hrun as [Hm _].
  assert (channel_ok c s1) as Hs1 by by eapply marks_only_ok.
  assert (request_ok c cmd s1) as Hreq1.
  { split_and!; [done..|]. by destruct Hm as (v & -> & _). }
  destruct (negb (IsValid rc)); [|case_decide]; eauto; apply IH; auto; set_solver.
Qed.

Lemma window_total r clk s :
  windows_shape c s → 0 ≤ r < ranks c → ∃ ok, ActivationWindowOk c r clk s = Ok ok.
Proof.
  intros [H4 H32] Hr. unfold ActivationWindowOk, IsFAWReady, Is32AWReady.
  destruct (vec_get_lt (four_aw_ s) r) as [w ->]; [lia|].
  destruct (vec_get_lt (thirty_two_aw_ s) r) as [w2 ->]; [lia|]. simpl.
  destruct (IsGDDR c), (window_ready w 4 clk); simpl; eauto.
Qed.

Lemma GetReadyCommand_channel_total cmd clk s :
  channel_ok c s → request_ok c cmd s →
  ∃ rc s', GetReadyCommand c cmd clk s = Ok (rc, s').
Proof.
  intros Hs Hreq. pose proof Hreq as (Hr & Haddr & Hsref). unfold cmd_addr_ok in Haddr.
  unfold GetReadyCommand. destruct (IsRankCMD cmd) eqn:Hrk; [by apply rank_ready_total|].
  destruct Haddr as (Hro & Hg & Hb).
  destruct (channel_lookup c s (Rank cmd) (Bankgroup cmd) (Bank cmd) Hs Hro Hg Hb)
    as (b & Hlb & Hbok).
  destruct (bank_ready_total (Rank cmd) (Bankgroup cmd) (Bank cmd) cmd clk s b Hlb Hbok Hr)
    as (rc & s1 & Hrun).
  { intros Hst. apply Hsref. by apply (ch_sref _ _ Hs _ _ _ _ Hlb). }
  rewrite Hrun. simpl. destruct (IsValid rc) eqn:Hv; simpl; [|eauto].
  case_decide; [|eauto].
  destruct (bank_ready_valid _ _ _ _ _ _ _ _ Hs Hrun Hv) as (_ & Ha & _).
  apply bank_ready_inv in Hrun as [Hm _].
  destruct (window_total (Rank rc) clk s1) as [ok ->]; [|by unfold Rank; rewrite Ha|simpl; eauto].
  eapply ch_windows, marks_only_ok; done.
Qed.

(** ** The effects of an issued command *)

(** Only the state machines of the targeted banks have moved. *)
Definition states_moved (rc : Command) (s s' : ChannelState) : Prop :=
  ∃ v, s' = s <| bank_states_ := v |> ∧ ∀ i j k,
    match lookup3 (bank_states_ s) i j k, lookup3 v i j k with
    | Some b, Some b' =>
        (targeted rc i j k → BankState.UpdateState rc b = Ok b') ∧ (¬ targeted rc i j k → b' = b)
    | None, None => True
    | _, _ => False
    end.

Lemma update_bank_state rc r j k s b b' :
  lookup3 (bank_states_ s) r j k = Some b → BankState.UpdateState rc b = Ok b' →
  ∃ v, update_bank r j k (BankState.UpdateState rc) s = Ok (s <| bank_states_ := v |>) ∧
    ∀ i' j' k', lookup3 v i' j' k' =
      if decide ((i', j', k') = (r, j, k)) then Some b' else lookup3 (bank_states_ s) i' j' k'.
Proof.
  intros Hb Hu. destruct (modify3_Ok _ _ _ _ (BankState.UpdateState rc) b b' Hb Hu) as [v Hv].
  exists v. unfold update_bank. rewrite Hv. split; [done|].
  apply modify3_inv in Hv as (x & x' & Hx & Hf & Hl). intros i' j' k'. rewrite Hl.
  case_decide; [|done]. congruence.
Qed.

Lemma for_banks_pairs {S} (f : Z → Z → S → res S) (s : S) :
  for_banks c f s = foldM (λ jk, f jk.1 jk.2) (bank_pairs c) s.
Proof. apply foldM_nested. Qed.

(** The loop of a rank command over the banks of its rank. *)
Lemma rank_UpdateState rc s :
  IsRankCMD rc = true →
  (∀ j k, (j, k) ∈ bank_pairs c → ∃ b b', lookup3 (bank_states_ s) (Rank rc) j k = Some b ∧
     BankState.UpdateState rc b = Ok b') →
  dims3 (ranks c) (bankgroups c) (banks_per_group c) (bank_states_ s) →
  ∃ s', for_banks c (λ j k, update_bank (Rank rc) j k (BankState.UpdateState rc)) s = Ok s' ∧
    states_moved rc s s'.
Proof.
  intros Hrk Hbanks Hd. rewrite for_banks_pairs.
  set (moved (pre : list (Z * Z)) (v : list (list (list BankState))) := ∀ i j k : Z,
    lookup3 v i j k = (if decide (i = Rank rc ∧ (j, k) ∈ pre)
      then b ← lookup3 (bank_states_ s) i j k;
           match BankState.UpdateState rc b with Ok b' => Some b' | Fault _ => None end
      else lookup3 (bank_states_ s) i j k)).
  destruct (foldM_total (λ jk, update_bank (Rank rc) jk.1 jk.2 (BankState.UpdateState rc))
    (λ pre s', ∃ v, s' = s <| bank_states_ := v |> ∧ moved pre v) (bank_pairs c) s)
    as (s' & Hrun & v & -> & Hv).
  - exists (bank_states_ s). split; [by destruct s|]. intros i j k.
    rewrite decide_False by set_solver. done.
  - intros pre [j k] s1 Hin Hpre (v & -> & Hv).
    destruct (Hbanks j k Hin) as (b & b' & Hb & Hu).
    assert ((j, k) ∉ pre) as Hnin.
    { destruct Hpre as [rest Hpre]. pose proof (bank_pairs_NoDup c) as Hnd. rewrite Hpre in Hnd.
      rewrite <- app_assoc in Hnd. apply list.NoDup_app in Hnd as (_ & Hnd & _).
      intros Hx. by eapply Hnd; [exact Hx|set_solver]. }
    destruct (update_bank_state rc (Rank rc) j k (s <| bank_states_ := v |>) b b')
      as (w & Hw & Hl); [|done|].
    { simpl. rewrite Hv, decide_False by naive_solver. done. }
    eexists. split; [exact Hw|]. exists w. split; [done|]. intros i' j' k'. rewrite Hl. simpl.
    case_decide as E; simplify_eq.
    + rewrite decide_True by set_solver. rewrite Hb. simpl. by rewrite Hu.
    + rewrite Hv. apply decide_ext. split; [set_solver|].
      intros [-> Hx]. split; [done|]. apply elem_of_app in Hx as [Hx|Hx]; [done|].
      apply list_elem_of_singleton in Hx. congruence.
  - exists (s <| bank_states_ := v |>). split; [exact Hrun|]. exists v. split; [done|].
    intros i j k. rewrite Hv. destruct (lookup3 (bank_states_ s) i j k) as [b|] eqn:Hb.
    + assert ((j, k) ∈ bank_pairs c) as Hjk.
      { apply bank_pairs_spec. destruct (Hd i j k) as [H _]. destruct H; [by rewrite Hb|lia]. }
      case_decide as Hi; simpl.
      * destruct Hi as [-> _]. destruct (Hbanks j k Hjk) as (b0 & b' & Hb0 & Hu).
        simplify_eq. rewrite Hu. split; [done|]. intros []. by split; [|left].
      * split; [intros [-> _]; naive_solver|done].
    + case_decide; done.
Qed.


Lemma states_moved_lookup rc s s' i j k b' :
  states_moved rc s s' → lookup3 (bank_states_ s') i j k = Some b' →
  ∃ b, lookup3 (bank_states_ s) i j k = Some b ∧
    (targeted rc i j k → BankState.UpdateState rc b = Ok b') ∧ (¬ targeted rc i j k → b' = b).
Proof.
  intros (v & -> & Hv) Hb. specialize (Hv i j k). simpl in Hb. rewrite Hb in Hv.
  destruct (lookup3 (bank_states_ s) i j k) as [b|]; [|done]. eauto.
Qed.

#[global] Instance targeted_dec rc i j k : Decision (targeted rc i j k).
Proof. unfold targeted. apply _. Defined.

Lemma states_moved_bank rc s s' i j k b' :
  states_moved rc s s' → lookup3 (bank_states_ s') i j k = Some b' →
  ∃ b, lookup3 (bank_states_ s) i j k = Some b ∧ cmd_timing_ b' = cmd_timing_ b ∧
    (bank_ok b → bank_ok b').
Proof.
  intros Hm Hb. destruct (states_moved_lookup _ _ _ _ _ _ _ Hm Hb) as (b & Hl & H1 & H2).
  exists b. split; [done|]. destruct (decide (targeted rc i j k)) as [Ht|Ht].
  - split; [by eapply UpdateState_timing, H1|]. by eapply UpdateState_bank_ok, H1.
  - rewrite H2 by done. done.
Qed.

Lemma states_moved_dims rc s s' n1 n2 n3 :
  states_moved rc s s' → dims3 n1 n2 n3 (bank_states_ s) → dims3 n1 n2 n3 (bank_states_ s').
Proof.
  intros (v & -> & Hv) Hd i j k. rewrite <- (Hd i j k). specialize (Hv i j k). simpl.
  destruct (lookup3 (bank_states_ s) i j k), (lookup3 v i j k); try done;
    split; intros [? ?]; eauto; done.
Qed.

(** The state of each bank, and the flag of its rank, after an issued command. *)
Lemma states_moved_sref rc clk s s' flags :
  channel_ok c s → issuable rc clk s → states_moved rc s s' →
  (∀ i, vlookup flags i =
     if decide (i = Rank rc ∧ (cmd_type rc = SREF_ENTER ∨ cmd_type rc = SREF_EXIT))
     then Some (bool_decide (cmd_type rc = SREF_ENTER)) else vlookup (rank_is_sref_ s) i) →
  ∀ i j k b, lookup3 (bank_states_ s') i j k = Some b → (state_ b = SREF ↔ vlookup flags i = Some true).
Proof.
  intros Hs Hi Hm Hf i j k b' Hb'. rewrite Hf.
  destruct (states_moved_lookup _ _ _ _ _ _ _ Hm Hb') as (b & Hb & H1 & H2).
  pose proof (ch_sref _ _ Hs _ _ _ _ Hb) as Hsr.
  destruct (decide (targeted rc i j k)) as [Ht|Ht].
  - pose proof (iss_accepts _ _ _ Hi _ _ _ _ Ht Hb) as Hacc.
    destruct (accepts_UpdateState rc b Hacc) as (b2 & Hu & Hst).
    rewrite (H1 Ht) in Hu. simplify_eq. rewrite Hst.
    pose proof (accepts_SREF _ _ Hacc) as Hx. destruct Ht as [-> _].
    destruct (decide (Rank rc = Rank rc ∧ _)) as [[_ [E|E]]|Hd]; [rewrite E; simpl; by split..|].
    assert (cmd_type rc ≠ SREF_ENTER ∧ cmd_type rc ≠ SREF_EXIT) as [N1 N2] by naive_solver.
    rewrite <- Hsr, <- Hx. destruct (cmd_type rc); simpl; split; done.
  - rewrite (H2 Ht), Hsr. destruct (decide (i = Rank rc ∧ _)) as [[-> Hd]|Hd]; [|reflexivity].
    exfalso. apply Ht. split; [done|left]. revert Hd. by_type rc; intros [?|?]; done.
Qed.

Lemma erase_first_Forall {A} (P : A → Prop) p l : Forall P l → Forall P (erase_first p l).
Proof. induction 1; simpl; [done|]. destruct (p x); [done|by constructor]. Qed.

(** The state machines of the banks that a command changes. *)
Lemma banks_UpdateState rc clk s :
  channel_ok c s → issuable rc clk s →
  ∃ s0, (if IsRankCMD rc
     then for_banks c (λ j k, update_bank (Rank rc) j k (BankState.UpdateState rc)) s
     else update_bank (Rank rc) (Bankgroup rc) (Bank rc) (BankState.UpdateState rc) s) = Ok s0 ∧
     states_moved rc s s0.
Proof.
  intros Hs Hi. pose proof (iss_addr _ _ _ Hi) as Haddr.
  unfold cmd_addr_ok in Haddr. destruct (IsRankCMD rc) eqn:Hrk.
  - apply rank_UpdateState; [done| |apply Hs]. intros j k [Hj Hk]%bank_pairs_spec.
    destruct (channel_lookup c s (Rank rc) j k Hs Haddr Hj Hk) as (b & Hb & _).
    destruct (accepts_UpdateState rc b) as (b' & Hu & _); [|by eauto].
    eapply Hi; [|exact Hb]. split; [done|by left].
  - destruct Haddr as (Hr & Hg & Hb).
    destruct (channel_lookup c s (Rank rc) (Bankgroup rc) (Bank rc) Hs Hr Hg Hb) as (b & Hlb & _).
    destruct (accepts_UpdateState rc b) as (b' & Hu & _).
    { eapply Hi; [|exact Hlb]. split; [done|by right]. }
    destruct (update_bank_state rc _ _ _ s b b' Hlb Hu) as (v & -> & Hv).
    eexists. split; [done|]. exists v. split; [done|]. intros i j k. rewrite Hv.
    case_decide as E; simplify_eq.
    + rewrite Hlb. split; [done|]. intros []. split; [done|by right].
    + destruct (lookup3 _ i j k); [|done]. split; [|done].
      intros (-> & [?|[-> ->]]); [congruence|done].
Qed.

(** The self-refresh flags and the refresh queue after a command. *)
Lemma flags_UpdateState rc clk s v :
  channel_ok c s → issuable rc clk s →
  (if IsRankCMD rc
     then for_banks c (λ j k, update_bank (Rank rc) j k (BankState.UpdateState rc)) s
     else update_bank (Rank rc) (Bankgroup rc) (Bank rc) (BankState.UpdateState rc) s) =
    Ok (s <| bank_states_ := v |>) →
  ∃ f q, UpdateState c rc clk s =
      Ok (s <| bank_states_ := v |> <| rank_is_sref_ := f |> <| refresh_q_ := q |>) ∧
    length f = length (rank_is_sref_ s) ∧ Forall (refresh_cmd_ok c) q ∧
    (∀ i, vlookup f i =
      if decide (i = Rank rc ∧ (cmd_type rc = SREF_ENTER ∨ cmd_type rc = SREF_EXIT))
      then Some (bool_decide (cmd_type rc = SREF_ENTER)) else vlookup (rank_is_sref_ s) i).
Proof.
  intros Hs Hi Hrun. pose proof (iss_addr _ _ _ Hi) as Haddr.
  unfold UpdateState. pose proof (ch_refresh_q _ _ Hs) as Hq.
  assert (∀ b : bool, IsRankCMD rc = true → ∃ f, vec_set (rank_is_sref_ s) (Rank rc) b = Ok f ∧
    length f = length (rank_is_sref_ s) ∧
    ∀ i, vlookup f i = if decide (i = Rank rc) then Some b else vlookup (rank_is_sref_ s) i) as Hset.
  { intros b Hrk. unfold cmd_addr_ok in Haddr. rewrite Hrk in Haddr.
    destruct (vlookup_lt (rank_is_sref_ s) (Rank rc)) as [x Hx].
    { rewrite (ch_flags _ _ Hs). unfold rank_ok, Rank in *. lia. }
    destruct (vec_modify_Ok _ _ (λ _, Ok b) x b Hx eq_refl) as (w & ? & ? & ?). eauto. }
  destruct (IsRankCMD rc) eqn:Hrk; rewrite Hrun; simpl.
  - revert Hrk Hset. by_type rc; intros Hrk Hset; try done; simpl.
    + exists (rank_is_sref_ s), (refresh_q_ (RankNeedRefresh (Rank (MkCommand REFRESH ad hx)) false s)).
      split_and!; [by destruct s|done|by apply erase_first_Forall|].
      intros i. rewrite decide_False; [done|]. intros [_ [?|?]]; done.
    + destruct (Hset true eq_refl) as (f & -> & Hlen & Hf).
      exists f, (refresh_q_ s). split_and!; [by destruct s|done|done|].
      intros i. rewrite Hf. apply decide_ext. naive_solver.
    + destruct (Hset false eq_refl) as (f & -> & Hlen & Hf).
      exists f, (refresh_q_ s). split_and!; [by destruct s|done|done|].
      intros i. rewrite Hf. apply decide_ext. naive_solver.
  - exists (rank_is_sref_ s), (if IsRefresh rc then refresh_q_ (BankNeedRefresh (Rank rc)
      (Bankgroup rc) (Bank rc) false s) else refresh_q_ s).
    split_and!.
    + destruct (IsRefresh rc); by destruct s.
    + done.
    + destruct (IsRefresh rc); [by apply erase_first_Forall|done].
    + intros i. rewrite decide_False; [done|]. intros [_ [E|E]]; revert E Hrk; by_type rc; done.
Qed.

Lemma UpdateState_issuable rc clk s :
  channel_ok c s → issuable rc clk s →
  ∃ s', UpdateState c rc clk s = Ok s' ∧ channel_ok c s' ∧
    (∃ v f q, s' = s <| bank_states_ := v |> <| rank_is_sref_ := f |> <| refresh_q_ := q |> ∧
      states_moved rc s (s <| bank_states_ := v |>) ∧
      (∀ i, vlookup f i = Some true →
         vlookup (rank_is_sref_ s) i = Some true ∨ cmd_type rc = SREF_ENTER)).
Proof.
  intros Hs Hi. destruct (banks_UpdateState rc clk s Hs Hi) as (s0 & Hrun & Hm).
  pose proof Hm as (v & -> & _).
  destruct (flags_UpdateState rc clk s v Hs Hi Hrun) as (f & q & -> & Hlen & Hq & Hf).
  eexists. split; [done|]. split.
  2:{ exists v, f, q. split_and!; [done|done|]. intros i. rewrite Hf.
      destruct (decide (i = Rank rc ∧ _)); [|by left].
      intros [= Hb]. right. by apply bool_decide_eq_true in Hb. }
  constructor; simpl.
  - by apply (states_moved_dims _ _ _ _ _ _ Hm), Hs.
  - intros i j k b' Hb'. destruct (states_moved_bank _ _ _ _ _ _ _ Hm Hb') as (b & Hb & _ & H).
    by eapply H, Hs.
  - apply Hs.
  - rewrite Hlen. apply Hs.
  - apply Hs.
  - by apply (states_moved_sref rc clk s _ f Hs Hi Hm Hf).
  - done.
Qed.


(** The activation window of rank [r] after issuing [rc]. *)
Definition faw_after (rc : Command) (clk r : Z) (w : list Z) : list Z :=
  if decide (cmd_type rc = ACTIVATE ∧ r = Rank rc) then window_push (tFAW c) clk w else w.

Lemma raised_ok cs clk s s' :
  (∀ i j k, timing_list_ok (cs i j k)) → raised cs clk s s' → channel_ok c s → channel_ok c s'.
Proof.
  intros Hcs (v & -> & Hv) [H1 H2 H3 H4 H5 H6 H7]. constructor; simpl; try done.
  - intros i j k. rewrite Hv, fmap_is_Some. apply H1.
  - intros i j k b'. rewrite Hv. intros (b & Hb & ->)%fmap_Some. apply raise_bank_ok; eauto.
  - intros i j k b'. rewrite Hv. intros (b & Hb & ->)%fmap_Some. exact (H6 _ _ _ _ Hb).
Qed.

Lemma activation_ok rc clk s :
  channel_ok c s → cmd_addr_ok c rc →
  ∃ s', activation_step c rc clk s = Ok s' ∧ channel_ok c s' ∧ bank_states_ s' = bank_states_ s ∧ rank_is_sref_ s' = rank_is_sref_ s ∧
    ∀ r w, vlookup (four_aw_ s) r = Some w → vlookup (four_aw_ s') r = Some (faw_after rc clk r w).
Proof.
  intros Hs Ha. unfold activation_step, faw_after. destruct (decide (cmd_type rc = ACTIVATE)) as [Hty|Hty].
  - destruct (UpdateActivationTimes_total c (Rank rc) clk s) as [s' Hrun]; [apply Hs| |].
    { revert Ha Hty. unfold cmd_addr_ok, bank_addr_ok, rank_ok. by_type rc; intros; try done. tauto. }
    rewrite Hrun. apply UpdateActivationTimes_inv in Hrun as (f & t & -> & Hf & Ht & w0 & Hw0 & Hl).
    eexists. split; [done|]. split; [|split; [done|split; [done|]]].
    + destruct Hs as [H1 H2 [H3 H3'] H4 H5 H6 H7]. constructor; try done. split; simpl; congruence.
    + intros r w Hw. simpl. rewrite Hl. destruct (decide (r = Rank rc)) as [->|Hne].
      * rewrite decide_True by done. congruence.
      * by rewrite decide_False by naive_solver.
  - eexists. split; [done|]. split_and!; [done|done|done|]. intros. by rewrite decide_False by tauto.
Qed.

(** Issuing a command that is ready: it never aborts, it keeps the invariant,
    and it raises the timing of every bank by its constraint list. *)
Lemma UpdateTimingAndStates_issuable rc clk s :
  channel_ok c s → issuable rc clk s →
  ∃ s', UpdateTimingAndStates c (Timing_new c) rc clk s = Ok s' ∧ channel_ok c s' ∧
    (∀ i j k b, lookup3 (bank_states_ s) i j k = Some b →
       ∃ b', lookup3 (bank_states_ s') i j k = Some b' ∧ ∀ t,
       ready_at b' t = raise_to (constraints_for (Timing_new c) rc i j k) clk t (ready_at b t)) ∧
    (∀ r w, vlookup (four_aw_ s) r = Some w →
       vlookup (four_aw_ s') r = Some (faw_after rc clk r w)) ∧
    (∀ i, vlookup (rank_is_sref_ s') i = Some true →
       vlookup (rank_is_sref_ s) i = Some true ∨ cmd_type rc = SREF_ENTER) ∧
    (∀ i j k b', targeted rc i j k → lookup3 (bank_states_ s') i j k = Some b' →
       state_ b' = next_state (cmd_type rc)) ∧
    (∀ i j k b b', lookup3 (bank_states_ s) i j k = Some b → lookup3 (bank_states_ s') i j k = Some b' →
       (targeted rc i j k → ∃ b1, BankState.UpdateState rc b = Ok b1 ∧ open_row_ b' = open_row_ b1) ∧
       (¬ targeted rc i j k → state_ b' = state_ b ∧ open_row_ b' = open_row_ b)).
Proof.
  intros Hs Hi.
  destruct (UpdateState_issuable rc clk s Hs Hi) as (s1 & Hrun1 & Hs1 & v & f & q & E & Hm & Hsr).
  pose proof (Timing_new_ok c) as Htm.
  destruct (activation_ok rc clk s1 Hs1 (iss_addr _ _ _ Hi)) as (s2 & Hact & Hs2 & Eb & Ef & Hw).
  destruct (UpdateTiming_raises c (Timing_new c) rc clk s1 s2) as (s' & Hrun & Hra); [done|apply Hi|apply Hi|
    by apply channel_ok_shape|done|].
  exists s'. unfold UpdateTimingAndStates. rewrite Hrun1. simpl. split_and!; [done| | | | | |].
  - eapply raised_ok; [|done|done]. intros. by apply constraints_for_ok.
  - intros i j k b Hb. pose proof Hra as (w & -> & Hv). simpl. rewrite Hv, Eb.
    destruct (is_Some_dec (lookup3 (bank_states_ s1) i j k)) as [[b1 Hb1]|Hn].
    + rewrite Hb1. simpl. eexists. split; [done|]. intros t.
      assert (bank_ok b1) as Hb1ok by by eapply Hs1.
      rewrite ready_at_raise; [|apply Hb1ok|by apply constraints_for_ok].
      f_equal. subst s1. simpl in Hb1.
      destruct (states_moved_bank rc s _ i j k b1 Hm Hb1) as (b0 & Hb0 & Ht & _).
      simplify_eq. unfold ready_at. by rewrite Ht.
    + exfalso. apply Hn. apply (ch_dims _ _ Hs1). apply (ch_dims _ _ Hs). eauto.
  - destruct Hra as (w & -> & _). intros r w0 Hw0. simpl. apply Hw. by rewrite E.
  - destruct Hra as (w & -> & _). intros i. simpl. rewrite Ef, E. apply Hsr.
  - destruct Hra as (w & -> & Hv). intros i j k b' Htg. simpl. rewrite Hv, Eb, E. simpl.
    intros (b1 & Hb1 & ->)%fmap_Some. simpl.
    destruct (states_moved_lookup rc s _ i j k b1 Hm Hb1) as (b0 & Hb0 & Hu & _).
    destruct (accepts_UpdateState rc b0 (iss_accepts _ _ _ Hi _ _ _ _ Htg Hb0)) as (b2 & Hu2 & Hst).
    rewrite (Hu Htg) in Hu2. by simplify_eq.
  - destruct Hra as (w & -> & Hv). intros i j k b b' Hb. simpl. rewrite Hv, Eb, E. simpl.
    intros (b1 & Hb1 & ->)%fmap_Some. simpl.
    destruct (states_moved_lookup rc s _ i j k b1 Hm Hb1) as (b0 & Hb0 & Hu & Hn). simplify_eq.
    split; [intros Htg; exists b1; by rewrite (Hu Htg)|]. intros Htg. by rewrite (Hn Htg).
Qed.

(** ** Kinds of commands *)

Lemma required_type_kind cmd b t b' :
  required_type cmd b = Ok (t, b') →
  t = cmd_type cmd ∨ t = ACTIVATE ∨ t = PRECHARGE ∨ t = SREF_EXIT.
Proof.
  unfold required_type. destruct (state_ b), (cmd_type cmd); intros; try case_decide;
    simplify_res; auto.
Qed.

(** What is returned is the request itself or prepares for it. *)
Lemma GetReadyCommand_kind cmd clk s rc s' :
  channel_ok c s → cmd_addr_ok c cmd → GetReadyCommand c cmd clk s = Ok (rc, s') →
  IsValid rc = true →
  rc = cmd ∨ cmd_type rc = ACTIVATE ∨ cmd_type rc = PRECHARGE ∨ cmd_type rc = SREF_EXIT.
Proof.
  intros Hs Haddr. unfold GetReadyCommand. destruct (IsRankCMD cmd) eqn:Hrk; intros Hrun Hv.
  - assert (rank_ok c (addr cmd)) as Hro by (unfold cmd_addr_ok in Haddr; by rewrite Hrk in Haddr).
    destruct (rank_ready_sound cmd clk (bank_pairs c) Command_default 0 s rc s' [] Hs Hrk Hro eq_refl)
      as [Hm HV]; [simpl; lia|split; [constructor|by left]|done|].
    destruct (HV Hv) as [[-> _]|[? _]]; auto.
  - apply bind_Ok_inv in Hrun as ([rc1 s1] & Hb & Hrun).
    assert (rc = rc1 ∧ IsValid rc1 = true) as [-> Hv1].
    { destruct (IsValid rc1) eqn:E1; simpl in Hrun; [|by simplify_res].
      case_decide; simplify_res; [|done]. destruct a; by simplify_res. }
    apply bank_ready_inv in Hb as (_ & b & b' & _ & Hg).
    destruct (GetReadyCommand_type _ _ _ _ _ Hg Hv1) as (Hr & Ha & Hh & _).
    apply required_type_kind in Hr as [Hr|?]; [left|auto].
    destruct rc1, cmd; simpl in *; congruence.
Qed.

(** A command for a bank keeps the address of the request. *)
Lemma GetReadyCommand_addr cmd clk s rc s' :
  channel_ok c s → IsRankCMD cmd = false → GetReadyCommand c cmd clk s = Ok (rc, s') →
  IsValid rc = true → addr rc = addr cmd ∧ hex_addr rc = hex_addr cmd.
Proof.
  intros Hs Hrk. unfold GetReadyCommand. rewrite Hrk. intros Hrun Hv.
  apply bind_Ok_inv in Hrun as ([rc1 s1] & Hb & Hrun).
  assert (rc = rc1) as ->.
  { destruct (IsValid rc1) eqn:E1; simpl in Hrun; [|by simplify_res].
    case_decide; simplify_res; [|done]. destruct a; by simplify_res. }
  by apply (bank_ready_valid _ _ _ _ _ _ _ _ Hs Hb Hv).
Qed.

(** A refresh is prepared for by precharges alone, and they carry no channel. *)
Lemma GetReadyCommand_refresh cmd clk s rc s' :
  channel_ok c s → refresh_cmd_ok c cmd → GetReadyCommand c cmd clk s = Ok (rc, s') →
  IsValid rc = true → cmd_type rc ≠ ACTIVATE ∧ for_refresh c (addr rc).
Proof.
  intros Hs (Href & Haddr & Hfr) Hrun Hv. destruct (IsRankCMD cmd) eqn:Hrk.
  - unfold GetReadyCommand in Hrun. rewrite Hrk in Hrun.
    assert (rank_ok c (addr cmd)) as Hro by (unfold cmd_addr_ok in Haddr; by rewrite Hrk in Haddr).
    destruct (rank_ready_sound cmd clk (bank_pairs c) Command_default 0 s rc s' [] Hs Hrk Hro eq_refl)
      as [Hm HV]; [simpl; lia|split; [constructor|by left]|done|].
    destruct (HV Hv) as [[-> _]|(Hty & _ & Hbp & _ & ->)].
    + split; [|done]. revert Href. by by_type cmd.
    + split; [congruence|]. apply bank_pairs_spec in Hbp. unfold for_refresh. simpl. lia.
  - destruct (GetReadyCommand_addr cmd clk s rc s' Hs Hrk Hrun Hv) as [-> _]. split; [|done].
    unfold GetReadyCommand in Hrun. rewrite Hrk in Hrun. apply bind_Ok_inv in Hrun as ([rc1 s1] & Hb & Hrun).
    assert (rc = rc1 ∧ IsValid rc1 = true) as [-> Hv1].
    { destruct (IsValid rc1) eqn:E1; simpl in Hrun; [|by simplify_res].
      case_decide; simplify_res; [|done]. destruct a; by simplify_res. }
    apply bank_ready_inv in Hb as (_ & b & b' & _ & Hg).
    destruct (GetReadyCommand_type _ _ _ _ _ Hg Hv1) as (Hr & _). revert Hr Href.
    unfold required_type. by_type cmd; destruct (state_ b); intros; try case_decide;
      simplify_res; try done; congruence.
Qed.
End safety.

(** No rank of the channel is in self-refresh. *)
Definition awake (s : ChannelState) : Prop := ∀ i, vlookup (rank_is_sref_ s) i ≠ Some true.

Lemma marks_only_awake s s' : marks_only s s' → awake s → awake s'.
Proof. by intros (v & -> & _). Qed.

Lemma ChannelState_new_awake c : awake (ChannelState_new c).
Proof. intros i H. by apply vlookup_replicate_inv in H. Qed.

(** ** Traces of a channel *)

(** Everything the owner of a channel does with it: issue what
    [GetReadyCommand] returned (the event is the cycle and the command), ask
    without issuing, demand refreshes, and keep its own bookkeeping. *)
Inductive channel_step (c : Config) : ChannelState → list (Z * Command) → ChannelState → Prop :=
  | step_issue cmd clk s rc s1 s2 :
      request_ok c cmd s →
      GetReadyCommand c cmd clk s = Ok (rc, s1) → IsValid rc = true →
      UpdateTimingAndStates c (Timing_new c) rc clk s1 = Ok s2 →
      channel_step c s [(clk, rc)] s2
  | step_ask cmd clk s rc s1 :
      request_ok c cmd s → GetReadyCommand c cmd clk s = Ok (rc, s1) → channel_step c s [] s1
  | step_rank_refresh r s :
      0 ≤ r < ranks c → channel_step c s [] (RankNeedRefresh r true s)
  | step_bank_refresh r g b s :
      bank_addr_ok c (MkAddress (-1) r g b (-1) (-1)) →
      channel_step c s [] (BankNeedRefresh r g b true s)
  | step_in_serve r g b v s s' : SetInServeBank r g b v s = Ok s' → channel_step c s [] s'
  | step_serve_end r g b v s s' : SetServeEndCycleBank r g b v s = Ok s' → channel_step c s [] s'
  | step_idle v s :
      length v = length (rank_idle_cycles s) → channel_step c s [] (s <| rank_idle_cycles := v |>).

(** The channels reachable from the initial one, with the commands issued. *)
Inductive channel_reach (c : Config) : list (Z * Command) → ChannelState → Prop :=
  | reach_init : channel_reach c [] (ChannelState_new c)
  | reach_step tr s e s' :
      channel_reach c tr s → channel_step c s e s' → channel_reach c (tr ++ e) s'.

Section traces.
Context (c : Config) `{Geo : !Geometry c}.

(** The steps that issue nothing leave the timing and the windows alone. *)
Definition quiet (s s' : ChannelState) : Prop :=
  (∀ i j k b, lookup3 (bank_states_ s) i j k = Some b →
     ∃ b', lookup3 (bank_states_ s') i j k = Some b' ∧ ∀ t, ready_at b' t = ready_at b t) ∧
  four_aw_ s' = four_aw_ s ∧ thirty_two_aw_ s' = thirty_two_aw_ s ∧
  ∀ i j k b b', lookup3 (bank_states_ s) i j k = Some b → lookup3 (bank_states_ s') i j k = Some b' →
    state_ b' = state_ b ∧ open_row_ b' = open_row_ b.

Lemma marks_only_quiet s s' : marks_only s s' → quiet s s'.
Proof.
  intros Hm. pose proof Hm as (v & E & _). split; [|rewrite E; split_and!; [done..|]].
  - intros i j k b Hb. destruct (marks_only_lookup _ _ _ _ _ _ Hm Hb) as (b' & Hb' & Hc).
    exists b'. split; [done|]. intros t. by apply same_bank_core_ready.
  - rewrite <- E. intros i j k b b' Hb Hb1.
    destruct (marks_only_lookup _ _ _ _ _ _ Hm Hb) as (b2 & Hb2 & Hc). simplify_eq. split; apply Hc.
Qed.

Lemma quiet_eq s s' :
  bank_states_ s' = bank_states_ s → four_aw_ s' = four_aw_ s →
  thirty_two_aw_ s' = thirty_two_aw_ s → quiet s s'.
Proof.
  intros E1 E2 E3. unfold quiet. rewrite E1. split_and!; [by eauto|done|done|]. intros. by simplify_eq.
Qed.

Lemma quiet_trans s1 s2 s3 : quiet s1 s2 → quiet s2 s3 → quiet s1 s3.
Proof.
  intros (A1 & A2 & A3 & A4) (B1 & B2 & B3 & B4). split_and!; [|congruence|congruence|].
  - intros i j k b Hb. destruct (A1 _ _ _ _ Hb) as (b1 & Hb1 & E1).
    destruct (B1 _ _ _ _ Hb1) as (b2 & Hb2 & E2). exists b2. split; [done|]. intros t. by rewrite E2.
  - intros i j k b b2 Hb Hb2. destruct (A1 _ _ _ _ Hb) as (b1 & Hb1 & _).
    destruct (A4 _ _ _ _ _ Hb Hb1) as [<- <-]. by eapply B4.
Qed.

(** What only marks a bank leaves its state, timing and row alone. *)
Definition marks_bank (f : BankState → BankState) : Prop :=
  ∀ x, state_ (f x) = state_ x ∧ cmd_timing_ (f x) = cmd_timing_ x ∧ open_row_ (f x) = open_row_ x ∧
    (bank_ok x → bank_ok (f x)).

Lemma SetInServe_marks v : marks_bank (SetInServe v).
Proof. intros x. split_and!; [done..|]. intros []. by constructor. Qed.

Lemma SetServeEndCycle_marks v : marks_bank (SetServeEndCycle v).
Proof. intros x. split_and!; [done..|]. intros []. by constructor. Qed.

Lemma update_bank_mark r g b f s s' :
  update_bank r g b (λ x, Ok (f x)) s = Ok s' → marks_bank f →
  channel_ok c s → channel_ok c s' ∧ quiet s s'.
Proof.
  unfold update_bank. intros Hu Hf Hs. apply bind_Ok_inv in Hu as (v & Hv & Hu). simplify_res.
  pose proof (modify3_dims _ _ _ _ _ _ _ _ _ Hv (ch_dims _ _ Hs)) as Hd.
  apply modify3_inv in Hv as (x & x' & Hx & [= <-] & Hl).
  assert (∀ i j k y, lookup3 v i j k = Some y → ∃ y0, lookup3 (bank_states_ s) i j k = Some y0 ∧
    state_ y = state_ y0 ∧ cmd_timing_ y = cmd_timing_ y0 ∧ open_row_ y = open_row_ y0 ∧
    (bank_ok y0 → bank_ok y)) as Hy.
  { intros i j k y. rewrite Hl. case_decide; [|by eauto 10]. intros [= <-]. simplify_eq.
    exists x. split; [done|]. apply Hf. }
  split; [destruct Hs as [H1 H2 H3 H4 H5 H6 H7]; constructor; simpl; try done|split_and!; simpl; [|done|done|]].
  - intros i j k y (y0 & Hy0 & _ & _ & _ & H)%Hy. eauto.
  - intros i j k y (y0 & Hy0 & -> & _)%Hy. eauto.
  - intros i j k y Hlk. rewrite Hl. case_decide; [|by eauto]. simplify_eq. eexists. split; [done|].
    intros t. unfold ready_at. by rewrite (proj1 (proj2 (Hf _))).
  - intros i j k y y' Hlk (y0 & Hy0 & Est & _ & Erow & _)%Hy. split; congruence.
Qed.

Lemma refresh_push_ok q cmd :
  Forall (refresh_cmd_ok c) q → refresh_cmd_ok c cmd → Forall (refresh_cmd_ok c) (q ++ [cmd]).
Proof. intros. apply list.Forall_app. split; [done|]. constructor; [done|constructor]. Qed.

(** One step keeps the invariant; what it issues was issuable. *)
Lemma channel_step_ok s e s' :
  channel_step c s e s' → channel_ok c s →
  channel_ok c s' ∧
  ((e = [] ∧ quiet s s') ∨
   ∃ clk rc s1, e = [(clk, rc)] ∧ marks_only s s1 ∧ channel_ok c s1 ∧ issuable c rc clk s1 ∧
     UpdateTimingAndStates c (Timing_new c) rc clk s1 = Ok s').
Proof.
  destruct 1 as [cmd clk s rc s1 s2 (Hr & Ha & _) Hg Hv Hu|cmd clk s rc s1 (Hr & Ha & _) Hg
    |r s Hr|r g b s Ha|r g b v s s' Hu|r g b v s s' Hu|v s Hlen]; intros Hs.
  - destruct (GetReadyCommand_sound c cmd clk s rc s1 Hs Hr Ha Hg) as [Hm Hi].
    assert (channel_ok c s1) as Hs1 by by eapply marks_only_ok.
    destruct (UpdateTimingAndStates_issuable c rc clk s1 Hs1 (Hi Hv)) as (s' & Hu' & Hs' & _).
    rewrite Hu in Hu'. simplify_eq. split; [done|]. right. eauto 10.
  - destruct (GetReadyCommand_sound c cmd clk s rc s1 Hs Hr Ha Hg) as [Hm _].
    split; [by eapply marks_only_ok|]. left. split; [done|by apply marks_only_quiet].
  - split; [|left; split; [done|by apply quiet_eq]].
    destruct Hs. constructor; try done. simpl. apply refresh_push_ok; [done|]. by apply rank_demand_ok.
  - split; [|left; split; [done|by apply quiet_eq]].
    destruct Hs. constructor; try done. simpl. apply refresh_push_ok; [done|]. by apply bank_demand_ok.
  - destruct (update_bank_mark _ _ _ (SetInServe v) _ _ Hu (SetInServe_marks v) Hs); auto.
  - destruct (update_bank_mark _ _ _ (SetServeEndCycle v) _ _ Hu (SetServeEndCycle_marks v) Hs); auto.
  - split; [|left; split; [done|by apply quiet_eq]].
    destruct Hs. constructor; try done. simpl. congruence.
Qed.

Lemma channel_reach_ok tr s : channel_reach c tr s → channel_ok c s.
Proof.
  induction 1 as [|tr s e s' _ IH Hst]; [apply ChannelState_new_ok|].
  by apply (channel_step_ok _ _ _ Hst).
Qed.

(** The traces of issued commands: in between only quiet changes, and each
    command could be issued when it was. *)
Inductive issued : list (Z * Command) → ChannelState → Prop :=
  | issued_new : issued [] (ChannelState_new c)
  | issued_quiet tr s s' : issued tr s → quiet s s' → channel_ok c s' → issued tr s'
  | issued_snoc tr s clk rc s' :
      issued tr s → issuable c rc clk s → UpdateTimingAndStates c (Timing_new c) rc clk s = Ok s' →
      issued (tr ++ [(clk, rc)]) s'.

Lemma issued_ok tr s : issued tr s → channel_ok c s.
Proof.
  induction 1 as [|tr s s' _ _ _ Hs'|tr s clk rc s' _ IH Hi Hu]; [apply ChannelState_new_ok|done|].
  destruct (UpdateTimingAndStates_issuable c rc clk s IH Hi) as (s2 & Hu2 & Hs2 & _).
  rewrite Hu in Hu2. by simplify_eq.
Qed.

Lemma issued_marks tr s s' : issued tr s → marks_only s s' → issued tr s'.
Proof.
  intros Hs Hm. eapply issued_quiet; [exact Hs|by apply marks_only_quiet|].
  eapply marks_only_ok; [exact Hm|by eapply issued_ok].
Qed.

Lemma channel_reach_issued tr s : channel_reach c tr s → issued tr s.
Proof.
  induction 1 as [|tr s e s' Hre IH Hst]; [constructor|].
  destruct (channel_step_ok _ _ _ Hst (issued_ok _ _ IH))
    as [Hs' [[-> Hq]|(clk & rc & s1 & -> & Hm & _ & Hi & Hu)]].
  - rewrite app_nil_r. by eapply issued_quiet.
  - eapply issued_snoc; [by eapply issued_marks|exact Hi|exact Hu].
Qed.

(** Once a command is issued, its constraints hold for ever. *)
Lemma issued_constraints tr s :
  issued tr s → ∀ t1 c1 i j k b t d,
  (t1, c1) ∈ tr → lookup3 (bank_states_ s) i j k = Some b →
  (t, d) ∈ constraints_for (Timing_new c) c1 i j k → u64 (t1 + d) ≤ ready_at b t.
Proof.
  induction 1 as [|tr s s' Hre IH (Hq & _) Hs'|tr s clk rc s' Hre IH Hi Hu];
    intros t1 c1 i j k b' t d Hin Hb' Hd; [by apply not_elem_of_nil in Hin|..];
    pose proof (issued_ok _ _ Hre) as Hs.
  - assert (∃ b, lookup3 (bank_states_ s) i j k = Some b) as [b Hb].
    { apply (ch_dims _ _ Hs). apply (ch_dims _ _ Hs'). eauto. }
    destruct (Hq _ _ _ _ Hb) as (b2 & Hb2 & Hr). simplify_eq. rewrite Hr. by eapply IH.
  - destruct (UpdateTimingAndStates_issuable c rc clk s Hs Hi) as (s2 & Hu2 & Hs' & Hra & _).
    rewrite Hu in Hu2. injection Hu2 as <-.
    assert (∃ b, lookup3 (bank_states_ s) i j k = Some b) as [b Hb].
    { apply (ch_dims _ _ Hs). apply (ch_dims _ _ Hs'). eauto. }
    destruct (Hra _ _ _ _ Hb) as (b2 & Hb2 & Hr). simplify_eq. rewrite Hr.
    apply elem_of_app in Hin as [Hin|Hin].
    + etransitivity; [by eapply IH|apply raise_to_ge].
    + apply list_elem_of_singleton in Hin. simplify_eq. by apply raise_to_in.
Qed.

(** So a command comes after every delay that an earlier one put on it. *)
Lemma issued_timing tr s m n t1 t2 d c1 c2 i j k :
  issued tr s → (m < n)%nat → tr !! m = Some (t1, c1) → tr !! n = Some (t2, c2) →
  checked c2 i j k → 0 ≤ i < ranks c → 0 ≤ j < bankgroups c → 0 ≤ k < banks_per_group c →
  (cmd_type c2, d) ∈ constraints_for (Timing_new c) c1 i j k → u64 (t1 + d) ≤ t2.
Proof.
  intros Hre Hmn Hm Hn Hck Hi Hj Hk Hd. revert n Hmn Hn.
  induction Hre as [|tr s s' Hre IH _ _|tr s clk rc s' Hre IH Hiss Hu]; intros n Hmn Hn;
    [by rewrite lookup_nil in Hn|by eapply IH|].
  destruct (decide (n < length tr)%nat) as [Hlt|Hge].
  { rewrite lookup_app_l in Hm, Hn by lia. by eapply IH. }
  rewrite lookup_app_r in Hn by lia.
  assert (n = length tr) as -> by (apply lookup_lt_Some in Hn; simpl in Hn; lia).
  rewrite Nat.sub_diag in Hn. injection Hn as <- <-. rewrite lookup_app_l in Hm by lia.
  pose proof (issued_ok _ _ Hre) as Hs.
  destruct (channel_lookup c s i j k Hs Hi Hj Hk) as (b & Hb & _).
  etransitivity; [|exact (iss_time _ _ _ _ Hiss i j k b Hck Hb)].
  eapply (issued_constraints tr s Hre); [by eapply list_elem_of_lookup_2|done|done].
Qed.

(** ** Activation windows *)

(** The cycles at which rank [r] was activated. *)
Definition activations (r : Z) (tr : list (Z * Command)) : list Z :=
  (filter (λ e : Z * Command, cmd_type e.2 = ACTIVATE ∧ Rank e.2 = r) tr).*1.

(** The clock of a trace does not run backwards. *)
Definition clock_monotone (tr : list (Z * Command)) : Prop :=
  ∀ i j x y, (i ≤ j)%nat → tr !! i = Some x → tr !! j = Some y → x.1 ≤ y.1.

(** Five consecutive activations of a list span at least [delay]. *)
Definition spaced (delay : Z) (acts : list Z) : Prop :=
  ∀ n a b, acts !! n = Some a → acts !! (n + 4)%nat = Some b → u64 (a + delay) ≤ b.

(** The window of a rank: the expiries of its last activations, at most four;
    the earlier ones have expired by some cycle of the trace. *)
Definition faw_inv (r : Z) (tr : list (Z * Command)) (w : list Z) : Prop :=
  ∃ old kept, activations r tr = old ++ kept ∧ w = (λ t, u64 (t + tFAW c)) <$> kept ∧
    (length kept ≤ 4)%nat ∧
    ∀ x, x ∈ old → ∃ e, e ∈ tr ∧ u64 (x + tFAW c) ≤ e.1.

Lemma clock_monotone_app tr e : clock_monotone (tr ++ e) → clock_monotone tr.
Proof.
  intros H i j x y Hij Hi Hj. eapply H; [exact Hij| |]; by apply lookup_app_l_Some.
Qed.

Lemma clock_monotone_snoc tr e x : clock_monotone (tr ++ [e]) → x ∈ tr → x.1 ≤ e.1.
Proof.
  intros H Hx. apply list_elem_of_lookup_1 in Hx as [i Hi].
  pose proof (lookup_lt_Some _ _ _ Hi).
  eapply (H i (length tr)); [lia|by apply lookup_app_l_Some|].
  rewrite lookup_app_r by lia. by rewrite Nat.sub_diag.
Qed.

Lemma activations_snoc r tr clk rc :
  activations r (tr ++ [(clk, rc)]) =
  activations r tr ++ (if decide (cmd_type rc = ACTIVATE ∧ Rank rc = r) then [clk] else []).
Proof.
  unfold activations. rewrite list.filter_app, fmap_app. f_equal.
  rewrite list.filter_cons. simpl. by case_decide.
Qed.

Lemma spaced_snoc delay old kept clk :
  spaced delay (old ++ kept) → (length kept ≤ 4)%nat →
  (∀ x, x ∈ old → u64 (x + delay) ≤ clk) →
  (∀ x, length kept = 4%nat → head kept = Some x → u64 (x + delay) ≤ clk) →
  spaced delay ((old ++ kept) ++ [clk]).
Proof.
  intros Hsp Hlen Hold Hkept n a b Ha Hb. pose proof (lookup_lt_Some _ _ _ Hb) as Hlt.
  rewrite length_app in Hlt. simpl in Hlt.
  destruct (decide (n + 4 < length (old ++ kept))%nat) as [Hin|Hout].
  { rewrite lookup_app_l in Ha, Hb by lia. by eapply Hsp. }
  assert (n + 4 = length (old ++ kept))%nat as En by lia.
  rewrite lookup_app_r, En, Nat.sub_diag in Hb by lia. injection Hb as <-.
  rewrite lookup_app_l in Ha by lia. rewrite length_app in En.
  destruct (decide (n < length old)%nat) as [Ho|Ho].
  - rewrite lookup_app_l in Ha by done. apply Hold. by eapply list_elem_of_lookup_2.
  - rewrite lookup_app_r in Ha by lia. replace (n - length old)%nat with 0%nat in Ha by lia.
    apply Hkept; [lia|]. by destruct kept.
Qed.

(** The window after an activation that was allowed. *)
Lemma faw_inv_push r tr w clk rc :
  faw_inv r tr w → cmd_type rc = ACTIVATE → Rank rc = r → window_ready w 4 clk = true →
  faw_inv r (tr ++ [(clk, rc)]) (window_push (tFAW c) clk w).
Proof.
  intros (old & kept & Ea & -> & Hlen & Hold) Hty Hr Hw.
  assert (∀ x, x ∈ old → ∃ e, e ∈ tr ++ [(clk, rc)] ∧ u64 (x + tFAW c) ≤ e.1) as Hold'.
  { intros x Hx. destruct (Hold x Hx) as (e & He & ?). exists e. split; [set_solver|done]. }
  unfold faw_inv. rewrite activations_snoc, Ea, decide_True by done.
  destruct kept as [|k kept]; simpl in *.
  - exists old, [clk]. split_and!; [by rewrite app_nil_r|done|simpl; lia|done].
  - unfold window_push. destruct (decide (u64 (k + tFAW c) ≤ clk)) as [Hk|Hk].
    + exists (old ++ [k]), (kept ++ [clk]). split_and!.
      * by rewrite <- !app_assoc.
      * by rewrite fmap_app.
      * rewrite length_app. simpl. lia.
      * intros x [Hx|Hx%list_elem_of_singleton]%elem_of_app; [auto|]. subst x.
        exists (clk, rc). split; [set_solver|done].
    + exists old, (k :: kept ++ [clk]). split_and!; [by rewrite <- app_assoc| | |done].
      * simpl. by rewrite fmap_app.
      * simpl. rewrite length_app. simpl. apply negb_true_iff, bool_decide_eq_false in Hw.
        rewrite length_fmap in Hw. lia.
Qed.

Lemma window_ok_faw r clk s :
  ActivationWindowOk c r clk s = Ok true →
  ∃ w, vlookup (four_aw_ s) r = Some w ∧ window_ready w 4 clk = true.
Proof.
  unfold ActivationWindowOk, IsFAWReady. intros H. simplify_res.
  match goal with H : vec_get _ _ = Ok _ |- _ => apply vec_get_Ok in H end.
  eexists. split; [done|]. destruct (IsGDDR c), (window_ready _ 4 clk); simpl in *; by simplify_res.
Qed.

Lemma issued_faw r tr s w :
  issued tr s → clock_monotone tr → vlookup (four_aw_ s) r = Some w →
  faw_inv r tr w ∧ spaced (tFAW c) (activations r tr).
Proof.
  intros Hre; revert w; induction Hre as [|tr s s' Hre IH (_ & Hq & _) Hs'|tr s clk rc s' Hre IH Hi Hu];
    intros w' Hmono Hw'.
  { simpl in Hw'. unfold vector_of in Hw'. rewrite vlookup_replicate in Hw'.
    case_decide; simplify_eq. split; [|by intros ?]. exists [], []. split_and!; [done|done|simpl; lia|].
    intros x Hx. by apply not_elem_of_nil in Hx. }
  { rewrite Hq in Hw'. auto. }
  pose proof (issued_ok _ _ Hre) as Hs. apply clock_monotone_app in Hmono as Hmono0.
  destruct (UpdateTimingAndStates_issuable c rc clk s Hs Hi) as (s2 & Hu2 & Hs' & _ & Hra & _).
  rewrite Hu in Hu2. injection Hu2 as <-.
  assert (∃ w, vlookup (four_aw_ s) r = Some w) as [w Hw].
  { apply vlookup_lt. apply vlookup_range in Hw'.
    destruct (ch_windows _ _ Hs) as [-> _]. destruct (ch_windows _ _ Hs') as [E _].
    rewrite E in Hw'. done. }
  pose proof (Hra r w Hw) as Hw2. rewrite Hw' in Hw2. simplify_eq.
  destruct (IH w Hmono0 Hw) as [Hinv Hsp]. unfold faw_after.
  destruct (decide (cmd_type rc = ACTIVATE ∧ r = Rank rc)) as [[Hty Hr]|Hne].
  - pose proof (iss_window _ _ _ _ Hi Hty) as (w1 & Hw1 & Hrd)%window_ok_faw.
    rewrite <- Hr in Hw1. simplify_eq. split; [by apply faw_inv_push|].
    destruct Hinv as (old & kept & Ea & -> & Hlen & Hold).
    rewrite activations_snoc, decide_True by done. rewrite Ea in *.
    apply spaced_snoc; [done|done| |].
    + intros x Hx. destruct (Hold x Hx) as (e & He & Hle).
      pose proof (clock_monotone_snoc _ _ _ Hmono He). simpl in *. lia.
    + intros x Hl4 Hh. destruct kept as [|k kept]; [done|]. simpl in *. simplify_eq.
      apply negb_true_iff, bool_decide_eq_false in Hrd. rewrite length_fmap in Hrd. lia.
  - rewrite activations_snoc, decide_False, app_nil_r by naive_solver. split; [|done].
    destruct Hinv as (old & kept & Ea & -> & Hlen & Hold). exists old, kept.
    rewrite activations_snoc, decide_False, app_nil_r by naive_solver.
    split_and!; [done|done|done|]. intros x Hx. destruct (Hold x Hx) as (e & He & ?).
    exists e. split; [set_solver|done].
Qed.

Lemma issued_spaced r tr s :
  issued tr s → clock_monotone tr → 0 ≤ r < ranks c → spaced (tFAW c) (activations r tr).
Proof.
  intros Hre Hmono Hr. destruct (vlookup_lt (four_aw_ s) r) as [w Hw].
  { destruct (ch_windows _ _ (issued_ok _ _ Hre)) as [-> _]. lia. }
  by apply (issued_faw r tr s w Hre Hmono Hw).
Qed.
End traces.

(** ** Driving a channel

    [drive reqs s] makes the requests [reqs], each at its cycle, and issues
    what comes back; it returns the trace. *)
#[export] Instance request_ok_dec c cmd s : Decision (request_ok c cmd s).
Proof. unfold request_ok. apply _. Defined.

Fixpoint drive (c : Config) (reqs : list (Command * Z)) (s : ChannelState)
    : res (list (Z * Command) * ChannelState) :=
  match reqs with
  | [] => Ok ([], s)
  | (cmd, clk) :: reqs =>
    if decide (request_ok c cmd s) then
      '(rc, s1) ← GetReadyCommand c cmd clk s;
      if IsValid rc then
        s2 ← UpdateTimingAndStates c (Timing_new c) rc clk s1;
        '(tr, s3) ← drive c reqs s2; Ok ((clk, rc) :: tr, s3)
      else drive c reqs s1
    else Fault AssertFailed
  end.

Lemma drive_reach c reqs tr0 tr s s' :
  drive c reqs s = Ok (tr, s') → channel_reach c tr0 s → channel_reach c (tr0 ++ tr) s'.
Proof.
  revert tr0 tr s; induction reqs as [|[cmd clk] reqs IH]; intros tr0 tr s Hd Hre; simpl in Hd.
  { simplify_res. by rewrite app_nil_r. }
  case_decide as Hreq; [|done]. apply bind_Ok_inv in Hd as ([rc s1] & Hg & Hd).
  destruct (IsValid rc) eqn:Hv.
  - apply bind_Ok_inv in Hd as (s2 & Hu & Hd). apply bind_Ok_inv in Hd as ([tr2 s3] & Hd & E).
    simplify_res. change ((clk, rc) :: tr2) with ([(clk, rc)] ++ tr2). rewrite app_assoc.
    eapply IH; [done|]. eapply reach_step; [done|]. by eapply step_issue.
  - eapply IH; [done|]. rewrite <- (app_nil_r tr0).
    eapply reach_step; [done|]. by eapply step_ask.
Qed.

Lemma drive_trace c reqs tr :
  (fst <$> match drive c reqs (ChannelState_new c) with Ok p => Some p | _ => None end) = Some tr →
  ∃ s, channel_reach c tr s.
Proof.
  destruct (drive _ _ _) as [[tr' s]|] eqn:E; simpl; [|done]. intros [= ->].
  exists s. apply (drive_reach c reqs [] tr _ s E). constructor.
Qed.

(** ** Properties *)

(** C7: no reachable channel ever aborts on its owner.  For any valid request
    (reads and writes only, when the rank is in self-refresh)
    [GetReadyCommand] returns, and if what it returns is a command, issuing it
    returns too and leaves a channel with the same invariant: the bank state
    machines of a whole rank accept every command that was declared ready. *)
Theorem channel_never_aborts (c : Config) (tr : list (Z * Command)) (s : ChannelState)
    (cmd : Command) (clk : Z) :
  Geometry c → channel_reach c tr s → request_ok c cmd s →
  ∃ rc s1, GetReadyCommand c cmd clk s = Ok (rc, s1) ∧ channel_ok c s1 ∧
    (IsValid rc = true →
     ∃ s2, UpdateTimingAndStates c (Timing_new c) rc clk s1 = Ok s2 ∧ channel_ok c s2).
Proof.
  intros Geo Hre Hreq. pose proof (channel_reach_ok c tr s Hre) as Hs.
  destruct (GetReadyCommand_channel_total c cmd clk s Hs Hreq) as (rc & s1 & Hg).
  destruct Hreq as (Hr & Ha & _).
  destruct (GetReadyCommand_sound c cmd clk s rc s1 Hs Hr Ha Hg) as [Hm Hi].
  assert (channel_ok c s1) as Hs1 by by eapply marks_only_ok.
  exists rc, s1. split_and!; [done|done|]. intros Hv.
  destruct (UpdateTimingAndStates_issuable c rc clk s1 Hs1 (Hi Hv)) as (s2 & Hu & Hs2 & _). eauto.
Qed.

Lemma channel_never_aborts_witness :
  let c := sample_config in let s := ChannelState_new c in
  let cmd := MkCommand READ (MkAddress 0 0 1 2 40 0) 0 in
  ∃ rc s1, GetReadyCommand c cmd 3 s = Ok (rc, s1) ∧ channel_ok c s1 ∧
    (IsValid rc = true →
     ∃ s2, UpdateTimingAndStates c (Timing_new c) rc 3 s1 = Ok s2 ∧ channel_ok c s2).
Proof.
  apply (channel_never_aborts sample_config []); [apply sample_geometry|constructor|].
  split; [by repeat split|split; [|vm_compute; discriminate]].
  vm_compute. repeat split; discriminate || reflexivity.
Defined.

(** Timing compliance.  In every trace of a channel, a command is issued
    only when every delay that any earlier command of the trace put on it has
    passed: if [c1] was issued at [t1] and its list for bank [(i, j, k)] holds
    back the type of a later [c2] for [d] cycles, and [c2] is a command on
    that bank (for a rank refresh, any bank of the rank), then [c2] is issued
    at [t1 + d] or later, as long as [t1 + d] fits [uint64_t]. *)
Theorem issued_commands_respect_timing (c : Config) (tr : list (Z * Command)) (s : ChannelState)
    (m n : nat) (t1 t2 d : Z) (c1 c2 : Command) (i j k : Z) :
  Geometry c → channel_reach c tr s → (m < n)%nat →
  tr !! m = Some (t1, c1) → tr !! n = Some (t2, c2) →
  checked c2 i j k → 0 ≤ i < ranks c → 0 ≤ j < bankgroups c → 0 ≤ k < banks_per_group c →
  (cmd_type c2, d) ∈ constraints_for (Timing_new c) c1 i j k → 0 ≤ t1 + d < two64 →
  t1 + d ≤ t2.
Proof.
  intros Geo Hre%channel_reach_issued Hmn Hm Hn Hck Hi Hj Hk Hd Hrange; [|done].
  rewrite <- (u64_small (t1 + d)) by done. by eapply issued_timing.
Qed.

(** The four-activate window.  In every trace of a channel whose clock does
    not run backwards, the fifth of five consecutive activations of a rank
    comes at least [tFAW] cycles after the first. *)
Theorem four_activate_window (c : Config) (tr : list (Z * Command)) (s : ChannelState)
    (r : Z) (n : nat) (a b : Z) :
  Geometry c → channel_reach c tr s → clock_monotone tr → 0 ≤ r < ranks c →
  activations r tr !! n = Some a → activations r tr !! (n + 4)%nat = Some b →
  0 ≤ a + tFAW c < two64 → a + tFAW c ≤ b.
Proof.
  intros Geo Hre%channel_reach_issued Hmono Hr Ha Hb Hrange; [|done].
  rewrite <- (u64_small (a + tFAW c)) by done.
  by apply (issued_spaced c r tr s Hre Hmono Hr n a b).
Qed.

(** Reads of row [row] of bank [(0, g, b)] at cycle [clk]. *)
Definition sample_read (g b row clk : Z) : Command * Z :=
  (MkCommand READ (MkAddress 0 0 g b row 0) 0, clk).

Definition sample_trace (reqs : list (Command * Z)) : list (Z * Command) :=
  match drive sample_config reqs (ChannelState_new sample_config) with
  | Ok (tr, _) => tr | _ => [] end.

Lemma issued_commands_respect_timing_witness :
  let tr := sample_trace [sample_read 0 1 40 0; sample_read 0 1 40 16; sample_read 0 1 40 17] in
  map fst tr = [0; 17] ∧ 0 + 17 ≤ 17.
Proof.
  split; [vm_compute; reflexivity|].
  destruct (drive_trace sample_config
    [sample_read 0 1 40 0; sample_read 0 1 40 16; sample_read 0 1 40 17]
    [(0, MkCommand ACTIVATE (MkAddress 0 0 0 1 40 0) 0); (17, (sample_read 0 1 40 17).1)])
    as [s Hre]; [vm_compute; reflexivity|].
  apply (issued_commands_respect_timing sample_config _ s 0 1 0 17 17
    (MkCommand ACTIVATE (MkAddress 0 0 0 1 40 0) 0) (sample_read 0 1 40 17).1 0 0 1
    sample_geometry Hre); try reflexivity; try (vm_compute; split; [discriminate|reflexivity]).
  - lia.
  - split; [reflexivity|]. right. right. split; reflexivity.
  - apply (bool_decide_eq_true_1 _). vm_compute. reflexivity.
Defined.

Definition sample_activations : list (Command * Z) :=
  [sample_read 0 0 5 0; sample_read 1 0 5 8; sample_read 0 1 5 16; sample_read 1 1 5 24;
   sample_read 0 2 5 35; sample_read 0 2 5 36].

Lemma four_activate_window_witness :
  activations 0 (sample_trace sample_activations) = [0; 8; 16; 24; 36] ∧
  0 + tFAW sample_config ≤ 36.
Proof.
  split; [vm_compute; reflexivity|].
  destruct (drive_trace sample_config sample_activations (sample_trace sample_activations))
    as [s Hre]; [vm_compute; reflexivity|].
  apply (four_activate_window sample_config (sample_trace sample_activations) s 0 0 0 36
    sample_geometry Hre); try (vm_compute; split; [discriminate|reflexivity]);
    try (vm_compute; reflexivity).
  intros i j x y Hij Hi Hj. vm_compute in Hi, Hj.
  do 5 (destruct i as [|i]; [do 5 (destruct j as [|j]; [simplify_eq; simpl; lia|]); done|]). done.
Defined.
