(* ===== verification/Protocol.v ===== *)
(** * Protocol: the rows that a trace of commands opens

    A device has no memory of requests: what it may be told next depends on
    the row that the commands before have left open in each bank.  This is the
    abstract device, a register per bank that follows the trace alone; the
    commands that a channel issues (src/src/channel_state.cc, bankstate.cc)
    are always ones that it accepts. *)

From S2P Require Import Prelude Common Configuration Timing BankState ChannelState ChannelSafety.
Local Open Scope Z_scope.

(** ** The abstract device *)

(** The open row of bank [(i, j, k)] after a command. *)
Definition row_after (e : Command) (i j k : Z) (r : option Z) : option Z :=
  if decide (targeted e i j k) then
    match cmd_type e with
    | ACTIVATE => Some (Row e)
    | READ | WRITE => r
    | _ => None
    end
  else r.

Definition open_row (tr : list (Z * Command)) (i j k : Z) : option Z :=
  foldl (λ r e, row_after e.2 i j k r) None tr.

(** What a bank with the open row [r] may be told: a column command for this
    row, to close it if there is one, and all else only when it is closed. *)
Definition obeys (e : Command) (r : option Z) : Prop :=
  match cmd_type e with
  | READ | READ_PRECHARGE | WRITE | WRITE_PRECHARGE => r = Some (Row e)
  | PRECHARGE => r ≠ None
  | ACTIVATE | REFRESH | REFRESH_BANK | SREF_ENTER | SREF_EXIT => r = None
  | SIZE => False
  end.

(** Every command of a trace is accepted by every bank that it is for. *)
Definition protocol (c : Config) (tr : list (Z * Command)) : Prop :=
  ∀ n e i j k, tr !! n = Some e → targeted e.2 i j k →
    0 ≤ i < ranks c → 0 ≤ j < bankgroups c → 0 ≤ k < banks_per_group c →
    obeys e.2 (open_row (take n tr) i j k).

Lemma open_row_snoc tr e i j k : open_row (tr ++ [e]) i j k = row_after e.2 i j k (open_row tr i j k).
Proof. unfold open_row. by rewrite foldl_app. Qed.

(** ** The channel implements it *)

(** The row that a bank has open. *)
Definition device_row (b : BankState) : option Z := if decide (state_ b = OPEN) then Some (open_row_ b) else None.

Lemma device_row_after cmd b b1 b' i j k :
  accepts (state_ b) (cmd_type cmd) = true → BankState.UpdateState cmd b = Ok b1 →
  state_ b' = next_state (cmd_type cmd) → open_row_ b' = open_row_ b1 → targeted cmd i j k →
  device_row b' = row_after cmd i j k (device_row b).
Proof.
  intros Hacc Hu Hst Hrow Ht. unfold row_after. rewrite decide_True by done.
  unfold device_row. rewrite Hst, Hrow. revert Hacc Hu. unfold BankState.UpdateState.
  destruct (state_ b) eqn:E, (cmd_type cmd) eqn:Ety; try done; intros _ Hu; by simplify_res.
Qed.

Lemma accepts_obeys cmd b :
  accepts (state_ b) (cmd_type cmd) = true → (IsReadWrite cmd = true → open_row_ b = Row cmd) →
  obeys cmd (device_row b).
Proof.
  intros Hacc Hrow. unfold obeys, device_row, IsReadWrite, IsRead, IsWrite in *.
  destruct (state_ b), (cmd_type cmd); try done; simpl in *; by rewrite Hrow.
Qed.

Section protocol.
Context (c : Config) `{Geo : !Geometry c}.

(** After every trace of a channel the abstract rows are the open rows. *)
Lemma issued_rows tr s :
  issued c tr s →
  (∀ i j k b, lookup3 (bank_states_ s) i j k = Some b → open_row tr i j k = device_row b) ∧ protocol c tr.
Proof.
  induction 1 as [|tr s s' Hre [IH1 IH2] (Hq & _ & _ & Hst) Hs'|tr s clk rc s' Hre [IH1 IH2] Hi Hu].
  - split; [|by intros n e i j k Hn; rewrite lookup_nil in Hn]. intros i j k b Hb.
    assert (b = BankState_new) as -> by (by eapply lookup3_replicate; exact Hb). done.
  - split; [|done]. intros i j k b' Hb'. pose proof (issued_ok c tr s Hre) as Hs.
    assert (∃ b, lookup3 (bank_states_ s) i j k = Some b) as [b Hb].
    { apply (ch_dims _ _ Hs). apply (ch_dims _ _ Hs'). eauto. }
    destruct (Hst _ _ _ _ _ Hb Hb') as [E1 E2]. rewrite (IH1 _ _ _ _ Hb). unfold device_row. by rewrite E1, E2.
  - pose proof (issued_ok c tr s Hre) as Hs.
    destruct (UpdateTimingAndStates_issuable c rc clk s Hs Hi) as (s2 & Hu2 & Hs' & _ & _ & _ & Hnext & Hmoved).
    rewrite Hu in Hu2. injection Hu2 as <-. split.
    + intros i j k b' Hb'. assert (∃ b, lookup3 (bank_states_ s) i j k = Some b) as [b Hb].
      { apply (ch_dims _ _ Hs). apply (ch_dims _ _ Hs'). eauto. }
      destruct (Hmoved _ _ _ _ _ Hb Hb') as [Hyes Hno]. rewrite open_row_snoc, (IH1 _ _ _ _ Hb). simpl.
      destruct (decide (targeted rc i j k)) as [Ht|Ht].
      * destruct (Hyes Ht) as (b1 & Hb1 & Hrow). symmetry. eapply device_row_after; try done.
        -- by apply (iss_accepts _ _ _ _ Hi _ _ _ _ Ht Hb).
        -- by eapply Hnext.
      * destruct (Hno Ht) as [E1 E2]. unfold row_after, device_row. rewrite decide_False by done. by rewrite E1, E2.
    + intros n e i j k [Hn|[Hge Hn]]%lookup_app_Some Ht Hir Hjr Hkr.
      * rewrite take_app_le by (apply lookup_lt_Some in Hn; lia). by eapply IH2.
      * apply list_lookup_singleton_Some in Hn as [Hlen <-].
        rewrite take_app_length' by lia. cbn [snd] in *.
        destruct (channel_lookup c s i j k Hs) as (b & Hb & _); [done..|].
        rewrite (IH1 _ _ _ _ Hb). apply accepts_obeys; [by apply (iss_accepts _ _ _ _ Hi _ _ _ _ Ht Hb)|].
        intros Hrw. destruct Ht as [-> [Hrk|[-> ->]]]; [|by apply (iss_row _ _ _ _ Hi Hrw)].
        by rewrite IsReadWrite_not_rank in Hrk.
Qed.
End protocol.
