(* ===== verification/SimpleStats.v ===== *)
(** * SimpleStats: the counters of a channel (src/src/simple_stats.h, simple_stats.cc)

    The integer statistics: event counters, per-rank counters and latency
    histograms, each kept once for the running epoch and once for the run.
    The floating-point statistics (energies, bandwidth, averages) are in
    Energy.v; the order in which a hash table is iterated is the order of its
    entries' keys. *)

From S2P Require Import Prelude Configuration.
Local Open Scope Z_scope.

Definition HistoCount : Type := gmap Z Z.

Record SimpleStats : Type := MkSimpleStats {
  counters_ : gmap string Z;
  epoch_counters_ : gmap string Z;
  vec_counters_ : gmap string (list Z);
  epoch_vec_counters_ : gmap string (list Z);
  histo_bounds_ : gmap string (Z * Z);
  bin_widths_ : gmap string Z;
  histo_counts_ : gmap string HistoCount;
  epoch_histo_counts_ : gmap string HistoCount;
  histo_bins_ : gmap string (list Z);
  epoch_histo_bins_ : gmap string (list Z) }.

#[export] Instance SimpleStats_eta : RecordEta SimpleStats := λ s, MkSimpleStats
  (counters_ s) (epoch_counters_ s) (vec_counters_ s) (epoch_vec_counters_ s)
  (histo_bounds_ s) (bin_widths_ s) (histo_counts_ s) (epoch_histo_counts_ s)
  (histo_bins_ s) (epoch_histo_bins_ s).

Definition stats_empty : SimpleStats := MkSimpleStats ∅ ∅ ∅ ∅ ∅ ∅ ∅ ∅ ∅ ∅.

(** [map.emplace(k, v)]: nothing happens when the key is present. *)
Definition emplace {A} (k : string) (v : A) (m : gmap string A) : gmap string A :=
  match m !! k with Some _ => m | None => <[k := v]> m end.

(** [map[k]], which inserts a default value [d] when the key is absent. *)
Definition at_or {A} (d : A) (m : gmap string A) (k : string) : A := default d (m !! k).

Definition zeros (n : Z) : list Z := replicate (Z.to_nat n) 0.

(** [InitStat(name, "counter", _)] *)
Definition InitStat (name : string) (s : SimpleStats) : SimpleStats :=
  s <| counters_ ::= emplace name 0 |> <| epoch_counters_ ::= emplace name 0 |>.

(** [InitVecStat(name, "vec_counter", _, _, vec_len)] *)
Definition InitVecStat (vec_len : Z) (name : string) (s : SimpleStats) : SimpleStats :=
  s <| vec_counters_ ::= emplace name (zeros vec_len) |>
    <| epoch_vec_counters_ ::= emplace name (zeros vec_len) |>.

Definition InitHistoStat (name : string) (start_val end_val num_bins : Z) (s : SimpleStats)
    : res SimpleStats :=
  bin_width ← int_div (end_val - start_val) num_bins;
  Ok (s <| bin_widths_ ::= emplace name bin_width |>
        <| histo_bounds_ ::= emplace name (start_val, end_val) |>
        <| histo_counts_ ::= emplace name ∅ |>
        <| epoch_histo_counts_ ::= emplace name ∅ |>
        <| histo_bins_ ::= emplace name (zeros (num_bins + 2)) |>
        <| epoch_histo_bins_ ::= emplace name (zeros (num_bins + 2)) |>).

Definition counter_names : list string :=
  ["num_cycles"; "epoch_num"; "num_reads_done"; "num_writes_done"; "num_write_buf_hits";
   "num_read_row_hits"; "num_write_row_hits"; "num_read_cmds"; "num_write_cmds";
   "num_act_cmds"; "num_pre_cmds"; "num_ondemand_pres"; "num_ref_cmds"; "num_refb_cmds";
   "num_srefe_cmds"; "num_srefx_cmds"; "hbm_dual_cmds"]%string.

Definition vec_counter_names : list string :=
  ["all_bank_idle_cycles"; "rank_active_cycles"; "sref_cycles"]%string.

(** The constructor. *)
Definition SimpleStats_new (config : Config) : res SimpleStats :=
  let s := foldl (λ s n, InitStat n s) stats_empty counter_names in
  let s := foldl (λ s n, InitVecStat (ranks config) n s) s vec_counter_names in
  s ← InitHistoStat "read_latency" 0 200 10 s;
  s ← InitHistoStat "write_latency" 0 200 10 s;
  InitHistoStat "interarrival_latency" 0 100 10 s.

Definition Increment (name : string) (s : SimpleStats) : SimpleStats :=
  s <| epoch_counters_ ::= λ m, <[name := u64 (at_or 0 m name + 1)]> m |>.

Definition IncrementVecBy (name : string) (pos num : Z) (s : SimpleStats) : res SimpleStats :=
  v ← vec_modify (at_or [] (epoch_vec_counters_ s) name) pos (λ x, Ok (u64 (x + num)));
  Ok (s <| epoch_vec_counters_ ::= <[name := v]> |>).

Definition IncrementVec (name : string) (pos : Z) (s : SimpleStats) : res SimpleStats :=
  IncrementVecBy name pos 1 s.

Definition AddValue (name : string) (value : Z) (s : SimpleStats) : SimpleStats :=
  s <| epoch_histo_counts_ ::= λ m,
    let epoch_counts := at_or ∅ m name in
    <[name := match epoch_counts !! value with
              | None => <[value := 1]> epoch_counts
              | Some n => <[value := u64 (n + 1)]> epoch_counts
              end]> m |>.

(** [counters_.at(name)] *)
Definition counter_at (name : string) (s : SimpleStats) : res Z :=
  of_option UncaughtException (counters_ s !! name).
Definition GetReadCmds : SimpleStats → res Z := counter_at "num_reads_done".
Definition GetWriteCmds : SimpleStats → res Z := counter_at "num_writes_done".
Definition GetReadRowHits : SimpleStats → res Z := counter_at "num_read_row_hits".
Definition GetWriteRowHits : SimpleStats → res Z := counter_at "num_write_row_hits".

(** The sum of a histogram: [i->first] is converted to [uint64_t]. *)
Definition histo_sum (h : HistoCount) : Z :=
  foldl (λ acc p, u64 (acc + u64 p.1 * p.2)) 0 (map_to_list h).
Definition histo_count (h : HistoCount) : Z :=
  foldl (λ acc p, u64 (acc + p.2)) 0 (map_to_list h).

Definition GetReadLatency (s : SimpleStats) : res Z :=
  h ← of_option UncaughtException (histo_counts_ s !! "read_latency"%string);
  Ok (histo_sum h).

(** [it.second = 0], [std::fill(..., 0)] and [clear()] on every entry. *)
Definition zero_counters (m : gmap string Z) : gmap string Z := (λ _, 0) <$> m.
Definition zero_vecs (m : gmap string (list Z)) : gmap string (list Z) :=
  (λ v : list Z, (λ _, 0) <$> v) <$> m.
Definition clear_histos (m : gmap string HistoCount) : gmap string HistoCount := (λ _, ∅) <$> m.

Definition Reset (s : SimpleStats) : SimpleStats :=
  s <| counters_ ::= zero_counters |>
    <| epoch_counters_ ::= zero_counters |>
    <| vec_counters_ ::= zero_vecs |>
    <| epoch_vec_counters_ ::= zero_vecs |>
    <| histo_counts_ ::= clear_histos |>
    <| epoch_histo_counts_ ::= clear_histos |>.

(** [acc[i] += v[i]] for every [i < v.size()]. *)
Fixpoint add_vec (acc v : list Z) : res (list Z) :=
  match v, acc with
  | [], _ => Ok acc
  | _ :: _, [] => Fault OutOfRange
  | x :: v', a :: acc' => r ← add_vec acc' v'; Ok (u64 (a + x) :: r)
  end.

Definition UpdateCounters (s : SimpleStats) : res SimpleStats :=
  let c := foldl (λ m p, <[p.1 := u64 (at_or 0 m p.1 + p.2)]> m) (counters_ s)
             (map_to_list (epoch_counters_ s)) in
  v ← foldM (λ p m, w ← add_vec (at_or [] m p.1) p.2; Ok (<[p.1 := w]> m))
        (map_to_list (epoch_vec_counters_ s)) (vec_counters_ s);
  Ok (s <| counters_ := c |> <| vec_counters_ := v |>).

(** The bin of a value, in a histogram of [n] bins. *)
Definition bin_index (bounds : Z * Z) (width n value : Z) : res Z :=
  if decide (value < bounds.1) then Ok 0
  else if decide (bounds.2 < value) then Ok (n - 1)
  else q ← int_div (value - bounds.1) width; Ok (q + 1).

(** The bins of one histogram, from its counts. *)
Definition fill_bins (bounds : Z * Z) (width : Z) (counts : HistoCount) (bins : list Z)
    : res (list Z) :=
  foldM (λ p b, i ← bin_index bounds width (Z.of_nat (length b)) p.1;
                vec_modify b i (λ x, Ok (u64 (x + p.2))))
    (map_to_list counts) ((λ _, 0) <$> bins).

(** The final counts after adding those of an epoch. *)
Definition merge_counts (final epoch : HistoCount) : HistoCount :=
  foldl (λ m p, <[p.1 := match m !! p.1 with None => p.2 | Some n => u64 (n + p.2) end]> m)
    final (map_to_list epoch).

(** [final_bins[i] += bins[i]] for every [i < final_bins.size()]. *)
Fixpoint add_bins (final_bins bins : list Z) : res (list Z) :=
  match final_bins, bins with
  | [], _ => Ok []
  | _ :: _, [] => Fault OutOfRange
  | f :: fs, b :: bs => r ← add_bins fs bs; Ok (u64 (f + b) :: r)
  end.

Definition UpdateHistoBins (s : SimpleStats) : res SimpleStats :=
  bins ← foldM (λ p m,
      b ← fill_bins (at_or (0, 0) (histo_bounds_ s) p.1) (at_or 0 (bin_widths_ s) p.1)
            (at_or ∅ (epoch_histo_counts_ s) p.1) p.2;
      Ok (<[p.1 := b]> m))
    (map_to_list (epoch_histo_bins_ s)) (epoch_histo_bins_ s);
  let s := s <| epoch_histo_bins_ := bins |> in
  '(fc, fb) ← foldM (λ p acc,
      w ← add_bins (at_or [] acc.2 p.1) (at_or [] bins p.1);
      Ok (<[p.1 := merge_counts (at_or ∅ acc.1 p.1) p.2]> acc.1, <[p.1 := w]> acc.2))
    (map_to_list (epoch_histo_counts_ s)) (histo_counts_ s, histo_bins_ s);
  Ok (s <| histo_counts_ := fc |> <| histo_bins_ := fb |>).

(** The integer part of [UpdateEpochStats]: fold the epoch into the run, then
    clear the epoch. *)
Definition UpdateEpochStats (s : SimpleStats) : res SimpleStats :=
  s ← UpdateCounters s;
  s ← UpdateHistoBins s;
  Ok (s <| epoch_counters_ ::= zero_counters |>
        <| epoch_vec_counters_ ::= zero_vecs |>
        <| epoch_histo_counts_ ::= clear_histos |>).

(** The integer part of [UpdateFinalStats]. *)
Definition UpdateFinalStats (s : SimpleStats) : res SimpleStats :=
  s ← UpdateCounters s; UpdateHistoBins s.

(** ** Invariant and accounting *)

(** Bins wide enough for their bounds. *)
Definition bins_fit (bounds : Z * Z) (width n : Z) : Prop :=
  0 < width ∧ 2 ≤ n ∧ Z.quot (bounds.2 - bounds.1) width + 2 ≤ n.

(** The per-rank counters of the epoch exist, one slot per rank; the totals of
    the run have the shape of the epoch; every value has a bin. *)
Record stats_ok (c : Config) (s : SimpleStats) : Prop := {
  so_ranks : ∀ n, n ∈ vec_counter_names →
    ∃ v, epoch_vec_counters_ s !! n = Some v ∧ length v = Z.to_nat (ranks c);
  so_vecs : ∀ n v, epoch_vec_counters_ s !! n = Some v →
    ∃ w, vec_counters_ s !! n = Some w ∧ length w = length v;
  so_bins : ∀ n b, epoch_histo_bins_ s !! n = Some b →
    bins_fit (at_or (0, 0) (histo_bounds_ s) n) (at_or 0 (bin_widths_ s) n) (Z.of_nat (length b));
  so_totals : ∀ n, length (at_or [] (histo_bins_ s) n) = length (at_or [] (epoch_histo_bins_ s) n) }.

Lemma emplace_lookup {A} (m : gmap string A) k v k' :
  emplace k v m !! k' = if decide (k' = k ∧ m !! k = None) then Some v else m !! k'.
Proof.
  unfold emplace. destruct (m !! k) eqn:E.
  - rewrite decide_False by naive_solver. done.
  - destruct (decide (k' = k)) as [->|].
    + rewrite decide_True by done. by rewrite lookup_insert_eq.
    + rewrite decide_False by naive_solver. by rewrite lookup_insert_ne.
Qed.

Lemma Increment_ok c n s : stats_ok c s → stats_ok c (Increment n s).
Proof. by intros []. Qed.

Lemma AddValue_ok c n v s : stats_ok c s → stats_ok c (AddValue n v s).
Proof. by intros []. Qed.

#[export] Hint Resolve Increment_ok AddValue_ok : dram.

Lemma IncrementVecBy_ok c n i k s :
  stats_ok c s → n ∈ vec_counter_names → 0 ≤ i < ranks c →
  ensures (IncrementVecBy n i k s) (stats_ok c).
Proof.
  intros [Hs1 Hs2 Hs3 Hs4] Hn Hi. destruct (Hs1 n Hn) as (v & Hv & Hlen).
  unfold IncrementVecBy, at_or. rewrite Hv. simpl.
  destruct (vlookup_lt v i) as [x Hx]; [lia|].
  destruct (vec_modify_Ok v i (λ x, Ok (u64 (x + k))) _ _ Hx eq_refl) as (w & -> & Hw & _).
  simpl. apply ensures_ret. constructor; [| |done..].
  - intros n' Hn'. simpl. destruct (decide (n' = n)) as [->|].
    + rewrite lookup_insert_eq. exists w. split; [done|congruence].
    + rewrite lookup_insert_ne by done. by apply Hs1.
  - intros n' v'. simpl. destruct (decide (n' = n)) as [->|].
    + rewrite lookup_insert_eq. intros [= <-]. rewrite Hw. by apply Hs2.
    + rewrite lookup_insert_ne by done. by apply Hs2.
Qed.

Lemma IncrementVec_total c n i s :
  stats_ok c s → n ∈ vec_counter_names → 0 ≤ i < ranks c →
  ∃ s', IncrementVec n i s = Ok s' ∧ stats_ok c s'.
Proof. apply IncrementVecBy_ok. Qed.

(** The statistics that the constructor registers. *)
Lemma InitVec_names l n s v :
  foldl (λ s x, InitVecStat n x s) s l = v →
  (∀ x, x ∈ l → epoch_vec_counters_ s !! x = None ∧ vec_counters_ s !! x = None) → NoDup l →
  (∀ x, x ∈ l → epoch_vec_counters_ v !! x = Some (zeros n) ∧ vec_counters_ v !! x = Some (zeros n)) ∧
  (∀ x, x ∉ l → epoch_vec_counters_ v !! x = epoch_vec_counters_ s !! x ∧
                vec_counters_ v !! x = vec_counters_ s !! x).
Proof.
  intros <-. revert s; induction l as [|y l IH]; intros s Hs Hnd; simpl.
  - split; [by intros x ?%not_elem_of_nil|done].
  - apply list.NoDup_cons in Hnd as [Hy Hnd]. destruct (Hs y) as [Hy1 Hy2]; [set_solver|].
    destruct (IH (InitVecStat n y s)) as [IH1 IH2]; [|done|].
    { intros x Hx. simpl. rewrite !emplace_lookup, !decide_False by naive_solver. apply Hs. set_solver. }
    split.
    + intros x [->|Hx]%elem_of_cons; [|by apply IH1]. destruct (IH2 y Hy) as [-> ->]. simpl.
      by rewrite !emplace_lookup, !decide_True.
    + intros x Hx. destruct (IH2 x) as [-> ->]; [set_solver|]. simpl.
      rewrite !emplace_lookup, !decide_False by set_solver. done.
Qed.

(** The histograms do not depend on the configuration. *)
Definition initial_histos : gmap string (list Z) :=
  list_to_map [("read_latency", zeros 12); ("write_latency", zeros 12);
               ("interarrival_latency", zeros 12)]%string.

Lemma SimpleStats_new_histos c :
  ∃ s, SimpleStats_new c = Ok s ∧ histo_bins_ s = initial_histos ∧
    epoch_histo_bins_ s = initial_histos ∧
    (∀ n, n ∈ ["read_latency"; "write_latency"; "interarrival_latency"]%string →
       bins_fit (at_or (0, 0) (histo_bounds_ s) n) (at_or 0 (bin_widths_ s) n) 12) ∧
    epoch_vec_counters_ s = foldl (λ m n, emplace n (zeros (ranks c)) m) ∅ vec_counter_names ∧
    vec_counters_ s = foldl (λ m n, emplace n (zeros (ranks c)) m) ∅ vec_counter_names.
Proof.
  eexists. split; [reflexivity|]. split_and!; [reflexivity|reflexivity| |reflexivity|reflexivity].
  intros n Hn. repeat (apply elem_of_cons in Hn as [->|Hn]; [vm_compute; repeat split; discriminate|]).
  by apply not_elem_of_nil in Hn.
Qed.

Lemma emplace_all_lookup {A} l (v : A) (m : gmap string A) n :
  foldl (λ m n, emplace n v m) m l !! n = if decide (m !! n = None ∧ n ∈ l) then Some v else m !! n.
Proof.
  revert m; induction l as [|k l IH]; intros m; simpl.
  - rewrite decide_False; [done|]. intros [_ H]. by apply not_elem_of_nil in H.
  - rewrite IH, emplace_lookup. destruct (m !! n) eqn:E; repeat case_decide; set_solver.
Qed.

Lemma SimpleStats_new_ok c : ∃ s, SimpleStats_new c = Ok s ∧ stats_ok c s.
Proof.
  destruct (SimpleStats_new_histos c) as (s & Hs & Hb & He & Hfit & Hev & Hv).
  exists s. split; [done|]. constructor.
  - intros n Hn. rewrite Hev, emplace_all_lookup, decide_True by done.
    eexists. split; [done|apply length_replicate].
  - intros n v. rewrite Hev, Hv, emplace_all_lookup. case_decide; [|done]. intros [= <-]. eauto.
  - intros n b. rewrite He. intros Hn%elem_of_list_to_map_2.
    repeat (apply elem_of_cons in Hn as [[= -> ->]|Hn]; [apply Hfit; set_solver|]).
    by apply not_elem_of_nil in Hn.
  - intros n. by rewrite Hb, He.
Qed.

(** ** The end of an epoch *)

Lemma add_vec_total acc v :
  (length v ≤ length acc)%nat → ∃ r, add_vec acc v = Ok r ∧ length r = length acc.
Proof.
  revert acc; induction v as [|x v IH]; intros [|a acc] H; simpl in *; try lia; eauto.
  destruct (IH acc) as (r & -> & Hr); [lia|]. simpl. eexists. split; [done|]. simpl. congruence.
Qed.

Lemma add_bins_total fs bs :
  (length fs ≤ length bs)%nat → ∃ r, add_bins fs bs = Ok r ∧ length r = length fs.
Proof.
  revert bs; induction fs as [|x v IH]; intros [|a acc] H; simpl in *; try lia; eauto.
  destruct (IH acc) as (r & -> & Hr); [lia|]. simpl. eexists. split; [done|]. simpl. congruence.
Qed.

(** Maps whose vectors have the same lengths. *)
Definition same_lengths (m m' : gmap string (list Z)) : Prop :=
  ∀ n, length <$> m !! n = length <$> m' !! n.

Lemma same_lengths_refl m : same_lengths m m.
Proof. done. Qed.

Lemma same_lengths_trans m1 m2 m3 : same_lengths m1 m2 → same_lengths m2 m3 → same_lengths m1 m3.
Proof. intros H1 H2 n. by rewrite H1. Qed.

Lemma same_lengths_insert m m' n v w :
  same_lengths m' m → m !! n = Some v → length w = length v → same_lengths (<[n := w]> m') m.
Proof.
  intros Hm Hn Hl k. destruct (decide (k = n)) as [->|].
  - rewrite lookup_insert_eq, Hn. simpl. by rewrite Hl.
  - by rewrite lookup_insert_ne.
Qed.

Lemma same_lengths_Some m m' n v :
  same_lengths m m' → m' !! n = Some v → ∃ w, m !! n = Some w ∧ length w = length v.
Proof.
  intros Hm Hn. specialize (Hm n). rewrite Hn in Hm. apply fmap_Some in Hm as (w & ? & ?). eauto.
Qed.

Lemma same_lengths_at m m' n :
  same_lengths m m' → length (at_or [] m n) = length (at_or [] m' n).
Proof.
  intros Hm. specialize (Hm n). unfold at_or.
  destruct (m !! n), (m' !! n); simpl in *; congruence.
Qed.

Lemma UpdateCounters_ok c s :
  stats_ok c s →
  ∃ s', UpdateCounters s = Ok s' ∧ stats_ok c s'.
Proof.
  intros [Hs1 Hs2 Hs3 Hs4]. unfold UpdateCounters.
  destruct (foldM_ok (λ (p : string * list Z) m, w ← add_vec (at_or [] m p.1) p.2; Ok (<[p.1 := w]> m))
    (λ m, same_lengths m (vec_counters_ s)) (map_to_list (epoch_vec_counters_ s)) (vec_counters_ s))
    as (m & -> & Hm).
  - intros [n v] m Hin Hm. apply elem_of_map_to_list in Hin. simpl.
    destruct (Hs2 n v Hin) as (w & Hw & Hlw).
    destruct (same_lengths_Some _ _ _ _ Hm Hw) as (w' & Hw' & Hl').
    destruct (add_vec_total (at_or [] m n) v) as (r & -> & Hr); unfold at_or in *; rewrite Hw' in *;
      simpl in *; [lia|].
    eexists. split; [done|]. eapply same_lengths_insert; [done|done|congruence].
  - apply same_lengths_refl.
  - simpl. eexists. split; [done|]. constructor; try done. simpl. intros n v Hn.
    destruct (Hs2 n v Hn) as (w & Hw & Hlw).
    destruct (same_lengths_Some _ _ _ _ Hm Hw) as (w' & Hw' & Hl'). exists w'. split; [done|congruence].
Qed.

(** The sum of the entries of a histogram that satisfy [p], and the bin of a
    value as a function. *)
Definition count_if (p : Z → bool) (counts : list (Z * Z)) : Z :=
  foldr (λ e acc, (if p e.1 then e.2 else 0) + acc) 0 counts.

Definition bin_of (bounds : Z * Z) (width n value : Z) : Z :=
  if decide (value < bounds.1) then 0
  else if decide (bounds.2 < value) then n - 1
  else Z.quot (value - bounds.1) width + 1.

Lemma bin_index_of bounds width n v :
  bins_fit bounds width n →
  bin_index bounds width n v = Ok (bin_of bounds width n v) ∧ 0 ≤ bin_of bounds width n v < n.
Proof.
  intros (Hw & Hn & Hfit). unfold bin_index, bin_of, int_div.
  case_decide; [split; [done|lia]|]. case_decide; [split; [done|lia]|].
  rewrite decide_False by lia. split; [done|].
  assert (0 ≤ Z.quot (v - bounds.1) width) by (apply Z.quot_pos; lia).
  assert (Z.quot (v - bounds.1) width ≤ Z.quot (bounds.2 - bounds.1) width)
    by (apply Z.quot_le_mono; lia). lia.
Qed.

Lemma count_if_app p l1 l2 : count_if p (l1 ++ l2) = count_if p l1 + count_if p l2.
Proof. induction l1 as [|e l1 IH]; simpl; lia. Qed.

Lemma fill_loop bounds width n l b :
  bins_fit bounds width n → length b = Z.to_nat n →
  ∃ b', foldM (λ p b, i ← bin_index bounds width (Z.of_nat (length b)) p.1;
                      vec_modify b i (λ x, Ok (u64 (x + p.2)))) l b = Ok b' ∧
    length b' = length b ∧
    ∀ i x, vlookup b i = Some x → ∃ y, vlookup b' i = Some y ∧
      u64 y = u64 (x + count_if (λ v, bool_decide (bin_of bounds width n v = i)) l) ∧
      (is_u64 x → is_u64 y).
Proof.
  intros Hfit Hlen.
  destruct (foldM_total (λ (p : Z * Z) b, i ← bin_index bounds width (Z.of_nat (length b)) p.1;
                      vec_modify b i (λ x, Ok (u64 (x + p.2))))
    (λ pre b', length b' = length b ∧ ∀ i x, vlookup b i = Some x → ∃ y, vlookup b' i = Some y ∧
      u64 y = u64 (x + count_if (λ v, bool_decide (bin_of bounds width n v = i)) pre) ∧
      (is_u64 x → is_u64 y)) l b) as (b' & Hrun & H1 & H2); [| |by exists b'].
  - split; [done|]. intros i x Hx. exists x. simpl. by rewrite Z.add_0_r.
  - intros pre [v k] b1 _ _ [Hl1 Hb1]. cbn [fst snd]. rewrite Hl1, Hlen.
    assert (2 ≤ n) by (destruct Hfit; lia). rewrite Z2Nat.id by lia.
    destruct (bin_index_of bounds width n v Hfit) as [-> Hr]. simpl.
    destruct (vlookup_lt b1 (bin_of bounds width n v)) as [y Hy]; [lia|].
    destruct (vec_modify_Ok b1 _ (λ x, Ok (u64 (x + k))) _ _ Hy eq_refl) as (b2 & Hb2 & Hl2 & Hlk).
    exists b2. split; [exact Hb2|]. split; [congruence|]. intros i x Hx.
    destruct (Hb1 i x Hx) as (y1 & Hy1 & Hm & Hu). rewrite Hlk, count_if_app. simpl.
    destruct (decide (i = bin_of bounds width n v)) as [->|Hne].
    + simplify_eq. eexists. split; [done|]. rewrite bool_decide_true by done.
      split; [|intros; apply u64_range]. unfold u64 in *.
      rewrite Zmod_mod, <- Zplus_mod_idemp_l, Hm, Zplus_mod_idemp_l. f_equal. lia.
    + exists y1. split; [done|]. rewrite bool_decide_false by congruence.
      split; [|done]. rewrite Hm. f_equal. lia.
Qed.

Lemma fill_bins_total bounds width counts bins :
  bins_fit bounds width (Z.of_nat (length bins)) →
  ∃ b, fill_bins bounds width counts bins = Ok b ∧ length b = length bins.
Proof.
  intros Hfit. unfold fill_bins.
  destruct (fill_loop bounds width (Z.of_nat (length bins)) (map_to_list counts) ((λ _, 0) <$> bins))
    as (b & Hrun & Hlen & _); [done|rewrite length_fmap; lia|].
  rewrite length_fmap in Hlen.
  exists b. split; [exact Hrun|done].
Qed.

Lemma UpdateHistoBins_ok c s :
  stats_ok c s → ∃ s', UpdateHistoBins s = Ok s' ∧ stats_ok c s'.
Proof.
  intros [Hs1 Hs2 Hs3 Hs4]. unfold UpdateHistoBins.
  destruct (foldM_ok (λ (p : string * list Z) m,
      b ← fill_bins (at_or (0, 0) (histo_bounds_ s) p.1) (at_or 0 (bin_widths_ s) p.1)
            (at_or ∅ (epoch_histo_counts_ s) p.1) p.2;
      Ok (<[p.1 := b]> m))
    (λ m, same_lengths m (epoch_histo_bins_ s)) (map_to_list (epoch_histo_bins_ s))
    (epoch_histo_bins_ s)) as (bins & -> & Hbins); [|apply same_lengths_refl|].
  { intros [n v] m Hin Hm. apply elem_of_map_to_list in Hin. simpl.
    destruct (fill_bins_total _ _ (at_or ∅ (epoch_histo_counts_ s) n) v (Hs3 n v Hin)) as (b & -> & Hb).
    simpl. eexists. split; [done|]. by eapply same_lengths_insert. }
  simpl.
  destruct (foldM_ok (λ (p : string * HistoCount) (acc : gmap string HistoCount * gmap string (list Z)),
      w ← add_bins (at_or [] acc.2 p.1) (at_or [] bins p.1);
      Ok (<[p.1 := merge_counts (at_or ∅ acc.1 p.1) p.2]> acc.1, <[p.1 := w]> acc.2))
    (λ acc, ∀ n, length (at_or [] acc.2 n) = length (at_or [] (epoch_histo_bins_ s) n))
    (map_to_list (epoch_histo_counts_ s)) (histo_counts_ s, histo_bins_ s)) as ([fc fb] & -> & Hfb).
  - intros [n v] [fc fb] Hin Hacc. simpl in *.
    destruct (add_bins_total (at_or [] fb n) (at_or [] bins n)) as (w & -> & Hw).
    { rewrite Hacc, (same_lengths_at _ _ n Hbins). lia. }
    simpl. eexists. split; [done|]. simpl. intros k. unfold at_or at 1.
    destruct (decide (k = n)) as [->|].
    + rewrite lookup_insert_eq. simpl. rewrite Hw. apply Hacc.
    + rewrite lookup_insert_ne by done. apply Hacc.
  - exact Hs4.
  - simpl. eexists. split; [done|]. constructor; try done; simpl.
    + intros n b Hn. destruct (same_lengths_Some (epoch_histo_bins_ s) bins n b) as (b0 & Hb0 & Hl);
        [by intros k; rewrite Hbins|done|].
      rewrite <- Hl. by apply Hs3.
    + intros n. rewrite (same_lengths_at _ _ n Hbins). apply Hfb.
Qed.

(** The end of an epoch (of the run) cannot fault. *)
Lemma UpdateEpochStats_ok c s :
  stats_ok c s → ∃ s', UpdateEpochStats s = Ok s' ∧ stats_ok c s'.
Proof.
  intros Hs. unfold UpdateEpochStats.
  destruct (UpdateCounters_ok c s Hs) as (s1 & -> & Hs1). simpl.
  destruct (UpdateHistoBins_ok c s1 Hs1) as (s2 & -> & [H1 H2 H3 H4]). simpl.
  eexists. split; [done|]. constructor; try done; simpl; unfold zero_vecs.
  - intros n Hn. destruct (H1 n Hn) as (v & Hv & Hl). eexists.
    split; [apply lookup_fmap_Some; by eauto|]. by rewrite length_fmap.
  - intros n v (v0 & <- & Hv)%lookup_fmap_Some. rewrite length_fmap. by apply H2.
Qed.

Lemma UpdateFinalStats_ok c s :
  stats_ok c s → ∃ s', UpdateFinalStats s = Ok s' ∧ stats_ok c s'.
Proof.
  intros Hs. unfold UpdateFinalStats.
  destruct (UpdateCounters_ok c s Hs) as (s1 & -> & Hs1). simpl. by apply UpdateHistoBins_ok.
Qed.

Lemma Reset_ok c s : stats_ok c s → stats_ok c (Reset s).
Proof.
  intros [H1 H2 H3 H4]. constructor; try done; simpl; unfold zero_vecs.
  - intros n Hn. destruct (H1 n Hn) as (v & Hv & Hl). eexists.
    split; [apply lookup_fmap_Some; by eauto|]. by rewrite length_fmap.
  - intros n v (v0 & <- & Hv)%lookup_fmap_Some. rewrite length_fmap.
    destruct (H2 n v0 Hv) as (w & Hw & Hl). eexists.
    split; [apply lookup_fmap_Some; by eauto|]. by rewrite length_fmap.
Qed.

(** The state of a counter over the run: its total plus the running epoch. *)
Definition counter_total (name : string) (s : SimpleStats) : Z :=
  u64 (at_or 0 (counters_ s) name + at_or 0 (epoch_counters_ s) name).

Lemma fold_counters l (m : gmap string Z) name :
  NoDup l.*1 →
  u64 (at_or 0 (foldl (λ m p, <[p.1 := u64 (at_or 0 m p.1 + p.2)]> m) m l) name) =
  u64 (at_or 0 m name + at_or 0 (list_to_map l) name).
Proof.
  revert m; induction l as [|[k v] l IH]; intros m Hnd; simpl.
  - f_equal. unfold at_or. rewrite lookup_empty. simpl. lia.
  - apply list.NoDup_cons in Hnd as [Hnin Hnd]. simpl in *. rewrite IH by done. unfold at_or.
    destruct (decide (name = k)) as [->|].
    + rewrite !lookup_insert_eq. rewrite (not_elem_of_list_to_map_1 _ _ Hnin). simpl.
      unfold u64. rewrite Z.add_0_r, Zmod_mod. done.
    + by rewrite !lookup_insert_ne.
Qed.

Lemma UpdateCounters_total name s s' :
  UpdateCounters s = Ok s' →
  u64 (at_or 0 (counters_ s') name) = counter_total name s ∧ epoch_counters_ s' = epoch_counters_ s.
Proof.
  unfold UpdateCounters, counter_total. intros H. simplify_res. simpl. split; [|done].
  rewrite fold_counters by apply NoDup_fst_map_to_list. by rewrite list_to_map_to_list.
Qed.

Lemma UpdateHistoBins_counters s s' :
  UpdateHistoBins s = Ok s' → counters_ s' = counters_ s ∧ epoch_counters_ s' = epoch_counters_ s.
Proof. unfold UpdateHistoBins. intros H. by simplify_res. Qed.

(** The operations on one counter, in any order. *)
Inductive stats_op : Type := OpIncrement (name : string) | OpAddValue (name : string) (value : Z)
  | OpEpoch.

Definition run_stats_op (o : stats_op) (s : SimpleStats) : res SimpleStats :=
  match o with
  | OpIncrement name => Ok (Increment name s)
  | OpAddValue name v => Ok (AddValue name v s)
  | OpEpoch => UpdateEpochStats s
  end.

#[export] Instance is_increment_dec name o :
  Decision (match o with OpIncrement n => n = name | _ => False end).
Proof. destruct o; apply _. Defined.

Definition increments (name : string) (ops : list stats_op) : Z :=
  Z.of_nat (length (filter (λ o, match o with OpIncrement n => n = name | _ => False end) ops)).

Lemma increments_cons name o ops :
  increments name (o :: ops) =
  (match o with OpIncrement n => if decide (n = name) then 1 else 0 | _ => 0 end)
  + increments name ops.
Proof.
  unfold increments. rewrite list.filter_cons. destruct o as [n|n v|]; simpl; [|lia..].
  destruct (decide (n = name)); cbn [length]; lia.
Qed.

Lemma increments_nil name : increments name [] = 0.
Proof. reflexivity. Qed.

Lemma u64_u64 z : u64 (u64 z) = u64 z.
Proof. unfold u64. by rewrite Zmod_mod. Qed.

Lemma run_stats_op_total name o s s' :
  run_stats_op o s = Ok s' →
  counter_total name s' = u64 (counter_total name s + increments name [o]).
Proof.
  rewrite increments_cons, increments_nil, Z.add_0_r.
  destruct o as [n|n v|]; intros H; simpl in H.
  - simplify_res. unfold counter_total, Increment, at_or. simpl.
    destruct (decide (n = name)) as [->|Hne].
    + rewrite lookup_insert_eq. simpl. unfold u64.
      rewrite Zplus_mod_idemp_r, Zplus_mod_idemp_l. f_equal. lia.
    + rewrite lookup_insert_ne by done. by rewrite Z.add_0_r, u64_u64.
  - simplify_res. unfold counter_total. simpl. by rewrite Z.add_0_r, u64_u64.
  - unfold UpdateEpochStats in H. simplify_res.
    destruct (UpdateCounters_total name _ _ Hrun) as [Hc He].
    destruct (UpdateHistoBins_counters _ _ Hrun0) as [Hc' He'].
    rewrite Z.add_0_r. unfold counter_total at 1. simpl. rewrite Hc'.
    assert (at_or 0 (zero_counters (epoch_counters_ a0)) name = 0) as ->.
    { unfold at_or, zero_counters. rewrite lookup_fmap. by destruct (_ !! name). }
    rewrite Z.add_0_r, Hc. unfold counter_total. by rewrite u64_u64.
Qed.

(** ** Properties *)

(** The histograms lose nothing and never write outside their bins.  With
    bins that fit their bounds, filling the bins of a histogram returns, every
    bin holds the total count of exactly the values that fall in it (modulo
    2^64), and a value equal to the upper bound lands in the last bin. *)
Theorem fill_bins_counts (bounds : Z * Z) (width : Z) (counts : HistoCount) (bins : list Z) :
  bins_fit bounds width (Z.of_nat (length bins)) →
  ∃ bins', fill_bins bounds width counts bins = Ok bins' ∧ length bins' = length bins ∧
    ∀ i x, vlookup bins' i = Some x →
      u64 x = u64 (count_if (λ v, bool_decide (bin_of bounds width (Z.of_nat (length bins)) v = i))
                     (map_to_list counts)).
Proof.
  intros Hfit. unfold fill_bins.
  destruct (fill_loop bounds width (Z.of_nat (length bins)) (map_to_list counts)
    ((λ _, 0) <$> bins) Hfit) as (b' & Hrun & Hlen & Hb); [rewrite length_fmap; lia|].
  exists b'. split; [exact Hrun|]. rewrite length_fmap in Hlen. split; [done|].
  intros i x Hx. pose proof (vlookup_range _ _ _ Hx) as Hr.
  destruct (vlookup_lt ((λ _, 0) <$> bins) i) as [z Hz]; [rewrite length_fmap; lia|].
  destruct (Hb i z Hz) as (y & Hy & Hm & _). simplify_eq.
  apply vlookup_elem, list_elem_of_fmap in Hz as (? & -> & _). done.
Qed.

Lemma fill_bins_counts_witness :
  let counts : HistoCount := {[ 7 := 2; 200 := 5; 240 := 1 ]} in
  ∃ bins', fill_bins (0, 200) 20 counts (zeros 12) = Ok bins' ∧ length bins' = 12%nat ∧
    ∀ i x, vlookup bins' i = Some x →
      u64 x = u64 (count_if (λ v, bool_decide (bin_of (0, 200) 20 12 v = i)) (map_to_list counts)).
Proof.
  apply (fill_bins_counts (0, 200) 20 _ (zeros 12)). vm_compute. repeat split; discriminate.
Defined.

(** C38: the counters are exact across epochs.  Whatever sequence of increments,
    histogram entries and end-of-epoch updates runs, the total of a counter
    (run plus epoch) grows by exactly the number of its increments, modulo
    2^64: an epoch update moves counts and never drops or doubles one. *)
Theorem counters_exact (name : string) (ops : list stats_op) (s s' : SimpleStats) :
  foldM run_stats_op ops s = Ok s' →
  counter_total name s' = u64 (counter_total name s + increments name ops).
Proof.
  revert s; induction ops as [|o ops IH]; intros s H; simpl in H; simplify_res.
  - rewrite increments_nil, Z.add_0_r. unfold counter_total. by rewrite u64_u64.
  - rewrite (IH _ H), (run_stats_op_total name _ _ _ Hrun).
    rewrite (increments_cons name o ops), (increments_cons name o []), increments_nil.
    unfold u64. rewrite Zplus_mod_idemp_l. f_equal. lia.
Qed.

Definition sample_stats_ops : list stats_op :=
  [OpIncrement "num_act_cmds"; OpEpoch; OpIncrement "num_cycles"; OpIncrement "num_act_cmds";
   OpAddValue "read_latency" 30; OpEpoch; OpIncrement "num_act_cmds"]%string.

Lemma counters_exact_witness :
  ∃ s s', SimpleStats_new sample_config = Ok s ∧ foldM run_stats_op sample_stats_ops s = Ok s' ∧
    counter_total "num_act_cmds" s' = u64 (counter_total "num_act_cmds" s
                                           + increments "num_act_cmds" sample_stats_ops).
Proof.
  destruct (SimpleStats_new sample_config) as [s|] eqn:E; [|vm_compute in E; discriminate].
  destruct (foldM run_stats_op sample_stats_ops s) as [s'|] eqn:E'.
  - exists s, s'. split; [done|]. split; [done|]. by apply counters_exact.
  - exfalso. assert (is_ok (s ← SimpleStats_new sample_config; foldM run_stats_op sample_stats_ops s)
      = true) as H by (vm_compute; reflexivity). rewrite E in H. simpl in H.
    simpl in E'. by rewrite E' in H.
Defined.

(** [Reset] clears the counters and the histogram counts but not the
    histogram bins of the run: they keep the counts of the previous phase. *)
Theorem Reset_keeps_bins (s : SimpleStats) (name : string) :
  histo_bins_ (Reset s) = histo_bins_ s ∧ at_or ∅ (histo_counts_ (Reset s)) name = ∅ ∧
  counter_total name (Reset s) = 0.
Proof.
  split; [done|]. unfold Reset, at_or, counter_total, at_or, clear_histos, zero_counters. simpl.
  rewrite !lookup_fmap. split; [by destruct (_ !! name)|].
  destruct (counters_ s !! name), (epoch_counters_ s !! name); done.
Qed.
