(* ===== verification/Refresh.v ===== *)
(** * Refresh: when refreshes fall due (src/src/refresh.h, refresh.cc)

    The counter that demands refreshes of the channel it watches, rank by rank
    or bank by bank.  [Refresh] holds a reference to the [ChannelState] of its
    controller: the channel is passed in and returned. *)

From S2P Require Import Prelude Common Configuration ChannelState ChannelSafety.
Local Open Scope Z_scope.

Record Refresh : Type := MkRefresh {
  clk_ : Z;
  refresh_interval_ : Z;
  refresh_policy_ : RefreshPolicy;
  next_rank_ : Z; next_bg_ : Z; next_bank_ : Z }.

#[export] Instance Refresh_eta : RecordEta Refresh := λ r, MkRefresh
  (clk_ r) (refresh_interval_ r) (refresh_policy_ r) (next_rank_ r) (next_bg_ r) (next_bank_ r).

Section refresh.
Context (config_ : Config).

Definition Refresh_new : res Refresh :=
  interval ← match refresh_policy config_ with
             | RANK_LEVEL_SIMULTANEOUS => Ok (tREFI config_)
             | BANK_LEVEL_STAGGERED => Ok (tREFIb config_)
             | _ => int_div (tREFI config_) (ranks config_)
             end;
  Ok (MkRefresh 0 interval (refresh_policy config_) 0 0 0).

(** [(x + 1) % n] on [int]. *)
Definition next_mod (x n : Z) : res Z :=
  if decide (n = 0) then Fault DivideByZero else Ok (Z.rem (x + 1) n).

Definition IterateNext (r : Refresh) : res Refresh :=
  match refresh_policy_ r with
  | RANK_LEVEL_STAGGERED =>
    n ← next_mod (next_rank_ r) (ranks config_); Ok (r <| next_rank_ := n |>)
  | BANK_LEVEL_STAGGERED =>
    g ← next_mod (next_bg_ r) (bankgroups config_);
    let r := r <| next_bg_ := g |> in
    if decide (g = 0) then
      b ← next_mod (next_bank_ r) (banks_per_group config_);
      let r := r <| next_bank_ := b |> in
      if decide (b = 0) then
        n ← next_mod (next_rank_ r) (ranks config_); Ok (r <| next_rank_ := n |>)
      else Ok r
    else Ok r
  | _ => Fault (AbruptExit "refresh.cc" 79)
  end.

(** The loop of the simultaneous policy: it stops at the first rank that is
    not in self-refresh. *)
Fixpoint refresh_first_rank (rs : list Z) (cs : ChannelState) : res ChannelState :=
  match rs with
  | [] => Ok cs
  | i :: rs =>
    sref ← IsRankSelfRefreshing i cs;
    if negb sref then Ok (RankNeedRefresh i true cs) else refresh_first_rank rs cs
  end.

Definition InsertRefresh (r : Refresh) (cs : ChannelState) : res (Refresh * ChannelState) :=
  match refresh_policy_ r with
  | RANK_LEVEL_SIMULTANEOUS =>
    cs ← refresh_first_rank (seqZ 0 (ranks config_)) cs; Ok (r, cs)
  | RANK_LEVEL_STAGGERED =>
    sref ← IsRankSelfRefreshing (next_rank_ r) cs;
    let cs := if negb sref then RankNeedRefresh (next_rank_ r) true cs else cs in
    r ← IterateNext r; Ok (r, cs)
  | BANK_LEVEL_STAGGERED =>
    sref ← IsRankSelfRefreshing (next_rank_ r) cs;
    let cs := if negb sref
              then BankNeedRefresh (next_rank_ r) (next_bg_ r) (next_bank_ r) true cs else cs in
    r ← IterateNext r; Ok (r, cs)
  | RefreshPolicy_SIZE => Fault (AbruptExit "refresh.cc" 56)
  end.

(** [clk_ % refresh_interval_]: the interval is converted to [uint64_t]. *)
Definition ClockTick (r : Refresh) (cs : ChannelState) : res (Refresh * ChannelState) :=
  if decide (u64 (refresh_interval_ r) = 0) then Fault DivideByZero else
  '(r, cs) ← (if decide (clk_ r mod u64 (refresh_interval_ r) = 0 ∧ 0 < clk_ r)
              then InsertRefresh r cs else Ok (r, cs));
  Ok (r <| clk_ ::= λ k, u64 (k + 1) |>, cs).

End refresh.

(** ** Invariant *)

Record refresh_ok (c : Config) (r : Refresh) : Prop := {
  ref_interval : u64 (refresh_interval_ r) ≠ 0;
  ref_policy : refresh_policy_ r ≠ RefreshPolicy_SIZE;
  ref_rank : 0 ≤ next_rank_ r < ranks c;
  ref_bg : 0 ≤ next_bg_ r < bankgroups c;
  ref_bank : 0 ≤ next_bank_ r < banks_per_group c }.

Lemma next_mod_total x n : 0 ≤ x → 0 < n → next_mod x n = Ok ((x + 1) mod n) ∧ 0 ≤ (x + 1) mod n < n.
Proof.
  intros Hx Hn. unfold next_mod. rewrite decide_False by lia.
  rewrite Z.rem_mod_nonneg by lia. split; [done|]. apply Z.mod_pos_bound. lia.
Qed.

Section refresh_lemmas.
Context (c : Config) `{Geo : !Geometry c}.

Lemma IterateNext_total r :
  refresh_ok c r → refresh_policy_ r ≠ RANK_LEVEL_SIMULTANEOUS →
  ∃ r', IterateNext c r = Ok r' ∧ refresh_ok c r' ∧ clk_ r' = clk_ r ∧
    refresh_interval_ r' = refresh_interval_ r ∧ refresh_policy_ r' = refresh_policy_ r.
Proof.
  intros [H1 H2 H3 H4 H5] Hp. pose proof (geo_ranks (c:=c)). pose proof (geo_bankgroups (c:=c)).
  pose proof (geo_banks_per_group (c:=c)). unfold IterateNext.
  destruct (next_mod_total (next_rank_ r) (ranks c)) as [Er Hr]; [lia..|].
  destruct (next_mod_total (next_bg_ r) (bankgroups c)) as [Eg Hg]; [lia..|].
  destruct (next_mod_total (next_bank_ r) (banks_per_group c)) as [Eb Hb]; [lia..|].
  destruct (refresh_policy_ r) eqn:E; try done.
  - rewrite Er. simpl. eexists. split; [done|]. split_and!; [|done..]. constructor; simpl; congruence || done.
  - rewrite Eg. simpl. case_decide as Z1.
    2:{ eexists. split; [done|]. split_and!; [|done..]. constructor; simpl; congruence || done. }
    simpl. rewrite Eb. simpl. case_decide as Z2.
    2:{ eexists. split; [done|]. split_and!; [|done..]. constructor; simpl; congruence || done || lia. }
    rewrite Er. simpl. eexists. split; [done|]. split_and!; [|done..].
    constructor; simpl; congruence || done || lia.
Qed.

(** Only the refresh queue of the channel changes. *)
Definition queue_grown (cs cs' : ChannelState) : Prop :=
  ∃ l, cs' = cs <| refresh_q_ := refresh_q_ cs ++ l |> ∧
    Forall (refresh_cmd_ok c) l.

Lemma queue_grown_refl cs : queue_grown cs cs.
Proof. exists []. rewrite app_nil_r. split; [by destruct cs|constructor]. Qed.

Lemma rank_demand_grown i cs : 0 ≤ i < ranks c → queue_grown cs (RankNeedRefresh i true cs).
Proof.
  intros Hi. eexists. split; [reflexivity|]. constructor; [by apply rank_demand_ok|constructor].
Qed.

Lemma bank_demand_grown i j k cs :
  0 ≤ i < ranks c → 0 ≤ j < bankgroups c → 0 ≤ k < banks_per_group c →
  queue_grown cs (BankNeedRefresh i j k true cs).
Proof.
  intros Hi Hj Hk. eexists. split; [reflexivity|].
  constructor; [apply bank_demand_ok; [done|]; unfold bank_addr_ok, rank_ok; simpl; lia|constructor].
Qed.

Lemma refresh_first_rank_total rs cs :
  length (rank_is_sref_ cs) = Z.to_nat (ranks c) → (∀ i, i ∈ rs → 0 ≤ i < ranks c) →
  ∃ cs', refresh_first_rank rs cs = Ok cs' ∧ queue_grown cs cs'.
Proof.
  intros Hlen. induction rs as [|i rs IH]; intros Hrs; simpl; [eauto using queue_grown_refl|].
  assert (0 ≤ i < ranks c) as Hi by (apply Hrs; set_solver).
  unfold IsRankSelfRefreshing. destruct (vec_get_lt (rank_is_sref_ cs) i) as [b ->]; [lia|]. simpl.
  destruct b; simpl; [apply IH; intros; apply Hrs; set_solver|].
  eexists. split; [done|]. by apply rank_demand_grown.
Qed.

Lemma InsertRefresh_total r cs :
  refresh_ok c r → length (rank_is_sref_ cs) = Z.to_nat (ranks c) →
  ∃ r' cs', InsertRefresh c r cs = Ok (r', cs') ∧ refresh_ok c r' ∧ queue_grown cs cs'.
Proof.
  intros Hr Hlen. unfold InsertRefresh, IsRankSelfRefreshing. pose proof Hr as [H1 H2 H3 H4 H5].
  destruct (vec_get_lt (rank_is_sref_ cs) (next_rank_ r)) as [b Hb]; [lia|].
  destruct (refresh_policy_ r) eqn:E; try done.
  - destruct (refresh_first_rank_total (seqZ 0 (ranks c)) cs Hlen) as (cs' & -> & Hg).
    { intros i Hi%elem_of_seqZ. lia. }
    simpl. eauto.
  - rewrite Hb. simpl. destruct (IterateNext_total r Hr) as (r' & Hi & Hr' & _); [congruence|].
    rewrite Hi. simpl. eexists _, _. split_and!; [done|done|].
    destruct b; simpl; [apply queue_grown_refl|by apply rank_demand_grown].
  - rewrite Hb. simpl. destruct (IterateNext_total r Hr) as (r' & Hi & Hr' & _); [congruence|].
    rewrite Hi. simpl. eexists _, _. split_and!; [done|done|].
    destruct b; simpl; [apply queue_grown_refl|by apply bank_demand_grown].
Qed.

Lemma Refresh_ClockTick_total r cs :
  refresh_ok c r → length (rank_is_sref_ cs) = Z.to_nat (ranks c) →
  ∃ r' cs', ClockTick c r cs = Ok (r', cs') ∧ refresh_ok c r' ∧ queue_grown cs cs'.
Proof.
  intros Hr Hlen. unfold ClockTick. rewrite decide_False by apply Hr.
  destruct (InsertRefresh_total r cs Hr Hlen) as (r' & cs' & Hi & Hr' & Hg).
  case_decide; [rewrite Hi|]; simpl; eexists _, _; (split; [done|]).
  - split; [|done]. destruct Hr'. by constructor.
  - split; [|apply queue_grown_refl]. destruct Hr. by constructor.
Qed.

Lemma Refresh_new_ok r : Refresh_new c = Ok r → u64 (refresh_interval_ r) ≠ 0 →
  refresh_policy c ≠ RefreshPolicy_SIZE → refresh_ok c r.
Proof.
  pose proof (geo_ranks (c:=c)). pose proof (geo_bankgroups (c:=c)).
  pose proof (geo_banks_per_group (c:=c)).
  unfold Refresh_new. intros Hn Hi Hp. simplify_res. constructor; simpl in *; done || lia.
Qed.

(** ** The sequence of refresh demands *)

(** The [k]-th demand of each policy, from zero. *)
Definition demand (p : RefreshPolicy) (k : Z) : Command :=
  match p with
  | RANK_LEVEL_STAGGERED =>
    MkCommand REFRESH (MkAddress (-1) (k mod ranks c) (-1) (-1) (-1) (-1)) (u64 (-1))
  | BANK_LEVEL_STAGGERED =>
    MkCommand REFRESH_BANK
      (MkAddress (-1) (k / (bankgroups c * banks_per_group c) mod ranks c) (k mod bankgroups c)
        (k / bankgroups c mod banks_per_group c) (-1) (-1)) (u64 (-1))
  | _ => MkCommand REFRESH (MkAddress (-1) 0 (-1) (-1) (-1) (-1)) (u64 (-1))
  end.

(** [Refresh] stands at the [k]-th demand. *)
Definition stands_at (k : Z) (r : Refresh) : Prop :=
  match refresh_policy_ r with
  | RANK_LEVEL_STAGGERED => next_rank_ r = k mod ranks c
  | BANK_LEVEL_STAGGERED =>
    next_rank_ r = k / (bankgroups c * banks_per_group c) mod ranks c ∧
    next_bg_ r = k mod bankgroups c ∧ next_bank_ r = k / bankgroups c mod banks_per_group c
  | _ => True
  end.

(** Adding one to a digit of a mixed-radix number. *)
Lemma succ_mod k n : 0 ≤ k → 0 < n → (k mod n + 1) mod n = (k + 1) mod n.
Proof. intros. apply Zplus_mod_idemp_l. Qed.

Lemma succ_div k n :
  0 ≤ k → 0 < n → (k + 1) / n = if decide ((k + 1) mod n = 0) then k / n + 1 else k / n.
Proof.
  intros Hk Hn. pose proof (Z.div_mod k n ltac:(lia)). pose proof (Z.mod_pos_bound k n Hn).
  pose proof (Z.div_mod (k + 1) n ltac:(lia)). pose proof (Z.mod_pos_bound (k + 1) n Hn).
  case_decide; nia.
Qed.

Lemma IterateNext_stands k r r' :
  0 ≤ k → stands_at k r → IterateNext c r = Ok r' →
  stands_at (k + 1) r' ∧ refresh_policy_ r' = refresh_policy_ r ∧ clk_ r' = clk_ r ∧
  refresh_interval_ r' = refresh_interval_ r.
Proof.
  pose proof (geo_ranks (c:=c)). pose proof (geo_bankgroups (c:=c)).
  pose proof (geo_banks_per_group (c:=c)). intros Hk. unfold stands_at, IterateNext.
  assert (∀ a n, 0 < n → next_mod (a mod n) n = Ok ((a + 1) mod n)) as Hnext.
  { intros a n Hn. pose proof (Z.mod_pos_bound a n Hn).
    destruct (next_mod_total (a mod n) n) as [-> _]; [lia|lia|]. by rewrite Zplus_mod_idemp_l. }
  assert (0 < bankgroups c * banks_per_group c) by nia.
  destruct (refresh_policy_ r) eqn:E; intros Hat H'; [done| | |done].
  - rewrite Hat, Hnext in H' by lia. simpl in H'. simplify_res. simpl. by rewrite E.
  - destruct Hat as (Er & Eg & Eb). rewrite Eg, Hnext in H' by lia. simpl in H'.
    pose proof (Z.div_pos k (bankgroups c) ltac:(lia) ltac:(lia)) as Hq.
    rewrite <- Zdiv_Zdiv in Er |- * by lia. rewrite (succ_div k (bankgroups c)) by lia.
    case_decide as Z1; simpl in H'; [|simplify_res; simpl; rewrite E; by rewrite Er, Eb].
    rewrite Eb, Hnext in H' by lia. simpl in H'.
    rewrite (succ_div (k / bankgroups c) (banks_per_group c)) by lia.
    case_decide as Z2; simpl in H'; [|simplify_res; simpl; rewrite E; by rewrite Er, Z1].
    rewrite Er, Hnext in H' by lia. simpl in H'. simplify_res. simpl. rewrite E.
    by rewrite Z1, Z2.
Qed.

(** No rank of the channel is in self-refresh. *)
Definition all_awake (cs : ChannelState) : Prop :=
  rank_is_sref_ cs = replicate (Z.to_nat (ranks c)) false.

Lemma InsertRefresh_demand k r cs r' cs' :
  0 ≤ k → stands_at k r → all_awake cs → InsertRefresh c r cs = Ok (r', cs') →
  stands_at (k + 1) r' ∧ refresh_policy_ r' = refresh_policy_ r ∧ clk_ r' = clk_ r ∧
  refresh_interval_ r' = refresh_interval_ r ∧
  cs' = cs <| refresh_q_ := refresh_q_ cs ++ [demand (refresh_policy_ r) k] |>.
Proof.
  pose proof (geo_ranks (c:=c)). intros Hk Hat Haw.
  assert (∀ i b, IsRankSelfRefreshing i cs = Ok b → b = false) as Hb.
  { intros i b H'%vec_get_Ok. rewrite Haw, vlookup_replicate in H'. by case_decide; simplify_eq. }
  unfold InsertRefresh. destruct (refresh_policy_ r) eqn:E; intros H'.
  - apply bind_Ok_inv in H' as (cs1 & Hf & H'). simplify_res.
    unfold stands_at. rewrite E. split_and!; [done..|].
    rewrite seqZ_cons in Hf by lia. simpl in Hf. apply bind_Ok_inv in Hf as (b & Hs & Hf).
    apply Hb in Hs as ->. simpl in Hf. by simplify_res.
  - apply bind_Ok_inv in H' as (b & Hs & H'). apply Hb in Hs as ->.
    apply bind_Ok_inv in H' as (r1 & Hi & H'). simplify_res.
    pose proof Hat as Hat'. unfold stands_at in Hat'. rewrite E in Hat'.
    destruct (IterateNext_stands k r r' Hk Hat Hi) as (? & Ep & ? & ?). rewrite Ep, E.
    split_and!; [done..|]. unfold demand. by rewrite <- Hat'.
  - apply bind_Ok_inv in H' as (b & Hs & H'). apply Hb in Hs as ->.
    apply bind_Ok_inv in H' as (r1 & Hi & H'). simplify_res.
    pose proof Hat as Hat'. unfold stands_at in Hat'. rewrite E in Hat'. destruct Hat' as (E1 & E2 & E3).
    destruct (IterateNext_stands k r r' Hk Hat Hi) as (? & Ep & ? & ?). rewrite Ep, E.
    split_and!; [done..|]. unfold demand. by rewrite <- E1, <- E2, <- E3.
  - done.
Qed.

(** [n] cycles of the refresh counter alone. *)
Fixpoint ticks (n : nat) (r : Refresh) (cs : ChannelState) : res (Refresh * ChannelState) :=
  match n with
  | O => Ok (r, cs)
  | S n => '(r, cs) ← ticks n r cs; ClockTick c r cs
  end.

(** How many refreshes fall due in the first [n] cycles. *)
Definition due (interval n : Z) : Z := if decide (n = 0) then 0 else (n - 1) / interval.

Lemma due_succ interval n :
  0 < interval → 0 ≤ n →
  due interval (n + 1) = due interval n + (if decide (n mod interval = 0 ∧ 0 < n) then 1 else 0).
Proof.
  intros Hi Hn. unfold due. rewrite decide_False by lia.
  replace (n + 1 - 1) with n by lia. destruct (decide (n = 0)) as [->|Hn0].
  - rewrite decide_False by lia. rewrite Z.div_0_l by lia. done.
  - pose proof (succ_div (n - 1) interval ltac:(lia) Hi) as Hs. replace (n - 1 + 1) with n in Hs by lia.
    rewrite Hs. repeat case_decide; lia.
Qed.

Lemma due_nonneg interval n : 0 < interval → 0 ≤ n → 0 ≤ due interval n.
Proof. intros. unfold due. case_decide; [lia|]. apply Z.div_pos; lia. Qed.
End refresh_lemmas.

(** ** Properties *)

(** C32: the refresh schedule.  In [n] cycles of a channel where no rank is in
    self-refresh, exactly [(n-1)/interval] refreshes are demanded, in a fixed
    round robin: rank by rank, or bank group by bank group, then bank, then
    rank, so each bank is demanded once in every [bankgroups * banks_per_group
    * ranks] demands.  Under RANK_LEVEL_SIMULTANEOUS every demand is for rank
    0. *)
Theorem refresh_schedule (c : Config) (r0 : Refresh) (cs : ChannelState) (n : nat) :
  Geometry c → Refresh_new c = Ok r0 → 0 < refresh_interval_ r0 < two64 →
  refresh_policy c ≠ RefreshPolicy_SIZE → all_awake c cs → Z.of_nat n < two64 →
  ∃ r cs', ticks c n r0 cs = Ok (r, cs') ∧
    bank_states_ cs' = bank_states_ cs ∧
    refresh_q_ cs' = refresh_q_ cs ++
      (demand c (refresh_policy c) <$> seqZ 0 (due (refresh_interval_ r0) (Z.of_nat n))).
Proof.
  intros Geo Hnew Hi Hp Haw. pose proof (geo_ranks (c:=c)).
  assert (refresh_ok c r0) as Hok0 by (apply Refresh_new_ok; [done|done|rewrite u64_id by (unfold is_u64; lia); lia|done]).
  assert (refresh_policy_ r0 = refresh_policy c ∧ clk_ r0 = 0 ∧ stands_at c 0 r0) as (Hpol & Hclk & Hat).
  { unfold Refresh_new in Hnew. simplify_res. split_and!; [done|done|].
    unfold stands_at. simpl. destruct (refresh_policy c); rewrite ?Zmod_0_l, ?Zdiv_0_l; done. }
  assert (Z.of_nat n < two64 → ∃ r cs', ticks c n r0 cs = Ok (r, cs') ∧ refresh_ok c r ∧
    clk_ r = Z.of_nat n ∧ refresh_interval_ r = refresh_interval_ r0 ∧
    refresh_policy_ r = refresh_policy c ∧ stands_at c (due (refresh_interval_ r0) (Z.of_nat n)) r ∧
    cs' = cs <| refresh_q_ := refresh_q_ cs ++
      (demand c (refresh_policy c) <$> seqZ 0 (due (refresh_interval_ r0) (Z.of_nat n))) |>) as Hmain.
  { induction n as [|n IH]; intros Hn.
    - exists r0, cs. split_and!; try done. simpl. rewrite app_nil_r. by destruct cs.
    - destruct IH as (r & cs1 & Hrun & Hok & Hck & Hint & Hpl & Hst & ->); [lia|].
      pose proof (due_nonneg (refresh_interval_ r0) (Z.of_nat n) ltac:(lia) ltac:(lia)) as Hd.
      pose proof (due_succ (refresh_interval_ r0) (Z.of_nat n) ltac:(lia) ltac:(lia)) as Hds.
      replace (Z.of_nat (S n)) with (Z.of_nat n + 1) by lia. rewrite Hds.
      simpl. rewrite Hrun. simpl. unfold ClockTick. rewrite decide_False by apply Hok.
      rewrite Hck, Hint, (u64_id (refresh_interval_ r0)) by (unfold is_u64; lia).
      set (cs1 := cs <| refresh_q_ := _ |>).
      case_decide as Hdue.
      + destruct (InsertRefresh_total c r cs1 Hok) as (r' & cs2 & Hins & Hok' & _).
        { simpl. rewrite Haw. apply length_replicate. }
        destruct (InsertRefresh_demand c _ r cs1 r' cs2 Hd Hst Haw Hins) as (Hst' & P1 & P2 & P3 & ->).
        rewrite Hins. simpl. eexists _, _. split; [done|]. simpl. rewrite P2, Hck.
        split_and!.
        * destruct Hok'. by constructor.
        * rewrite u64_small; [done|lia].
        * congruence.
        * congruence.
        * unfold stands_at in *. simpl. by rewrite ?P1 in *.
        * unfold cs1. rewrite seqZ_app by lia. rewrite fmap_app, app_assoc, Hpl.
          rewrite Z.add_0_l, (seqZ_cons _ 1) by lia. done.
      + simpl. eexists _, _. split; [done|]. simpl. rewrite Hck, Z.add_0_r.
        split_and!; try done.
        * destruct Hok. by constructor.
        * rewrite u64_small; [done|lia]. }
  intros Hn. destruct (Hmain Hn) as (r & cs' & Hrun & _ & _ & _ & _ & _ & ->).
  exists r. eexists. done.
Qed.

Lemma refresh_schedule_witness :
  ∃ n r0 r cs', Refresh_new sample_config = Ok r0 ∧ due (refresh_interval_ r0) (Z.of_nat n) = 3 ∧
    ticks sample_config n r0 (ChannelState_new sample_config) = Ok (r, cs') ∧
    bank_states_ cs' = bank_states_ (ChannelState_new sample_config) ∧
    refresh_q_ cs' = refresh_q_ (ChannelState_new sample_config) ++
      (demand sample_config (refresh_policy sample_config) <$>
         seqZ 0 (due (refresh_interval_ r0) (Z.of_nat n))).
Proof.
  assert (∃ n, Z.of_nat n = 14041) as [n Hn] by (exists (Z.to_nat 14041); apply Z2Nat.id; lia).
  destruct (Refresh_new sample_config) as [r0|] eqn:E; [|vm_compute in E; discriminate].
  assert (refresh_interval_ r0 = 4680) as Hi by (vm_compute in E; injection E as <-; reflexivity).
  destruct (refresh_schedule sample_config r0 (ChannelState_new sample_config) n)
    as (r & cs' & H1 & H2 & H3).
  - apply sample_geometry.
  - exact E.
  - rewrite Hi. split; reflexivity.
  - vm_compute. discriminate.
  - reflexivity.
  - rewrite Hn. reflexivity.
  - exists n, r0, r, cs'. split; [done|]. split; [rewrite Hi, Hn; reflexivity|]. done.
Defined.
