(* ===== verification/CommandQueue.v ===== *)
(** * CommandQueue: the queues of commands of a channel (src/src/command_queue.h,
    command_queue.cc)

    One queue per bank or per rank, each of bounded size.  [CommandQueue] holds
    references to the [ChannelState] and the [SimpleStats] of its controller;
    an operation that changes them takes and returns the three of them. *)

From S2P Require Import Prelude Common Configuration Timing BankState ChannelState ChannelSafety.
From S2P Require Import SimpleStats.
Local Open Scope Z_scope.

Inductive QueueStructure : Type := PER_RANK | PER_BANK | QueueStructure_SIZE.

#[export] Instance QueueStructure_eq_dec : EqDecision QueueStructure.
Proof. solve_decision. Defined.

Record CommandQueue : Type := MkCommandQueue {
  rank_q_empty : list bool;
  queue_structure_ : QueueStructure;
  queues_ : list (list Command);
  ref_q_indices_ : gset Z;
  is_in_ref_ : bool;
  num_queues_ : Z;
  queue_size_ : Z;
  queue_idx_ : Z;
  clk_ : Z }.

#[export] Instance CommandQueue_eta : RecordEta CommandQueue := λ q, MkCommandQueue
  (rank_q_empty q) (queue_structure_ q) (queues_ q) (ref_q_indices_ q) (is_in_ref_ q)
  (num_queues_ q) (queue_size_ q) (queue_idx_ q) (clk_ q).

(** The queues with the objects they refer to. *)
Definition QState : Type := CommandQueue * ChannelState * SimpleStats.

Section queue.
Context (config_ : Config).

Definition CommandQueue_new : res CommandQueue :=
  '(qs, n) ← (if decide (queue_structure config_ = "PER_BANK"%string)
              then Ok (PER_BANK, banks config_ * ranks config_)
              else if decide (queue_structure config_ = "PER_RANK"%string)
              then Ok (PER_RANK, ranks config_)
              else Fault (AbruptExit "command_queue.cc" 26));
  _ ← check_reserve n;
  _ ← (if decide (0 < n) then check_reserve (cmd_queue_size config_) else Ok tt);
  Ok {| rank_q_empty := vector_of (ranks config_) true;
        queue_structure_ := qs;
        queues_ := vector_of n [];
        ref_q_indices_ := ∅;
        is_in_ref_ := false;
        num_queues_ := n;
        queue_size_ := u64 (cmd_queue_size config_);
        queue_idx_ := 0;
        clk_ := 0 |}.

Definition ClockTick (q : CommandQueue) : CommandQueue := q <| clk_ ::= λ k, u64 (k + 1) |>.

Definition GetQueueIndex (rank bankgroup bank : Z) (q : CommandQueue) : Z :=
  if decide (queue_structure_ q = PER_RANK) then rank
  else rank * banks config_ + bankgroup * banks_per_group config_ + bank.

Definition GetQueue (rank bankgroup bank : Z) (q : CommandQueue) : res (list Command) :=
  vec_get (queues_ q) (GetQueueIndex rank bankgroup bank q).

Definition queue_length (l : list Command) : Z := Z.of_nat (length l).

Definition WillAcceptCommand (rank bankgroup bank : Z) (q : CommandQueue) : res bool :=
  l ← GetQueue rank bankgroup bank q; Ok (bool_decide (queue_length l < queue_size_ q)).

Definition QueueEmpty (q : CommandQueue) : bool := forallb (λ l, bool_decide (l = [])) (queues_ q).

Definition QueueUsage (q : CommandQueue) : Z := foldl (λ u l, u + queue_length l) 0 (queues_ q).

(** Replaces the queue of a command's bank. *)
Definition set_queue (cmd : Command) (l : list Command) (q : CommandQueue) : res CommandQueue :=
  v ← vec_set (queues_ q) (GetQueueIndex (Rank cmd) (Bankgroup cmd) (Bank cmd) q) l;
  Ok (q <| queues_ := v |>).

Definition AddCommand (cmd : Command) (q : CommandQueue) : res (bool * CommandQueue) :=
  l ← GetQueue (Rank cmd) (Bankgroup cmd) (Bank cmd) q;
  if decide (queue_length l < queue_size_ q) then
    q ← set_queue cmd (l ++ [cmd]) q;
    v ← vec_set (rank_q_empty q) (Rank cmd) false;
    Ok (true, q <| rank_q_empty := v |>)
  else Ok (false, q).

(** Advances to the next queue, round robin, and returns it. *)
Definition GetNextQueue (q : CommandQueue) : res (list Command * CommandQueue) :=
  let q := q <| queue_idx_ ::= λ i, i + 1 |> in
  let q := if decide (queue_idx_ q = num_queues_ q) then q <| queue_idx_ := 0 |> else q in
  l ← vec_get (queues_ q) (queue_idx_ q);
  Ok (l, q).

Definition GetRefQIndices (ref : Command) (q : CommandQueue) : CommandQueue :=
  if decide (cmd_type ref = REFRESH) then
    if decide (queue_structure_ q = PER_BANK) then
      q <| ref_q_indices_ ::= λ s,
        s ∪ list_to_set (filter (λ i, Z.quot i (banks config_) = Rank ref)
              (seqZ 0 (num_queues_ q))) |>
    else q <| ref_q_indices_ ::= λ s, s ∪ {[Rank ref]} |>
  else
    q <| ref_q_indices_ ::= λ s, s ∪ {[GetQueueIndex (Rank ref) (Bankgroup ref) (Bank ref) q]} |>.

Definition FinishRefresh (q : CommandQueue) (cs : ChannelState)
    : res (Command * CommandQueue * ChannelState) :=
  ref ← PendingRefCommand cs;
  let q := if is_in_ref_ q then q else (GetRefQIndices ref q) <| is_in_ref_ := true |> in
  '(cmd, cs) ← GetReadyCommand config_ ref (clk_ q) cs;
  let q := if IsRefresh cmd then q <| ref_q_indices_ := ∅ |> <| is_in_ref_ := false |> else q in
  Ok (cmd, q, cs).

(** The bank of two commands is the same. *)
Definition same_target (a b : Command) : bool :=
  bool_decide (Rank a = Rank b ∧ Bankgroup a = Bankgroup b ∧ Bank a = Bank b).

(** [cmd_it] is the command [cmd] at the head of [cmd :: later]; [earlier] are
    the commands before it. *)
Definition ArbitratePrecharge (earlier : list Command) (cmd : Command) (later : list Command)
    (cs : ChannelState) (st : SimpleStats) : res (bool * SimpleStats) :=
  if existsb (λ p, same_target p cmd) earlier then Ok (false, st) else
  open_row ← OpenRow (Rank cmd) (Bankgroup cmd) (Bank cmd) cs;
  let pending_row_hits_exist :=
    existsb (λ p, bool_decide (Row p = open_row) && same_target p cmd) (cmd :: later) in
  hits ← RowHitCount (Rank cmd) (Bankgroup cmd) (Bank cmd) cs;
  let rowhit_limit_reached := bool_decide (4 ≤ hits) in
  if negb pending_row_hits_exist || rowhit_limit_reached
  then Ok (true, Increment "num_ondemand_pres" st)
  else Ok (false, st).

Definition HasRWDependency (earlier : list Command) (cmd : Command) : bool :=
  existsb (λ it, IsRead it && bool_decide (Row it = Row cmd ∧ Column it = Column cmd ∧
                   Bank it = Bank cmd ∧ Bankgroup it = Bankgroup cmd)) earlier.

(** The loop of [GetFirstReadyInQueue] over [rest], after [earlier]. *)
Fixpoint first_ready (clk : Z) (earlier rest : list Command) (cs : ChannelState)
    (st : SimpleStats) : res (Command * ChannelState * SimpleStats) :=
  match rest with
  | [] => Ok (Command_default, cs, st)
  | cmd_it :: later =>
    '(cmd, cs) ← GetReadyCommand config_ cmd_it clk cs;
    if negb (IsValid cmd) then first_ready clk (earlier ++ [cmd_it]) later cs st
    else if decide (cmd_type cmd = PRECHARGE) then
      '(ok, st) ← ArbitratePrecharge earlier cmd_it later cs st;
      if negb ok then first_ready clk (earlier ++ [cmd_it]) later cs st
      else Ok (cmd, cs, st)
    else if IsWrite cmd && HasRWDependency earlier cmd_it
    then first_ready clk (earlier ++ [cmd_it]) later cs st
    else Ok (cmd, cs, st)
  end.

Definition GetFirstReadyInQueue (queue : list Command) (q : CommandQueue) (cs : ChannelState)
    (st : SimpleStats) : res (Command * ChannelState * SimpleStats) :=
  first_ready (clk_ q) [] queue cs st.

(** Removes the first command with the address and type of [cmd]. *)
Fixpoint erase_command (cmd : Command) (l : list Command) : option (list Command) :=
  match l with
  | [] => None
  | x :: l' =>
    if decide (hex_addr cmd = hex_addr x ∧ cmd_type cmd = cmd_type x) then Some l'
    else r ← erase_command cmd l'; Some (x :: r)
  end.

Definition EraseRWCommand (cmd : Command) (q : CommandQueue) : res CommandQueue :=
  l ← GetQueue (Rank cmd) (Bankgroup cmd) (Bank cmd) q;
  l' ← of_option (ExitCode 1) (erase_command cmd l);
  set_queue cmd l' q.

(** The loop of [GetCommandToIssue], [n] queues still to visit. *)
Fixpoint command_to_issue (n : nat) (x : QState) : res (Command * QState) :=
  match n with
  | O => Ok (Command_default, x)
  | S n' =>
    let '(q, cs, st) := x in
    '(queue, q) ← GetNextQueue q;
    if is_in_ref_ q && bool_decide (queue_idx_ q ∈ ref_q_indices_ q)
    then command_to_issue n' (q, cs, st)
    else
      '(cmd, cs, st) ← GetFirstReadyInQueue queue q cs st;
      if IsValid cmd then
        q ← (if IsReadWrite cmd then EraseRWCommand cmd q else Ok q);
        Ok (cmd, (q, cs, st))
      else command_to_issue n' (q, cs, st)
  end.

Definition GetCommandToIssue (x : QState) : res (Command * QState) :=
  command_to_issue (Z.to_nat (num_queues_ x.1.1)) x.

End queue.

(** ** Invariant *)

(** A command of the queue with index [i]. *)
Definition queued_at (c : Config) (q : CommandQueue) (i : Z) (cmd : Command) : Prop :=
  IsReadWrite cmd = true ∧ bank_addr_ok c (addr cmd) ∧
  GetQueueIndex c (Rank cmd) (Bankgroup cmd) (Bank cmd) q = i.

Record queue_ok (c : Config) (q : CommandQueue) : Prop := {
  qo_structure : queue_structure_ q = PER_BANK ∧ num_queues_ q = banks c * ranks c ∨
                 queue_structure_ q = PER_RANK ∧ num_queues_ q = ranks c;
  qo_length : length (queues_ q) = Z.to_nat (num_queues_ q);
  qo_empty : length (rank_q_empty q) = Z.to_nat (ranks c);
  qo_idx : 0 ≤ queue_idx_ q < num_queues_ q;
  qo_cmds : ∀ i l, vlookup (queues_ q) i = Some l → Forall (queued_at c q i) l;
  qo_size : ∀ i l, vlookup (queues_ q) i = Some l → queue_length l ≤ queue_size_ q }.

(** All the commands of the queues. *)
Definition commands (q : CommandQueue) : list Command := concat (queues_ q).

Lemma queue_commands q i l cmd : vlookup (queues_ q) i = Some l → cmd ∈ l → cmd ∈ commands q.
Proof.
  intros [_ Hl]%vlookup_Some Hin. destruct (concat_insert _ _ _ l Hl) as (rest & Hp & _).
  unfold commands. rewrite Hp. set_solver.
Qed.

Section queue_lemmas.
Context (c : Config) `{Geo : !Geometry c}.

Lemma GetQueueIndex_range a q :
  queue_ok c q → bank_addr_ok c a →
  0 ≤ GetQueueIndex c (rank a) (bankgroup a) (bank a) q < num_queues_ q.
Proof.
  intros Hq (Hr & Hg & Hb). unfold rank_ok in Hr. unfold GetQueueIndex.
  destruct (qo_structure _ _ Hq) as [[Es ->]|[Es ->]]; rewrite Es.
  - rewrite decide_False by done. rewrite (geo_banks (c:=c)).
    assert (0 ≤ bankgroup a * banks_per_group c + bank a < bankgroups c * banks_per_group c) by nia.
    nia.
  - by rewrite decide_True.
Qed.

Lemma GetQueue_total a q :
  queue_ok c q → bank_addr_ok c a →
  ∃ l, GetQueue c (rank a) (bankgroup a) (bank a) q = Ok l ∧
    vlookup (queues_ q) (GetQueueIndex c (rank a) (bankgroup a) (bank a) q) = Some l.
Proof.
  intros Hq Ha. pose proof (GetQueueIndex_range a q Hq Ha) as Hr. unfold GetQueue.
  destruct (vlookup_lt (queues_ q) (GetQueueIndex c (rank a) (bankgroup a) (bank a) q)) as [l Hl].
  { rewrite (qo_length _ _ Hq). lia. }
  exists l. split; [by apply vec_get_Ok|done].
Qed.

(** Replacing one queue by another list of commands that belong to it. *)
Lemma set_queue_total cmd l l' q :
  queue_ok c q → bank_addr_ok c (addr cmd) →
  GetQueue c (Rank cmd) (Bankgroup cmd) (Bank cmd) q = Ok l →
  Forall (queued_at c q (GetQueueIndex c (Rank cmd) (Bankgroup cmd) (Bank cmd) q)) l' →
  queue_length l' ≤ queue_size_ q →
  ∃ v rest, set_queue c cmd l' q = Ok (q <| queues_ := v |>) ∧ queue_ok c (q <| queues_ := v |>) ∧
    commands q ≡ₚ l ++ rest ∧ concat v ≡ₚ l' ++ rest.
Proof.
  intros Hq Ha Hg Hf Hsz. unfold GetQueue in Hg. apply vec_get_Ok in Hg.
  destruct (vec_modify_Ok _ _ (λ _, Ok l') _ _ Hg eq_refl) as (v & Hv & Hlen & Hl).
  unfold set_queue, vec_set. rewrite Hv. simpl.
  pose proof Hg as [_ Hlk]%vlookup_Some.
  apply vec_modify_run in Hv as (x & x' & Hx & [= <-] & Ev). 
  destruct (concat_insert _ _ _ l' Hlk) as (rest & Hp1 & Hp2). rewrite <- Ev in Hp2.
  exists v, rest. split; [done|]. split; [|by split].
  destruct Hq as [H1 H2 H3 H4 H5 H6]. constructor; simpl; try done; [congruence| |].
  - intros i li. rewrite Hl. case_decide; [intros [= <-]; by subst|].
    intros Hi. eapply list.Forall_impl; [by apply H5|]. done.
  - intros i li. rewrite Hl. case_decide; [by intros [= <-]|]. apply H6.
Qed.

Lemma WillAcceptCommand_total a q :
  queue_ok c q → bank_addr_ok c a →
  ∃ ok, WillAcceptCommand c (rank a) (bankgroup a) (bank a) q = Ok ok.
Proof.
  intros Hq Ha. unfold WillAcceptCommand.
  destruct (GetQueue_total a q Hq Ha) as (l & -> & _). simpl. eauto.
Qed.

(** A command that will be accepted is added to the queue of its bank. *)
Lemma AddCommand_accepted cmd q :
  queue_ok c q → bank_addr_ok c (addr cmd) → IsReadWrite cmd = true →
  WillAcceptCommand c (Rank cmd) (Bankgroup cmd) (Bank cmd) q = Ok true →
  ∃ q', AddCommand c cmd q = Ok (true, q') ∧ queue_ok c q' ∧ clk_ q' = clk_ q ∧
    commands q' ≡ₚ cmd :: commands q.
Proof.
  intros Hq Ha Hrw Hw. unfold WillAcceptCommand in Hw. apply bind_Ok_inv in Hw as (l & Hg & Hw).
  simplify_res. apply bool_decide_eq_true in Hw. unfold AddCommand. rewrite Hg. simpl.
  rewrite decide_True by done. pose proof Hg as Hlk. unfold GetQueue in Hlk. apply vec_get_Ok in Hlk.
  destruct (set_queue_total cmd l (l ++ [cmd]) q Hq Ha Hg) as (v & rest & Hset & Hq1 & Hp1 & Hp2).
  - apply list.Forall_app. split; [by apply (qo_cmds _ _ Hq)|]. constructor; [by split|constructor].
  - unfold queue_length in *. rewrite length_app. simpl. lia.
  - rewrite Hset. simpl. pose proof Ha as (Hr & _). unfold rank_ok in Hr.
    destruct (vlookup_lt (rank_q_empty q) (Rank cmd)) as [b Hb].
    { rewrite (qo_empty _ _ Hq). unfold Rank. lia. }
    destruct (vec_modify_Ok _ _ (λ _, Ok false) _ _ Hb eq_refl) as (w & Hw1 & Hlw & _).
    unfold vec_set. rewrite Hw1. simpl. eexists. split; [done|]. split; [|split; [done|]].
    + destruct Hq1 as [H1 H2 H3 H4 H5 H6]. constructor; try done. simpl. simpl in H3. congruence.
    + unfold commands at 1. simpl. rewrite Hp2, Hp1, <- app_assoc.
      symmetry. apply Permutation_middle.
Qed.

Lemma GetNextQueue_total q :
  queue_ok c q → ∃ l q', GetNextQueue q = Ok (l, q') ∧ queue_ok c q' ∧ commands q' = commands q ∧
    clk_ q' = clk_ q ∧ vlookup (queues_ q') (queue_idx_ q') = Some l.
Proof.
  intros Hq. pose proof (qo_idx _ _ Hq) as Hi. unfold GetNextQueue.
  set (q1 := q <| queue_idx_ ::= λ i, i + 1 |>).
  set (q2 := if decide (queue_idx_ q1 = num_queues_ q1) then q1 <| queue_idx_ := 0 |> else q1).
  assert (queues_ q2 = queues_ q ∧ num_queues_ q2 = num_queues_ q ∧ clk_ q2 = clk_ q ∧
    0 ≤ queue_idx_ q2 < num_queues_ q ∧ queue_ok c q2) as (E1 & E2 & E3 & E4 & E5).
  { assert (0 ≤ queue_idx_ q2 < num_queues_ q) by (subst q2 q1; case_decide; simpl in *; lia).
    split_and!; try (subst q2 q1; by case_decide); [lia|lia|].
    destruct Hq as [H1 H2 H3 H4 H5 H6].
    constructor; subst q2; case_decide; simpl in *; try done; lia. }
  destruct (vlookup_lt (queues_ q2) (queue_idx_ q2)) as [l Hl].
  { rewrite E1, (qo_length _ _ Hq). lia. }
  exists l, q2. apply vec_get_Ok in Hl as Hl'. rewrite Hl'. simpl.
  split_and!; [done|done|unfold commands; by rewrite E1|done|done].
Qed.

(** ** The first ready command of a queue *)

(** A request from a queue is valid for an awake channel. *)
Lemma queued_request_ok q i cmd cs : queued_at c q i cmd → awake cs → request_ok c cmd cs.
Proof.
  intros (Hrw & Ha & _) Haw. split_and!; [|by apply bank_addr_cmd_ok|].
  - destruct (IsReadWrite_cases _ Hrw) as [->|[->|[->| ->]]]; by split_and!.
  - intros Hx. by apply Haw in Hx.
Qed.

Lemma ArbitratePrecharge_total earlier cmd later cs st :
  channel_ok c cs → bank_addr_ok c (addr cmd) → stats_ok c st →
  ∃ ok st', ArbitratePrecharge earlier cmd later cs st = Ok (ok, st') ∧ stats_ok c st'.
Proof.
  intros Hcs (Hr & Hg & Hb) Hst. unfold ArbitratePrecharge. destruct (existsb _ earlier); [eauto|].
  destruct (channel_lookup c cs (Rank cmd) (Bankgroup cmd) (Bank cmd) Hcs Hr Hg Hb) as (b & Hl & _).
  apply get3_Ok in Hl. unfold OpenRow, RowHitCount. rewrite Hl. simpl.
  destruct (_ || _); eauto 6 with dram.
Qed.

(** [cmd] is made for one of the commands. *)
Definition prepares (cmd : Command) (cmds : list Command) : Prop :=
  ∃ x, x ∈ cmds ∧ addr cmd = addr x ∧ hex_addr cmd = hex_addr x.

Lemma prepares_mono cmd l l' : (∀ x, x ∈ l → x ∈ l') → prepares cmd l → prepares cmd l'.
Proof. intros Hl (x & Hx & ?). exists x. auto. Qed.

(** What a scan of commands returns: a command that may be issued, and if it is
    a read or a write, one of the commands scanned. *)
Definition scan_result (clk : Z) (cs : ChannelState) (cmds : list Command) (cmd : Command)
    (cs' : ChannelState) : Prop :=
  marks_only cs cs' ∧
  (IsValid cmd = true → issuable c cmd clk cs' ∧ cmd_type cmd ≠ SREF_ENTER ∧
     (IsReadWrite cmd = true → cmd ∈ cmds) ∧ prepares cmd cmds).

Lemma scan_result_cons clk cs cs1 cmds x cmd cs' :
  marks_only cs cs1 → scan_result clk cs1 cmds cmd cs' → scan_result clk cs (x :: cmds) cmd cs'.
Proof.
  intros Hm [Hm' Hv]. split; [by etransitivity|]. intros H. destruct (Hv H) as (? & ? & Hin & Hp).
  split_and!; [done..| |].
  - intros. apply elem_of_cons. right. auto.
  - eapply prepares_mono; [|exact Hp]. set_solver.
Qed.

Lemma first_ready_total q i clk earlier rest cs st :
  Forall (queued_at c q i) rest → channel_ok c cs → awake cs → stats_ok c st →
  ∃ cmd cs' st', first_ready c clk earlier rest cs st = Ok (cmd, cs', st') ∧ stats_ok c st' ∧
    scan_result clk cs rest cmd cs'.
Proof.
  intros Hall; revert earlier cs st; induction Hall as [|x rest Hx Hall IH];
    intros earlier cs st Hcs Haw Hst; simpl.
  { eexists _, _, _. split_and!; [done|done|]. by split. }
  pose proof Hx as (Hrw & Ha & _).
  pose proof (queued_request_ok q i x cs Hx Haw) as Hreq.
  destruct (GetReadyCommand_channel_total c x clk cs Hcs Hreq) as (cmd & cs1 & Hg).
  pose proof Hreq as (Hrq & Hca & _).
  destruct (GetReadyCommand_sound c x clk cs cmd cs1 Hcs Hrq Hca Hg) as [Hm Hi].
  assert (channel_ok c cs1) as Hcs1 by by eapply marks_only_ok.
  assert (awake cs1) as Haw1 by by eapply marks_only_awake.
  assert (∀ e st, stats_ok c st → ∃ cmd cs' st', first_ready c clk e rest cs1 st = Ok (cmd, cs', st') ∧
    stats_ok c st' ∧ scan_result clk cs (x :: rest) cmd cs') as Hnext.
  { intros e st1 Hst1. destruct (IH e cs1 st1 Hcs1 Haw1 Hst1) as (m & cs' & st' & ? & ? & ?).
    exists m, cs', st'. split_and!; [done|done|by eapply scan_result_cons]. }
  rewrite Hg. simpl. destruct (IsValid cmd) eqn:Hv; simpl; [|by apply Hnext].
  assert (∀ st, stats_ok c st → ∃ cmd' cs' st', Ok (cmd, cs1, st) = Ok (cmd', cs', st') ∧
    stats_ok c st' ∧ scan_result clk cs (x :: rest) cmd' cs') as Hdone.
  { intros st1 Hst1. exists cmd, cs1, st1. split_and!; [done|done|]. split; [done|]. intros _.
    split_and!; [auto| | |].
    - destruct (GetReadyCommand_kind c x clk cs cmd cs1 Hcs Hca Hg Hv) as [->|[->|[->| ->]]]; try done.
      by destruct (IsReadWrite_cases _ Hrw) as [->|[->|[->| ->]]].
    - intros Hrw2. destruct (GetReadyCommand_kind c x clk cs cmd cs1 Hcs Hca Hg Hv) as [->|Hk];
        [set_solver|]. exfalso. revert Hrw2 Hk. by_type cmd; naive_solver.
    - exists x. split; [set_solver|]. eapply (GetReadyCommand_addr c x clk); [exact Hcs| |exact Hg|done].
      by apply IsReadWrite_not_rank. }
  case_decide.
  - destruct (ArbitratePrecharge_total earlier x rest cs1 st Hcs1 Ha Hst) as (ok & st1 & -> & Hst1).
    simpl. destruct ok; simpl; [by apply Hdone|by apply Hnext].
  - destruct (_ && _); [by apply Hnext|by apply Hdone].
Qed.

(** ** Issuing from the queues *)

Lemma erase_command_in cmd l :
  cmd ∈ l → ∃ x l', erase_command cmd l = Some l' ∧ l ≡ₚ x :: l' ∧
    hex_addr x = hex_addr cmd ∧ cmd_type x = cmd_type cmd ∧ (length l' < length l)%nat.
Proof.
  induction l as [|y l IH]; intros Hin; [by apply not_elem_of_nil in Hin|]. simpl.
  case_decide as Hd; [exists y, l; destruct Hd; split_and!; try done; simpl; lia|].
  apply elem_of_cons in Hin as [<-|Hin]; [exfalso; by apply Hd|].
  destruct (IH Hin) as (x & l' & -> & Hp & Hh & Ht & Hlen). exists x, (y :: l'). simpl.
  split_and!; [done|rewrite Hp; apply Permutation_swap|done|done|lia].
Qed.

Lemma EraseRWCommand_total cmd l q :
  queue_ok c q → bank_addr_ok c (addr cmd) →
  vlookup (queues_ q) (GetQueueIndex c (Rank cmd) (Bankgroup cmd) (Bank cmd) q) = Some l → cmd ∈ l →
  ∃ x q', EraseRWCommand c cmd q = Ok q' ∧ queue_ok c q' ∧ clk_ q' = clk_ q ∧
    commands q ≡ₚ x :: commands q' ∧ hex_addr x = hex_addr cmd ∧ cmd_type x = cmd_type cmd.
Proof.
  intros Hq Ha Hl Hin. destruct (erase_command_in cmd l Hin) as (x & l' & He & Hp & Hh & Ht & Hlen).
  unfold EraseRWCommand. assert (GetQueue c (Rank cmd) (Bankgroup cmd) (Bank cmd) q = Ok l) as Hg
    by by apply vec_get_Ok.
  rewrite Hg. simpl. rewrite He. simpl.
  destruct (set_queue_total cmd l l' q Hq Ha Hg) as (v & rest & Hset & Hq1 & Hp1 & Hp2).
  - pose proof (qo_cmds _ _ Hq _ _ Hl) as Hf. rewrite Hp in Hf. by apply list.Forall_cons in Hf as [_ Hf].
  - pose proof (qo_size _ _ Hq _ _ Hl). unfold queue_length in *. lia.
  - exists x. eexists. split; [exact Hset|]. split_and!; [done|done| |done|done].
    unfold commands at 2. simpl. by rewrite Hp1, Hp2, Hp.
Qed.

(** The effect on the queues of returning [cmd]: a read or write leaves them,
    any other command does not. *)
Definition taken (cmd : Command) (q q' : CommandQueue) : Prop :=
  if IsReadWrite cmd
  then ∃ x, commands q ≡ₚ x :: commands q' ∧ hex_addr x = hex_addr cmd ∧ cmd_type x = cmd_type cmd
  else commands q' = commands q.

Lemma command_to_issue_total n q cs st :
  queue_ok c q → channel_ok c cs → awake cs → stats_ok c st →
  ∃ cmd q' cs' st', command_to_issue c n (q, cs, st) = Ok (cmd, (q', cs', st')) ∧
    queue_ok c q' ∧ stats_ok c st' ∧ clk_ q' = clk_ q ∧ marks_only cs cs' ∧ taken cmd q q' ∧
    (IsValid cmd = true → issuable c cmd (clk_ q) cs' ∧ cmd_type cmd ≠ SREF_ENTER) ∧
    (IsValid cmd = true → prepares cmd (commands q)).
Proof.
  revert q cs st; induction n as [|n IH]; intros q cs st Hq Hcs Haw Hst; simpl.
  { eexists _, _, _, _. split; [done|]. by split_and!. }
  destruct (GetNextQueue_total q Hq) as (l & q1 & -> & Hq1 & Ec & Ek & Hl). simpl.
  assert (∀ cs1 st1, marks_only cs cs1 → stats_ok c st1 →
    ∃ cmd q' cs' st', command_to_issue c n (q1, cs1, st1) = Ok (cmd, (q', cs', st')) ∧
    queue_ok c q' ∧ stats_ok c st' ∧ clk_ q' = clk_ q ∧ marks_only cs cs' ∧ taken cmd q q' ∧
    (IsValid cmd = true → issuable c cmd (clk_ q) cs' ∧ cmd_type cmd ≠ SREF_ENTER) ∧
    (IsValid cmd = true → prepares cmd (commands q))) as Hnext.
  { intros cs1 st1 Hm Hst1. destruct (IH q1 cs1 st1 Hq1) as (m & q' & cs' & st' & H1 & H2 & H3 & H4 & H5 & H6 & H7 & H8);
      [by eapply marks_only_ok|by eapply marks_only_awake|done|].
    exists m, q', cs', st'. split_and!; [done|done|done|congruence|by etransitivity| |by rewrite <- Ek|by rewrite <- Ec].
    unfold taken in *. by rewrite Ec in H6. }
  destruct (_ && _); [by apply Hnext|].
  unfold GetFirstReadyInQueue.
  destruct (first_ready_total q1 (queue_idx_ q1) (clk_ q1) [] l cs st) as (cmd & cs1 & st1 & -> & Hst1 & Hm & Hv);
    [by apply (qo_cmds _ _ Hq1)|done|done|done|]. simpl.
  destruct (IsValid cmd) eqn:E; [|by apply Hnext].
  destruct (Hv eq_refl) as (Hiss & Hns & Hin & Hprep). rewrite Ek in Hiss.
  assert (prepares cmd (commands q)) as Hp2.
  { rewrite <- Ec. eapply prepares_mono; [|exact Hprep]. intros x. by apply queue_commands with (1 := Hl). }
  destruct (IsReadWrite cmd) eqn:Hrw.
  - specialize (Hin eq_refl). pose proof (qo_cmds _ _ Hq1 _ _ Hl) as Hf.
    rewrite list.Forall_forall in Hf. destruct (Hf _ Hin) as (_ & Ha & Hidx).
    destruct (EraseRWCommand_total cmd l q1 Hq1 Ha) as (x & q2 & -> & Hq2 & Ek2 & Hp & Hh & Ht);
      [by rewrite Hidx|done|]. simpl.
    eexists _, _, _, _. split; [done|]. split_and!; [done|done|congruence|done| |done|done].
    unfold taken. rewrite Hrw. exists x. by rewrite <- Ec.
  - simpl. eexists _, _, _, _. split; [done|]. split_and!; [done|done|done|done| |done|done].
    unfold taken. by rewrite Hrw.
Qed.

(** A pending refresh, or the precharge it needs. *)
Lemma FinishRefresh_total q cs :
  queue_ok c q → channel_ok c cs → awake cs → IsRefreshWaiting cs = true →
  ∃ cmd q' cs', FinishRefresh c q cs = Ok (cmd, q', cs') ∧ queue_ok c q' ∧
    commands q' = commands q ∧ clk_ q' = clk_ q ∧ marks_only cs cs' ∧ IsReadWrite cmd = false ∧
    (IsValid cmd = true → issuable c cmd (clk_ q) cs' ∧ cmd_type cmd ≠ SREF_ENTER) ∧
    (IsValid cmd = true → cmd_type cmd ≠ ACTIVATE ∧ for_refresh c (addr cmd)).
Proof.
  intros Hq Hcs Haw Hwait. apply bool_decide_eq_true in Hwait. unfold FinishRefresh, PendingRefCommand.
  pose proof (ch_refresh_q _ _ Hcs) as Hf.
  destruct (refresh_q_ cs) as [|ref rest]; [done|]. simpl.
  apply list.Forall_cons in Hf as [Hrefok _]. pose proof Hrefok as (Hisref & Hca & _).
  set (q1 := if is_in_ref_ q then q else _).
  assert (queue_ok c q1 ∧ commands q1 = commands q ∧ clk_ q1 = clk_ q) as (Hq1 & Ec & Ek).
  { subst q1. destruct (is_in_ref_ q); [done|].
    assert (∃ s, GetRefQIndices c ref q = q <| ref_q_indices_ := s |>) as [s ->].
    { unfold GetRefQIndices. repeat case_decide; eexists; by destruct q. }
    split_and!; [|done|done]. by destruct Hq. }
  assert (request_ok c ref cs) as Hreq.
  { split_and!; [|done|by intros Hx%Haw]. revert Hisref. by_type ref; intros; try done; by split_and!. }
  destruct (GetReadyCommand_channel_total c ref (clk_ q1) cs Hcs Hreq) as (cmd & cs1 & Hg).
  pose proof Hreq as (Hrq & _ & _).
  destruct (GetReadyCommand_sound c ref (clk_ q1) cs cmd cs1 Hcs Hrq Hca Hg) as [Hm Hi].
  rewrite Hg. simpl.
  set (q2 := if IsRefresh cmd then _ else _).
  assert (queue_ok c q2 ∧ commands q2 = commands q1 ∧ clk_ q2 = clk_ q1) as (Hq2 & Ec2 & Ek2).
  { subst q2. destruct (IsRefresh cmd); [|done]. split_and!; [|done|done]. by destruct Hq1. }
  eexists _, _, _. split; [done|].
  assert (IsValid cmd = true → IsReadWrite cmd = false ∧ cmd_type cmd ≠ SREF_ENTER) as Hk.
  { intros Hv. destruct (GetReadyCommand_kind c ref _ cs cmd cs1 Hcs Hca Hg Hv) as [->|Hk].
    - revert Hisref. by by_type ref.
    - revert Hk. by_type cmd; naive_solver. }
  split_and!; [done|congruence|congruence|done| | |].
  - destruct (IsValid cmd) eqn:Hv; [by apply Hk|]. revert Hv. by_type cmd; done.
  - intros Hv. split; [rewrite <- Ek; auto|by apply Hk].
  - by eapply (GetReadyCommand_refresh c ref).
Qed.

Lemma CommandQueue_new_ok q : CommandQueue_new c = Ok q → queue_ok c q ∧ commands q = [] ∧ clk_ q = 0.
Proof.
  pose proof (geo_ranks (c:=c)). pose proof (geo_bankgroups (c:=c)).
  pose proof (geo_banks_per_group (c:=c)). pose proof (geo_banks (c:=c)).
  unfold CommandQueue_new. intros Hn. apply bind_Ok_inv in Hn as ([s n] & Hs & Hn).
  apply bind_Ok_inv in Hn as ([] & _ & Hn). apply bind_Ok_inv in Hn as ([] & _ & Hn). simplify_res.
  assert (s = PER_BANK ∧ n = banks c * ranks c ∨ s = PER_RANK ∧ n = ranks c) as Hstr.
  { repeat case_decide; simplify_res; auto. }
  split_and!; [|unfold commands; simpl; unfold vector_of|done].
  - constructor; simpl; unfold vector_of; rewrite ?length_replicate; try done.
    + destruct Hstr as [[_ ->]|[_ ->]]; nia.
    + intros i l ->%vlookup_replicate_inv. constructor.
    + intros i l ->%vlookup_replicate_inv. unfold queue_length. simpl. apply u64_range.
  - clear. induction (Z.to_nat n); simpl; auto.
Qed.
End queue_lemmas.

(** ** The order of commands in a queue *)

(** Why the command [cmd] that answers [x] may overtake [earlier]. *)
Definition may_overtake (c : Config) (cs : ChannelState) (earlier : list Command) (x cmd : Command)
    (later : list Command) : Prop :=
  (IsWrite cmd = true → x = cmd ∧ ∀ p, p ∈ earlier → IsRead p = true →
     ¬ (Row p = Row x ∧ Column p = Column x ∧ Bank p = Bank x ∧ Bankgroup p = Bankgroup x)) ∧
  (cmd_type cmd = PRECHARGE →
     (∀ p, p ∈ earlier → same_target p x = false) ∧
     ∃ b, lookup3 (bank_states_ cs) (Rank x) (Bankgroup x) (Bank x) = Some b ∧
       (4 ≤ row_hit_count_ b ∨
        ∀ p, p ∈ x :: later → same_target p x = true → Row p ≠ open_row_ b)).

Lemma HasRWDependency_false earlier x :
  HasRWDependency earlier x = false → ∀ p, p ∈ earlier → IsRead p = true →
  ¬ (Row p = Row x ∧ Column p = Column x ∧ Bank p = Bank x ∧ Bankgroup p = Bankgroup x).
Proof.
  unfold HasRWDependency. intros H p Hp Hr Heq.
  assert (existsb (λ it, IsRead it && bool_decide (Row it = Row x ∧ Column it = Column x ∧
    Bank it = Bank x ∧ Bankgroup it = Bankgroup x)) earlier = true); [|congruence].
  apply existsb_exists. exists p. split; [by apply list_elem_of_In|].
  rewrite Hr. by apply bool_decide_eq_true.
Qed.

Lemma ArbitratePrecharge_true earlier x later cs st st' :
  ArbitratePrecharge earlier x later cs st = Ok (true, st') →
  (∀ p, p ∈ earlier → same_target p x = false) ∧
  ∃ b, lookup3 (bank_states_ cs) (Rank x) (Bankgroup x) (Bank x) = Some b ∧
    (4 ≤ row_hit_count_ b ∨
     ∀ p, p ∈ x :: later → same_target p x = true → Row p ≠ open_row_ b).
Proof.
  unfold ArbitratePrecharge. destruct (existsb _ earlier) eqn:He; [done|]. intros H.
  unfold OpenRow, RowHitCount in H. simplify_res.
  apply get3_Ok in Hrun1, Hrun2. rewrite Hrun1 in Hrun2. simplify_eq. split.
  - intros p Hp. destruct (same_target p x) eqn:E; [|done].
    assert (existsb (λ p, same_target p x) earlier = true); [|congruence].
    apply existsb_exists. exists p. split; [by apply list_elem_of_In|done].
  - eexists. split; [exact Hrun1|].
    match goal with H : (if negb ?e || ?r then _ else _) = _ |- _ =>
      destruct e eqn:Ex, r eqn:Er; simpl in H; simplify_res end;
      try (left; by apply bool_decide_eq_true in Er);
    right; intros p Hp Ht Hrow.
    all: match goal with Ex : existsb ?f ?l = false |- _ =>
      assert (existsb f l = true); [|congruence] end.
    all: apply existsb_exists; exists p; (split; [by apply list_elem_of_In|]);
      cbn beta; rewrite Ht, ?andb_true_r; first [done|by apply bool_decide_eq_true].
Qed.

Section order.
Context (c : Config) `{Geo : !Geometry c}.

Lemma first_ready_order q i clk earlier rest cs st cmd cs' st' :
  Forall (queued_at c q i) rest → channel_ok c cs → awake cs →
  first_ready c clk earlier rest cs st = Ok (cmd, cs', st') → IsValid cmd = true →
  ∃ e x l, rest = e ++ x :: l ∧ may_overtake c cs' (earlier ++ e) x cmd l.
Proof.
  intros Hall; revert earlier cs st; induction Hall as [|x rest Hx Hall IH];
    intros earlier cs st Hcs Haw Hrun Hv; simpl in Hrun; [by simplify_res|].
  apply bind_Ok_inv in Hrun as ([cmd1 cs1] & Hg & Hrun).
  pose proof (queued_request_ok c q i x cs Hx Haw) as (Hrq & Hca & _).
  destruct (GetReadyCommand_sound c x clk cs cmd1 cs1 Hcs Hrq Hca Hg) as [Hm Hi].
  assert (channel_ok c cs1) as Hcs1 by by eapply marks_only_ok.
  assert (awake cs1) as Haw1 by by eapply marks_only_awake.
  assert (∀ st, first_ready c clk (earlier ++ [x]) rest cs1 st = Ok (cmd, cs', st') →
    ∃ e y l, x :: rest = e ++ y :: l ∧ may_overtake c cs' (earlier ++ e) y cmd l) as Hnext.
  { intros st1 Hrun1. destruct (IH _ _ _ Hcs1 Haw1 Hrun1 Hv) as (e & y & l & -> & Hmay).
    exists (x :: e), y, l. split; [done|]. by rewrite <- app_assoc in Hmay. }
  destruct (IsValid cmd1) eqn:Hv1; simpl in Hrun; [|by eapply Hnext].
  case_decide as Hp.
  - apply bind_Ok_inv in Hrun as ([ok st1] & Harb & Hrun).
    destruct ok; simpl in Hrun; [|by eapply Hnext]. simplify_res.
    exists [], x, rest. split; [done|]. rewrite app_nil_r. split.
    + intros Hw. revert Hp Hw. by_type cmd; done.
    + intros _. by eapply ArbitratePrecharge_true.
  - destruct (IsWrite cmd1 && HasRWDependency earlier x) eqn:Hd; [by eapply Hnext|]. simplify_res.
    exists [], x, rest. split; [done|]. rewrite app_nil_r. split; [|done]. intros Hw.
    rewrite Hw in Hd. simpl in Hd. split; [|by apply HasRWDependency_false].
    destruct (GetReadyCommand_kind c x clk cs cmd cs' Hcs Hca Hg Hv1) as [->|Hk]; [done|].
    revert Hk Hw. by_type cmd; naive_solver.
Qed.
End order.

(** ** Properties *)

(** C20: choosing the next command never fails and never loses one.  On a
    well-formed queue and an awake channel, [GetCommandToIssue] returns (it
    never reaches [exit(1)] of [EraseRWCommand]); a returned command may be
    issued at once; a read or write is taken out of its queue exactly once,
    and any other answer leaves the queues as they were. *)
Theorem GetCommandToIssue_total (c : Config) (q : CommandQueue) (cs : ChannelState)
    (st : SimpleStats) :
  Geometry c → queue_ok c q → channel_ok c cs → awake cs → stats_ok c st →
  ∃ cmd q' cs' st', GetCommandToIssue c (q, cs, st) = Ok (cmd, (q', cs', st')) ∧
    queue_ok c q' ∧ channel_ok c cs' ∧ taken cmd q q' ∧
    (IsValid cmd = true → issuable c cmd (clk_ q) cs').
Proof.
  intros Geo Hq Hcs Haw Hst.
  destruct (command_to_issue_total c (Z.to_nat (num_queues_ q)) q cs st Hq Hcs Haw Hst)
    as (cmd & q' & cs' & st' & H1 & H2 & H3 & H4 & H5 & H6 & H7).
  exists cmd, q', cs', st'. split_and!; [exact H1|done|by eapply marks_only_ok|done|].
  intros Hv. by apply H7.
Qed.

(** A queue of the sample configuration with commands added to it. *)
Definition sample_queue (cmds : list Command) : res CommandQueue :=
  q ← CommandQueue_new sample_config;
  foldM (λ cmd q, '(_, q) ← AddCommand sample_config cmd q; Ok q) cmds q.

Lemma sample_queue_ok cmds q :
  Forall (λ cmd, IsReadWrite cmd = true ∧ bank_addr_ok sample_config (addr cmd)) cmds →
  sample_queue cmds = Ok q → queue_ok sample_config q.
Proof.
  intros Hall. unfold sample_queue. intros H. apply bind_Ok_inv in H as (q0 & Hnew & H).
  pose proof (CommandQueue_new_ok sample_config q0 Hnew) as (Hq & _).
  revert H. apply foldM_preserves; [|done]. intros cmd q1 q2 Hin Hq1 Hadd.
  rewrite list.Forall_forall in Hall. destruct (Hall _ Hin) as [Hrw Ha].
  apply bind_Ok_inv in Hadd as ([b q3] & Hadd & E). simplify_res.
  destruct (WillAcceptCommand_total sample_config (addr cmd) q1 Hq1 Ha) as [ok Hok].
  destruct ok.
  - destruct (AddCommand_accepted sample_config cmd q1 Hq1 Ha Hrw Hok) as (q' & Hadd' & Hq' & _).
    rewrite Hadd in Hadd'. by simplify_eq.
  - unfold WillAcceptCommand in Hok. apply bind_Ok_inv in Hok as (l & Hg & Hok). simplify_res.
    apply bool_decide_eq_false in Hok. unfold AddCommand in Hadd.
    change (GetQueue sample_config (rank (addr cmd)) (bankgroup (addr cmd)) (bank (addr cmd)) q1)
      with (GetQueue sample_config (Rank cmd) (Bankgroup cmd) (Bank cmd) q1) in Hg.
    rewrite Hg in Hadd. simpl in Hadd. rewrite decide_False in Hadd by done. by simplify_res.
Qed.

Definition sample_cmds : list Command :=
  [MkCommand READ (MkAddress 0 0 1 2 40 0) 64; MkCommand WRITE (MkAddress 0 0 1 2 40 0) 64].

Lemma GetCommandToIssue_total_witness :
  ∃ q, sample_queue sample_cmds = Ok q ∧ length (commands q) = 2%nat ∧
  ∃ st, SimpleStats_new sample_config = Ok st ∧
  ∃ cmd q' cs' st', GetCommandToIssue sample_config (q, ChannelState_new sample_config, st)
      = Ok (cmd, (q', cs', st')) ∧
    queue_ok sample_config q' ∧ channel_ok sample_config cs' ∧ taken cmd q q' ∧
    (IsValid cmd = true → issuable sample_config cmd (clk_ q) cs').
Proof.
  destruct (sample_queue sample_cmds) as [q|] eqn:E; [|vm_compute in E; discriminate].
  exists q. split; [done|]. split; [vm_compute in E; injection E as <-; reflexivity|].
  destruct (SimpleStats_new_ok sample_config) as (st & Hst & Hok).
  exists st. split; [done|]. apply GetCommandToIssue_total.
  - apply sample_geometry.
  - eapply sample_queue_ok; [|exact E].
    repeat constructor; simpl; vm_compute; intros; discriminate.
  - apply ChannelState_new_ok.
  - apply ChannelState_new_awake.
  - done.
Defined.


