(* ===== verification/Controller.v ===== *)
(** * Controller: the memory controller of a channel (src/src/controller.h, controller.cc)

    Transactions from the CPU wait in a read queue and a write buffer (or in
    one unified queue), become commands in the command queue, and complete
    when their column command issues.  [pending_rd_q_] and [pending_wr_q_]
    hold what is not completed yet, [return_queue_] what has completed.
    [cmd_trace_] is the file that is written with CMD_TRACE: the clock and the
    command of every line, in order (Trace.v has the text of a line).  The
    calls of the thermal calculator with THERMAL are in ThermalSystem.v. *)

From S2P Require Import Refresh CommandQueue.
From S2P Require Import Prelude Common Configuration Timing BankState ChannelState SimpleStats.
Local Open Scope Z_scope.

Inductive RowBufPolicy : Type := OPEN_PAGE | CLOSE_PAGE | RowBufPolicy_SIZE.

#[export] Instance RowBufPolicy_eq_dec : EqDecision RowBufPolicy.
Proof. solve_decision. Defined.

Record Controller : Type := MkController {
  channel_id_ : Z;
  clk_ : Z;
  simple_stats_ : SimpleStats;
  channel_state_ : ChannelState;
  cmd_queue_ : CommandQueue.CommandQueue;
  refresh_ : Refresh.Refresh;
  concurrent_serve : Z;
  is_active_cycles : bool;
  read_cmds : Z; write_cmds : Z; read_row_hits : Z; write_row_hits : Z;
  is_unified_queue_ : bool;
  unified_queue_ : rvec Transaction;
  read_queue_ : rvec Transaction;
  write_buffer_ : rvec Transaction;
  pending_rd_q_ : gmap Z (list Transaction);
  pending_wr_q_ : gmap Z (list Transaction);
  return_queue_ : list Transaction;
  row_buf_policy_ : RowBufPolicy;
  last_trans_clk_ : Z;
  write_draining_ : Z;
  cmd_trace_ : list (Z * Command) }.

#[export] Instance Controller_eta : RecordEta Controller := λ t, MkController
  (channel_id_ t) (clk_ t) (simple_stats_ t) (channel_state_ t) (cmd_queue_ t) (refresh_ t)
  (concurrent_serve t) (is_active_cycles t) (read_cmds t) (write_cmds t) (read_row_hits t)
  (write_row_hits t) (is_unified_queue_ t) (unified_queue_ t) (read_queue_ t) (write_buffer_ t)
  (pending_rd_q_ t) (pending_wr_q_ t) (return_queue_ t) (row_buf_policy_ t)
  (last_trans_clk_ t) (write_draining_ t) (cmd_trace_ t).

Section controller.
Context (config_ : Config) (timing_ : Timing).

Definition Controller_new (channel : Z) : res Controller :=
  st ← SimpleStats_new config_;
  q ← CommandQueue.CommandQueue_new config_;
  r ← Refresh.Refresh_new config_;
  let unified := unified_queue config_ in
  _ ← check_reserve (trans_queue_size config_);
  let reserved := rv_reserve (trans_queue_size config_) in
  Ok {| channel_id_ := channel; clk_ := 0; simple_stats_ := st;
        channel_state_ := ChannelState_new config_;
        cmd_queue_ := q; refresh_ := r;
        concurrent_serve := 0; is_active_cycles := false;
        read_cmds := 0; write_cmds := 0; read_row_hits := 0; write_row_hits := 0;
        is_unified_queue_ := unified;
        unified_queue_ := if unified then reserved else rv_empty;
        read_queue_ := if unified then rv_empty else reserved;
        write_buffer_ := if unified then rv_empty else reserved;
        pending_rd_q_ := ∅; pending_wr_q_ := ∅; return_queue_ := [];
        row_buf_policy_ := if decide (row_buf_policy config_ = "CLOSE_PAGE"%string)
                           then CLOSE_PAGE else OPEN_PAGE;
        last_trans_clk_ := 0; write_draining_ := 0; cmd_trace_ := [] |}.

(** A statistic of the controller. *)
Definition count (name : string) (t : Controller) : Controller :=
  t <| simple_stats_ ::= Increment name |>.

(** The first completed transaction of the return queue, and what is left. *)
Fixpoint take_done (clk : Z) (l : list Transaction) : option (Transaction * list Transaction) :=
  match l with
  | [] => None
  | it :: l' =>
    if decide (complete_cycle it ≤ clk) then Some (it, l')
    else '(x, r) ← take_done clk l'; Some (x, it :: r)
  end.

Definition ReturnDoneTrans (clk : Z) (t : Controller) : (Z * Z) * Controller :=
  match take_done clk (return_queue_ t) with
  | Some (it, rest) =>
    let t := if is_write it then count "num_writes_done" t
             else (count "num_reads_done" t)
                    <| simple_stats_ ::= AddValue "read_latency" (i32 (u64 (clk_ t - added_cycle it))) |> in
    ((t_addr it, Z.b2z (is_write it)), t <| return_queue_ := rest |>)
  | None => ((u64 (-1), -1), t)
  end.

Definition WillAcceptTransaction (hex_addr : Z) (is_write : bool) (t : Controller) : bool :=
  let room (q : rvec Transaction) := bool_decide (rv_size q < rv_cap q) in
  if is_unified_queue_ t then room (unified_queue_ t)
  else if negb is_write then room (read_queue_ t)
  else room (write_buffer_ t).

Definition push_trans (trans : Transaction) (t : Controller) : Controller :=
  if is_unified_queue_ t then t <| unified_queue_ ::= λ q, rv_push_back q trans |>
  else if is_write trans then t <| write_buffer_ ::= λ q, rv_push_back q trans |>
  else t <| read_queue_ ::= λ q, rv_push_back q trans |>.

Definition push_return (trans : Transaction) (t : Controller) : Controller :=
  t <| return_queue_ ::= λ q, q ++ [trans] |>.

Definition AddTransaction (trans : Transaction) (t : Controller) : bool * Controller :=
  let trans := trans <| added_cycle := clk_ t |> in
  let t := t <| simple_stats_ ::=
                  AddValue "interarrival_latency" (i32 (u64 (clk_ t - last_trans_clk_ t))) |>
             <| last_trans_clk_ := clk_ t |> in
  let done := trans <| complete_cycle := u64 (clk_ t + 1) |> in
  if is_write trans then
    let t := if decide (mm_count (pending_wr_q_ t) (t_addr trans) = 0)
             then push_trans trans
                    (t <| pending_wr_q_ ::= λ m, mm_insert m (t_addr trans) trans |>)
             else t in
    (true, push_return done t)
  else if decide (0 < mm_count (pending_wr_q_ t) (t_addr trans))
  then (true, push_return done t)
  else
    let t := t <| pending_rd_q_ ::= λ m, mm_insert m (t_addr trans) trans |> in
    (true, if decide (mm_count (pending_rd_q_ t) (t_addr trans) = 1)
           then push_trans trans t else t).

Definition TransToCommand (trans : Transaction) (t : Controller) : Command :=
  let cmd_type :=
    if decide (row_buf_policy_ t = OPEN_PAGE)
    then if is_write trans then WRITE else READ
    else if is_write trans then WRITE_PRECHARGE else READ_PRECHARGE in
  MkCommand cmd_type (AddressMapping config_ (t_addr trans)) (t_addr trans).

(** The queue that [ScheduleTransaction] reads. *)
Definition scheduled_queue (t : Controller) : rvec Transaction :=
  if is_unified_queue_ t then unified_queue_ t
  else if decide (0 < write_draining_ t) then write_buffer_ t else read_queue_ t.

Definition set_scheduled_queue (l : list Transaction) (t : Controller) : Controller :=
  if is_unified_queue_ t then t <| unified_queue_ ::= λ q, rv_with q l |>
  else if decide (0 < write_draining_ t) then t <| write_buffer_ ::= λ q, rv_with q l |>
  else t <| read_queue_ ::= λ q, rv_with q l |>.

(** The loop of [ScheduleTransaction]: [earlier] were not accepted. *)
Fixpoint schedule_loop (earlier rest : list Transaction) (t : Controller) : res Controller :=
  match rest with
  | [] => Ok t
  | it :: later =>
    let cmd := TransToCommand it t in
    ok ← CommandQueue.WillAcceptCommand config_ (Rank cmd) (Bankgroup cmd) (Bank cmd)
           (cmd_queue_ t);
    if (ok : bool) then
      if negb (is_unified_queue_ t) && IsWrite cmd
         && bool_decide (0 < mm_count (pending_rd_q_ t) (t_addr it))
      then Ok (t <| write_draining_ := 0 |>)
      else
        '(_, q) ← CommandQueue.AddCommand config_ cmd (cmd_queue_ t);
        let t := (set_scheduled_queue (earlier ++ later) t) <| cmd_queue_ := q |> in
        Ok (if negb (is_unified_queue_ t) && IsWrite cmd
            then t <| write_draining_ ::= λ n, n - 1 |> else t)
    else schedule_loop (earlier ++ [it]) later t
  end.

Definition ScheduleTransaction (t : Controller) : res Controller :=
  let t :=
    if decide (write_draining_ t = 0) then
      if is_unified_queue_ t then t
      else if decide (rv_cap (write_buffer_ t) ≤ rv_size (write_buffer_ t)
                      ∨ (8 < rv_size (write_buffer_ t) ∧
                         CommandQueue.QueueEmpty (cmd_queue_ t) = true))
      then t <| write_draining_ := rv_size (write_buffer_ t) |> else t
    else t in
  schedule_loop [] (rv_data (scheduled_queue t)) t.

(** ** Issuing a command *)

(** [if (RowHitCount(...) != 0)], with the two counters of a row hit. *)
Definition count_row_hit (cmd : Command) (name : string) (hit : Controller → Controller)
    (t : Controller) : res Controller :=
  hits ← RowHitCount (Rank cmd) (Bankgroup cmd) (Bank cmd) (channel_state_ t);
  Ok (if decide (hits ≠ 0) then hit (count name t) else t).

Definition UpdateCommandStats (cmd : Command) (n : Z) (t : Controller) : res Controller :=
  match cmd_type cmd with
  | READ | READ_PRECHARGE =>
    count_row_hit cmd "num_read_row_hits" (λ t, t <| read_row_hits ::= λ x, u64 (x + n) |>)
      ((count "num_read_cmds" t) <| read_cmds ::= λ x, u64 (x + n) |>)
  | WRITE | WRITE_PRECHARGE =>
    count_row_hit cmd "num_write_row_hits" (λ t, t <| write_row_hits ::= λ x, u64 (x + n) |>)
      ((count "num_write_cmds" t) <| write_cmds ::= λ x, u64 (x + n) |>)
  | ACTIVATE => Ok (count "num_act_cmds" t)
  | PRECHARGE => Ok (count "num_pre_cmds" t)
  | REFRESH => Ok (count "num_ref_cmds" t)
  | REFRESH_BANK => Ok (count "num_refb_cmds" t)
  | SREF_ENTER => Ok (count "num_srefe_cmds" t)
  | SREF_EXIT => Ok (count "num_srefx_cmds" t)
  | SIZE => Fault (AbruptExit "controller.cc" 492)
  end.

(** The [while (num_reads > 0)] loop: the pending reads of one address are
    completed, oldest first. *)
Fixpoint complete_reads (num_reads : nat) (addr : Z) (t : Controller) : res Controller :=
  match num_reads with
  | O => Ok t
  | S n =>
    it ← of_option OutOfRange (mm_find (pending_rd_q_ t) addr);
    let it := it <| complete_cycle := u64 (clk_ t + read_delay config_) |> in
    complete_reads n addr
      ((push_return it t) <| pending_rd_q_ ::= λ m, mm_erase_first m addr |>)
  end.

(** The pending and return queues at a column command: the new state and how
    many transactions the command serves. *)
Definition complete_transactions (cmd : Command) (t : Controller) : res (Z * Controller) :=
  if IsRead cmd then
    let num_reads := mm_count (pending_rd_q_ t) (hex_addr cmd) in
    if decide (num_reads = 0) then Fault (ExitCode 1)
    else t ← complete_reads (Z.to_nat num_reads) (hex_addr cmd) t; Ok (num_reads, t)
  else if IsWrite cmd then
    it ← of_option (ExitCode 1) (mm_find (pending_wr_q_ t) (hex_addr cmd));
    let wr_lat := u64 (clk_ t - added_cycle it + write_delay config_) in
    Ok (1, t <| simple_stats_ ::= AddValue "write_latency" (i32 wr_lat) |>
             <| pending_wr_q_ ::= λ m, mm_erase_first m (hex_addr cmd) |>)
  else Ok (0, t).

(** The bookkeeping after the state update: which banks are in service. *)
Definition mark_service (cmd : Command) (clk : Z) (cs : ChannelState) : res ChannelState :=
  let r := Rank cmd in let g := Bankgroup cmd in let b := Bank cmd in
  if IsRead cmd then
    cs ← SetInServeBank r g b true cs;
    SetServeEndCycleBank r g b (u64 (clk + read_delay config_)) cs
  else if decide (cmd_type cmd = ACTIVATE) then
    by_write ← GetActivateByWhoBank r g b cs;
    if negb by_write then SetInServeBank r g b true cs else Ok cs
  else if decide (cmd_type cmd = PRECHARGE) then
    by_activate ← GetPrechargeByRefreshBank r g b cs;
    if (by_activate : bool) then SetInServeBank r g b true cs else Ok cs
  else Ok cs.

Definition IssueCommand (cmd : Command) (t : Controller) : res Controller :=
  let t := t <| cmd_trace_ ::= λ l, l ++ [(clk_ t, cmd)] |> in
  '(num_count, t) ← complete_transactions cmd t;
  t ← UpdateCommandStats cmd num_count t;
  cs ← UpdateTimingAndStates config_ timing_ cmd (clk_ t) (channel_state_ t);
  cs ← mark_service cmd (clk_ t) cs;
  Ok (t <| channel_state_ := cs |>).

(** ** The clock *)

Definition q_state (t : Controller) : CommandQueue.QState :=
  (cmd_queue_ t, channel_state_ t, simple_stats_ t).
Definition with_q_state (x : CommandQueue.QState) (t : Controller) : Controller :=
  t <| cmd_queue_ := x.1.1 |> <| channel_state_ := x.1.2 |> <| simple_stats_ := x.2 |>.

Definition get_command (t : Controller) : res (Command * Controller) :=
  '(cmd, x) ← CommandQueue.GetCommandToIssue config_ (q_state t); Ok (cmd, with_q_state x t).

(** The command of this cycle: a pending refresh first, then the queues. *)
Definition next_command (t : Controller) : res (Command * Controller) :=
  '(cmd, t) ← (if IsRefreshWaiting (channel_state_ t) then
                 '(cmd, q, cs) ← CommandQueue.FinishRefresh config_ (cmd_queue_ t)
                                   (channel_state_ t);
                 Ok (cmd, t <| cmd_queue_ := q |> <| channel_state_ := cs |>)
               else Ok (Command_default, t));
  if IsValid cmd then Ok (cmd, t) else get_command t.

(** Issue [cmd], and a second command on HBM. *)
Definition issue_commands (cmd : Command) (t : Controller) : res Controller :=
  t ← IssueCommand cmd t;
  if enable_hbm_dual_cmd config_ then
    '(second_cmd, t) ← get_command t;
    if IsValid second_cmd && xorb (IsReadWrite second_cmd) (IsReadWrite cmd)
    then t ← IssueCommand second_cmd t; Ok (count "hbm_dual_cmds" t)
    else Ok t
  else Ok t.

Definition update_rank_stats (i : Z) (t : Controller) : res Controller :=
  let inc name := st ← IncrementVec name i (simple_stats_ t); Ok (t <| simple_stats_ := st |>) in
  let set_idle f (t : Controller) :=
    v ← vec_modify (rank_idle_cycles (channel_state_ t)) i f;
    Ok (t <| channel_state_ ::= λ cs, cs <| rank_idle_cycles := v |> |>) in
  sref ← IsRankSelfRefreshing i (channel_state_ t);
  if (sref : bool) then inc "sref_cycles"%string
  else
    all_idle ← IsAllBankIdleInRank config_ i (channel_state_ t);
    if (all_idle : bool)
    then t ← inc "all_bank_idle_cycles"%string; set_idle (λ n, Ok (n + 1)) t
    else t ← inc "rank_active_cycles"%string; set_idle (λ _, Ok 0) t.

(** The self-refresh loop; it stops after the first command issued. *)
Definition sref_command (t : CommandType) (i : Z) : Command :=
  MkCommand t (Address_default <| rank := i |>) (u64 (-1)).

Fixpoint self_refresh_loop (rs : list Z) (t : Controller) : res Controller :=
  match rs with
  | [] => Ok t
  | i :: rs =>
    let try_issue ty :=
      '(cmd, cs) ← GetReadyCommand config_ (sref_command ty i) (clk_ t) (channel_state_ t);
      let t := t <| channel_state_ := cs |> in
      if IsValid cmd then IssueCommand cmd t else self_refresh_loop rs t in
    sref ← IsRankSelfRefreshing i (channel_state_ t);
    empty ← vec_get (CommandQueue.rank_q_empty (cmd_queue_ t)) i;
    if (sref : bool) then
      if negb empty then try_issue SREF_EXIT else self_refresh_loop rs t
    else if (empty : bool) then
      idle ← vec_get (rank_idle_cycles (channel_state_ t)) i;
      if decide (sref_threshold config_ ≤ idle) then try_issue SREF_ENTER
      else self_refresh_loop rs t
    else self_refresh_loop rs t
  end.

Definition calculate_bank (i j k : Z) (t : Controller) : res Controller :=
  e ← GetServeEndCycleBank i j k (channel_state_ t);
  cs ← (if decide (clk_ t = u64 (e + 1)) then SetInServeBank i j k false (channel_state_ t)
        else Ok (channel_state_ t));
  closed ← IsRowClosed i j k cs;
  cs ← (if (closed : bool) then SetInServeBank i j k false cs else Ok cs);
  Ok (t <| channel_state_ := cs |>).

Definition Calculate_stats (t : Controller) : res Controller :=
  let t := t <| is_active_cycles := false |> <| concurrent_serve := 0 |> in
  for_upto (ranks config_) (λ i t,
    t ← for_banks config_ (calculate_bank i) t;
    n ← InServeBankNum config_ i (channel_state_ t);
    Ok (if decide (0 < n)
        then t <| is_active_cycles := true |> <| concurrent_serve ::= λ x, u64 (x + n) |>
        else t)) t.

Definition ClockTick (t : Controller) : res Controller :=
  '(r, cs) ← Refresh.ClockTick config_ (refresh_ t) (channel_state_ t);
  let t := t <| refresh_ := r |> <| channel_state_ := cs |> in
  '(cmd, t) ← next_command t;
  let cmd_issued := IsValid cmd in
  t ← (if cmd_issued then issue_commands cmd t else Ok t);
  t ← for_upto (ranks config_) update_rank_stats t;
  t ← (if enable_self_refresh config_ && negb cmd_issued
       then self_refresh_loop (seqZ 0 (ranks config_)) t else Ok t);
  t ← Calculate_stats t;
  t ← ScheduleTransaction t;
  let t := t <| clk_ ::= λ k, u64 (k + 1) |> <| cmd_queue_ ::= CommandQueue.ClockTick |> in
  Ok (count "num_cycles" t).

Definition QueueUsage (t : Controller) : Z := CommandQueue.QueueUsage (cmd_queue_ t).

Definition PrintEpochStats (t : Controller) : res Controller :=
  let t := count "epoch_num" t in
  st ← UpdateEpochStats (simple_stats_ t); Ok (t <| simple_stats_ := st |>).

Definition PrintFinalStats (t : Controller) : res Controller :=
  st ← UpdateFinalStats (simple_stats_ t); Ok (t <| simple_stats_ := st |>).

Definition ResetStats (t : Controller) : Controller := t <| simple_stats_ ::= Reset |>.
End controller.
