(* ===== verification/ControllerSafety.v ===== *)
(** * ControllerSafety: what a memory controller guarantees (src/src/controller.cc)

    The invariant that ties the transaction queues, the command queue and the
    pending queues of a controller together, and that every operation keeps
    it and returns.  The class [SafeConfig] collects what this needs of a
    configuration: no self-refresh, and column delays that keep two column
    commands in different cycles where two commands a cycle are enabled.
    Divergences.v shows what happens without. *)

From S2P Require Import Refresh CommandQueue.
From S2P Require Import Prelude Common Configuration Timing BankState ChannelState ChannelSafety.
From S2P Require Import SimpleStats Controller.
Local Open Scope Z_scope.

(** ** Addresses in flight *)

(** The transactions that wait in the controller's queues. *)
Definition waiting (t : Controller) : list Transaction :=
  rv_data (unified_queue_ t) ++ rv_data (read_queue_ t) ++ rv_data (write_buffer_ t).

(** The addresses of the reads (of the writes) that wait as transactions or
    as commands. *)
Definition raddrs (w : list Transaction) (cmds : list Command) : list Z :=
  (t_addr <$> filter (λ x, is_write x = false) w) ++ (hex_addr <$> filter (λ x, IsRead x = true) cmds).
Definition waddrs (w : list Transaction) (cmds : list Command) : list Z :=
  (t_addr <$> filter (λ x, is_write x = true) w) ++ (hex_addr <$> filter (λ x, IsWrite x = true) cmds).

(** Each address is in flight once, and exactly when it is pending. *)
Definition pend_ok (l : list Z) (m : gmap Z (list Transaction)) : Prop :=
  NoDup l ∧ ∀ h, h ∈ l ↔ mm_at m h ≠ [].

#[export] Instance raddrs_proper : Proper ((≡ₚ) ==> (≡ₚ) ==> (≡ₚ)) raddrs.
Proof. intros w w' Hw l l' Hl. unfold raddrs. by rewrite Hw, Hl. Qed.

#[export] Instance waddrs_proper : Proper ((≡ₚ) ==> (≡ₚ) ==> (≡ₚ)) waddrs.
Proof. intros w w' Hw l l' Hl. unfold waddrs. by rewrite Hw, Hl. Qed.

Lemma pend_ok_perm l l' m : l ≡ₚ l' → pend_ok l m → pend_ok l' m.
Proof. intros Hp [Hn Hm]. split; [by rewrite <- Hp|]. intros h. by rewrite <- Hp. Qed.

Lemma raddrs_trans x w l :
  raddrs (x :: w) l ≡ₚ (if is_write x then [] else [t_addr x]) ++ raddrs w l.
Proof. unfold raddrs. rewrite list.filter_cons. destruct (is_write x); by rewrite ?decide_True by done. Qed.

Lemma waddrs_trans x w l :
  waddrs (x :: w) l ≡ₚ (if is_write x then [t_addr x] else []) ++ waddrs w l.
Proof. unfold waddrs. rewrite list.filter_cons. destruct (is_write x); by rewrite ?decide_True by done. Qed.

Lemma raddrs_cmd x w l :
  raddrs w (x :: l) ≡ₚ (if IsRead x then [hex_addr x] else []) ++ raddrs w l.
Proof.
  unfold raddrs. rewrite list.filter_cons. destruct (IsRead x); simpl; [|done].
  symmetry. apply Permutation_middle.
Qed.

Lemma waddrs_cmd x w l :
  waddrs w (x :: l) ≡ₚ (if IsWrite x then [hex_addr x] else []) ++ waddrs w l.
Proof.
  unfold waddrs. rewrite list.filter_cons. destruct (IsWrite x); simpl; [|done].
  symmetry. apply Permutation_middle.
Qed.

(** A new address becomes pending; a pending one is finished. *)
Lemma pend_ok_new l m m' h :
  pend_ok l m → mm_at m h = [] → mm_at m' h ≠ [] → (∀ h', h' ≠ h → mm_at m' h' = mm_at m h') →
  pend_ok (h :: l) m'.
Proof.
  intros [Hn Hm] H0 H1 Hrest. split.
  - apply list.NoDup_cons. split; [|done]. by intros Hin%Hm.
  - intros h'. rewrite elem_of_cons. destruct (decide (h' = h)) as [->|Hne]; [tauto|].
    rewrite Hrest, <- Hm by done. tauto.
Qed.

Lemma pend_ok_more l m m' h :
  pend_ok l m → mm_at m h ≠ [] → mm_at m' h ≠ [] → (∀ h', h' ≠ h → mm_at m' h' = mm_at m h') →
  pend_ok l m'.
Proof.
  intros [Hn Hm] H0 H1 Hrest. split; [done|]. intros h'. rewrite Hm.
  destruct (decide (h' = h)) as [->|Hne]; [tauto|]. by rewrite Hrest.
Qed.

Lemma pend_ok_done l m m' h :
  pend_ok (h :: l) m → mm_at m' h = [] → (∀ h', h' ≠ h → mm_at m' h' = mm_at m h') →
  pend_ok l m'.
Proof.
  intros [[Hnin Hn]%list.NoDup_cons Hm] H0 Hrest. split; [done|]. intros h'.
  destruct (decide (h' = h)) as [->|Hne]; [rewrite H0; tauto|].
  rewrite Hrest, <- Hm, elem_of_cons by done. tauto.
Qed.

(** ** The invariant *)

(** In split mode reads and writes wait in their own queues. *)
Definition split_ok (t : Controller) : Prop :=
  is_unified_queue_ t = false →
  Forall (λ x, is_write x = false) (rv_data (read_queue_ t)) ∧
  Forall (λ x, is_write x = true) (rv_data (write_buffer_ t)).

(** A command that carries the coordinates of its address. *)
Definition decoded (c : Config) (cmd : Command) : Prop :=
  0 ≤ hex_addr cmd ∧ addr cmd = AddressMapping c (hex_addr cmd).

(** The commands whose rows or columns matter. *)
Definition needs_row (t : CommandType) : bool :=
  match t with
  | READ | READ_PRECHARGE | WRITE | WRITE_PRECHARGE | ACTIVATE => true
  | _ => false
  end.

(** What is issued: no self-refresh, and the coordinates of a request, or those
    of a refresh or of the precharge before it. *)
Definition sendable (c : Config) (cmd : Command) : Prop :=
  cmd_type cmd ≠ SREF_ENTER ∧
  (decoded c cmd ∨ needs_row (cmd_type cmd) = false ∧ for_refresh c (addr cmd)).

(** A line of the command trace. *)
Definition recorded (c : Config) (e : Z * Command) : Prop :=
  0 ≤ e.1 ∧ IsValid e.2 = true ∧ cmd_addr_ok c e.2 ∧ sendable c e.2.

(** [held] are commands taken out of the queues and not issued yet. *)
Record ctrl_ok (c : Config) (held : list Command) (t : Controller) : Prop := {
  ct_channel : channel_ok c (channel_state_ t);
  ct_awake : awake (channel_state_ t);
  ct_queue : CommandQueue.queue_ok c (cmd_queue_ t);
  ct_clock : CommandQueue.clk_ (cmd_queue_ t) = clk_ t;
  ct_refresh : Refresh.refresh_ok c (refresh_ t);
  ct_stats : stats_ok c (simple_stats_ t);
  ct_draining : 0 ≤ write_draining_ t ≤ rv_size (write_buffer_ t);
  ct_split : split_ok t;
  ct_addrs : Forall (λ x, 0 ≤ t_addr x) (waiting t);
  ct_reads : pend_ok (raddrs (waiting t) (held ++ CommandQueue.commands (cmd_queue_ t)))
               (pending_rd_q_ t);
  ct_writes : pend_ok (waddrs (waiting t) (held ++ CommandQueue.commands (cmd_queue_ t)))
                (pending_wr_q_ t);
  ct_one : ∀ h, (length (mm_at (pending_wr_q_ t) h) ≤ 1)%nat;
  ct_keys : ∀ h x, x ∈ mm_at (pending_rd_q_ t) h → t_addr x = h ∧ is_write x = false;
  ct_clk : 0 ≤ clk_ t;
  ct_trace : issued c (cmd_trace_ t) (channel_state_ t);
  ct_decoded : Forall (decoded c) (CommandQueue.commands (cmd_queue_ t));
  ct_recorded : Forall (recorded c) (cmd_trace_ t) }.

(** ** Two commands in one cycle

    A second command of a cycle is issued only if it differs in kind from the
    first; one that does not is lost, although it has left its queue.  That
    cannot happen where every column command holds back every other by a
    cycle or more: *)
Definition spaced (d : Z) : bool := (1 <=? d) && (d <=? 2147483647).

Definition dual_safe (c : Config) : bool :=
  let d := delays_of c in
  spaced (read_to_read_l d) && spaced (read_to_read_s d) && spaced (read_to_write d)
  && spaced (write_to_read_l d) && spaced (write_to_read_s d)
  && spaced (write_to_write_l d) && spaced (write_to_write_s d)
  && ((ranks c =? 1) ||
      spaced (read_to_read_o d) && spaced (read_to_write_o d)
      && spaced (write_to_read_o d) && spaced (write_to_write_o d)).

Definition column_type (t : CommandType) : bool :=
  match t with READ | READ_PRECHARGE | WRITE | WRITE_PRECHARGE => true | _ => false end.

Lemma column_type_cmd cmd : IsReadWrite cmd = column_type (cmd_type cmd).
Proof. by by_type cmd. Qed.

(** A column command holds back the others, its own bank after an automatic
    precharge apart. *)
Lemma dual_safe_entry c cmd t i j k :
  dual_safe c = true → column_type (cmd_type cmd) = true → column_type t = true →
  0 ≤ i < ranks c → 0 ≤ Rank cmd < ranks c →
  (targeted cmd i j k → next_state (cmd_type cmd) = OPEN) →
  ∃ d, (t, d) ∈ constraints_for (Timing_new c) cmd i j k ∧ 1 ≤ d ≤ 2147483647.
Proof.
  unfold dual_safe. rewrite !andb_true_iff, orb_true_iff, !andb_true_iff, Z.eqb_eq.
  unfold spaced. rewrite !andb_true_iff, !Z.leb_le.
  intros Hd Hc Ht Hi Hr Hn. destruct (Timing_new_at c (cmd_type cmd)) as (E1 & E2 & E3 & E4 & _).
  unfold constraints_for. rewrite E1, E2, E3, E4. unfold rows_of.
  destruct (decide (i ≠ Rank cmd)); [|destruct (decide (j ≠ Bankgroup cmd));
    [|destruct (decide (k ≠ Bank cmd))]].
  all: destruct (cmd_type cmd) eqn:Ec, t; try discriminate; simpl in *.
  all: try (eexists; split; [repeat first [apply list_elem_of_here|apply list_elem_of_further]|lia]).
  all: exfalso; enough (CLOSED = OPEN) by done; apply Hn; unfold targeted;
    (split; [by apply dec_stable|right; split; by apply dec_stable]).
Qed.

(** A configuration whose clock cannot fault. *)
Class SafeConfig (c : Config) : Prop := {
  safe_geometry :: Geometry c;
  safe_no_sref : enable_self_refresh c = false;
  safe_dual : enable_hbm_dual_cmd c = true → dual_safe c = true;
  safe_interval : ∀ r, Refresh.Refresh_new c = Ok r → u64 (Refresh.refresh_interval_ r) ≠ 0;
  safe_policy : refresh_policy c ≠ RefreshPolicy_SIZE }.

Section controller_safety.
Context (c : Config) `{Safe : !SafeConfig c}.

(** Changing the channel or the statistics only. *)
Lemma ctrl_ok_channel held t cs :
  ctrl_ok c held t → channel_ok c cs → awake cs → quiet (channel_state_ t) cs →
  ctrl_ok c held (t <| channel_state_ := cs |>).
Proof. intros [] ? ? ?. constructor; try done. by eapply issued_quiet. Qed.

Lemma ctrl_ok_stats held t st :
  ctrl_ok c held t → stats_ok c st → ctrl_ok c held (t <| simple_stats_ := st |>).
Proof. intros [] ?. by constructor. Qed.

Lemma ctrl_ok_count held t n : ctrl_ok c held t → ctrl_ok c held (count n t).
Proof. intros Ht. apply ctrl_ok_stats; [done|]. apply Increment_ok, Ht. Qed.

(** ** Transactions in and out *)

Lemma mm_insert_other {A} (m : gmap Z (list A)) h (x : A) h' :
  h' ≠ h → mm_at (mm_insert m h x) h' = mm_at m h'.
Proof. intros. by rewrite mm_at_insert, decide_False. Qed.

Lemma mm_insert_same {A} (m : gmap Z (list A)) h (x : A) : mm_at (mm_insert m h x) h = mm_at m h ++ [x].
Proof. by rewrite mm_at_insert, decide_True. Qed.

(** Queueing a transaction adds it to those waiting. *)
Lemma push_trans_waiting x t : waiting (push_trans x t) ≡ₚ x :: waiting t.
Proof.
  unfold push_trans, waiting. destruct (is_unified_queue_ t), (is_write x); simpl; solve_Permutation.
Qed.

(** Fields that queueing a transaction leaves alone. *)
Lemma push_trans_frame x t :
  channel_state_ (push_trans x t) = channel_state_ t ∧ cmd_queue_ (push_trans x t) = cmd_queue_ t ∧
  clk_ (push_trans x t) = clk_ t ∧ refresh_ (push_trans x t) = refresh_ t ∧
  simple_stats_ (push_trans x t) = simple_stats_ t ∧
  write_draining_ (push_trans x t) = write_draining_ t ∧
  rv_size (write_buffer_ t) ≤ rv_size (write_buffer_ (push_trans x t)) ∧
  pending_rd_q_ (push_trans x t) = pending_rd_q_ t ∧
  pending_wr_q_ (push_trans x t) = pending_wr_q_ t ∧
  return_queue_ (push_trans x t) = return_queue_ t ∧ (split_ok t → split_ok (push_trans x t)) ∧
  cmd_trace_ (push_trans x t) = cmd_trace_ t.
Proof.
  unfold push_trans, split_ok.
  destruct (is_unified_queue_ t) eqn:Eu; [|destruct (is_write x) eqn:Ew]; simpl; rewrite ?Eu;
    split_and!; try done; try lia; rewrite ?rv_push_back_size; try lia;
    intros H; specialize (H eq_refl); intros _; destruct H; split; try done;
    apply list.Forall_app; split; try done; by constructor.
Qed.

(** A new write, alone for its address. *)
Lemma push_write_ok x t :
  ctrl_ok c [] t → 0 ≤ t_addr x → is_write x = true → mm_at (pending_wr_q_ t) (t_addr x) = [] →
  ctrl_ok c [] (push_trans x (t <| pending_wr_q_ ::= λ m, mm_insert m (t_addr x) x |>)).
Proof.
  intros Ht Hx E Hc. set (t2 := t <| pending_wr_q_ ::= _ |>).
  destruct (push_trans_frame x t2) as (F1 & F2 & F3 & F4 & F5 & F6 & F7 & F8 & F9 & F10 & F11 & F12).
  pose proof (push_trans_waiting x t2) as Hw.
  destruct Ht as [H1 H2 H3 H4 H5 H6 H7 H8 H9 H10 H11 H12 H13 H14 H15 H16 H17].
  constructor; rewrite ?F1, ?F2, ?F3, ?F4, ?F5, ?F6, ?F8, ?F9, ?F12; try done.
  - simpl in *. lia.
  - by apply F11.
  - rewrite Hw. by constructor.
  - eapply pend_ok_perm; [|exact H10]. rewrite Hw, raddrs_trans, E. done.
  - eapply pend_ok_perm; [symmetry; rewrite Hw, waddrs_trans, E; reflexivity|].
    eapply pend_ok_new; [exact H11|exact Hc| |].
    + simpl. rewrite mm_insert_same. by destruct (mm_at _ _).
    + intros. simpl. by apply mm_insert_other.
  - intros h. simpl. rewrite mm_at_insert. case_decide as Hh; [|done]. subst h. rewrite Hc. simpl. lia.
Qed.

(** A new read: the first for its address is queued, a later one only waits. *)
Lemma pending_read_keys x t h y :
  ctrl_ok c [] t → is_write x = false →
  y ∈ mm_at (mm_insert (pending_rd_q_ t) (t_addr x) x) h → t_addr y = h ∧ is_write y = false.
Proof.
  intros Ht E. rewrite mm_at_insert. case_decide as Hh; [|by apply Ht]. subst h.
  intros [Hy|Hy%list_elem_of_singleton]%elem_of_app; [by eapply Ht|]. by subst y.
Qed.

Lemma push_read_ok x t :
  ctrl_ok c [] t → 0 ≤ t_addr x → is_write x = false → mm_at (pending_rd_q_ t) (t_addr x) = [] →
  ctrl_ok c [] (push_trans x (t <| pending_rd_q_ ::= λ m, mm_insert m (t_addr x) x |>)).
Proof.
  intros Ht Hx E Hnil. set (t2 := t <| pending_rd_q_ ::= _ |>).
  pose proof (λ h y, pending_read_keys x t h y Ht E) as Hkeys.
  destruct (push_trans_frame x t2) as (F1 & F2 & F3 & F4 & F5 & F6 & F7 & F8 & F9 & F10 & F11 & F12).
  pose proof (push_trans_waiting x t2) as Hw.
  destruct Ht as [H1 H2 H3 H4 H5 H6 H7 H8 H9 H10 H11 H12 H13 H14 H15 H16 H17].
  constructor; rewrite ?F1, ?F2, ?F3, ?F4, ?F5, ?F6, ?F8, ?F9, ?F12; try done.
  - simpl in *. lia.
  - by apply F11.
  - rewrite Hw. by constructor.
  - eapply pend_ok_perm; [symmetry; rewrite Hw, raddrs_trans, E; reflexivity|].
    eapply pend_ok_new; [exact H10|exact Hnil| |].
    + simpl. rewrite mm_insert_same. by destruct (mm_at _ _).
    + intros. simpl. by apply mm_insert_other.
  - eapply pend_ok_perm; [|exact H11]. rewrite Hw, waddrs_trans, E. done.
Qed.

Lemma merge_read_ok x t :
  ctrl_ok c [] t → is_write x = false → mm_at (pending_rd_q_ t) (t_addr x) ≠ [] →
  ctrl_ok c [] (t <| pending_rd_q_ ::= λ m, mm_insert m (t_addr x) x |>).
Proof.
  intros Ht E Hnn. pose proof (λ h y, pending_read_keys x t h y Ht E) as Hkeys.
  destruct Ht as [H1 H2 H3 H4 H5 H6 H7 H8 H9 H10 H11 H12 H13 H14 H15 H16 H17]. constructor; try done.
  eapply pend_ok_more; [exact H10|exact Hnn| |].
  - simpl. rewrite mm_insert_same. by destruct (mm_at _ _).
  - intros. simpl. by apply mm_insert_other.
Qed.

(** [AddTransaction] keeps the invariant. *)
Lemma AddTransaction_ok x t :
  ctrl_ok c [] t → 0 ≤ t_addr x → ctrl_ok c [] (AddTransaction x t).2.
Proof.
  intros Ht Hx. unfold AddTransaction.
  set (x1 := x <| added_cycle := clk_ t |>). set (t1 := t <| simple_stats_ ::= _ |> <| last_trans_clk_ := _ |>).
  assert (ctrl_ok c [] t1) as Ht1 by (destruct Ht; constructor; try done; by apply AddValue_ok).
  assert (t_addr x1 = t_addr x ∧ is_write x1 = is_write x) as [Ea Ew] by done.
  assert (∀ y t, ctrl_ok c [] t → ctrl_ok c [] (push_return y t)) as Hret
    by by (intros y t' []; constructor).
  clearbody x1 t1. clear Ht. rewrite <- Ea in Hx.
  destruct (is_write x1) eqn:E; simpl.
  - apply Hret. case_decide as Hc; [|done]. apply mm_count_zero in Hc. by apply push_write_ok.
  - case_decide as Hc; simpl; [by apply Hret|].
    case_decide as Hcnt; simpl in Hcnt; unfold mm_count in Hcnt; rewrite mm_insert_same, length_app in Hcnt;
      simpl in Hcnt.
    + apply push_read_ok; try done. destruct (mm_at _ _); [done|simpl in Hcnt; lia].
    + apply merge_read_ok; try done. intros Hnil. by rewrite Hnil in Hcnt.
Qed.

Lemma ReturnDoneTrans_ok clk t held :
  ctrl_ok c held t → ctrl_ok c held (ReturnDoneTrans clk t).2.
Proof.
  intros Ht. unfold ReturnDoneTrans. destruct (take_done clk (return_queue_ t)) as [[it rest]|]; [|done].
  destruct (is_write it); simpl; destruct Ht; constructor; simpl; auto with dram.
Qed.

(** ** Issuing a command *)

(** A pending read as it leaves for the return queue. *)
Definition finished (t : Controller) (x : Transaction) : Transaction :=
  x <| complete_cycle := u64 (clk_ t + read_delay c) |>.

(** The loop over the pending reads of an address takes all of them. *)
Lemma complete_reads_total n h t :
  length (mm_at (pending_rd_q_ t) h) = n →
  ∃ m, complete_reads c n h t =
      Ok (t <| return_queue_ := return_queue_ t ++ (finished t <$> mm_at (pending_rd_q_ t) h) |>
            <| pending_rd_q_ := m |>) ∧
    mm_at m h = [] ∧ ∀ h', h' ≠ h → mm_at m h' = mm_at (pending_rd_q_ t) h'.
Proof.
  revert t; induction n as [|n IH]; intros t Hn; simpl.
  - apply length_zero_iff_nil in Hn. exists (pending_rd_q_ t). rewrite Hn. simpl. rewrite app_nil_r.
    split_and!; [by destruct t|done|done].
  - unfold mm_find. destruct (mm_at (pending_rd_q_ t) h) as [|x l] eqn:E; [done|]. simpl.
    set (t1 := (push_return (finished t x) t) <| pending_rd_q_ ::= λ m, mm_erase_first m h |>).
    assert (mm_at (pending_rd_q_ t1) h = l) as E1.
    { simpl. by rewrite mm_at_erase, decide_True, E. }
    destruct (IH t1) as (m & Hrun & Hm & Hrest); [rewrite E1; simpl in Hn; lia|].
    exists m. split_and!; [|done|].
    + etransitivity; [exact Hrun|]. rewrite E1. f_equal. unfold t1, push_return, finished. simpl.
      rewrite <- app_assoc. by destruct t.
    + intros h' Hne. rewrite Hrest by done. simpl. by rewrite mm_at_erase, decide_False.
Qed.

(** The command held is the only one in flight with its address, and its
    transactions are pending: completing them discharges it. *)
Lemma complete_transactions_total cmd t :
  ctrl_ok c (if IsReadWrite cmd then [cmd] else []) t →
  ∃ n t', complete_transactions c cmd t = Ok (n, t') ∧ ctrl_ok c [] t' ∧
    channel_state_ t' = channel_state_ t ∧ clk_ t' = clk_ t ∧ cmd_trace_ t' = cmd_trace_ t ∧
    (IsRead cmd = false → return_queue_ t' = return_queue_ t ∧ pending_rd_q_ t' = pending_rd_q_ t) ∧
    (IsRead cmd = true →
       return_queue_ t' = return_queue_ t ++ (finished t <$> mm_at (pending_rd_q_ t) (hex_addr cmd)) ∧
       mm_at (pending_rd_q_ t') (hex_addr cmd) = [] ∧
       ∀ h', h' ≠ hex_addr cmd → mm_at (pending_rd_q_ t') h' = mm_at (pending_rd_q_ t) h').
Proof.
  intros Ht. unfold complete_transactions, IsReadWrite in *.
  destruct (IsRead cmd) eqn:Er; simpl in Ht.
  - assert (IsWrite cmd = false) as Ew by (revert Er; by by_type cmd).
    pose proof (ct_reads _ _ _ Ht) as Hp. simpl in Hp. pose proof (raddrs_cmd cmd (waiting t)
      (CommandQueue.commands (cmd_queue_ t))) as Hperm. rewrite Er in Hperm. simpl in Hperm.
    apply (pend_ok_perm _ _ _ Hperm) in Hp.
    assert (mm_at (pending_rd_q_ t) (hex_addr cmd) ≠ []) as Hne by (apply Hp; set_solver).
    rewrite decide_False by (by rewrite mm_count_zero).
    destruct (complete_reads_total (Z.to_nat (mm_count (pending_rd_q_ t) (hex_addr cmd)))
      (hex_addr cmd) t) as (m & -> & Hm & Hrest); [unfold mm_count; lia|]. simpl.
    eexists _, _. split; [done|]. split_and!; try done.
    destruct Ht as [H1 H2 H3 H4 H5 H6 H7 H8 H9 H10 H11 H12 H13 H14 H15 H16 H17]. constructor; try done; simpl.
    + by eapply pend_ok_done.
    + eapply pend_ok_perm; [|exact H11]. simpl. rewrite waddrs_cmd, Ew. done.
    + intros h x. destruct (decide (h = hex_addr cmd)) as [->|Hh].
      * rewrite Hm. intros Hx. by apply not_elem_of_nil in Hx.
      * rewrite Hrest by done. apply H13.
  - destruct (IsWrite cmd) eqn:Ew; simpl in Ht; [|by eexists _, _; split_and!].
    pose proof (ct_writes _ _ _ Ht) as Hp. simpl in Hp. pose proof (waddrs_cmd cmd (waiting t)
      (CommandQueue.commands (cmd_queue_ t))) as Hperm. rewrite Ew in Hperm. simpl in Hperm.
    apply (pend_ok_perm _ _ _ Hperm) in Hp.
    assert (mm_at (pending_wr_q_ t) (hex_addr cmd) ≠ []) as Hne by (apply Hp; set_solver).
    destruct (mm_find_Some _ _ Hne) as [x ->]. simpl.
    eexists _, _. split; [done|]. split_and!; try done.
    pose proof (ct_one _ _ _ Ht (hex_addr cmd)) as Hone.
    destruct Ht as [H1 H2 H3 H4 H5 H6 H7 H8 H9 H10 H11 H12 H13 H14 H15 H16 H17]. constructor; try done; simpl.
    + by apply AddValue_ok.
    + eapply pend_ok_perm; [|exact H10]. simpl. rewrite raddrs_cmd, Er. done.
    + eapply pend_ok_done; [exact Hp| |].
      * rewrite mm_at_erase, decide_True by done. destruct (mm_at _ _) as [|y [|z l]]; simpl in *; done || lia.
      * intros h' Hh'. by rewrite mm_at_erase, decide_False.
    + intros h. rewrite mm_at_erase. case_decide; [|done].
      pose proof (H12 (hex_addr cmd)). destruct (mm_at _ _); simpl in *; lia.
Qed.

(** The bank of a bank command can be read. *)
Lemma issuable_bank cmd clk cs :
  channel_ok c cs → issuable c cmd clk cs → IsRankCMD cmd = false →
  ∃ b, lookup3 (bank_states_ cs) (Rank cmd) (Bankgroup cmd) (Bank cmd) = Some b.
Proof.
  intros Hcs Hi Hrk. pose proof (iss_addr _ _ _ _ Hi) as Ha. unfold cmd_addr_ok in Ha.
  rewrite Hrk in Ha. destruct Ha as (Hr & Hg & Hb).
  destruct (channel_lookup c cs (Rank cmd) (Bankgroup cmd) (Bank cmd)) as (b & Hl & _); eauto.
Qed.

Lemma UpdateCommandStats_total cmd n t clk :
  ctrl_ok c [] t → issuable c cmd clk (channel_state_ t) →
  ∃ t', UpdateCommandStats cmd n t = Ok t' ∧ ctrl_ok c [] t' ∧
    channel_state_ t' = channel_state_ t ∧ clk_ t' = clk_ t ∧ cmd_trace_ t' = cmd_trace_ t ∧
    return_queue_ t' = return_queue_ t ∧ pending_rd_q_ t' = pending_rd_q_ t.
Proof.
  intros Ht Hi. pose proof (iss_valid _ _ _ _ Hi) as Hv.
  assert (IsRankCMD cmd = false → ∀ name hit t1, channel_state_ t1 = channel_state_ t →
    ∃ b : bool, count_row_hit cmd name hit t1 = Ok (if b then hit (count name t1) else t1)) as Hhit.
  { intros Hrk name hit t1 E. unfold count_row_hit. rewrite E.
    destruct (issuable_bank cmd clk _ (ct_channel _ _ _ Ht) Hi Hrk) as [b Hb].
    unfold RowHitCount. apply get3_Ok in Hb as ->. simpl.
    exists (bool_decide (BankState.RowHitCount b ≠ 0)). by case_bool_decide; case_decide. }
  unfold UpdateCommandStats.
  revert Hv Hhit; by_type cmd; intros Hv Hhit; try done;
    try (eexists; split_and!; [done|by apply ctrl_ok_count|done..]);
    match goal with |- context [count_row_hit _ ?name ?hit ?t1] =>
      destruct (Hhit eq_refl name hit t1 eq_refl) as [b ->] end;
    eexists; (split; [done|]); destruct b; split_and!; try done;
      destruct Ht; constructor; try done; simpl; by repeat apply Increment_ok.
Qed.

(** Marking a bank in service leaves timing, states and flags alone. *)
Lemma mark_bank_total r g b f cs :
  channel_ok c cs → awake cs → 0 ≤ r < ranks c → 0 ≤ g < bankgroups c → 0 ≤ b < banks_per_group c →
  marks_bank f →
  ∃ cs', update_bank r g b (λ x, Ok (f x)) cs = Ok cs' ∧ channel_ok c cs' ∧ awake cs' ∧ quiet cs cs'.
Proof.
  intros Hcs Haw Hr Hg Hb Hf.
  destruct (channel_lookup c cs r g b Hcs Hr Hg Hb) as (x & Hx & _).
  destruct (modify3_Ok _ _ _ _ (λ x, Ok (f x)) x (f x) Hx eq_refl) as [v Hv].
  assert (update_bank r g b (λ x, Ok (f x)) cs = Ok (cs <| bank_states_ := v |>)) as Hu
    by (unfold update_bank; by rewrite Hv).
  exists (cs <| bank_states_ := v |>). split; [done|].
  destruct (update_bank_mark c _ _ _ f _ _ Hu Hf Hcs). done.
Qed.

Lemma mark_service_total cmd clk' cs :
  channel_ok c cs → awake cs → cmd_addr_ok c cmd →
  ∃ cs', mark_service c cmd clk' cs = Ok cs' ∧ channel_ok c cs' ∧ awake cs' ∧ quiet cs cs'.
Proof.
  intros Hcs Haw Ha.
  assert (quiet cs cs) as Hrefl by by apply quiet_eq.
  assert (IsRankCMD cmd = false → 0 ≤ Rank cmd < ranks c ∧ 0 ≤ Bankgroup cmd < bankgroups c ∧
    0 ≤ Bank cmd < banks_per_group c) as Hbank.
  { intros Hrk. unfold cmd_addr_ok in Ha. by rewrite Hrk in Ha. }
  assert (∀ v, IsRankCMD cmd = false → ∃ cs', SetInServeBank (Rank cmd) (Bankgroup cmd) (Bank cmd) v cs = Ok cs' ∧
    channel_ok c cs' ∧ awake cs' ∧ quiet cs cs') as Hset.
  { intros v Hrk. destruct (Hbank Hrk) as (Hr & Hg & Hb).
    apply mark_bank_total; auto using SetInServe_marks. }
  assert (IsRankCMD cmd = false → ∃ b, lookup3 (bank_states_ cs) (Rank cmd) (Bankgroup cmd) (Bank cmd) = Some b) as Hlk.
  { intros Hrk. destruct (Hbank Hrk) as (Hr & Hg & Hb).
    destruct (channel_lookup c cs (Rank cmd) (Bankgroup cmd) (Bank cmd)) as (b & Hl & _); eauto. }
  unfold mark_service. destruct (IsRead cmd) eqn:Er; [|case_decide as Ea; [|case_decide as Ep]].
  - assert (IsRankCMD cmd = false) as Hrk by (revert Er; by by_type cmd).
    destruct (Hset true Hrk) as (cs1 & -> & Hcs1 & Haw1 & Hq1). simpl.
    destruct (Hbank Hrk) as (Hr & Hg & Hb).
    destruct (mark_bank_total (Rank cmd) (Bankgroup cmd) (Bank cmd)
      (SetServeEndCycle (u64 (clk' + read_delay c))) cs1) as (cs2 & Hrun2 & ? & ? & ?);
      auto using SetServeEndCycle_marks.
    exists cs2. split_and!; [done..|]. by eapply quiet_trans.
  - assert (IsRankCMD cmd = false) as Hrk by (revert Ea; by by_type cmd).
    destruct (Hlk Hrk) as [b Hb]. unfold GetActivateByWhoBank. apply get3_Ok in Hb as ->. simpl.
    destruct (ReturnActivateByWho b); simpl; [by eauto|by apply Hset].
  - assert (IsRankCMD cmd = false) as Hrk by (revert Ep; by by_type cmd).
    destruct (Hlk Hrk) as [b Hb]. unfold GetPrechargeByRefreshBank. apply get3_Ok in Hb as ->. simpl.
    destruct (ReturnPrechargeByRefresh b); simpl; [by apply Hset|by eauto].
  - by eauto.
Qed.

(** No bank takes a column command at [clk]. *)
Definition held_back (clk : Z) (cs : ChannelState) : Prop :=
  ∀ i j k b t, column_type t = true → lookup3 (bank_states_ cs) i j k = Some b →
    accepts (state_ b) t = true → clk < ready_at b t.

Lemma held_back_quiet clk cs cs' : channel_ok c cs' → channel_ok c cs → quiet cs cs' → held_back clk cs → held_back clk cs'.
Proof.
  intros Hcs' Hcs (Q1 & _ & _ & Q4) Hh i j k b' t Ht Hb' Ha.
  assert (∃ b, lookup3 (bank_states_ cs) i j k = Some b) as [b Hb].
  { apply (ch_dims _ _ Hcs). apply (ch_dims _ _ Hcs'). eauto. }
  destruct (Q1 _ _ _ _ Hb) as (b2 & Hb2 & Er). rewrite Hb' in Hb2. injection Hb2 as <-.
  rewrite Er. apply (Hh i j k b t Ht Hb). by rewrite <- (proj1 (Q4 _ _ _ _ _ Hb Hb')).
Qed.

Lemma column_holds_back cmd clk cs cs' :
  channel_ok c cs → channel_ok c cs' → issuable c cmd clk cs → IsReadWrite cmd = true →
  dual_safe c = true → 0 ≤ clk < 2 ^ 63 →
  (∀ i j k b, lookup3 (bank_states_ cs) i j k = Some b →
     ∃ b', lookup3 (bank_states_ cs') i j k = Some b' ∧ ∀ t,
       ready_at b' t = raise_to (constraints_for (Timing_new c) cmd i j k) clk t (ready_at b t)) →
  (∀ i j k b', targeted cmd i j k → lookup3 (bank_states_ cs') i j k = Some b' →
     state_ b' = next_state (cmd_type cmd)) →
  held_back clk cs'.
Proof.
  intros Hcs Hcs' Hi Hrw Hd Hclk Hra Hst i j k b' t Ht Hb' Ha.
  rewrite column_type_cmd in Hrw. pose proof (iss_addr _ _ _ _ Hi) as Haddr.
  assert (0 ≤ i < ranks c) as Hir by (apply (ch_dims _ _ Hcs' i j k); eauto).
  assert (∃ b, lookup3 (bank_states_ cs) i j k = Some b) as [b Hb].
  { apply (ch_dims _ _ Hcs). apply (ch_dims _ _ Hcs'). eauto. }
  destruct (Hra _ _ _ _ Hb) as (b2 & Hb2 & Hr). rewrite Hb' in Hb2. injection Hb2 as <-. rewrite Hr.
  destruct (dual_safe_entry c cmd t i j k Hd Hrw Ht Hir) as (d & Hin & Hdr).
  - unfold cmd_addr_ok in Haddr. destruct (IsRankCMD cmd); [done|apply Haddr].
  - intros Htg. rewrite (Hst _ _ _ _ Htg Hb') in Ha.
    revert Ha Ht Hrw. destruct (next_state (cmd_type cmd)), t, (cmd_type cmd); done.
  - pose proof (raise_to_in _ clk t d (ready_at b t) Hin) as Hge.
    rewrite u64_small in Hge; unfold two64 in *; lia.
Qed.

(** Nothing else reads the command trace: its line may as well be written at
    the end. *)
Lemma complete_reads_trace n h l t :
  complete_reads c n h (t <| cmd_trace_ := l |>)
  = (t' ← complete_reads c n h t; Ok (t' <| cmd_trace_ := l |>)).
Proof.
  revert t; induction n as [|n IH]; intros t; simpl; [done|].
  destruct (mm_find (pending_rd_q_ t) h) as [x|]; [|done]. simpl. by rewrite <- IH.
Qed.

Lemma complete_transactions_trace cmd l t :
  complete_transactions c cmd (t <| cmd_trace_ := l |>)
  = ('(n, t') ← complete_transactions c cmd t; Ok (n, t' <| cmd_trace_ := l |>)).
Proof.
  unfold complete_transactions. simpl. destruct (IsRead cmd); [|destruct (IsWrite cmd); [|done]].
  - case_decide; [done|]. rewrite complete_reads_trace.
    by destruct (complete_reads c _ _ t).
  - by destruct (mm_find (pending_wr_q_ t) (hex_addr cmd)).
Qed.

Lemma UpdateCommandStats_trace cmd n l t :
  UpdateCommandStats cmd n (t <| cmd_trace_ := l |>)
  = (t' ← UpdateCommandStats cmd n t; Ok (t' <| cmd_trace_ := l |>)).
Proof.
  unfold UpdateCommandStats, count_row_hit. destruct (cmd_type cmd); try done;
    (simpl; destruct (RowHitCount _ _ _ _) as [hits|]; simpl; [by case_decide|done]).
Qed.

Lemma IssueCommand_trace cmd t :
  IssueCommand c (Timing_new c) cmd t
  = ('(n, t1) ← complete_transactions c cmd t; t2 ← UpdateCommandStats cmd n t1;
     cs ← UpdateTimingAndStates c (Timing_new c) cmd (clk_ t2) (channel_state_ t2);
     cs ← mark_service c cmd (clk_ t2) cs;
     Ok (t2 <| channel_state_ := cs |> <| cmd_trace_ := cmd_trace_ t ++ [(clk_ t, cmd)] |>)).
Proof.
  unfold IssueCommand. cbv zeta.
  change (t <| cmd_trace_ ::= λ l, l ++ [(clk_ t, cmd)] |>)
    with (t <| cmd_trace_ := cmd_trace_ t ++ [(clk_ t, cmd)] |>).
  rewrite complete_transactions_trace.
  destruct (complete_transactions c cmd t) as [[n t1]|]; [|done]. cbn [mbind res_bind].
  rewrite UpdateCommandStats_trace. by destruct (UpdateCommandStats cmd n t1) as [t2|].
Qed.

(** [IssueCommand] never exits: what it issues was in flight. *)
Lemma IssueCommand_total cmd t :
  ctrl_ok c (if IsReadWrite cmd then [cmd] else []) t →
  issuable c cmd (clk_ t) (channel_state_ t) → sendable c cmd →
  ∃ t', IssueCommand c (Timing_new c) cmd t = Ok t' ∧ ctrl_ok c [] t' ∧
    (IsRead cmd = false → return_queue_ t' = return_queue_ t ∧ pending_rd_q_ t' = pending_rd_q_ t) ∧
    (IsRead cmd = true →
       return_queue_ t' = return_queue_ t ++ (finished t <$> mm_at (pending_rd_q_ t) (hex_addr cmd)) ∧
       mm_at (pending_rd_q_ t') (hex_addr cmd) = [] ∧
       ∀ h', h' ≠ hex_addr cmd → mm_at (pending_rd_q_ t') h' = mm_at (pending_rd_q_ t) h') ∧
    clk_ t' = clk_ t ∧
    (IsReadWrite cmd = true → dual_safe c = true → clk_ t < 2 ^ 63 →
       held_back (clk_ t) (channel_state_ t')).
Proof.
  intros Ht Hi Hns. rewrite IssueCommand_trace.
  destruct (complete_transactions_total cmd t Ht) as (n & t1 & -> & Ht1 & Ec1 & Ek1 & Et1 & Hf1 & Hr1).
  simpl. rewrite <- Ec1 in Hi.
  destruct (UpdateCommandStats_total cmd n t1 (clk_ t) Ht1 Hi) as (t2 & -> & Ht2 & Ec2 & Ek2 & Et2 & Er2 & Ep2).
  simpl. rewrite Ec2, Ek2, Ek1.
  destruct (UpdateTimingAndStates_issuable c cmd (clk_ t) (channel_state_ t1)
    (ct_channel _ _ _ Ht1) Hi) as (cs & Hup & Hcs & Hra & _ & Hsr & Hst & _). rewrite Hup. simpl.
  assert (awake cs) as Haw.
  { intros i Hx. apply Hsr in Hx as [Hx|Hx]; [|by destruct Hns as [Hns _]]. by apply (ct_awake _ _ _ Ht1) in Hx. }
  destruct (mark_service_total cmd (clk_ t) cs Hcs Haw (iss_addr _ _ _ _ Hi)) as (cs' & -> & Hcs' & Haw' & Hq).
  simpl. eexists. split; [done|]. split.
  { assert (issued c (cmd_trace_ t ++ [(clk_ t, cmd)]) cs) as Htr.
    { rewrite <- Et1. eapply issued_snoc; [apply Ht1|exact Hi|exact Hup]. }
    assert (recorded c (clk_ t, cmd)) as Hrc.
    { split; [apply (ct_clk _ _ _ Ht)|].
      split; [apply (iss_valid _ _ _ _ Hi)|]. split; [apply (iss_addr _ _ _ _ Hi)|exact Hns]. }
    pose proof (ct_recorded _ _ _ Ht) as Hrec.
    destruct Ht2 as [H1 H2 H3 H4 H5 H6 H7 H8 H9 H10 H11 H12 H13 H14 H15 H16 H17]. constructor; try done; simpl.
    - by eapply issued_quiet.
    - apply list.Forall_app. split; [done|]. by constructor. }
  simpl. rewrite Er2, Ep2, Ek2, Ek1.
  split_and!; [by apply Hf1|by apply Hr1|done|]. intros Hrw Hd Hclk.
  apply (held_back_quiet _ cs); [done..|].
  apply (column_holds_back cmd (clk_ t) (channel_state_ t1) cs); try done; [apply Ht1|].
  split; [apply Ht|done].
Qed.

(** ** The command of a cycle *)

(** The queues give a command that is held, or give nothing. *)
Lemma taken_ok cmd t q cs st :
  ctrl_ok c [] t → CommandQueue.queue_ok c q → CommandQueue.clk_ q = CommandQueue.clk_ (cmd_queue_ t) →
  CommandQueue.taken cmd (cmd_queue_ t) q → marks_only (channel_state_ t) cs → stats_ok c st →
  ctrl_ok c (if IsReadWrite cmd then [cmd] else []) (with_q_state (q, cs, st) t).
Proof.
  intros Ht Hq Hk Htk Hm Hst.
  assert (channel_ok c cs) as Hcs by (eapply marks_only_ok; [exact Hm|apply Ht]).
  assert (awake cs) as Haw by (eapply marks_only_awake; [exact Hm|apply Ht]).
  assert (Forall (decoded c) (CommandQueue.commands q)) as Hdec.
  { pose proof (ct_decoded _ _ _ Ht) as Hd. unfold CommandQueue.taken in Htk.
    destruct (IsReadWrite cmd); [|by rewrite Htk]. destruct Htk as (x & Hp & _).
    rewrite Hp in Hd. by apply list.Forall_cons in Hd as [_ Hd]. }
  assert (raddrs (waiting t) (CommandQueue.commands (cmd_queue_ t)) ≡ₚ
          raddrs (waiting t) ((if IsReadWrite cmd then [cmd] else []) ++ CommandQueue.commands q) ∧
          waddrs (waiting t) (CommandQueue.commands (cmd_queue_ t)) ≡ₚ
          waddrs (waiting t) ((if IsReadWrite cmd then [cmd] else []) ++ CommandQueue.commands q)) as [P1 P2].
  { unfold CommandQueue.taken in Htk. destruct (IsReadWrite cmd) eqn:Hrw; [|by rewrite Htk].
    destruct Htk as (x & Hp & Hh & Hty). rewrite Hp. simpl.
    assert (IsRead x = IsRead cmd ∧ IsWrite x = IsWrite cmd) as [E1 E2]
      by (unfold IsRead, IsWrite; by rewrite Hty).
    split; [by rewrite !raddrs_cmd, E1, Hh|by rewrite !waddrs_cmd, E2, Hh]. }
  destruct Ht as [H1 H2 H3 H4 H5 H6 H7 H8 H9 H10 H11 H12 H13 H14 H15 H16 H17].
  constructor; try done; simpl; [congruence| | |exact (issued_marks c _ _ _ H15 Hm)].
  - by eapply pend_ok_perm; [exact P1|].
  - by eapply pend_ok_perm; [exact P2|].
Qed.

(** Nothing but the queue, the channel and the statistics has changed. *)
Definition issue_frame (t t' : Controller) : Prop :=
  ∃ q cs st, t' = with_q_state (q, cs, st) t.

Lemma get_command_total t :
  ctrl_ok c [] t →
  ∃ cmd t', get_command c t = Ok (cmd, t') ∧
    ctrl_ok c (if IsReadWrite cmd then [cmd] else []) t' ∧ issue_frame t t' ∧
    (IsValid cmd = true → issuable c cmd (clk_ t') (channel_state_ t') ∧ sendable c cmd) ∧
    marks_only (channel_state_ t) (channel_state_ t').
Proof.
  intros Ht. unfold get_command, q_state.
  destruct (CommandQueue.command_to_issue_total c
    (Z.to_nat (CommandQueue.num_queues_ (cmd_queue_ t))) (cmd_queue_ t) (channel_state_ t)
    (simple_stats_ t) (ct_queue _ _ _ Ht) (ct_channel _ _ _ Ht) (ct_awake _ _ _ Ht) (ct_stats _ _ _ Ht))
    as (cmd & q & cs & st & Hrun & Hq & Hst & Hk & Hm & Htk & Hv & Hp).
  unfold CommandQueue.GetCommandToIssue. simpl. rewrite Hrun. simpl.
  eexists _, _. split; [done|]. split; [|split; [by eexists _, _, _|split; [|done]]].
  - by apply taken_ok.
  - intros HV. destruct (Hv HV) as [Hi Hn]. rewrite (ct_clock _ _ _ Ht) in Hi. split; [done|].
    split; [done|]. left. destruct (Hp HV) as (x & Hx & Ha & Hh).
    pose proof (ct_decoded _ _ _ Ht) as Hd. rewrite list.Forall_forall in Hd.
    destruct (Hd x Hx) as [D1 D2]. unfold decoded. by rewrite Ha, Hh.
Qed.

Lemma issue_frame_refl t : issue_frame t t.
Proof. exists (cmd_queue_ t), (channel_state_ t), (simple_stats_ t). by destruct t. Qed.

Lemma next_command_total t :
  ctrl_ok c [] t →
  ∃ cmd t', next_command c t = Ok (cmd, t') ∧
    ctrl_ok c (if IsReadWrite cmd then [cmd] else []) t' ∧ issue_frame t t' ∧
    (IsValid cmd = true → issuable c cmd (clk_ t') (channel_state_ t') ∧ sendable c cmd).
Proof.
  intros Ht. unfold next_command. destruct (IsRefreshWaiting (channel_state_ t)) eqn:Hw.
  2:{ simpl. destruct (get_command_total t Ht) as (cmd & t' & ? & ? & ? & ? & _). eauto 10. }
  destruct (CommandQueue.FinishRefresh_total c (cmd_queue_ t) (channel_state_ t)
    (ct_queue _ _ _ Ht) (ct_channel _ _ _ Ht) (ct_awake _ _ _ Ht) Hw)
    as (cmd & q & cs & -> & Hq & Ec & Ek & Hm & Hrw & Hv & Hna). simpl.
  set (t1 := t <| cmd_queue_ := q |> <| channel_state_ := cs |>).
  assert (ctrl_ok c [] t1) as Ht1.
  { assert (channel_ok c cs) by by eapply marks_only_ok, Ht.
    assert (awake cs) by by eapply marks_only_awake, Ht.
    destruct Ht as [H1 H2 H3 H4 H5 H6 H7 H8 H9 H10 H11 H12 H13 H14 H15 H16 H17].
    constructor; try done; simpl; rewrite ?Ec; try (done || congruence). exact (issued_marks c _ _ _ H15 Hm). }
  assert (issue_frame t t1) as Hf by (exists q, cs, (simple_stats_ t); by destruct t).
  destruct (IsValid cmd) eqn:HV.
  - eexists _, _. split; [done|]. rewrite Hrw. split_and!; [done|done|].
    intros _. destruct (Hv eq_refl) as [Hi Hn]. rewrite (ct_clock _ _ _ Ht) in Hi. split; [done|].
    split; [done|]. right. destruct (Hna eq_refl) as [Hne Hfr]. split; [|done].
    revert Hrw Hne. by by_type cmd.
  - destruct (get_command_total t1 Ht1) as (cmd' & t2 & Hrun & Ht2 & (q2 & cs2 & st2 & ->) & Hv2 & _).
    eexists _, _. split; [exact Hrun|]. split_and!; [done| |done].
    exists q2, cs2, st2. by destruct t.
Qed.

(** ** Statistics of a cycle *)

(** What the later steps of a cycle leave alone. *)
Definition data_frame (t t' : Controller) : Prop :=
  return_queue_ t' = return_queue_ t ∧ pending_rd_q_ t' = pending_rd_q_ t.

#[global] Instance data_frame_refl : Reflexive data_frame.
Proof. by split. Qed.

#[global] Instance data_frame_trans : Transitive data_frame.
Proof. intros t1 t2 t3 [] []. split; congruence. Qed.

Lemma all_idle_total i jks cs :
  channel_ok c cs → 0 ≤ i < ranks c → (∀ jk, jk ∈ jks → jk ∈ bank_pairs c) →
  ∃ b, all_idle i jks cs = Ok b.
Proof.
  intros Hcs Hi. induction jks as [|[j k] jks IH]; intros Hin; simpl; [eauto|].
  pose proof (proj1 (bank_pairs_spec c j k) (Hin (j, k) ltac:(set_solver))) as [Hj Hk].
  destruct (channel_lookup c cs i j k Hcs Hi Hj Hk) as (b & Hb & _).
  unfold IsRowOpen. apply get3_Ok in Hb as ->. simpl.
  destruct (BankState.IsRowOpen b); [eauto|]. apply IH. set_solver.
Qed.

Lemma update_rank_stats_total i t :
  ctrl_ok c [] t → 0 ≤ i < ranks c →
  ∃ t', update_rank_stats c i t = Ok t' ∧ ctrl_ok c [] t' ∧ data_frame t t'.
Proof.
  intros Ht Hi. unfold update_rank_stats, IsRankSelfRefreshing.
  destruct (vec_get_lt (rank_is_sref_ (channel_state_ t)) i) as [b ->].
  { rewrite (ch_flags _ _ (ct_channel _ _ _ Ht)). lia. }
  simpl.
  assert (∀ n t, n ∈ vec_counter_names → ctrl_ok c [] t →
    ∃ t', (st ← IncrementVec n i (simple_stats_ t); Ok (t <| simple_stats_ := st |>)) = Ok t' ∧
      ctrl_ok c [] t' ∧ data_frame t t') as Hinc.
  { intros n t1 Hn Ht1. destruct (IncrementVec_total c n i _ (ct_stats _ _ _ Ht1) Hn Hi) as (st & -> & Hst).
    simpl. eexists. split_and!; [done|by apply ctrl_ok_stats|by split]. }
  assert (∀ f t, (∀ n, ∃ m, f n = Ok m) → ctrl_ok c [] t →
    ∃ t', (v ← vec_modify (rank_idle_cycles (channel_state_ t)) i f;
           Ok (t <| channel_state_ ::= λ cs, cs <| rank_idle_cycles := v |> |>)) = Ok t' ∧
      ctrl_ok c [] t' ∧ data_frame t t') as Hidle.
  { intros f t1 Hf Ht1. destruct (vlookup_lt (rank_idle_cycles (channel_state_ t1)) i) as [n Hn].
    { rewrite (ch_idle _ _ (ct_channel _ _ _ Ht1)). lia. }
    destruct (Hf n) as [m Hm]. destruct (vec_modify_Ok _ _ f _ _ Hn Hm) as (v & -> & Hlen & _).
    simpl. eexists. split_and!; [done| |by split]. destruct Ht1 as [H1 H2 H3 H4 H5 H6 H7 H8 H9 H10 H11 H12 H13 H14 H15 H16 H17].
    constructor; try done; [|by eapply issued_quiet; [exact H15|by apply quiet_eq|destruct H1; constructor; try done; simpl; congruence]].
    destruct H1. constructor; try done. simpl. congruence. }
  destruct b; [apply Hinc; [set_solver|done]|].
  destruct (all_idle_total i (bank_pairs c) _ (ct_channel _ _ _ Ht) Hi) as [b Hb]; [done|].
  unfold IsAllBankIdleInRank. rewrite Hb. simpl.
  destruct b.
  - destruct (Hinc "all_bank_idle_cycles"%string t) as (t1 & -> & Ht1 & F1); [set_solver|done|]. simpl.
    destruct (Hidle (λ n, Ok (n + 1)) t1) as (t2 & -> & Ht2 & F2); [eauto|done|].
    eexists. split_and!; [done|done|by etransitivity].
  - destruct (Hinc "rank_active_cycles"%string t) as (t1 & -> & Ht1 & F1); [set_solver|done|]. simpl.
    destruct (Hidle (λ _, Ok 0) t1) as (t2 & -> & Ht2 & F2); [eauto|done|].
    eexists. split_and!; [done|done|by etransitivity].
Qed.

(** Loops over ranks and banks that keep the invariant. *)
Lemma loop_ok {A} (f : A → Controller → res Controller) (l : list A) t :
  (∀ x t, x ∈ l → ctrl_ok c [] t → ∃ t', f x t = Ok t' ∧ ctrl_ok c [] t' ∧ data_frame t t') →
  ctrl_ok c [] t → ∃ t', foldM f l t = Ok t' ∧ ctrl_ok c [] t' ∧ data_frame t t'.
Proof.
  intros Hf Ht.
  destruct (foldM_ok f (λ t', ctrl_ok c [] t' ∧ data_frame t t') l t) as (t' & ? & ? & ?); [|by split|eauto].
  intros x t1 Hx [Ht1 F1]. destruct (Hf x t1 Hx Ht1) as (t2 & ? & ? & ?).
  exists t2. split_and!; [done|done|by etransitivity].
Qed.

Lemma set_bank_total f i j k t :
  ctrl_ok c [] t → 0 ≤ i < ranks c → 0 ≤ j < bankgroups c → 0 ≤ k < banks_per_group c →
  marks_bank f →
  ∃ cs, update_bank i j k (λ x, Ok (f x)) (channel_state_ t) = Ok cs ∧
    ctrl_ok c [] (t <| channel_state_ := cs |>).
Proof.
  intros Ht Hi Hj Hk Hf. pose proof (ct_channel _ _ _ Ht) as Hcs.
  destruct (channel_lookup c _ i j k Hcs Hi Hj Hk) as (b & Hb & _).
  destruct (modify3_Ok _ _ _ _ (λ x, Ok (f x)) b (f b) Hb eq_refl) as [v Hv].
  assert (update_bank i j k (λ x, Ok (f x)) (channel_state_ t) = Ok ((channel_state_ t) <| bank_states_ := v |>))
    as Hu by (unfold update_bank; by rewrite Hv).
  eexists. split; [exact Hu|]. destruct (update_bank_mark c _ _ _ f _ _ Hu Hf Hcs) as [Hok Hq].
  apply ctrl_ok_channel; [done|done| |exact Hq]. apply Ht.
Qed.

Lemma calculate_bank_total i j k t :
  ctrl_ok c [] t → 0 ≤ i < ranks c → 0 ≤ j < bankgroups c → 0 ≤ k < banks_per_group c →
  ∃ t', calculate_bank i j k t = Ok t' ∧ ctrl_ok c [] t' ∧ data_frame t t'.
Proof.
  intros Ht Hi Hj Hk. unfold calculate_bank, SetInServeBank.
  assert (∀ t, ctrl_ok c [] t → ∃ b, get3 (bank_states_ (channel_state_ t)) i j k = Ok b) as Hget.
  { intros t1 Ht1. destruct (channel_lookup c _ i j k (ct_channel _ _ _ Ht1) Hi Hj Hk) as (b & Hb & _).
    exists b. by apply get3_Ok. }
  pose proof SetInServe_marks as Hf.
  unfold GetServeEndCycleBank, IsRowClosed. destruct (Hget t Ht) as [b Hb]. rewrite Hb. simpl.
  assert (∃ cs, (if decide (clk_ t = u64 (ReturnServeEndCycle b + 1))
    then update_bank i j k (λ x, Ok (SetInServe false x)) (channel_state_ t) else Ok (channel_state_ t)) = Ok cs ∧
    ctrl_ok c [] (t <| channel_state_ := cs |>)) as (cs & -> & Ht1).
  { case_decide; [by apply set_bank_total|]. eexists. split; [done|]. by destruct Ht. }
  simpl. destruct (Hget _ Ht1) as [b1 Hb1]. simpl in Hb1. rewrite Hb1. simpl.
  destruct (BankState.IsRowClosed b1); simpl.
  - destruct (set_bank_total (SetInServe false) i j k _ Ht1 Hi Hj Hk (Hf false)) as (cs2 & Hu & Ht2).
    simpl in Hu. rewrite Hu. simpl. eexists. split_and!; [done|exact Ht2|by split].
  - eexists. split_and!; [done|exact Ht1|by split].
Qed.

Lemma InServeBankNum_total i cs :
  channel_ok c cs → 0 ≤ i < ranks c → ∃ n, InServeBankNum c i cs = Ok n.
Proof.
  intros Hcs Hi. unfold InServeBankNum. rewrite for_banks_pairs.
  destruct (foldM_ok (λ jk count, b ← GetInServeBank i jk.1 jk.2 cs;
    Ok (if (b : bool) then count + 1 else count)) (λ _ : Z, True) (bank_pairs c) 0) as (n & Hn & _);
    [|done|by eexists].
  intros [j k] n [Hj Hk]%bank_pairs_spec _.
  destruct (channel_lookup c cs i j k Hcs Hi Hj Hk) as (b & Hb & _).
  unfold GetInServeBank. apply get3_Ok in Hb. simpl. rewrite Hb. simpl. eauto.
Qed.

Lemma Calculate_stats_total t :
  ctrl_ok c [] t → ∃ t', Calculate_stats c t = Ok t' ∧ ctrl_ok c [] t' ∧ data_frame t t'.
Proof.
  intros Ht. unfold Calculate_stats, for_upto.
  destruct (loop_ok (λ i t, t ← for_banks c (calculate_bank i) t;
    n ← InServeBankNum c i (channel_state_ t);
    Ok (if decide (0 < n)
        then t <| is_active_cycles := true |> <| concurrent_serve ::= λ x, u64 (x + n) |>
        else t)) (seqZ 0 (ranks c)) (t <| is_active_cycles := false |> <| concurrent_serve := 0 |>))
    as (t' & Hrun & Ht' & F); [|by destruct Ht|by exists t'].
  intros i t1 Hi%seqZ_range Ht1. rewrite for_banks_pairs.
  destruct (loop_ok (λ jk, calculate_bank i jk.1 jk.2) (bank_pairs c) t1) as (t2 & -> & Ht2 & F2); [|done|].
  { intros [j k] t3 [Hj Hk]%bank_pairs_spec Ht3. by apply calculate_bank_total. }
  simpl. destruct (InServeBankNum_total i (channel_state_ t2) (ct_channel _ _ _ Ht2) Hi) as [n ->].
  simpl. eexists. split; [done|]. case_decide; split; try done; by destruct Ht2.
Qed.

(** ** Scheduling *)

Lemma TransToCommand_ok x t :
  0 ≤ t_addr x →
  IsReadWrite (TransToCommand c x t) = true ∧ bank_addr_ok c (addr (TransToCommand c x t)) ∧
  hex_addr (TransToCommand c x t) = t_addr x ∧
  IsRead (TransToCommand c x t) = negb (is_write x) ∧ IsWrite (TransToCommand c x t) = is_write x.
Proof.
  intros Hx. destruct (geo_decode (c:=c) (t_addr x) Hx) as (Hr & Hg & Hb).
  unfold TransToCommand. simpl.
  case_decide; destruct (is_write x); split_and!; try done.
Qed.

Lemma scheduled_addrs t x : ctrl_ok c [] t → x ∈ rv_data (scheduled_queue t) → 0 ≤ t_addr x.
Proof.
  intros Ht Hx. pose proof (ct_addrs _ _ _ Ht) as Hf. rewrite list.Forall_forall in Hf. apply Hf.
  unfold scheduled_queue, waiting in *. repeat case_match; set_solver.
Qed.

(** Taking a transaction out of the scheduled queue. *)
Lemma set_scheduled_waiting earlier x later t :
  rv_data (scheduled_queue t) = earlier ++ x :: later →
  waiting t ≡ₚ x :: waiting (set_scheduled_queue (earlier ++ later) t).
Proof.
  unfold scheduled_queue, set_scheduled_queue, waiting. intros H.
  repeat case_match; simpl; rewrite H; solve_Permutation.
Qed.

Lemma set_scheduled_frame earlier x later t :
  rv_data (scheduled_queue t) = earlier ++ x :: later →
  let t' := set_scheduled_queue (earlier ++ later) t in
  channel_state_ t' = channel_state_ t ∧ cmd_queue_ t' = cmd_queue_ t ∧ clk_ t' = clk_ t ∧
  refresh_ t' = refresh_ t ∧ simple_stats_ t' = simple_stats_ t ∧
  write_draining_ t' = write_draining_ t ∧ pending_rd_q_ t' = pending_rd_q_ t ∧
  pending_wr_q_ t' = pending_wr_q_ t ∧ return_queue_ t' = return_queue_ t ∧
  is_unified_queue_ t' = is_unified_queue_ t ∧
  cmd_trace_ t' = cmd_trace_ t ∧
  (split_ok t → split_ok t' ∧
     (is_unified_queue_ t = false → is_write x = bool_decide (0 < write_draining_ t))) ∧
  rv_size (write_buffer_ t') =
    rv_size (write_buffer_ t) -
    (if negb (is_unified_queue_ t) && bool_decide (0 < write_draining_ t) then 1 else 0).
Proof.
  unfold scheduled_queue, set_scheduled_queue. intros H.
  assert (∀ (P : Transaction → Prop), Forall P (earlier ++ x :: later) → Forall P (earlier ++ later) ∧ P x) as Hsub.
  { intros P [? [? ?]%list.Forall_cons]%list.Forall_app. split; [by apply list.Forall_app|done]. }
  destruct (is_unified_queue_ t) eqn:Eu; [|destruct (decide (0 < write_draining_ t)) as [Hd|Hd]]; simpl;
    split_and!; try done; try lia.
  - unfold split_ok. simpl. intros Hs. destruct (Hs Eu) as [Hr Hw]. rewrite H in Hw.
    apply Hsub in Hw as [Hw Hx]. split; [by intros _|]. intros _. by rewrite bool_decide_true.
  - rewrite bool_decide_true by done. unfold rv_size. simpl. rewrite H, !length_app. simpl. lia.
  - unfold split_ok. simpl. intros Hs. destruct (Hs Eu) as [Hr Hw]. rewrite H in Hr.
    apply Hsub in Hr as [Hr Hx]. split; [by intros _|]. intros _. by rewrite bool_decide_false.
  - rewrite bool_decide_false by done. lia.
Qed.

Lemma schedule_loop_total earlier rest t :
  ctrl_ok c [] t → earlier ++ rest = rv_data (scheduled_queue t) →
  ∃ t', schedule_loop c earlier rest t = Ok t' ∧ ctrl_ok c [] t' ∧ data_frame t t'.
Proof.
  revert earlier; induction rest as [|x later IH]; intros earlier Ht Hq; simpl; [by exists t|].
  assert (0 ≤ t_addr x) as Hx by (apply (scheduled_addrs t); [done|rewrite <- Hq; set_solver]).
  destruct (TransToCommand_ok x t Hx) as (Hrw & Ha & Hh & HR & HW).
  set (cmd := TransToCommand c x t) in *.
  destruct (CommandQueue.WillAcceptCommand_total c (addr cmd) (cmd_queue_ t) (ct_queue _ _ _ Ht) Ha) as [ok Hok].
  change (CommandQueue.WillAcceptCommand c (Rank cmd) (Bankgroup cmd) (Bank cmd) (cmd_queue_ t) = Ok ok) in Hok.
  rewrite Hok. simpl. destruct ok; [|apply IH; [done|by rewrite <- app_assoc]].
  destruct (negb (is_unified_queue_ t) && IsWrite cmd && _) eqn:Edep.
  { eexists. split_and!; [done| |by split].
    pose proof (ct_draining _ _ _ Ht). destruct Ht. constructor; try done. simpl. lia. }
  destruct (CommandQueue.AddCommand_accepted c cmd (cmd_queue_ t) (ct_queue _ _ _ Ht) Ha Hrw Hok)
    as (q & -> & Hq' & Hk & Hperm). simpl.
  pose proof (set_scheduled_waiting earlier x later t (eq_sym Hq)) as Hw.
  destruct (set_scheduled_frame earlier x later t (eq_sym Hq))
    as (F1 & F2 & F3 & F4 & F5 & F6 & F7 & F8 & F9 & F10 & Ftr & F11 & F12).
  set (t1 := set_scheduled_queue (earlier ++ later) t) in *.
  destruct Ht as [H1 H2 H3 H4 H5 H6 H7 H8 H9 H10 H11 H12 H13 H14 H15 H16 H17].
  destruct (F11 H8) as [S1 S2].
  assert (pend_ok (raddrs (waiting t1) (CommandQueue.commands q)) (pending_rd_q_ t)) as Hrd.
  { eapply pend_ok_perm; [|exact H10]. simpl.
    rewrite Hperm, Hw, raddrs_cmd, raddrs_trans, HR, Hh. by destruct (is_write x). }
  assert (pend_ok (waddrs (waiting t1) (CommandQueue.commands q)) (pending_wr_q_ t)) as Hwr.
  { eapply pend_ok_perm; [|exact H11]. simpl.
    rewrite Hperm, Hw, waddrs_cmd, waddrs_trans, HW, Hh. by destruct (is_write x). }
  assert (Forall (λ x, 0 ≤ t_addr x) (waiting t1)) as Had.
  { rewrite Hw in H9. by apply list.Forall_cons in H9 as [_ ?]. }
  assert (Forall (decoded c) (CommandQueue.commands q)) as Hdec.
  { rewrite Hperm. constructor; [|done]. unfold decoded. by rewrite Hh. }
  rewrite HW. simpl. rewrite F10. eexists. split; [done|].
  destruct (is_unified_queue_ t) eqn:Eu; simpl.
  - split; [|split; simpl; congruence].
    constructor; simpl; rewrite ?F1, ?F3, ?F4, ?F5, ?F6, ?F7, ?F8, ?Ftr; try done.
    + congruence.
    + simpl in F12. lia.
  - rewrite (S2 eq_refl) in *. simpl in F12. case_bool_decide as Hd.
    + split; [|split; simpl; congruence].
      constructor; simpl; rewrite ?F1, ?F3, ?F4, ?F5, ?F6, ?F7, ?F8, ?Ftr; try done; [congruence|lia].
    + split; [|split; simpl; congruence].
      constructor; simpl; rewrite ?F1, ?F3, ?F4, ?F5, ?F6, ?F7, ?F8, ?Ftr; try done; [congruence|lia].
Qed.

Lemma ScheduleTransaction_total t :
  ctrl_ok c [] t → ∃ t', ScheduleTransaction c t = Ok t' ∧ ctrl_ok c [] t' ∧ data_frame t t'.
Proof.
  intros Ht. unfold ScheduleTransaction. set (t1 := if decide _ then _ else t).
  assert (ctrl_ok c [] t1 ∧ data_frame t t1) as [Ht1 F1].
  { assert (0 ≤ rv_size (write_buffer_ t)) by (unfold rv_size; lia).
    subst t1. repeat case_match; try done. split; [|by split]. destruct Ht. constructor; try done.
    all: simpl; lia. }
  destruct (schedule_loop_total [] (rv_data (scheduled_queue t1)) t1 Ht1 eq_refl) as (t' & ? & ? & ?).
  exists t'. split_and!; [done|done|by etransitivity].
Qed.

(** ** A cycle *)

(** The reads pending at the address of [cmd] move to the return queue; with
    no read command nothing moves. *)
Definition completes (t t' : Controller) : Prop :=
  data_frame t t' ∨
  ∃ h clk, return_queue_ t' = return_queue_ t ++
        ((λ x, x <| complete_cycle := u64 (clk + read_delay c) |>) <$> mm_at (pending_rd_q_ t) h) ∧
    mm_at (pending_rd_q_ t') h = [] ∧
    ∀ h', h' ≠ h → mm_at (pending_rd_q_ t') h' = mm_at (pending_rd_q_ t) h'.

Lemma completes_after t1 t2 t3 : completes t1 t2 → data_frame t2 t3 → completes t1 t3.
Proof.
  intros [F|(h & k & E1 & E2 & E3)] [F1 F2]; [left; etransitivity; [done|by split]|right].
  exists h, k. rewrite F1, F2. done.
Qed.

Lemma completes_before t1 t2 t3 : data_frame t1 t2 → completes t2 t3 → completes t1 t3.
Proof.
  intros [F1 F2] [F|(h & k & E1 & E2 & E3)].
  - left. etransitivity; [by split|done].
  - right. exists h, k. by rewrite <- F1, <- F2.
Qed.

(** Issuing one command of a cycle. *)
Lemma IssueCommand_completes cmd t :
  ctrl_ok c (if IsReadWrite cmd then [cmd] else []) t →
  issuable c cmd (clk_ t) (channel_state_ t) → sendable c cmd →
  ∃ t', IssueCommand c (Timing_new c) cmd t = Ok t' ∧ ctrl_ok c [] t' ∧ completes t t' ∧
    (IsReadWrite cmd = false → data_frame t t') ∧ clk_ t' = clk_ t ∧
    (IsReadWrite cmd = true → dual_safe c = true → clk_ t < 2 ^ 63 →
       held_back (clk_ t) (channel_state_ t')).
Proof.
  intros Ht Hi Hns.
  destruct (IssueCommand_total cmd t Ht Hi Hns) as (t' & Hrun & Ht' & Hnr & Hrd & Hk & Hh).
  exists t'. split_and!; [done|done| | |done|done].
  - destruct (IsRead cmd) eqn:Er; [right|by left; apply Hnr].
    destruct (Hrd eq_refl) as (R1 & R2 & R3).
    exists (hex_addr cmd), (clk_ t). split_and!; [exact R1|exact R2|exact R3].
  - unfold IsReadWrite. intros [Er _]%orb_false_iff. by apply Hnr.
Qed.

(** A column command that the queues give after another one would not have
    been held back. *)
Lemma held_back_no_column cmd t t' :
  ctrl_ok c [] t → held_back (clk_ t) (channel_state_ t) →
  marks_only (channel_state_ t) (channel_state_ t') → issuable c cmd (clk_ t) (channel_state_ t') →
  IsReadWrite cmd = false.
Proof.
  intros Ht Hh Hm Hi. destruct (IsReadWrite cmd) eqn:Hrw; [exfalso|done].
  pose proof (marks_only_ok _ _ _ Hm (ct_channel _ _ _ Ht)) as Hcs'.
  pose proof (held_back_quiet _ _ _ Hcs' (ct_channel _ _ _ Ht) (marks_only_quiet _ _ Hm) Hh) as Hh'.
  rewrite column_type_cmd in Hrw.
  assert (IsRankCMD cmd = false) as Hrk by (revert Hrw; by by_type cmd).
  destruct (issuable_bank _ _ _ Hcs' Hi Hrk) as [b Hb].
  assert (targeted cmd (Rank cmd) (Bankgroup cmd) (Bank cmd)) as Htg by (split; auto).
  assert (checked cmd (Rank cmd) (Bankgroup cmd) (Bank cmd)) as Hck by (split; auto).
  pose proof (Hh' _ _ _ _ _ Hrw Hb (iss_accepts _ _ _ _ Hi _ _ _ _ Htg Hb)).
  pose proof (iss_time _ _ _ _ Hi _ _ _ _ Hck Hb). lia.
Qed.

(** [clock_room]: a run of two commands a cycle is shorter than 2^63 cycles. *)
Definition clock_room (t : Controller) : Prop := enable_hbm_dual_cmd c = true → clk_ t < 2 ^ 63.

Lemma second_command_total cmd t :
  ctrl_ok c [] t → clk_ t < 2 ^ 63 → dual_safe c = true →
  (IsReadWrite cmd = true → held_back (clk_ t) (channel_state_ t)) →
  ∃ t', ('(second_cmd, t) ← get_command c t;
         if IsValid second_cmd && xorb (IsReadWrite second_cmd) (IsReadWrite cmd)
         then t ← IssueCommand c (Timing_new c) second_cmd t; Ok (count "hbm_dual_cmds" t)
         else Ok t) = Ok t' ∧
    ctrl_ok c [] t' ∧ completes t t' ∧ (IsReadWrite cmd = true → data_frame t t').
Proof.
  intros Ht Hclk Hd Hh.
  destruct (get_command_total t Ht) as (snd & t1 & -> & Ht1 & (q & cs & st & E) & Hv & Hm). simpl.
  assert (data_frame t t1 ∧ clk_ t1 = clk_ t) as [F1 Ek] by (by subst t1).
  destruct (IsValid snd) eqn:HV; simpl.
  - destruct (Hv eq_refl) as [Hi Hns].
    destruct (xorb _ _) eqn:Hx.
    + destruct (IssueCommand_completes snd t1 Ht1 Hi Hns) as (t2 & -> & Ht2 & Hc & Hf & _). simpl.
      eexists. split; [done|]. split; [by apply ctrl_ok_count|].
      assert (data_frame t2 (count "hbm_dual_cmds" t2)) as F2 by done.
      split; [by eapply completes_after; [by eapply completes_before|]|].
      intros Hrw. rewrite Hrw in Hx. etransitivity; [exact F1|]. etransitivity; [|exact F2].
      apply Hf. by destruct (IsReadWrite snd).
    + eexists. split; [done|]. split; [|split; [by left|done]].
      enough (IsReadWrite snd = false) as Hrw by by rewrite Hrw in Ht1.
      destruct (IsReadWrite snd) eqn:Hrw; [|done].
      destruct (IsReadWrite cmd) eqn:Hrc; [|done].
      rewrite Ek in Hi. pose proof (held_back_no_column snd t t1 Ht (Hh eq_refl) Hm Hi). congruence.
  - eexists. split; [done|]. split; [|split; [by left|done]].
    assert (IsReadWrite snd = false) as Hrw by (revert HV; by by_type snd). by rewrite Hrw in Ht1.
Qed.

Lemma issue_commands_total cmd t :
  ctrl_ok c (if IsReadWrite cmd then [cmd] else []) t → clock_room t →
  issuable c cmd (clk_ t) (channel_state_ t) → sendable c cmd →
  ∃ t', issue_commands c (Timing_new c) cmd t = Ok t' ∧ ctrl_ok c [] t' ∧ completes t t'.
Proof.
  intros Ht Hroom Hi Hns. unfold issue_commands.
  destruct (IssueCommand_completes cmd t Ht Hi Hns) as (t1 & -> & Ht1 & Hc1 & Hf1 & Hk & Hh). simpl.
  destruct (enable_hbm_dual_cmd c) eqn:Hdual; [|by exists t1].
  pose proof (Hroom Hdual) as Hclk. pose proof (safe_dual (c:=c) Hdual) as Hd.
  destruct (second_command_total cmd t1 Ht1) as (t2 & Hrun & Ht2 & Hc2 & Hf2); [by rewrite Hk|done| |].
  { rewrite Hk. auto. }
  exists t2. split_and!; [exact Hrun|done|]. destruct (IsReadWrite cmd) eqn:Hrw.
  - eapply completes_after; [exact Hc1|auto].
  - eapply completes_before; [auto|exact Hc2].
Qed.

Lemma ClockTick_total t :
  ctrl_ok c [] t → clock_room t →
  ∃ t', ClockTick c (Timing_new c) t = Ok t' ∧ ctrl_ok c [] t' ∧ completes t t'.
Proof.
  intros Ht Hroom. unfold ClockTick.
  destruct (Refresh_ClockTick_total c (refresh_ t) (channel_state_ t) (ct_refresh _ _ _ Ht)
    (ch_flags _ _ (ct_channel _ _ _ Ht))) as (r & cs & -> & Hr & l & -> & Hl). simpl.
  set (t1 := t <| refresh_ := r |> <| channel_state_ := _ |>).
  assert (ctrl_ok c [] t1 ∧ data_frame t t1) as [Ht1 F1].
  { split; [|by split].
    assert (channel_ok c (channel_state_ t1)) as Hcs1.
    { destruct (ct_channel _ _ _ Ht). constructor; try done. simpl.
      apply list.Forall_app. split; [done|]. eapply list.Forall_impl; [exact Hl|]. done. }
    destruct Ht as [H1 H2 H3 H4 H5 H6 H7 H8 H9 H10 H11 H12 H13 H14 H15 H16 H17].
    constructor; try done. eapply issued_quiet; [exact H15|by apply quiet_eq|exact Hcs1]. }
  destruct (next_command_total t1 Ht1) as (cmd & t2 & -> & Ht2 & (q2 & cs2 & st2 & E2) & Hv). simpl.
  assert (∃ t3, (if IsValid cmd then issue_commands c (Timing_new c) cmd t2 else Ok t2) = Ok t3 ∧
    ctrl_ok c [] t3 ∧ completes t1 t3) as (t3 & -> & Ht3 & Hc3).
  { assert (data_frame t1 t2) as F2 by by subst t2.
    destruct (IsValid cmd) eqn:HV.
    - destruct (Hv eq_refl) as [Hi Hns].
      destruct (issue_commands_total cmd t2) as (t3 & Hrun & Ht3 & Hc3); try done; [by subst t2|].
      exists t3. split_and!; [done|done|by eapply completes_before].
    - exists t2. split; [done|]. split; [|by left].
      destruct (IsReadWrite cmd) eqn:Hrw; [|done]. revert HV Hrw. by_type cmd; done. }
  simpl.
  destruct (loop_ok (update_rank_stats c) (seqZ 0 (ranks c)) t3) as (t4 & Hrun4 & Ht4 & F4); [|done|].
  { intros i t' Hi%seqZ_range Ht'. by apply update_rank_stats_total. }
  unfold for_upto. rewrite Hrun4. simpl. rewrite (safe_no_sref (c:=c)). simpl.
  destruct (Calculate_stats_total t4 Ht4) as (t5 & -> & Ht5 & F5). simpl.
  destruct (ScheduleTransaction_total t5 Ht5) as (t6 & -> & Ht6 & F6). simpl.
  eexists. split; [done|]. split.
  - apply ctrl_ok_count. destruct Ht6 as [H1 H2 H3 H4 H5 H6 H7 H8 H9 H10 H11 H12 H13 H14 H15 H16 H17].
    constructor; try done.
    + destruct H3. by constructor.
    + simpl. by rewrite H4.
    + apply u64_range.
  - assert (completes t1 t6) as Hc6.
    { eapply completes_after; [exact Hc3|]. etransitivity; [exact F4|]. by etransitivity. }
    destruct F1 as [E1 E1']. destruct Hc6 as [[G1 G2]|(h & k & G1 & G2 & G3)].
    + left. split; simpl; congruence.
    + right. exists h, k. simpl. rewrite <- E1, <- E1'. done.
Qed.

Lemma Controller_new_ok ch t :
  Controller_new c ch = Ok t → ctrl_ok c [] t.
Proof.
  unfold Controller_new. intros H. simplify_res.
  match goal with H : Refresh.Refresh_new c = Ok ?r |- _ =>
    pose proof (Refresh.Refresh_new_ok c r H (safe_interval r H) safe_policy) as Hr end.
  destruct (SimpleStats_new_ok c) as (st & Hst & Hok). rewrite Hst in Hrun. simplify_eq.
  destruct (CommandQueue.CommandQueue_new_ok c _ Hrun0) as (Hq & Hc & Hk).
  assert (∀ m : gmap Z (list Transaction), m = ∅ → ∀ h, mm_at m h = []) as Hm
    by (intros m -> h; unfold mm_at; by rewrite lookup_empty).
  assert (∀ l, l = [] → pend_ok l ∅) as Hempty.
  { intros l ->. split; [constructor|]. intros h. rewrite Hm by done. set_solver. }
  constructor; simpl in *; try done.
  - apply ChannelState_new_ok.
  - apply ChannelState_new_awake.
  - destruct (unified_queue c); simpl; unfold rv_size; simpl; lia.
  - unfold split_ok. simpl. intros ->. split; constructor.
  - unfold waiting. simpl. destruct (unified_queue c); constructor.
  - rewrite Hc. unfold waiting. simpl. apply Hempty. destruct (unified_queue c); done.
  - rewrite Hc. unfold waiting. simpl. apply Hempty. destruct (unified_queue c); done.
  - intros h. rewrite Hm by done. simpl. lia.
  - intros h x Hx. rewrite Hm in Hx by done. by apply not_elem_of_nil in Hx.
  - constructor.
  - by rewrite Hc.
Qed.
End controller_safety.
