(* ===== verification/ControllerRuns.v ===== *)
(** * ControllerRuns: runs of a memory controller (src/src/controller.cc)

    The events of a controller's life, as the memory system drives it: a
    transaction is offered, a cycle passes, a completed transaction is
    collected.  Over every run no cycle faults, every accepted request is
    pending, completed or answered exactly as often as it was accepted, and
    the queues stay within the capacity reserved for them. *)

From S2P Require Import Refresh CommandQueue.
From S2P Require Import Prelude Common Configuration Timing BankState ChannelState ChannelSafety.
From S2P Require Import SimpleStats Controller ControllerSafety.
Local Open Scope Z_scope.

(** ** Events *)

(** What identifies a request: its address, and whether it writes. *)
Definition key (x : Transaction) : Z * bool := (t_addr x, is_write x).

Definition times (k : Z * bool) (l : list (Z * bool)) : nat := length (filter (λ x, x = k) l).

Record World : Type := MkWorld {
  ctl : Controller; accepted : list (Z * bool); answered : list (Z * bool) }.

#[export] Instance World_eta : RecordEta World := λ w, MkWorld (ctl w) (accepted w) (answered w).

Inductive event : Type :=
  | Submit (hex_addr : Z) (is_write : bool)
  | Cycle
  | Collect (clk : Z).

(** What a caller of [ReturnDoneTrans] gets: a request, or nothing. *)
Definition answer (p : Z * Z) : list (Z * bool) :=
  if decide (p.2 = -1) then [] else [(p.1, bool_decide (p.2 = 1))].

(** [Submit] is guarded by [WillAcceptTransaction] as in the memory system. *)
Definition do_event (c : Config) (e : event) (w : World) : res World :=
  match e with
  | Submit a wr =>
    if WillAcceptTransaction a wr (ctl w)
    then Ok (w <| ctl ::= λ t, (AddTransaction (Transaction_new a wr) t).2 |>
               <| accepted ::= cons (a, wr) |>)
    else Ok w
  | Cycle => t ← ClockTick c (Timing_new c) (ctl w); Ok (w <| ctl := t |>)
  | Collect clk =>
    let '(p, t) := ReturnDoneTrans clk (ctl w) in
    Ok (w <| ctl := t |> <| answered ::= app (answer p) |>)
  end.

(** An address is a [uint64_t]; with two commands a cycle, a run is shorter
    than 2^63 cycles. *)
Definition event_ok (c : Config) (w : World) (e : event) : Prop :=
  match e with Submit a _ => 0 ≤ a | Cycle => clock_room c (ctl w) | Collect _ => True end.

Inductive reachable (c : Config) : World → Prop :=
  | reach_new ch t : Controller_new c ch = Ok t → reachable c (MkWorld t [] [])
  | reach_event e w w' : reachable c w → event_ok c w e → do_event c e w = Ok w' → reachable c w'.

(** ** Accounts *)

Definition pending_reads (k : Z * bool) (t : Controller) : nat :=
  if k.2 then 0%nat else length (mm_at (pending_rd_q_ t) k.1).

Definition completed (k : Z * bool) (t : Controller) : nat := times k (key <$> return_queue_ t).

(** Requests of the controller that are not answered yet. *)
Definition open_requests (k : Z * bool) (t : Controller) : nat :=
  (completed k t + pending_reads k t)%nat.

Lemma times_app k l1 l2 : times k (l1 ++ l2) = (times k l1 + times k l2)%nat.
Proof. unfold times. by rewrite list.filter_app, length_app. Qed.

Lemma times_cons k x l : times k (x :: l) = ((if decide (x = k) then 1 else 0) + times k l)%nat.
Proof. unfold times. rewrite list.filter_cons. by destruct (decide (x = k)). Qed.

Lemma times_perm k l l' : l ≡ₚ l' → times k l = times k l'.
Proof. unfold times. by intros ->. Qed.

Lemma times_all k l : Forall (λ x, x = k) l → times k l = length l.
Proof.
  induction 1 as [|x l -> _ IH]; [done|]. rewrite times_cons, decide_True, IH by done. done.
Qed.

Lemma times_none k l : Forall (λ x, x ≠ k) l → times k l = 0%nat.
Proof.
  induction 1 as [|x l Hx _ IH]; [done|]. rewrite times_cons, decide_False, IH by done. done.
Qed.

Lemma take_done_perm clk l x r :
  take_done clk l = Some (x, r) → l ≡ₚ x :: r ∧ complete_cycle x ≤ clk.
Proof.
  revert x r; induction l as [|y l IH]; intros x r; simpl; [done|].
  case_decide; [by intros [= <- <-]|]. intros H'. apply bind_Some in H' as ([z q] & Hz & [= <- <-]).
  apply IH in Hz as [-> ?]. split; [|done]. apply Permutation_swap.
Qed.

(** The answer of [ReturnDoneTrans] leaves the return queue. *)
Lemma ReturnDoneTrans_open clk t p t' k :
  ReturnDoneTrans clk t = (p, t') →
  open_requests k t = (times k (answer p) + open_requests k t')%nat.
Proof.
  unfold ReturnDoneTrans, open_requests, completed, pending_reads.
  destruct (take_done clk (return_queue_ t)) as [[x r]|] eqn:E; [|by intros [= <- <-]].
  apply take_done_perm in E as [Hp _]. rewrite (times_perm _ _ _ (fmap_Permutation key _ _ Hp)).
  intros [= <- Ht].
  assert (return_queue_ t' = r ∧ pending_rd_q_ t' = pending_rd_q_ t) as [-> ->]
    by (subst t'; by destruct (is_write x)).
  cbn [fmap list_fmap]. rewrite times_cons.
  assert (answer (t_addr x, Z.b2z (is_write x)) = [key x]) as ->
    by (unfold answer, key; by destruct (is_write x)).
  rewrite times_cons. change (times k []) with 0%nat. lia.
Qed.

(** An accepted transaction is one more open request. *)
Lemma AddTransaction_open x t k :
  open_requests k (AddTransaction x t).2 = (times k [key x] + open_requests k t)%nat.
Proof.
  assert (∀ y t, key y = key x → open_requests k (push_return y t) = (times k [key x] + open_requests k t)%nat) as Hret.
  { intros y t1 E. unfold open_requests, completed, pending_reads, push_return. simpl.
    rewrite fmap_app, times_app. simpl. rewrite E. lia. }
  assert (∀ y t, open_requests k (push_trans y t) = open_requests k t) as Hpush.
  { intros y t1. destruct (push_trans_frame y t1) as (_&_&_&_&_&_&_&E1&_&E2&_).
    unfold open_requests, completed, pending_reads. by rewrite E1, E2. }
  unfold AddTransaction. simpl. destruct (is_write x) eqn:Ew; simpl.
  - rewrite Hret by (unfold key; simpl; by rewrite Ew).
    case_decide; [rewrite Hpush|]; done.
  - case_decide; simpl; [rewrite Hret by (unfold key; simpl; by rewrite Ew); done|].
    set (t2 := (_ : Controller) <| pending_rd_q_ ::= _ |>).
    assert (open_requests k t2 = (times k [key x] + open_requests k t)%nat) as H2.
    { assert (key x = (t_addr x, false)) as -> by (unfold key; by rewrite Ew).
      unfold open_requests, completed, pending_reads. simpl. rewrite times_cons.
      destruct k as [h []]; simpl.
      - rewrite decide_False by done. unfold times. simpl. lia.
      - rewrite mm_at_insert. unfold times. simpl. case_decide as Hh.
        + subst. rewrite decide_True by done. rewrite length_app. simpl. lia.
        + rewrite decide_False by naive_solver. lia. }
    case_decide; [rewrite Hpush|]; done.
Qed.

(** A cycle only moves requests from pending to completed. *)
Lemma completes_open c t t' k :
  (∀ h x, x ∈ mm_at (pending_rd_q_ t) h → t_addr x = h ∧ is_write x = false) →
  completes c t t' → open_requests k t' = open_requests k t.
Proof.
  intros Hkeys [[E1 E2]|(h & clk & E1 & E2 & E3)]; unfold open_requests, completed, pending_reads.
  - by rewrite E1, E2.
  - rewrite E1, fmap_app, times_app, <- list_fmap_compose.
    destruct (decide (k = (h, false))) as [->|Hk].
    + rewrite (times_all _ ((_ ∘ _) <$> _)), length_fmap; [cbn [fst snd]; rewrite E2; cbn [length]; lia|].
      apply list.Forall_fmap, list.Forall_forall. intros x [<- ?]%Hkeys. by apply pair_equal_spec.
    + rewrite (times_none _ ((_ ∘ _) <$> _)).
      * destruct k as [h' []]; cbn [fst snd]; [lia|]. rewrite E3 by congruence. lia.
      * apply list.Forall_fmap, list.Forall_forall. intros x [<- ?]%Hkeys E. apply Hk.
        rewrite <- E. by apply pair_equal_spec.
Qed.

(** ** Capacity *)

(** The transaction queues of a controller, and its clock. *)
Definition queues_of (t : Controller) : Z * bool * rvec Transaction * rvec Transaction * rvec Transaction :=
  (clk_ t, is_unified_queue_ t, unified_queue_ t, read_queue_ t, write_buffer_ t).

(** A queue that was reserved for [n] transactions and never outgrew it. *)
Definition within (n : Z) (q : rvec Transaction) : Prop := rv_cap q = n ∧ rv_size q ≤ n.

Definition cap_ok (c : Config) (t : Controller) : Prop :=
  is_unified_queue_ t = unified_queue c ∧
  (if unified_queue c then within (trans_queue_size c) (unified_queue_ t)
   else within (trans_queue_size c) (read_queue_ t) ∧ within (trans_queue_size c) (write_buffer_ t)).

Lemma cap_ok_frame c t t' : queues_of t' = queues_of t → cap_ok c t → cap_ok c t'.
Proof. unfold queues_of, cap_ok. by intros [= _ -> -> -> ->]. Qed.

Lemma within_push n q x : within n q → rv_size q < rv_cap q → within n (rv_push_back q x).
Proof.
  intros [Hc Hs] Hroom. split; [by rewrite rv_push_back_cap|]. rewrite rv_push_back_size. lia.
Qed.

(** A transaction that was accepted fits. *)
Lemma AddTransaction_cap c x t :
  WillAcceptTransaction (t_addr x) (is_write x) t = true → cap_ok c t → cap_ok c (AddTransaction x t).2.
Proof.
  intros Hacc Hc.
  assert (∀ y t1, queues_of t1 = queues_of t → is_write y = is_write x → cap_ok c (push_trans y t1)) as Hpush.
  { intros y t1 [= _ E1 E2 E3 E4] Ew. destruct Hc as [Hu Hc]. unfold WillAcceptTransaction in Hacc.
    unfold push_trans, cap_ok. rewrite E1, Ew in *. rewrite Hu in *.
    destruct (unified_queue c); [|destruct (is_write x)]; simpl in *; rewrite ?E1, ?E2, ?E3, ?E4;
      apply bool_decide_eq_true in Hacc; (split; [done|]);
      [by apply within_push|destruct Hc; split; [done|by apply within_push]
      |destruct Hc; split; [by apply within_push|done]]. }
  assert (∀ y t1, cap_ok c t1 → cap_ok c (push_return y t1)) as Hret by done.
  unfold AddTransaction. simpl. destruct (is_write x) eqn:Ew; simpl.
  - apply Hret. case_decide; [by apply Hpush|done].
  - case_decide; simpl; [done|]. case_decide; [by apply Hpush|done].
Qed.

(** What a step of the cycle does to the queues is read off its definition. *)
Ltac step_inv :=
  repeat first
    [ progress simplify_res
    | progress cbn beta iota zeta in *
    | match goal with
      | H : context [match ?x with _ => _ end] |- _ =>
          lazymatch type of H with _ = Ok _ => destruct x eqn:?; try discriminate end
      end ].

Lemma complete_reads_queues c n h t t' : complete_reads c n h t = Ok t' → queues_of t' = queues_of t.
Proof.
  revert t; induction n as [|n IH]; intros t; simpl; intros H; simplify_res; [done|].
  apply IH in H. by rewrite H.
Qed.

Lemma IssueCommand_queues c T cmd t t' : IssueCommand c T cmd t = Ok t' → queues_of t' = queues_of t.
Proof.
  unfold IssueCommand. intros H. simplify_res. unfold queues_of. simpl.
  assert (queues_of c0 = queues_of t) as E1.
  { unfold complete_transactions in Hrun. step_inv; try done.
    etransitivity; [by eapply complete_reads_queues|done]. }
  assert (queues_of a = queues_of c0) as E2.
  { unfold UpdateCommandStats, count_row_hit in Hrun0. step_inv; done. }
  change (queues_of a = queues_of t). congruence.
Qed.

Lemma next_command_queues c t cmd t' : next_command c t = Ok (cmd, t') → queues_of t' = queues_of t.
Proof. unfold next_command, get_command. intros H. step_inv; simplify_eq; done. Qed.

Lemma issue_commands_queues c T cmd t t' :
  issue_commands c T cmd t = Ok t' → queues_of t' = queues_of t.
Proof.
  unfold issue_commands, get_command. intros H. step_inv; simplify_eq;
    repeat match goal with H : IssueCommand _ _ _ _ = Ok _ |- _ => apply IssueCommand_queues in H end;
    unfold queues_of in *; simpl in *; congruence.
Qed.

Lemma update_rank_stats_queues c i t t' :
  update_rank_stats c i t = Ok t' → queues_of t' = queues_of t.
Proof. unfold update_rank_stats. intros H. step_inv; done. Qed.

Lemma self_refresh_loop_queues c T rs t t' :
  self_refresh_loop c T rs t = Ok t' → queues_of t' = queues_of t.
Proof.
  revert t; induction rs as [|i rs IH]; intros t; simpl; intros H; [by simplify_res|].
  step_inv; repeat match goal with
    | H : IssueCommand _ _ _ _ = Ok _ |- _ => apply IssueCommand_queues in H
    | H : self_refresh_loop _ _ _ _ = Ok _ |- _ => apply IH in H end; done.
Qed.

Lemma calculate_bank_queues i j k t t' : calculate_bank i j k t = Ok t' → queues_of t' = queues_of t.
Proof. unfold calculate_bank. intros H. step_inv; done. Qed.

Lemma for_banks_preserves {S} c (P : S → Prop) f s s' :
  (∀ j k s1 s2, P s1 → f j k s1 = Ok s2 → P s2) → P s → for_banks c f s = Ok s' → P s'.
Proof.
  intros Hf. apply foldM_preserves. intros j s1 s2 _ Hs1. apply foldM_preserves; [|done].
  intros k s3 s4 _ Hs3. by apply Hf.
Qed.

Lemma Calculate_stats_queues c t t' : Calculate_stats c t = Ok t' → queues_of t' = queues_of t.
Proof.
  unfold Calculate_stats, for_upto. intros H.
  eapply (foldM_preserves _ (λ x, queues_of x = queues_of t)) in H; [done| |done].
  intros i t1 t2 _ Ht1 Hrun. apply bind_Ok_inv in Hrun as (a & Hb & Hrun).
  assert (queues_of a = queues_of t) as Ha.
  { revert Hb. apply (for_banks_preserves c (λ x, queues_of x = queues_of t)); [|done]. intros j k s1 s2 Hs1 Hr.
    apply calculate_bank_queues in Hr. congruence. }
  simplify_res. case_decide; simplify_res; done.
Qed.

Lemma within_with n q l : within n q → Z.of_nat (length l) ≤ rv_size q → within n (rv_with q l).
Proof. intros [Hc Hs] Hl. split; [done|]. unfold rv_size at 1. simpl. lia. Qed.

(** Taking transactions out of the scheduled queue keeps the capacity. *)
Lemma set_scheduled_cap c l t :
  cap_ok c t → Z.of_nat (length l) ≤ rv_size (scheduled_queue t) → cap_ok c (set_scheduled_queue l t).
Proof.
  unfold cap_ok, scheduled_queue, set_scheduled_queue. intros [Hu Hc].
  destruct (is_unified_queue_ t) eqn:Eu; [|destruct (decide _)]; simpl; rewrite ?Eu, <- Hu in *;
    (split; [done|]); [by apply within_with|destruct Hc; split..]; try done; by apply within_with.
Qed.

Lemma schedule_loop_cap c earlier rest t t' :
  cap_ok c t → earlier ++ rest = rv_data (scheduled_queue t) →
  schedule_loop c earlier rest t = Ok t' → cap_ok c t'.
Proof.
  revert earlier; induction rest as [|x later IH]; intros earlier Ht Hq; simpl; intros H;
    [by simplify_res|].
  simplify_res. destruct a; [|by apply (IH (earlier ++ [x])); [|rewrite <- app_assoc|]].
  case_match; simplify_res; [done|].
  assert (cap_ok c (set_scheduled_queue (earlier ++ later) t)).
  { apply set_scheduled_cap; [done|]. unfold rv_size. rewrite <- Hq, !length_app. simpl. lia. }
  case_match; simplify_res; done.
Qed.

Lemma schedule_loop_clk c earlier rest t t' :
  schedule_loop c earlier rest t = Ok t' → clk_ t' = clk_ t.
Proof.
  revert earlier; induction rest as [|x later IH]; intros earlier; simpl; intros H; [by simplify_res|].
  assert (clk_ (set_scheduled_queue (earlier ++ later) t) = clk_ t)
    by (unfold set_scheduled_queue; by repeat case_match).
  simplify_res. destruct a; [|by eapply IH]. case_match; simplify_res; [done|].
  case_match; simplify_res; done.
Qed.

Lemma ScheduleTransaction_clk c t t' : ScheduleTransaction c t = Ok t' → clk_ t' = clk_ t.
Proof. intros H%schedule_loop_clk. rewrite H. by repeat case_match. Qed.

Lemma ScheduleTransaction_cap c t t' : cap_ok c t → ScheduleTransaction c t = Ok t' → cap_ok c t'.
Proof.
  intros Ht. apply schedule_loop_cap; [|reflexivity]. by repeat case_match.
Qed.

(** Everything before [ScheduleTransaction] leaves the queues alone. *)
Lemma ClockTick_schedule c T t t' :
  ClockTick c T t = Ok t' →
  ∃ t1 t2, queues_of t1 = queues_of t ∧ ScheduleTransaction c t1 = Ok t2 ∧
    queues_of t' = (u64 (clk_ t2 + 1), is_unified_queue_ t2, unified_queue_ t2, read_queue_ t2, write_buffer_ t2).
Proof.
  intros H. unfold ClockTick in H. simplify_res.
  match goal with H : ScheduleTransaction _ ?x = Ok ?y |- _ => exists x, y; split; [|split; [exact H|done]] end.
  match goal with H : Calculate_stats _ _ = Ok _ |- _ => apply Calculate_stats_queues in H end.
  match goal with H : next_command _ _ = Ok _ |- _ => apply next_command_queues in H end.
  assert (queues_of a = queues_of c2) as E1.
  { clear Hrun3. destruct (IsValid c1); [|congruence]. by eapply issue_commands_queues. }
  assert (queues_of a0 = queues_of a) as E2.
  { revert Hrun2. unfold for_upto. apply (foldM_preserves _ (λ x, queues_of x = queues_of a)); [|done].
    intros i s1 s2 _ Hs1 Hs%update_rank_stats_queues. congruence. }
  assert (queues_of a1 = queues_of a0) as E3.
  { destruct (_ && _); [|congruence]. by eapply self_refresh_loop_queues. }
  change (queues_of c2 = queues_of t) in Hrun0. congruence.
Qed.

Lemma ClockTick_cap c T t t' : cap_ok c t → ClockTick c T t = Ok t' → cap_ok c t'.
Proof.
  intros Ht (t1 & t2 & E1 & Hs & E2)%ClockTick_schedule.
  assert (cap_ok c t2) as [H1 H2] by (eapply ScheduleTransaction_cap; [by eapply cap_ok_frame|done]).
  injection E2 as _ E3 E4 E5 E6. unfold cap_ok. by rewrite E3, E4, E5, E6.
Qed.

Lemma ClockTick_clk c T t t' : ClockTick c T t = Ok t' → clk_ t' = u64 (clk_ t + 1).
Proof.
  intros (t1 & t2 & E1 & Hs%ScheduleTransaction_clk & E2)%ClockTick_schedule.
  injection E1 as E1 _ _ _ _. injection E2 as E2 _ _ _ _. congruence.
Qed.

Lemma AddTransaction_clk x t : clk_ (AddTransaction x t).2 = clk_ t.
Proof.
  assert (∀ y t, clk_ (push_trans y t) = clk_ t) as Hp by (intros y t1; apply push_trans_frame).
  unfold AddTransaction. simpl. destruct (is_write x); simpl; case_decide; simpl; rewrite ?Hp; try done.
  case_decide; simpl; by rewrite ?Hp.
Qed.

Lemma ReturnDoneTrans_queues clk t : queues_of (ReturnDoneTrans clk t).2 = queues_of t.
Proof.
  unfold ReturnDoneTrans. destruct (take_done _ _) as [[x r]|]; [|done]. by destruct (is_write x).
Qed.

Lemma Controller_new_cap c ch t : Controller_new c ch = Ok t → cap_ok c t.
Proof.
  unfold Controller_new, check_reserve. intros H. simplify_res.
  destruct (decide (0 ≤ trans_queue_size c)); [|discriminate].
  split; [done|]. simpl. destruct (unified_queue c); repeat split; done.
Qed.

(** ** The invariant of a run *)

Record world_ok (c : Config) (w : World) : Prop := {
  wo_ctrl : ctrl_ok c [] (ctl w);
  wo_cap : cap_ok c (ctl w);
  wo_account : ∀ k, times k (accepted w) = (times k (answered w) + open_requests k (ctl w))%nat }.

Section runs.
Context (c : Config) `{Safe : !SafeConfig c}.

Lemma new_world_ok ch t : Controller_new c ch = Ok t → world_ok c (MkWorld t [] []).
Proof.
  intros Hn. split; [by eapply Controller_new_ok|by eapply Controller_new_cap|].
  intros [h wr]. unfold Controller_new in Hn. simplify_res. simpl.
  unfold open_requests, completed, pending_reads. simpl. unfold mm_at. rewrite lookup_empty.
  by destruct wr.
Qed.

(** Every event of a run succeeds and keeps the invariant. *)
Lemma do_event_ok e w :
  world_ok c w → event_ok c w e → ∃ w', do_event c e w = Ok w' ∧ world_ok c w'.
Proof.
  intros [Hc Hcap Hacc] He. destruct e as [a wr| |clk]; simpl.
  - destruct (WillAcceptTransaction a wr (ctl w)) eqn:Ew; [|by exists w].
    eexists. split; [done|]. constructor; simpl.
    + by apply AddTransaction_ok.
    + by apply AddTransaction_cap.
    + intros k. rewrite AddTransaction_open. change (key (Transaction_new a wr)) with (a, wr).
      rewrite !times_cons, Hacc. change (times k []) with 0%nat. lia.
  - destruct (ClockTick_total c (ctl w) Hc He) as (t & Hrun & Ht & Hcomp). rewrite Hrun. simpl.
    eexists. split; [done|]. constructor; simpl; [done|by eapply ClockTick_cap|].
    intros k. rewrite (completes_open c (ctl w)) by (done || apply Hc). done.
  - destruct (ReturnDoneTrans clk (ctl w)) as [p t] eqn:E. eexists. split; [done|].
    pose proof (ReturnDoneTrans_ok c clk (ctl w) [] Hc) as Ht.
    pose proof (ReturnDoneTrans_queues clk (ctl w)) as Hq. rewrite E in Ht, Hq.
    constructor; simpl; [done|by eapply cap_ok_frame|].
    intros k. rewrite times_app, Hacc, (ReturnDoneTrans_open _ _ _ _ _ E). lia.
Qed.

Lemma reachable_ok w : reachable c w → world_ok c w.
Proof.
  induction 1 as [ch t Hn|e w w' _ IH He Hrun]; [by eapply new_world_ok|].
  destruct (do_event_ok e w IH He) as (w'' & Hrun' & ?). by rewrite Hrun in Hrun'; simplify_res.
Qed.
End runs.

(** ** A sample run *)

#[export] Instance sample_safe : SafeConfig sample_config.
Proof.
  split; [apply sample_geometry|reflexivity|intros [=]| |done].
  intros r Hr. vm_compute in Hr. injection Hr as <-. done.
Qed.

Definition sample_run (es : list event) : res World :=
  t ← Controller_new sample_config 0; foldM (do_event sample_config) es (MkWorld t [] []).

(** Its addresses are [uint64_t]; this configuration issues one command a
    cycle. *)
Definition addresses_ok (es : list event) : Prop := Forall (λ e, ∀ a wr, e = Submit a wr → 0 ≤ a) es.

Lemma sample_event_ok w e : (∀ a wr, e = Submit a wr → 0 ≤ a) → event_ok sample_config w e.
Proof. intros He. destruct e as [a wr| |k]; simpl; [by apply (He a wr)|intros [=]|done]. Qed.

Lemma sample_run_reachable es w :
  sample_run es = Ok w → addresses_ok es → reachable sample_config w.
Proof.
  unfold sample_run, addresses_ok. intros H Hes. simplify_res. rewrite list.Forall_forall in Hes.
  revert H. apply foldM_preserves; [|by eapply reach_new].
  intros e w1 w2 He Hw1 Hw2. eapply reach_event; [exact Hw1| |exact Hw2].
  apply sample_event_ok. by apply Hes.
Qed.

(** Two reads and a write of one line, a read of another; then 60 cycles. *)
Definition sample_events : list event :=
  [Submit 64 false; Submit 64 false; Submit 4096 true; Submit 4096 false] ++ replicate 60 Cycle ++
  [Collect 60; Collect 60].

Lemma sample_events_ok : addresses_ok sample_events.
Proof. unfold addresses_ok, sample_events. repeat constructor; intros a wr [=]; lia. Qed.

Lemma sample_world : ∃ w, sample_run sample_events = Ok w ∧ (length (answered w) =? 2)%nat = true.
Proof. apply res_check_Ok. vm_compute. reflexivity. Qed.

(** ** Properties *)

(** C3: the controller never stops the simulation.  In every state that a
    controller reaches, every event succeeds: no [AbruptExit], no [exit], no
    access outside a vector.  The configuration does not enable self-refresh;
    where it enables two commands a cycle (HBM) its column delays keep two
    column commands in different cycles. *)
Theorem controller_never_faults (c : Config) (w : World) (e : event) :
  SafeConfig c → reachable c w → event_ok c w e → ∃ w', do_event c e w = Ok w'.
Proof.
  intros Safe Hw He. destruct (do_event_ok c e w (reachable_ok c w Hw) He) as (w' & ? & _). by exists w'.
Qed.

Lemma controller_never_faults_witness :
  ∃ w w', sample_run sample_events = Ok w ∧ do_event sample_config Cycle w = Ok w'.
Proof.
  destruct sample_world as (w & Hw & _).
  destruct (controller_never_faults sample_config w Cycle sample_safe
    (sample_run_reachable _ _ Hw sample_events_ok)) as [w' Hw'];
    [by apply sample_event_ok|].
  exists w, w'. split; assumption.
Defined.

(** C4: requests are conserved.  In every state of a run, for each address
    and direction, the requests accepted so far are the ones answered, the
    ones completed and waiting to be collected, and the reads still pending:
    none is lost, none is answered twice, none is invented. *)
Theorem requests_conserved (c : Config) (w : World) (h : Z) (wr : bool) :
  SafeConfig c → reachable c w →
  times (h, wr) (accepted w) =
    (times (h, wr) (answered w) + times (h, wr) (key <$> return_queue_ (ctl w))
     + (if wr then 0 else length (mm_at (pending_rd_q_ (ctl w)) h)))%nat.
Proof.
  intros Safe Hw. rewrite (wo_account c w (reachable_ok c w Hw)).
  unfold open_requests, completed, pending_reads. simpl. lia.
Qed.

Lemma requests_conserved_witness :
  ∃ w, sample_run sample_events = Ok w ∧
    times (64%Z, false) (accepted w) =
    (times (64%Z, false) (answered w) + times (64%Z, false) (key <$> return_queue_ (ctl w))
     + length (mm_at (pending_rd_q_ (ctl w)) 64%Z))%nat.
Proof.
  destruct sample_world as (w & Hw & _). exists w. split; [exact Hw|].
  apply (requests_conserved sample_config w 64 false sample_safe).
  apply (sample_run_reachable _ _ Hw sample_events_ok).
Defined.

(** C19: the transaction queues stay within the [trans_queue_size] reserved
    for them: the [WillAcceptTransaction] test is what keeps the vectors from
    growing, and with them the capacity that the test reads. *)
Theorem queues_never_overflow (c : Config) (w : World) :
  SafeConfig c → reachable c w →
  if unified_queue c
  then within (trans_queue_size c) (unified_queue_ (ctl w))
  else within (trans_queue_size c) (read_queue_ (ctl w)) ∧
       within (trans_queue_size c) (write_buffer_ (ctl w)).
Proof.
  intros Safe Hw. apply (wo_cap c w (reachable_ok c w Hw)).
Qed.

Lemma queues_never_overflow_witness :
  ∃ w, sample_run sample_events = Ok w ∧
    within (trans_queue_size sample_config) (read_queue_ (ctl w)) ∧
    within (trans_queue_size sample_config) (write_buffer_ (ctl w)).
Proof.
  destruct sample_world as (w & Hw & _). exists w. split; [exact Hw|].
  apply (queues_never_overflow sample_config w sample_safe).
  apply (sample_run_reachable _ _ Hw sample_events_ok).
Defined.

(** C18: what is pending has exactly one carrier.  An address has pending
    reads (a pending write) exactly when one transaction or command for it is
    on its way through the queues, and never two: the invariant under which
    the column command that completes an address always finds its requests. *)
Theorem pending_has_one_carrier (c : Config) (w : World) :
  SafeConfig c → reachable c w →
  let carriers := CommandQueue.commands (cmd_queue_ (ctl w)) in
  NoDup (raddrs (waiting (ctl w)) carriers) ∧ NoDup (waddrs (waiting (ctl w)) carriers) ∧
  ∀ h, (h ∈ raddrs (waiting (ctl w)) carriers ↔ mm_at (pending_rd_q_ (ctl w)) h ≠ []) ∧
       (h ∈ waddrs (waiting (ctl w)) carriers ↔ mm_at (pending_wr_q_ (ctl w)) h ≠ []).
Proof.
  intros Safe Hw carriers. pose proof (wo_ctrl c w (reachable_ok c w Hw)) as Hc.
  destruct (ct_reads _ _ _ Hc), (ct_writes _ _ _ Hc). done.
Qed.

Lemma pending_has_one_carrier_witness :
  ∃ w, sample_run [Submit 64 false; Submit 64 false] = Ok w ∧
    mm_at (pending_rd_q_ (ctl w)) 64 ≠ [] ∧
    NoDup (raddrs (waiting (ctl w)) (CommandQueue.commands (cmd_queue_ (ctl w)))) ∧
    64 ∈ raddrs (waiting (ctl w)) (CommandQueue.commands (cmd_queue_ (ctl w))).
Proof.
  destruct (res_check_Ok (sample_run [Submit 64 false; Submit 64 false])
    (λ w, 0 <? mm_count (pending_rd_q_ (ctl w)) 64) ltac:(vm_compute; reflexivity))
    as (w & Hw & Hne%Z.ltb_lt%mm_count_pos).
  exists w. split; [exact Hw|]. split; [exact Hne|].
  assert (addresses_ok [Submit 64 false; Submit 64 false]) as Hes
    by (repeat constructor; intros a wr [=]; lia).
  destruct (pending_has_one_carrier sample_config w sample_safe (sample_run_reachable _ _ Hw Hes))
    as (H1 & _ & H2).
  split; [exact H1|]. apply H2. exact Hne.
Defined.
