(* ===== verification/ControllerTrace.v ===== *)
(** * ControllerTrace: what a controller writes to its command trace

    With CMD_TRACE a controller writes a line for every command that it issues
    (src/src/controller.cc, [IssueCommand]).  A cycle only ever adds lines with
    its own clock, and nothing else touches the trace or the number of the
    channel. *)

From S2P Require Import Refresh CommandQueue.
From S2P Require Import Prelude Common Configuration Timing BankState ChannelState ChannelSafety.
From S2P Require Import SimpleStats Controller ControllerSafety ControllerRuns.
Local Open Scope Z_scope.

(** What identifies the log of a controller: its channel, its clock, its trace. *)
Definition log_of (t : Controller) : Z * Z * list (Z * Command) :=
  (channel_id_ t, clk_ t, cmd_trace_ t).

(** [t'] has written commands of the current cycle, and nothing else. *)
Definition logged (t t' : Controller) : Prop :=
  ∃ cmds, log_of t' = (channel_id_ t, clk_ t, cmd_trace_ t ++ (pair (clk_ t) <$> cmds)).

Lemma logged_same t t' : log_of t' = log_of t → logged t t'.
Proof. intros E. exists []. rewrite E. simpl. by rewrite app_nil_r. Qed.

#[export] Instance logged_refl : Reflexive logged.
Proof. intros t. by apply logged_same. Qed.

#[export] Instance logged_trans : Transitive logged.
Proof.
  intros t1 t2 t3 [l1 E1] [l2 E2]. injection E1 as I1 C1 T1.
  exists (l1 ++ l2). rewrite E2, I1, C1, T1, fmap_app. by rewrite <- app_assoc.
Qed.

Lemma complete_reads_log c n h t t' : complete_reads c n h t = Ok t' → log_of t' = log_of t.
Proof.
  revert t; induction n as [|n IH]; intros t; simpl; intros H; simplify_res; [done|].
  apply IH in H. by rewrite H.
Qed.

Lemma IssueCommand_logged c T cmd t t' : IssueCommand c T cmd t = Ok t' → logged t t'.
Proof.
  unfold IssueCommand. intros H. simplify_res. exists [cmd].
  assert (log_of c0 = log_of (t <| cmd_trace_ := cmd_trace_ t ++ [(clk_ t, cmd)] |>)) as E1.
  { unfold complete_transactions in Hrun. step_inv; try done.
    etransitivity; [by eapply complete_reads_log|done]. }
  assert (log_of a = log_of c0) as E2.
  { unfold UpdateCommandStats, count_row_hit in Hrun0. step_inv; done. }
  change (log_of a = (channel_id_ t, clk_ t, cmd_trace_ t ++ [(clk_ t, cmd)])). by rewrite E2, E1.
Qed.

Lemma next_command_log c t cmd t' : next_command c t = Ok (cmd, t') → log_of t' = log_of t.
Proof. unfold next_command, get_command. intros H. step_inv; simplify_eq; done. Qed.

Lemma issue_commands_logged c T cmd t t' : issue_commands c T cmd t = Ok t' → logged t t'.
Proof.
  unfold issue_commands, get_command. intros H. step_inv; simplify_eq;
    repeat match goal with H : IssueCommand _ _ _ _ = Ok _ |- _ => apply IssueCommand_logged in H end;
    (done || (etransitivity; [eassumption|]); try by apply logged_same).
  etransitivity; [|by apply logged_same]. etransitivity; [|eassumption]. by apply logged_same.
Qed.

Lemma update_rank_stats_log c i t t' : update_rank_stats c i t = Ok t' → log_of t' = log_of t.
Proof. unfold update_rank_stats. intros H. step_inv; done. Qed.

Lemma self_refresh_loop_logged c T rs t t' : self_refresh_loop c T rs t = Ok t' → logged t t'.
Proof.
  revert t; induction rs as [|i rs IH]; intros t; simpl; intros H; [by simplify_res|].
  step_inv; repeat match goal with
    | H : IssueCommand _ _ _ _ = Ok _ |- _ => apply IssueCommand_logged in H
    | H : self_refresh_loop _ _ _ _ = Ok _ |- _ => apply IH in H end; done.
Qed.

Lemma calculate_bank_log i j k t t' : calculate_bank i j k t = Ok t' → log_of t' = log_of t.
Proof. unfold calculate_bank. intros H. step_inv; done. Qed.

Lemma Calculate_stats_log c t t' : Calculate_stats c t = Ok t' → log_of t' = log_of t.
Proof.
  unfold Calculate_stats, for_upto. intros H.
  eapply (foldM_preserves _ (λ x, log_of x = log_of t)) in H; [done| |done].
  intros i t1 t2 _ Ht1 Hrun. apply bind_Ok_inv in Hrun as (a & Hb & Hrun).
  assert (log_of a = log_of t) as Ha.
  { revert Hb. apply (for_banks_preserves c (λ x, log_of x = log_of t)); [|done]. intros j k s1 s2 Hs1 Hr.
    apply calculate_bank_log in Hr. congruence. }
  simplify_res. case_decide; simplify_res; done.
Qed.

Lemma schedule_loop_log c earlier rest t t' :
  schedule_loop c earlier rest t = Ok t' → log_of t' = log_of t.
Proof.
  revert earlier; induction rest as [|x later IH]; intros earlier; simpl; intros H; [by simplify_res|].
  assert (log_of (set_scheduled_queue (earlier ++ later) t) = log_of t)
    by (unfold set_scheduled_queue; by repeat case_match).
  simplify_res. destruct a; [|by eapply IH]. case_match; simplify_res; [done|].
  case_match; simplify_res; done.
Qed.

Lemma ScheduleTransaction_log c t t' : ScheduleTransaction c t = Ok t' → log_of t' = log_of t.
Proof. intros H%schedule_loop_log. rewrite H. by repeat case_match. Qed.

(** A cycle writes lines with its own clock. *)
Lemma ClockTick_logged c T t t' :
  ClockTick c T t = Ok t' →
  ∃ t1, logged t t1 ∧ log_of t' = (channel_id_ t1, u64 (clk_ t1 + 1), cmd_trace_ t1).
Proof.
  intros H. unfold ClockTick in H. simplify_res.
  match goal with H : ScheduleTransaction _ _ = Ok ?y |- _ => exists y; split; [|done] end.
  repeat match goal with
  | H : ScheduleTransaction _ _ = Ok _ |- _ => apply ScheduleTransaction_log, logged_same in H
  | H : Calculate_stats _ _ = Ok _ |- _ => apply Calculate_stats_log, logged_same in H
  | H : next_command _ _ = Ok _ |- _ => apply next_command_log, logged_same in H
  end.
  assert (logged c2 a) as E1.
  { destruct (IsValid c1); [by eapply issue_commands_logged|by simplify_eq]. }
  assert (logged a a0) as E2.
  { revert Hrun2. unfold for_upto. apply (foldM_preserves _ (logged a)); [|done].
    intros i s1 s2 _ Hs1 Hs%update_rank_stats_log%logged_same. by etransitivity. }
  assert (logged a0 a1) as E3.
  { destruct (_ && _); [by eapply self_refresh_loop_logged|by simplify_eq]. }
  assert (logged t c2) as E0 by done.
  etransitivity; [exact E0|]. etransitivity; [exact E1|]. etransitivity; [exact E2|].
  etransitivity; [exact E3|]. by etransitivity.
Qed.

Lemma AddTransaction_log x t : log_of (AddTransaction x t).2 = log_of t.
Proof.
  assert (∀ y t, log_of (push_trans y t) = log_of t) as Hp.
  { intros y t1. unfold push_trans. by repeat case_match. }
  assert (∀ y t, log_of (push_return y t) = log_of t) as Hr by done.
  unfold AddTransaction. simpl. destruct (is_write x); simpl.
  - rewrite Hr. case_decide; by rewrite ?Hp.
  - case_decide; simpl; [by rewrite Hr|]. case_decide; by rewrite ?Hp.
Qed.

Lemma ReturnDoneTrans_log clk t : log_of (ReturnDoneTrans clk t).2 = log_of t.
Proof.
  unfold ReturnDoneTrans. destruct (take_done _ _) as [[x r]|]; [|done]. by destruct (is_write x).
Qed.

(** ** Clocks of a trace *)

Lemma clock_monotone_extend tr k cmds :
  clock_monotone tr → Forall (λ e, e.1 ≤ k) tr → clock_monotone (tr ++ (pair k <$> cmds)).
Proof.
  intros Hm Hle i j x y Hij Hi Hj. rewrite list.Forall_forall in Hle.
  assert (∀ n z, (pair k <$> cmds : list (Z * Command)) !! n = Some z → z.1 = k) as Hk.
  { intros n z Hz. rewrite list_lookup_fmap in Hz. by apply fmap_Some in Hz as (? & _ & ->). }
  apply lookup_app_Some in Hi as [Hi|[Hge Hi]]; apply lookup_app_Some in Hj as [Hj|[Hge' Hj]].
  - by eapply Hm.
  - rewrite (Hk _ _ Hj). apply Hle. by eapply list_elem_of_lookup_2.
  - apply lookup_lt_Some in Hj. lia.
  - by rewrite (Hk _ _ Hi), (Hk _ _ Hj).
Qed.
