(* ===== verification/Divergences.v ===== *)
(** * Divergences: where the code does not do what it means to

    Behaviours that the other files exclude by a hypothesis, shown on the
    code as it is: a read lost by the second command of a cycle on a
    two-rank HBM device, the abort that waking a rank from self-refresh runs
    into, and the per-bank refresh that leaves its own bank unconstrained. *)

From S2P Require Import Refresh CommandQueue.
From S2P Require Import Prelude Common Configuration Timing BankState ChannelState ChannelSafety.
From S2P Require Import SimpleStats Controller ControllerSafety ControllerRuns.
Local Open Scope Z_scope.

(** ** Two commands a cycle: configs/HBM2_4Gb_x128.ini *)

Definition hbm_integers (channel_size : Z) : list (string * Z) :=
  [("bankgroups", 4); ("banks_per_group", 4); ("rows", 16384); ("columns", 64);
   ("device_width", 128); ("BL", 4); ("num_dies", 4); ("CL", 14); ("CWL", 4);
   ("tRCDRD", 14); ("tRCDWR", 14); ("tRP", 14); ("tRAS", 34); ("tRFC", 260); ("tREFI", 3900);
   ("tREFIb", 128); ("tRPRE", 1); ("tWPRE", 1); ("tRRD_S", 4); ("tRRD_L", 6); ("tWTR_S", 6);
   ("tWTR_L", 8); ("tFAW", 30); ("tWR", 16); ("tCCD_S", 1); ("tCCD_L", 2); ("tXS", 268);
   ("tCKE", 8); ("tCKSRE", 10); ("tXP", 8); ("tRTP_L", 6); ("tRTP_S", 4);
   ("channel_size", channel_size); ("channels", 8); ("bus_width", 128); ("cmd_queue_size", 8);
   ("trans_queue_size", 32); ("epoch_period", 1000000); ("output_level", 1)]%string.

Definition hbm_strings : list (string * string) :=
  [("protocol", "HBM"); ("address_mapping", "rorabgbachco"); ("queue_structure", "PER_BANK");
   ("row_buf_policy", "OPEN_PAGE")]%string.

Definition hbm_reader (channel_size : Z) : INIReader :=
  MkINIReader (λ _ k d, assoc hbm_strings k d) (λ _ k d, assoc (hbm_integers channel_size) k d)
    (λ _ _ d, d).

(** As shipped: one rank.  With twice the capacity: two. *)
Definition hbm_config : Config :=
  Eval vm_compute in
    match Config_new (hbm_reader 512) 0 with Ok c => c | Fault _ => Config_uninit end.
Definition hbm_config_2 : Config :=
  Eval vm_compute in
    match Config_new (hbm_reader 1024) 0 with Ok c => c | Fault _ => Config_uninit end.

Lemma hbm_config_new : Config_new (hbm_reader 512) 0 = Ok hbm_config ∧
  Config_new (hbm_reader 1024) 0 = Ok hbm_config_2.
Proof. split; vm_compute; reflexivity. Qed.

(** The shipped configuration issues two commands a cycle, safely. *)
#[export] Instance hbm_safe : SafeConfig hbm_config.
Proof.
  split; [|reflexivity|intros _; vm_compute; reflexivity| |done].
  - apply (Config_new_geometry (hbm_reader 512) 0); [apply hbm_config_new|done..].
  - intros r Hr. vm_compute in Hr. injection Hr as <-. done.
Qed.

Definition run_from_new (c : Config) (es : list event) : res World :=
  t ← Controller_new c 0; foldM (do_event c) es (MkWorld t [] []).

(** Writes to two bank groups of rank 0, then reads of rank 1: a read becomes
    ready in the very cycle of a write. *)
Definition line (r g co : Z) : Z := encode hbm_config_2 (MkAddress 0 r g 1 1 co).

Definition lossy_events : list event :=
  ((λ i, Submit (line 0 (i mod 2) i) true) <$> seqZ 0 16) ++ replicate 5 Cycle ++
  ((λ i, Submit (encode hbm_config_2 (MkAddress 0 1 0 0 1 i)) false) <$> seqZ 0 4) ++
  replicate 150 Cycle.

(** The address of the lost read. *)
Definition lost_line : Z := encode hbm_config_2 (MkAddress 0 1 0 0 1 0).

(** The read was accepted, nothing in the controller carries it any more, and
    it is still pending. *)
Definition lost (h : Z) (w : World) : bool :=
  bool_decide ((h, false) ∈ accepted w) && (0 <? mm_count (pending_rd_q_ (ctl w)) h)
  && (length (waiting (ctl w)) =? 0)%nat
  && (length (CommandQueue.commands (cmd_queue_ (ctl w))) =? 0)%nat.

(** ** Waking up from self-refresh *)

(** The sample configuration with self-refresh after ten idle cycles. *)
Definition sref_config : Config :=
  sample_config <| enable_self_refresh := true |> <| sref_threshold := 10 |>.

(** Idle until rank 0 sleeps, then a read. *)
Definition sleepy_events : list event := replicate 20 Cycle ++ [Submit 0 false].

Lemma sref_geometry : Geometry sref_config.
Proof. destruct sample_geometry. by constructor. Qed.

Lemma bank_pairs_head c : Geometry c → ∃ l, bank_pairs c = (0, 0) :: l.
Proof.
  intros Geo. pose proof (geo_bankgroups (c:=c)). pose proof (geo_banks_per_group (c:=c)).
  unfold bank_pairs. rewrite (seqZ_cons 0 (bankgroups c)), (seqZ_cons 0 (banks_per_group c)) by lia.
  simpl. by eexists.
Qed.

(** The wake-up command itself is what the sleeping bank cannot answer. *)
Lemma SREF_EXIT_aborts c i clk cs b :
  Geometry c → lookup3 (bank_states_ cs) i 0 0 = Some b → state_ b = SREF →
  GetReadyCommand c (sref_command SREF_EXIT i) clk cs = Fault (AbruptExit "bankstate.cc" 90).
Proof.
  intros Geo Hb Hs. destruct (bank_pairs_head c Geo) as [l Hl].
  unfold GetReadyCommand.
  change (IsRankCMD (sref_command SREF_EXIT i)) with true. cbv iota. rewrite Hl.
  cbn [rank_ready]. unfold bank_ready. change (Rank (sref_command SREF_EXIT i)) with i.
  apply get3_Ok in Hb as ->. simpl. unfold BankState.GetReadyCommand, required_type. by rewrite Hs.
Qed.

(** ** Properties *)


(** Waking a rank aborts the run.  A rank in self-refresh whose queue has
    received a command is woken with SREF_EXIT; the banks of a sleeping rank
    answer only reads and writes, and take SREF_EXIT for an unknown command:
    the self-refresh loop of the clock stops the run there. *)
Theorem sref_wakeup_aborts (c : Config) (T : Timing) (i : Z) (rs : list Z) (t : Controller)
    (b : BankState) :
  Geometry c → vlookup (rank_is_sref_ (channel_state_ t)) i = Some true →
  vlookup (CommandQueue.rank_q_empty (cmd_queue_ t)) i = Some false →
  lookup3 (bank_states_ (channel_state_ t)) i 0 0 = Some b → state_ b = SREF →
  self_refresh_loop c T (i :: rs) t = Fault (AbruptExit "bankstate.cc" 90).
Proof.
  intros Geo Hs He Hb Hst. simpl. unfold IsRankSelfRefreshing.
  apply vec_get_Ok in Hs as ->. apply vec_get_Ok in He as ->. simpl.
  by rewrite (SREF_EXIT_aborts c i _ _ b).
Qed.

(** The state in which the read has reached the command queue. *)
Definition asleep_with_work (w : World) : bool :=
  bool_decide (vlookup (rank_is_sref_ (channel_state_ (ctl w))) 0 = Some true)
  && bool_decide (vlookup (CommandQueue.rank_q_empty (cmd_queue_ (ctl w))) 0 = Some false)
  && match lookup3 (bank_states_ (channel_state_ (ctl w))) 0 0 0 with
     | Some b => bool_decide (state_ b = SREF) | None => false end.

Lemma sref_wakeup_aborts_witness :
  ∃ w, run_from_new sref_config (sleepy_events ++ [Cycle]) = Ok w ∧
    self_refresh_loop sref_config (Timing_new sref_config) [0; 1] (ctl w)
      = Fault (AbruptExit "bankstate.cc" 90).
Proof.
  destruct (res_check_Ok (run_from_new sref_config (sleepy_events ++ [Cycle])) asleep_with_work
    ltac:(vm_compute; reflexivity)) as (w & Hw & H).
  exists w. split; [exact Hw|]. unfold asleep_with_work in H.
  rewrite !andb_true_iff, !bool_decide_eq_true in H. destruct H as [[H1 H2] H3].
  destruct (lookup3 (bank_states_ (channel_state_ (ctl w))) 0 0 0) as [b|] eqn:Hb; [|discriminate].
  apply bool_decide_eq_true in H3.
  exact (sref_wakeup_aborts sref_config (Timing_new sref_config) 0 [1] (ctl w) b sref_geometry H1 H2 Hb H3).
Defined.

(** A refreshed bank is not held back.  [Timing] files the delays of
    REFRESH_BANK under [same_rank], which [UpdateTiming] reads only for rank
    commands: the earliest cycles of the refreshed bank stay what they were,
    so an ACTIVATE may follow in the same cycle. *)
Theorem refreshed_bank_unconstrained (c : Config) (cmd : Command) (clk : Z) (s : ChannelState) :
  cmd_type cmd = REFRESH_BANK → cmd_addr_ok c cmd → banks_shape c s → windows_shape c s →
  ∃ s', UpdateTiming c (Timing_new c) cmd clk s = Ok s' ∧
    ∀ b, lookup3 (bank_states_ s) (Rank cmd) (Bankgroup cmd) (Bank cmd) = Some b →
      ∃ b', lookup3 (bank_states_ s') (Rank cmd) (Bankgroup cmd) (Bank cmd) = Some b' ∧
        ∀ t, ready_at b' t = ready_at b t.
Proof.
  intros Hty Ha Hs Hw.
  destruct (UpdateTiming_raises c (Timing_new c) cmd clk s s) as (s' & Hrun & v & -> & Hv);
    [apply Timing_new_ok|done|unfold IsValid; by rewrite Hty|done|unfold activation_step; by rewrite Hty|].
  eexists. split; [exact Hrun|]. intros b Hb.
  assert (constraints_for (Timing_new c) cmd (Rank cmd) (Bankgroup cmd) (Bank cmd) = []) as Hnil.
  { unfold constraints_for. rewrite Hty, !decide_False by naive_solver. reflexivity. }
  exists b. simpl. rewrite Hv, Hb, Hnil. split; [|done]. simpl. by rewrite raise_bank_nil.
Qed.

Lemma refreshed_bank_unconstrained_witness :
  let c := sample_config in let s := ChannelState_new c in
  let cmd := MkCommand REFRESH_BANK (MkAddress (-1) 0 1 2 (-1) (-1)) (u64 (-1)) in
  ∃ s', UpdateTiming c (Timing_new c) cmd 100 s = Ok s' ∧
    ∀ b, lookup3 (bank_states_ s) (Rank cmd) (Bankgroup cmd) (Bank cmd) = Some b →
      ∃ b', lookup3 (bank_states_ s') (Rank cmd) (Bankgroup cmd) (Bank cmd) = Some b' ∧
        ∀ t, ready_at b' t = ready_at b t.
Proof.
  apply refreshed_bank_unconstrained.
  - reflexivity.
  - vm_compute. repeat split; discriminate || reflexivity.
  - split; [apply dims3_replicate|]. intros i j k b ->%lookup3_replicate. reflexivity.
  - split; reflexivity.
Defined.
