(* ===== verification/DramSystem.v ===== *)
(** * DramSystem: the memory systems (src/src/dram_system.h, dram_system.cc)

    [JedecDRAMSystem] routes requests to the controllers of its channels,
    reports completed ones through the callbacks and clocks the controllers;
    [IdealDRAMSystem] answers after a fixed latency.  A callback is a function
    of the client: the system keeps which one is registered, and the calls
    made so far are a log, the latest first.  [address_trace_] is the file that
    is written with ADDR_TRACE: the address, the direction and the clock of
    every request, in order.  The floating-point rates that are only printed
    are not part of the model. *)

From S2P Require Import Refresh CommandQueue.
From S2P Require Import Prelude Common Configuration Timing BankState ChannelState ChannelSafety.
From S2P Require Import SimpleStats Controller ControllerSafety ControllerRuns.
Local Open Scope Z_scope.

(** A call of a callback: which one, and the request it reports. *)
Record Call : Type := MkCall { callee : Z; reported : Z * bool }.

Record BaseDRAMSystem : Type := MkBaseDRAMSystem {
  read_callback_ : Z;
  write_callback_ : Z;
  last_req_clk_ : Z;
  concurrent_serve : Z; active_cycles : Z;
  last_concurrent_serve : Z; last_active_cycles : Z;
  last_read_cmds : Z; last_write_cmds : Z;
  last_read_hits : Z; last_write_hits : Z;
  clk_ : Z;
  ctrls_ : list Controller;
  calls : list Call;
  address_trace_ : list (Z * bool * Z) }.

#[export] Instance BaseDRAMSystem_eta : RecordEta BaseDRAMSystem := λ s, MkBaseDRAMSystem
  (read_callback_ s) (write_callback_ s) (last_req_clk_ s) (concurrent_serve s) (active_cycles s)
  (last_concurrent_serve s) (last_active_cycles s) (last_read_cmds s) (last_write_cmds s)
  (last_read_hits s) (last_write_hits s) (clk_ s) (ctrls_ s) (calls s)
  (address_trace_ s).

Section dram_system.
Context (config_ : Config).

(** The static [total_channels_] is only ever written. *)
Definition BaseDRAMSystem_new (read_callback write_callback : Z) : BaseDRAMSystem :=
  MkBaseDRAMSystem read_callback write_callback 0 0 0 0 0 0 0 0 0 0 [] [] [].

Definition GetChannel (hex_addr : Z) : Z :=
  let h := Z.shiftr hex_addr (shift_bits config_) in
  i32 (Z.land (Z.shiftr h (ch_pos config_)) (ch_mask config_)).

Definition RegisterCallbacks (read_callback write_callback : Z) (s : BaseDRAMSystem) : BaseDRAMSystem :=
  s <| read_callback_ := read_callback |> <| write_callback_ := write_callback |>.

(** A loop over the controllers. *)
Definition for_ctrls (f : Controller → res Controller) (s : BaseDRAMSystem) : res BaseDRAMSystem :=
  for_upto (Z.of_nat (length (ctrls_ s)))
    (λ i s, v ← vec_modify (ctrls_ s) i f; Ok (s <| ctrls_ := v |>)) s.

Definition PrintEpochStats (s : BaseDRAMSystem) : res BaseDRAMSystem :=
  for_ctrls Controller.PrintEpochStats s.

Definition PrintStats (s : BaseDRAMSystem) : res BaseDRAMSystem :=
  for_ctrls Controller.PrintFinalStats s.

Definition ResetStats (s : BaseDRAMSystem) : res BaseDRAMSystem :=
  for_ctrls (λ t, Ok (Controller.ResetStats t)) s.

(** [stats_mo]: the numbers of a phase, as differences from the last one. *)
Record Phase : Type := MkPhase {
  current_read_cmds : Z; current_write_cmds : Z; current_read_hit : Z; current_write_hit : Z;
  phase_active_cycles : Z; phase_concurrent_serve : Z }.

Definition stats_mo (s : BaseDRAMSystem) : Phase * BaseDRAMSystem :=
  let sum f := foldl (λ n t, u64 (n + f t)) 0 (ctrls_ s) in
  let r := sum Controller.read_cmds in
  let w := sum Controller.write_cmds in
  let rh := sum Controller.read_row_hits in
  let wh := sum Controller.write_row_hits in
  (MkPhase (u64 (r - last_read_cmds s)) (u64 (w - last_write_cmds s))
     (u64 (rh - last_read_hits s)) (u64 (wh - last_write_hits s))
     (u64 (active_cycles s - last_active_cycles s))
     (u64 (concurrent_serve s - last_concurrent_serve s)),
   s <| last_read_cmds := r |> <| last_write_cmds := w |> <| last_read_hits := rh |>
     <| last_write_hits := wh |> <| last_concurrent_serve := concurrent_serve s |>
     <| last_active_cycles := active_cycles s |>).

(** ** JedecDRAMSystem *)

Definition JedecDRAMSystem_new (read_callback write_callback : Z) : res BaseDRAMSystem :=
  let s := BaseDRAMSystem_new read_callback write_callback in
  if IsHMC config_ then Fault (AbruptExit "dram_system.cc" 161)
  else
    _ ← check_reserve (channels config_);
    for_upto (channels config_)
      (λ i s, t ← Controller_new config_ i; Ok (s <| ctrls_ ::= λ v, v ++ [t] |>)) s.

Definition WillAcceptTransaction (hex_addr : Z) (is_write : bool) (s : BaseDRAMSystem) : res bool :=
  t ← vec_get (ctrls_ s) (GetChannel hex_addr);
  Ok (Controller.WillAcceptTransaction hex_addr is_write t).

(** The [assert(ok)] is compiled away in the default build type, Release. *)
Definition AddTransaction (hex_addr : Z) (is_write : bool) (s : BaseDRAMSystem)
    : res (bool * BaseDRAMSystem) :=
  let s := s <| address_trace_ ::= λ l, l ++ [(hex_addr, is_write, clk_ s)] |> in
  let channel := GetChannel hex_addr in
  ok ← WillAcceptTransaction hex_addr is_write s;
  s ← (if (ok : bool) then
         v ← vec_modify (ctrls_ s) channel
               (λ t, Ok (Controller.AddTransaction (Transaction_new hex_addr is_write) t).2);
         Ok (s <| ctrls_ := v |>)
       else Ok s);
  Ok (ok, s <| last_req_clk_ := clk_ s |>).

(** The [while (true)] loop over the completed transactions of channel [i];
    the fuel is one more than the entries of its return queue. *)
Fixpoint drain (fuel : nat) (i : Z) (s : BaseDRAMSystem) : res BaseDRAMSystem :=
  match fuel with
  | O => Fault NoFuel
  | S fuel =>
    t ← vec_get (ctrls_ s) i;
    let '(done, t) := ReturnDoneTrans (clk_ s) t in
    v ← vec_set (ctrls_ s) i t;
    let s := s <| ctrls_ := v |> in
    if decide (done.2 = 1)
    then drain fuel i (s <| calls ::= cons (MkCall (write_callback_ s) (done.1, true)) |>)
    else if decide (done.2 = 0)
    then drain fuel i (s <| calls ::= cons (MkCall (read_callback_ s) (done.1, false)) |>)
    else Ok s
  end.

Definition drain_channel (i : Z) (s : BaseDRAMSystem) : res BaseDRAMSystem :=
  t ← vec_get (ctrls_ s) i; drain (S (length (return_queue_ t))) i s.

(** [ctrls_[i]->ClockTick()] and the activity counters; [changed] is a
    variable of the loop body, so each active channel counts. *)
Definition tick_channel (i : Z) (s : BaseDRAMSystem) : res BaseDRAMSystem :=
  t ← vec_get (ctrls_ s) i;
  t ← Controller.ClockTick config_ (Timing_new config_) t;
  v ← vec_set (ctrls_ s) i t;
  let s := s <| ctrls_ := v |> in
  Ok (if is_active_cycles t
      then s <| active_cycles ::= λ n, u64 (n + 1) |>
             <| concurrent_serve ::= λ n, u64 (n + Controller.concurrent_serve t) |>
      else s).

Definition ClockTick (s : BaseDRAMSystem) : res BaseDRAMSystem :=
  let n := Z.of_nat (length (ctrls_ s)) in
  s ← for_upto n drain_channel s;
  s ← for_upto n tick_channel s;
  let s := s <| clk_ ::= λ k, u64 (k + 1) |> in
  if decide (u64 (epoch_period config_) = 0) then Fault DivideByZero
  else if decide (clk_ s mod u64 (epoch_period config_) = 0) then PrintEpochStats s else Ok s.
End dram_system.

(** ** IdealDRAMSystem *)

Record IdealDRAMSystem : Type := MkIdealDRAMSystem {
  base : BaseDRAMSystem; latency_ : Z; infinite_buffer_q_ : list Transaction }.

#[export] Instance IdealDRAMSystem_eta : RecordEta IdealDRAMSystem := λ s, MkIdealDRAMSystem
  (base s) (latency_ s) (infinite_buffer_q_ s).

Module Ideal.

Definition IdealDRAMSystem_new (config : Config) (read_callback write_callback : Z) : IdealDRAMSystem :=
  MkIdealDRAMSystem (BaseDRAMSystem_new read_callback write_callback)
    (ideal_memory_latency config) [].

Definition WillAcceptTransaction (hex_addr : Z) (is_write : bool) (s : IdealDRAMSystem) : bool := true.

Definition AddTransaction (hex_addr : Z) (is_write : bool) (s : IdealDRAMSystem)
    : bool * IdealDRAMSystem :=
  let trans := (Transaction_new hex_addr is_write) <| added_cycle := clk_ (base s) |> in
  (true, s <| infinite_buffer_q_ ::= λ q, q ++ [trans] |>).

(** [clk_ - added_cycle >= latency_] on [uint64_t]. *)
Definition expired (clk latency : Z) (x : Transaction) : bool :=
  u64 latency <=? u64 (clk - added_cycle x).

Definition callback (s : BaseDRAMSystem) (x : Transaction) : Call :=
  MkCall (if is_write x then write_callback_ s else read_callback_ s) (t_addr x, is_write x).

(** The iterator loop: after [erase] the iterator stands on the next element,
    and the [++] that follows passes over it. *)
Fixpoint scan (clk latency : Z) (call : Transaction → Call) (q : list Transaction) (log : list Call)
    : list Transaction * list Call :=
  match q with
  | [] => ([], log)
  | x :: q =>
    if expired clk latency x then
      match q with
      | [] => ([], call x :: log)
      | y :: q => let '(kept, log) := scan clk latency call q (call x :: log) in (y :: kept, log)
      end
    else let '(kept, log) := scan clk latency call q log in (x :: kept, log)
  end.

Definition ClockTick (s : IdealDRAMSystem) : IdealDRAMSystem :=
  let b := base s in
  let '(kept, log) := scan (clk_ b) (latency_ s) (callback b) (infinite_buffer_q_ s) (calls b) in
  s <| infinite_buffer_q_ := kept |>
    <| base := b <| calls := log |> <| clk_ ::= λ k, u64 (k + 1) |> |>.
End Ideal.
