(* ===== verification/DramSystemSafety.v ===== *)
(** * DramSystemSafety: what a memory system guarantees (src/src/dram_system.cc)

    Requests are routed by their address, each completed transaction is
    reported exactly once and in order, no operation of a run faults, and the
    ideal memory answers everything.  The invariant is the one of the
    controllers, channel by channel. *)

From S2P Require Import Refresh CommandQueue.
From S2P Require Import Prelude Common Configuration Timing BankState ChannelState ChannelSafety.
From S2P Require Import SimpleStats Controller ControllerSafety ControllerRuns DramSystem.
Local Open Scope Z_scope.

Lemma GetChannel_mapping c h : GetChannel c h = channel (AddressMapping c h).
Proof. reflexivity. Qed.

(** ** Draining a return queue *)

(** A transaction that has completed by [clk]. *)
Definition is_done (clk : Z) (x : Transaction) : bool := complete_cycle x <=? clk.

Definition done_of (clk : Z) (l : list Transaction) : list Transaction :=
  filter (λ x, is_done clk x = true) l.
Definition rest_of (clk : Z) (l : list Transaction) : list Transaction :=
  filter (λ x, is_done clk x = false) l.

Lemma done_of_rest clk l : done_of clk (rest_of clk l) = [].
Proof.
  unfold done_of, rest_of. induction l as [|x l IH]; [done|]. rewrite list.filter_cons.
  case_decide as Hx; [|done]. by rewrite list.filter_cons, decide_False, IH by congruence.
Qed.

Lemma take_done_spec clk l :
  match take_done clk l with
  | Some (x, r) => done_of clk l = x :: done_of clk r ∧ rest_of clk r = rest_of clk l ∧
                   length l = S (length r)
  | None => done_of clk l = [] ∧ rest_of clk l = l
  end.
Proof.
  unfold done_of, rest_of, is_done. induction l as [|y l IH]; simpl; [done|].
  rewrite !list.filter_cons. case_decide as Hy.
  - rewrite decide_True by by apply Z.leb_le. rewrite decide_False; [done|].
    rewrite Z.leb_gt. lia.
  - rewrite decide_False by (rewrite Z.leb_le; lia).
    rewrite decide_True by (rewrite Z.leb_gt; lia).
    destruct (take_done clk l) as [[x r]|]; simpl.
    + destruct IH as (IH1 & IH2 & IH3). rewrite !list.filter_cons.
      rewrite decide_False by (rewrite Z.leb_le; lia).
      rewrite decide_True by (rewrite Z.leb_gt; lia). rewrite IH2, IH3. done.
    + destruct IH as [IH1 IH2]. by rewrite IH1, IH2.
Qed.

(** The call that reports a transaction. *)
Definition call_of (s : BaseDRAMSystem) (x : Transaction) : Call :=
  MkCall (if is_write x then write_callback_ s else read_callback_ s) (key x).

(** What [drain] leaves: the controller [t'], the calls in order. *)
Definition drained (clk : Z) (t t' : Controller) : Prop :=
  return_queue_ t' = rest_of clk (return_queue_ t) ∧ queues_of t' = queues_of t ∧
  ∀ c acc ans, SafeConfig c → world_ok c (MkWorld t acc ans) →
    world_ok c (MkWorld t' acc (reverse (key <$> done_of clk (return_queue_ t)) ++ ans)).

Lemma collect_ok c clk t p t' acc ans :
  SafeConfig c → ReturnDoneTrans clk t = (p, t') → world_ok c (MkWorld t acc ans) →
  world_ok c (MkWorld t' acc (answer p ++ ans)).
Proof.
  intros Safe E Hw. destruct (do_event_ok c (Collect clk) _ Hw I) as (w' & Hrun & Hw').
  simpl in Hrun. rewrite E in Hrun. by simplify_res.
Qed.

Lemma drain_run fuel i s t :
  vlookup (ctrls_ s) i = Some t → (length (return_queue_ t) < fuel)%nat →
  ∃ t' v, drain fuel i s = Ok (s <| ctrls_ := v |>
      <| calls := reverse (call_of s <$> done_of (clk_ s) (return_queue_ t)) ++ calls s |>) ∧
    replaced (ctrls_ s) i t' v ∧ drained (clk_ s) t t'.
Proof.
  revert s t; induction fuel as [|fuel IH]; intros s t Ht Hf; [lia|].
  cbn [drain]. apply vec_get_Ok in Ht as Hget. rewrite Hget. cbn [mbind res_bind].
  pose proof (ReturnDoneTrans_queues (clk_ s) t) as Hq.
  destruct (ReturnDoneTrans (clk_ s) t) as [p t1] eqn:E. simpl in Hq.
  destruct (vec_set_replaced _ _ _ t1 Ht) as (v & -> & Hv). cbn [mbind res_bind].
  pose proof (take_done_spec (clk_ s) (return_queue_ t)) as Hspec.
  destruct (take_done (clk_ s) (return_queue_ t)) as [[x r]|] eqn:Etd.
  - destruct Hspec as (D1 & D2 & D3).
    assert (p = (t_addr x, Z.b2z (is_write x)) ∧ return_queue_ t1 = r) as [-> Er].
    { unfold ReturnDoneTrans in E. rewrite Etd in E. injection E as <- <-. by destruct (is_write x). }
    set (s1 := s <| ctrls_ := v |> <| calls ::= cons (call_of s x) |>).
    destruct (IH s1 t1) as (t' & w & Hrun & Hw & Hd1 & Hd2 & Hd3).
    { simpl. destruct Hv as [_ ->]. by rewrite decide_True. }
    { rewrite Er. lia. }
    exists t', w. rewrite Er in *. split; [|split; [by eapply replaced_trans|split_and!]].
    + assert (drain fuel i s1 = Ok (s <| ctrls_ := w |>
        <| calls := reverse (call_of s <$> done_of (clk_ s) (return_queue_ t)) ++ calls s |>)) as Hrun'
        by (rewrite Hrun, D1, fmap_cons, reverse_cons, <- app_assoc; done).
      rewrite <- Hrun'. unfold s1, call_of, key. cbn [fst snd].
      destruct (is_write x); cbn [Z.b2z]; [by rewrite decide_True|].
      by rewrite decide_False, decide_True.
    + change (clk_ s1) with (clk_ s) in Hd1. by rewrite Hd1, D2.
    + congruence.
    + intros c acc ans Safe Hok. change (clk_ s1) with (clk_ s) in Hd3.
      rewrite D1, fmap_cons, reverse_cons, <- app_assoc. apply Hd3; [done|].
      assert (answer (t_addr x, Z.b2z (is_write x)) = [key x]) as <-
        by (unfold answer, key; by destruct (is_write x)).
      by eapply collect_ok.
  - destruct Hspec as [D1 D2].
    assert (p = (u64 (-1), -1) ∧ t1 = t) as [-> ->].
    { unfold ReturnDoneTrans in E. rewrite Etd in E. by injection E as <- <-. }
    cbn [fst snd]. rewrite !decide_False by done. exists t, v. rewrite D1. split; [|split; [done|]].
    + by destruct s.
    + split; [by rewrite D2|]. split; [done|]. intros c acc ans _ Hok. rewrite D1. done.
Qed.

(** ** The invariant of a system *)

(** The requests of a channel. *)
Definition for_channel (c : Config) (i : Z) (l : list (Z * bool)) : list (Z * bool) :=
  filter (λ k, GetChannel c k.1 = i) l.

Definition reported_keys (s : BaseDRAMSystem) : list (Z * bool) := reported <$> calls s.

(** [acc] are the requests accepted so far. *)
Record sys_ok (c : Config) (acc : list (Z * bool)) (s : BaseDRAMSystem) : Prop := {
  sy_len : length (ctrls_ s) = Z.to_nat (channels c);
  sy_clk : ∀ i t, vlookup (ctrls_ s) i = Some t → Controller.clk_ t = clk_ s;
  sy_ctl : ∀ i t, vlookup (ctrls_ s) i = Some t →
    world_ok c (MkWorld t (for_channel c i acc) (for_channel c i (reported_keys s))) }.

Lemma for_channel_app c i l1 l2 : for_channel c i (l1 ++ l2) = for_channel c i l1 ++ for_channel c i l2.
Proof. apply list.filter_app. Qed.

Lemma for_channel_all c i l : Forall (λ k, GetChannel c k.1 = i) l → for_channel c i l = l.
Proof.
  unfold for_channel. induction 1 as [|k l Hk _ IH]; [done|].
  by rewrite list.filter_cons, decide_True, IH.
Qed.

Lemma for_channel_none c i j l : Forall (λ k, GetChannel c k.1 = j) l → i ≠ j → for_channel c i l = [].
Proof.
  intros Hl Hne. unfold for_channel. induction Hl as [|k l Hk _ IH]; [done|].
  rewrite list.filter_cons, decide_False by congruence. done.
Qed.

Lemma times_for_channel c i h wr l :
  times (h, wr) (for_channel c i l) =
    if decide (GetChannel c h = i) then times (h, wr) l else 0%nat.
Proof.
  unfold for_channel. induction l as [|k l IH]; [by case_decide|]. rewrite list.filter_cons.
  destruct (decide (GetChannel c k.1 = i)); rewrite !times_cons, ?IH.
  - case_decide; [done|]. rewrite decide_False by (intros ->; done). done.
  - destruct (decide (GetChannel c h = i)); [|done].
    rewrite decide_False by (intros ->; done). done.
Qed.

(** What a controller holds was accepted for its channel. *)
Lemma return_queue_channel c i acc ans t x :
  world_ok c (MkWorld t (for_channel c i acc) ans) → x ∈ return_queue_ t →
  GetChannel c (key x).1 = i.
Proof.
  intros Hw Hx. pose proof (wo_account c _ Hw (key x)) as Ha. simpl in Ha.
  assert (0 < completed (key x) t)%nat as Hpos.
  { unfold completed, times. assert (key x ∈ filter (λ k, k = key x) (key <$> return_queue_ t)) as Hin.
    { apply list_elem_of_filter. split; [done|]. by apply list_elem_of_fmap_2. }
    destruct (filter _ _); [by apply not_elem_of_nil in Hin|simpl; lia]. }
  unfold open_requests in Ha.
  assert (times (key x) (for_channel c i acc) ≠ 0)%nat as Hne by lia.
  unfold times in Hne. destruct (filter (λ k, k = key x) (for_channel c i acc)) as [|k l] eqn:E; [done|].
  assert (k ∈ filter (λ k, k = key x) (for_channel c i acc)) as Hk by (rewrite E; set_solver).
  apply list_elem_of_filter in Hk as [-> Hk]. by apply list_elem_of_filter in Hk as [? _].
Qed.

Section system.
Context (c : Config) `{Safe : !SafeConfig c}.

(** Replacing the controller of one channel. *)
Lemma sys_ok_replace acc acc' s s' i t t' :
  sys_ok c acc s → vlookup (ctrls_ s) i = Some t → replaced (ctrls_ s) i t' (ctrls_ s') →
  clk_ s' = clk_ s → Controller.clk_ t' = Controller.clk_ t →
  world_ok c (MkWorld t' (for_channel c i acc') (for_channel c i (reported_keys s'))) →
  (∀ j, j ≠ i → for_channel c j acc' = for_channel c j acc ∧
     for_channel c j (reported_keys s') = for_channel c j (reported_keys s)) →
  sys_ok c acc' s'.
Proof.
  intros [L C W] Ht [Rl Rv] Ek Et Hw Hrest. constructor; [congruence| |].
  - intros j u. rewrite Rv, Ek. case_decide; [intros [= <-]; rewrite Et; by eapply C|apply C].
  - intros j u. rewrite Rv. case_decide as Hj.
    + intros [= <-]. by subst j.
    + intros Hu. destruct (Hrest j Hj) as [-> ->]. by apply W.
Qed.

Lemma queues_of_clk t t' : queues_of t' = queues_of t → Controller.clk_ t' = Controller.clk_ t.
Proof. by intros [= ->]. Qed.

Lemma drain_channel_ok acc s i t :
  sys_ok c acc s → vlookup (ctrls_ s) i = Some t →
  ∃ s', drain_channel i s = Ok s' ∧ sys_ok c acc s' ∧ clk_ s' = clk_ s ∧
    read_callback_ s' = read_callback_ s ∧ write_callback_ s' = write_callback_ s ∧
    calls s' = reverse (call_of s <$> done_of (clk_ s) (return_queue_ t)) ++ calls s ∧
    ∃ t', replaced (ctrls_ s) i t' (ctrls_ s') ∧ return_queue_ t' = rest_of (clk_ s) (return_queue_ t).
Proof.
  intros Hs Ht. unfold drain_channel. apply vec_get_Ok in Ht as Hget. rewrite Hget. cbn [mbind res_bind].
  destruct (drain_run (S (length (return_queue_ t))) i s t Ht) as (t' & v & Hrun & Hv & D1 & D2 & D3);
    [lia|].
  rewrite Hrun.
  eexists. split; [done|]. split; [|split_and!; [done..|by exists t']].
  pose proof (sy_ctl _ _ _ Hs i t Ht) as Hw.
  assert (Forall (λ k, GetChannel c k.1 = i)
    (reported <$> reverse (call_of s <$> done_of (clk_ s) (return_queue_ t)))) as Hall.
  { apply list.Forall_forall. intros k (cl & -> & Hcl)%list_elem_of_fmap.
    apply elem_of_reverse, list_elem_of_fmap in Hcl as (x & -> & [_ Hx]%list_elem_of_filter).
    by eapply return_queue_channel. }
  apply (sys_ok_replace acc acc s _ i t t'); try done.
  - by apply queues_of_clk.
  - unfold reported_keys. simpl. rewrite fmap_app, for_channel_app, (for_channel_all _ _ _ Hall).
    rewrite fmap_reverse, <- list_fmap_compose. by apply D3.
  - intros j Hj. split; [done|]. unfold reported_keys. simpl.
    rewrite fmap_app, for_channel_app. by rewrite (for_channel_none _ _ _ _ Hall Hj).
Qed.

(** The calls that report the completed transactions of channel [i]. *)
Definition reports (s : BaseDRAMSystem) (i : Z) : list Call :=
  match vlookup (ctrls_ s) i with
  | Some t => call_of s <$> done_of (clk_ s) (return_queue_ t)
  | None => []
  end.

Definition all_reports (s : BaseDRAMSystem) (n : Z) : list Call := seqZ 0 n ≫= reports s.

Lemma all_reports_succ s n : 0 ≤ n → all_reports s (n + 1) = all_reports s n ++ reports s n.
Proof.
  intros Hn. unfold all_reports. rewrite seqZ_app by lia. rewrite bind_app. f_equal.
  rewrite Z.add_0_l. simpl. by rewrite app_nil_r.
Qed.

(** After the first loop everything completed has been reported, in order. *)
Lemma drain_all_ok acc s :
  sys_ok c acc s →
  ∃ s', for_upto (Z.of_nat (length (ctrls_ s))) drain_channel s = Ok s' ∧ sys_ok c acc s' ∧
    clk_ s' = clk_ s ∧ calls s' = reverse (all_reports s (Z.of_nat (length (ctrls_ s)))) ++ calls s ∧
    ∀ i t', vlookup (ctrls_ s') i = Some t' → done_of (clk_ s) (return_queue_ t') = [].
Proof.
  intros Hs. set (n := Z.of_nat (length (ctrls_ s))).
  destruct (for_upto_total (λ i s1, sys_ok c acc s1 ∧ clk_ s1 = clk_ s ∧
      read_callback_ s1 = read_callback_ s ∧ write_callback_ s1 = write_callback_ s ∧
      calls s1 = reverse (all_reports s i) ++ calls s ∧
      length (ctrls_ s1) = length (ctrls_ s) ∧
      (∀ j, i ≤ j → vlookup (ctrls_ s1) j = vlookup (ctrls_ s) j) ∧
      (∀ j t', j < i → vlookup (ctrls_ s1) j = Some t' → done_of (clk_ s) (return_queue_ t') = []))
    n drain_channel s) as (s' & Hrun & H1 & H2 & _ & _ & H3 & Hl & _ & H4).
  - lia.
  - split_and!; try done. intros j t' Hj Hv. apply vlookup_range in Hv. lia.
  - intros i s1 Hi (Hs1 & Ek & Er & Ew & Ec & El & Hge & Hlt).
    destruct (vlookup_lt (ctrls_ s) i) as [t Ht]; [lia|].
    rewrite <- Hge in Ht by lia.
    destruct (drain_channel_ok acc s1 i t Hs1 Ht) as (s2 & Hrun & Hs2 & Ek2 & Er2 & Ew2 & Ec2 & t' & [Rl Rv] & Hrq).
    exists s2. split; [done|]. split_and!; try congruence.
    + rewrite all_reports_succ, reverse_app, <- app_assoc, Ec2, Ec by lia. f_equal. f_equal.
      unfold reports. rewrite <- Hge, Ht, Ek by lia. unfold call_of. by rewrite Er, Ew.
    + intros j Hj. rewrite Rv, decide_False by lia. apply Hge. lia.
    + intros j u Hj. rewrite Rv. case_decide.
      * intros [= <-]. rewrite Hrq, Ek. apply done_of_rest.
      * apply Hlt. lia.
  - exists s'. split_and!; [done..|]. intros i t' Hv. apply (H4 i); [|done].
    apply vlookup_range in Hv. lia.
Qed.

(** One controller in the second loop. *)
Lemma tick_channel_ok i s acc t :
  length (ctrls_ s) = Z.to_nat (channels c) → vlookup (ctrls_ s) i = Some t →
  world_ok c (MkWorld t (for_channel c i acc) (for_channel c i (reported_keys s))) → clock_room c t →
  ∃ s' t', tick_channel c i s = Ok s' ∧ replaced (ctrls_ s) i t' (ctrls_ s') ∧
    clk_ s' = clk_ s ∧ calls s' = calls s ∧ Controller.clk_ t' = u64 (Controller.clk_ t + 1) ∧
    world_ok c (MkWorld t' (for_channel c i acc) (for_channel c i (reported_keys s))).
Proof.
  intros Hl Ht Hw Hroom. unfold tick_channel. apply vec_get_Ok in Ht as Hget. rewrite Hget.
  cbn [mbind res_bind].
  destruct (do_event_ok c Cycle _ Hw Hroom) as (w' & Hrun & Hw'). simpl in Hrun.
  destruct (Controller.ClockTick c (Timing_new c) t) as [t'|] eqn:Et; [|done]. simpl in Hrun.
  simplify_res. cbn [mbind res_bind].
  destruct (vec_set_replaced _ _ _ t' Ht) as (v & -> & Hv). cbn [mbind res_bind].
  eexists _, t'. split; [done|]. split_and!; try (destruct (is_active_cycles t'); done).
  by eapply ClockTick_clk.
Qed.

Lemma world_ok_frame acc ans t t' :
  ctrl_ok c [] t' → queues_of t' = queues_of t → return_queue_ t' = return_queue_ t →
  pending_rd_q_ t' = pending_rd_q_ t → world_ok c (MkWorld t acc ans) → world_ok c (MkWorld t' acc ans).
Proof.
  intros Hc Hq Hr Hp [H1 H2 H3]. constructor; simpl in *; [done|by eapply cap_ok_frame|].
  intros k. rewrite H3. unfold open_requests, completed, pending_reads. by rewrite Hr, Hp.
Qed.

(** What only touches the statistics of a controller. *)
Definition stats_step (f : Controller → res Controller) : Prop :=
  ∀ t acc ans, world_ok c (MkWorld t acc ans) →
    ∃ t', f t = Ok t' ∧ Controller.clk_ t' = Controller.clk_ t ∧ world_ok c (MkWorld t' acc ans).

Lemma PrintEpochStats_step : stats_step Controller.PrintEpochStats.
Proof.
  intros t acc ans Hw. unfold Controller.PrintEpochStats.
  destruct (UpdateEpochStats_ok c (simple_stats_ (count "epoch_num" t))) as (st & -> & Hst).
  { apply Increment_ok, Hw. }
  simpl. eexists. split; [done|]. split; [done|]. apply (world_ok_frame acc ans t); try done.
  apply ctrl_ok_stats; [|done]. apply ctrl_ok_count, Hw.
Qed.

Lemma PrintFinalStats_step : stats_step Controller.PrintFinalStats.
Proof.
  intros t acc ans Hw. unfold Controller.PrintFinalStats.
  destruct (UpdateFinalStats_ok c (simple_stats_ t)) as (st & -> & Hst); [apply Hw|].
  simpl. eexists. split; [done|]. split; [done|]. apply (world_ok_frame acc ans t); try done.
  apply ctrl_ok_stats; [apply Hw|done].
Qed.

Lemma ResetStats_step : stats_step (λ t, Ok (Controller.ResetStats t)).
Proof.
  intros t acc ans Hw. eexists. split; [done|]. split; [done|].
  apply (world_ok_frame acc ans t); try done.
  apply ctrl_ok_stats; [apply Hw|]. apply Reset_ok, Hw.
Qed.

Lemma for_ctrls_ok f acc s :
  stats_step f → sys_ok c acc s → ∃ s', for_ctrls f s = Ok s' ∧ sys_ok c acc s' ∧
    clk_ s' = clk_ s ∧ calls s' = calls s.
Proof.
  intros Hf Hs. unfold for_ctrls, for_upto.
  destruct (foldM_ok (λ i s, v ← vec_modify (ctrls_ s) i f; Ok (s <| ctrls_ := v |>))
    (λ s1, sys_ok c acc s1 ∧ length (ctrls_ s1) = length (ctrls_ s) ∧ clk_ s1 = clk_ s ∧ calls s1 = calls s)
    (seqZ 0 (Z.of_nat (length (ctrls_ s)))) s) as (s' & Hrun & H1 & H2 & H3 & H4); [|done|by exists s'].
  intros i s1 Hi%seqZ_range (Hs1 & Hl & Hk & Hc).
  destruct (vlookup_lt (ctrls_ s1) i) as [t Ht]; [lia|].
  destruct (Hf t _ _ (sy_ctl _ _ _ Hs1 i t Ht)) as (t' & Hft & Ek & Hw).
  destruct (vec_modify_Ok _ _ f _ _ Ht Hft) as (v & -> & Hlv & Hv). cbn [mbind res_bind].
  eexists. split; [done|]. split; [|simpl; split_and!; congruence].
  by apply (sys_ok_replace acc acc s1 _ i t t').
Qed.

(** The clocks of the controllers after the second loop. *)
Lemma tick_all_ok acc s :
  sys_ok c acc s → (enable_hbm_dual_cmd c = true → clk_ s < 2 ^ 63) →
  ∃ s', for_upto (Z.of_nat (length (ctrls_ s))) (tick_channel c) s = Ok s' ∧
    sys_ok c acc (s' <| clk_ ::= λ k, u64 (k + 1) |>) ∧ clk_ s' = clk_ s ∧ calls s' = calls s.
Proof.
  intros [L C W] Hroom. set (n := Z.of_nat (length (ctrls_ s))).
  destruct (for_upto_total (λ i s1, clk_ s1 = clk_ s ∧ calls s1 = calls s ∧
      length (ctrls_ s1) = length (ctrls_ s) ∧
      (∀ j, i ≤ j → vlookup (ctrls_ s1) j = vlookup (ctrls_ s) j) ∧
      (∀ j t', j < i → vlookup (ctrls_ s1) j = Some t' →
         Controller.clk_ t' = u64 (clk_ s + 1) ∧
         world_ok c (MkWorld t' (for_channel c j acc) (for_channel c j (reported_keys s)))))
    n (tick_channel c) s) as (s' & Hrun & H1 & H2 & Hl & _ & H3).
  - lia.
  - split_and!; try done. intros j t' Hj Hv. apply vlookup_range in Hv. lia.
  - intros i s1 Hi (Ek & Ec & El & Hge & Hlt).
    destruct (vlookup_lt (ctrls_ s) i) as [t Ht]; [lia|].
    assert (reported_keys s1 = reported_keys s) as Er by (unfold reported_keys; by rewrite Ec).
    destruct (tick_channel_ok i s1 acc t) as (s2 & t' & Hrun & [Rl Rv] & Ek2 & Ec2 & Et & Hw).
    + by rewrite El.
    + rewrite Hge by lia. done.
    + rewrite Er. by apply W.
    + intros Hd. rewrite (C _ _ Ht). by apply Hroom.
    + exists s2. split; [done|]. split_and!; try congruence.
      * intros j Hj. rewrite Rv, decide_False by lia. apply Hge. lia.
      * intros j u Hj. rewrite Rv. case_decide as Hji; [|apply Hlt; lia].
        intros [= <-]. subst j. rewrite Et, (C _ _ Ht), <- Er. done.
  - exists s'. split_and!; [done| |done|done].
    assert (∀ j t', vlookup (ctrls_ s') j = Some t' → Controller.clk_ t' = u64 (clk_ s + 1) ∧
         world_ok c (MkWorld t' (for_channel c j acc) (for_channel c j (reported_keys s)))) as Hall.
    { intros j t' Hv. apply H3; [|done]. apply vlookup_range in Hv. lia. }
    constructor; simpl; [congruence| |].
    + intros j t' Hv. rewrite H1. apply (Hall j t' Hv).
    + intros j t' Hv. unfold reported_keys. simpl. rewrite H2. apply (Hall j t' Hv).
Qed.

Lemma ClockTick_ok acc s :
  sys_ok c acc s → (enable_hbm_dual_cmd c = true → clk_ s < 2 ^ 63) → u64 (epoch_period c) ≠ 0 →
  ∃ s', ClockTick c s = Ok s' ∧ sys_ok c acc s' ∧ clk_ s' = u64 (clk_ s + 1) ∧
    calls s' = reverse (all_reports s (Z.of_nat (length (ctrls_ s)))) ++ calls s.
Proof.
  intros Hs Hroom Hep. unfold ClockTick.
  destruct (drain_all_ok acc s Hs) as (s1 & -> & Hs1 & Ek1 & Ec1 & _). cbn [mbind res_bind].
  rewrite <- Ec1. assert (length (ctrls_ s) = length (ctrls_ s1)) as -> by (by rewrite (sy_len _ _ _ Hs), (sy_len _ _ _ Hs1)).
  destruct (tick_all_ok acc s1 Hs1) as (s2 & -> & Hs2 & Ek2 & Ec2); [by rewrite Ek1|].
  cbn [mbind res_bind]. rewrite decide_False by done.
  set (s3 := s2 <| clk_ ::= λ k, u64 (k + 1) |>) in *.
  assert (clk_ s3 = u64 (clk_ s + 1) ∧ calls s3 = calls s1) as [Ek3 Ec3].
  { split; [simpl; by rewrite Ek2, Ek1|exact Ec2]. }
  destruct (decide _); [|exists s3; split_and!; [done|done|done|congruence]].
  destruct (for_ctrls_ok _ acc s3 PrintEpochStats_step Hs2) as (s4 & Hrun & Hs4 & Ek4 & Ec4).
  exists s4. split_and!; [exact Hrun|done|congruence|congruence].
Qed.

(** Every address has its controller. *)
Lemma channel_exists acc s a :
  channel_in_range c → sys_ok c acc s → 0 ≤ a → ∃ t, vlookup (ctrls_ s) (GetChannel c a) = Some t.
Proof.
  intros Hr Hs Ha. pose proof (Hr a Ha). apply vlookup_lt. rewrite (sy_len _ _ _ Hs), GetChannel_mapping. lia.
Qed.

Lemma AddTransaction_ok_sys acc s a wr :
  channel_in_range c → sys_ok c acc s → 0 ≤ a →
  ∃ ok s', AddTransaction c a wr s = Ok (ok, s') ∧
    WillAcceptTransaction c a wr s = Ok ok ∧ calls s' = calls s ∧ clk_ s' = clk_ s ∧
    sys_ok c (if ok then (a, wr) :: acc else acc) s'.
Proof.
  intros Hr Hs Ha. destruct (channel_exists acc s a Hr Hs Ha) as [t Ht].
  unfold AddTransaction, WillAcceptTransaction. apply vec_get_Ok in Ht as Hget.
  set (s1 := s <| address_trace_ ::= _ |>). assert (sys_ok c acc s1) as Hs1 by (by destruct Hs).
  change (ctrls_ s1) with (ctrls_ s). cbv zeta. rewrite Hget.
  cbn [mbind res_bind].
  pose proof (sy_ctl _ _ _ Hs _ _ Ht) as Hw.
  destruct (do_event_ok c (Submit a wr) _ Hw Ha) as (w' & Hrun & Hw'). simpl in Hrun.
  destruct (Controller.WillAcceptTransaction a wr t) eqn:Eok.
  - simplify_res.
    destruct (vec_modify_Ok _ _ (λ t, Ok (Controller.AddTransaction (Transaction_new a wr) t).2) _ _ Ht eq_refl)
      as (v & -> & Hl & Hv). cbn [mbind res_bind].
    eexists true, _. split_and!; [done..|].
    apply (sys_ok_replace acc _ s1 _ (GetChannel c a) t (Controller.AddTransaction (Transaction_new a wr) t).2);
      try done.
    + apply AddTransaction_clk.
    + unfold for_channel at 1. rewrite list.filter_cons, decide_True by done. exact Hw'.
    + intros j Hj. split; [|done]. unfold for_channel at 1. simpl.
      rewrite list.filter_cons, decide_False by done. done.
  - cbn [mbind res_bind]. eexists false, _. split_and!; [done..|]. by destruct Hs1.
Qed.

(** The controllers that a constructor makes. *)
Lemma new_controllers_ok b b' :
  0 < channels c → ctrls_ b = [] →
  for_upto (channels c) (λ i s, t ← Controller_new c i; Ok (s <| ctrls_ ::= λ v, v ++ [t] |>)) b = Ok b' →
  length (ctrls_ b') = Z.to_nat (channels c) ∧ calls b' = calls b ∧ clk_ b' = clk_ b ∧
  ∀ i t, vlookup (ctrls_ b') i = Some t → Controller.clk_ t = 0 ∧ world_ok c (MkWorld t [] []).
Proof.
  intros Hch Hb H.
  assert (∀ n s', Z.of_nat n ≤ channels c →
    foldM (λ i s, t ← Controller_new c i; Ok (s <| ctrls_ ::= λ v, v ++ [t] |>))
      (seqZ 0 (Z.of_nat n)) b = Ok s' →
    length (ctrls_ s') = n ∧ calls s' = calls b ∧ clk_ s' = clk_ b ∧
    ∀ t, t ∈ ctrls_ s' → ∃ ch, Controller_new c ch = Ok t) as Hall.
  { induction n as [|n IH]; intros s' Hn Hrun;
      [simpl in Hrun; simplify_res; rewrite Hb; split_and!; [done..|by intros t ?%not_elem_of_nil]|].
    rewrite Nat2Z.inj_succ, <- Z.add_1_r, seqZ_app, foldM_app in Hrun by lia.
    apply bind_Ok_inv in Hrun as (s1 & Hrun1 & Hrun). destruct (IH s1 ltac:(lia) Hrun1) as (IH1 & IH2 & IH3 & IH4).
    simpl in Hrun. simplify_res. simpl. rewrite length_app. simpl. split_and!; [lia|done|done|].
    intros t [Ht| ->%list_elem_of_singleton]%elem_of_app; [auto|eauto]. }
  destruct (Hall (Z.to_nat (channels c)) b') as (H1 & H2 & H3 & H4); [lia| |].
  { rewrite Z2Nat.id by lia. exact H. }
  split_and!; [done..|]. intros i t Ht%vlookup_elem. destruct (H4 t Ht) as [ch Hn].
  split; [|by eapply new_world_ok]. unfold Controller_new in Hn. by simplify_res.
Qed.

Lemma JedecDRAMSystem_new_ok rcb wcb s :
  0 < channels c → JedecDRAMSystem_new c rcb wcb = Ok s → sys_ok c [] s ∧ calls s = [] ∧ clk_ s = 0.
Proof.
  intros Hch. unfold JedecDRAMSystem_new. destruct (IsHMC c); [done|]. intros H.
  apply bind_Ok_inv in H as ([] & _ & H).
  destruct (new_controllers_ok (BaseDRAMSystem_new rcb wcb) s Hch eq_refl H) as (H1 & H2 & H3 & H4).
  split; [|done]. constructor; [done| |].
  - intros i t Ht. rewrite H3. by apply (H4 i).
  - intros i t Ht. unfold reported_keys. rewrite H2. by apply (H4 i).
Qed.
End system.

(** ** Runs of a system *)

Inductive sys_op : Type :=
  | op_add (hex_addr : Z) (is_write : bool)
  | op_tick
  | op_register (read_callback write_callback : Z)
  | op_stats_mo
  | op_print_stats
  | op_reset_stats.

(** The system after an operation, and the requests accepted. *)
Definition do_op (c : Config) (o : sys_op) (x : BaseDRAMSystem * list (Z * bool))
    : res (BaseDRAMSystem * list (Z * bool)) :=
  let '(s, acc) := x in
  match o with
  | op_add a wr =>
    '(ok, s) ← AddTransaction c a wr s; Ok (s, if (ok : bool) then (a, wr) :: acc else acc)
  | op_tick => s ← ClockTick c s; Ok (s, acc)
  | op_register r w => Ok (RegisterCallbacks r w s, acc)
  | op_stats_mo => Ok ((stats_mo s).2, acc)
  | op_print_stats => s ← PrintStats s; Ok (s, acc)
  | op_reset_stats => s ← ResetStats s; Ok (s, acc)
  end.

(** Addresses are [uint64_t]; with two commands a cycle the run is shorter
    than 2^63 cycles. *)
Definition op_ok (c : Config) (s : BaseDRAMSystem) (o : sys_op) : Prop :=
  match o with
  | op_add a _ => 0 ≤ a
  | op_tick => enable_hbm_dual_cmd c = true → clk_ s < 2 ^ 63
  | _ => True
  end.

Inductive sys_reachable (c : Config) : BaseDRAMSystem → list (Z * bool) → Prop :=
  | sys_new rcb wcb s : JedecDRAMSystem_new c rcb wcb = Ok s → sys_reachable c s []
  | sys_step o s acc s' acc' :
      sys_reachable c s acc → op_ok c s o → do_op c o (s, acc) = Ok (s', acc') →
      sys_reachable c s' acc'.

(** What a system needs of its configuration. *)
Class SafeSystem (c : Config) : Prop := {
  ss_safe :: SafeConfig c;
  ss_channels : 0 < channels c;
  ss_range : channel_in_range c;
  ss_epoch : u64 (epoch_period c) ≠ 0 }.

Lemma do_op_ok c o s acc :
  SafeSystem c → sys_ok c acc s → op_ok c s o →
  ∃ s' acc', do_op c o (s, acc) = Ok (s', acc') ∧ sys_ok c acc' s'.
Proof.
  intros Sys Hs Ho. destruct o as [a wr| |r w| | |]; simpl in *.
  - destruct (AddTransaction_ok_sys c acc s a wr ss_range Hs Ho) as (ok & s' & -> & _ & _ & _ & Hs').
    simpl. eauto.
  - destruct (ClockTick_ok c acc s Hs Ho ss_epoch) as (s' & -> & Hs' & _). simpl. eauto.
  - eexists _, _. split; [done|]. by destruct Hs.
  - eexists _, _. split; [done|]. by destruct Hs.
  - destruct (for_ctrls_ok c _ acc s (PrintFinalStats_step c) Hs) as (s' & Hrun & Hs' & _).
    unfold PrintStats. rewrite Hrun. simpl. eauto.
  - destruct (for_ctrls_ok c _ acc s (ResetStats_step c) Hs) as (s' & Hrun & Hs' & _).
    unfold ResetStats. rewrite Hrun. simpl. eauto.
Qed.

Lemma sys_reachable_ok c s acc : SafeSystem c → sys_reachable c s acc → sys_ok c acc s.
Proof.
  intros Sys. induction 1 as [rcb wcb s Hn|o s acc s' acc' _ IH Ho Hrun].
  - by apply (JedecDRAMSystem_new_ok c rcb wcb s ss_channels).
  - destruct (do_op_ok c o s acc Sys IH Ho) as (s1 & acc1 & Hrun1 & Hs1).
    rewrite Hrun in Hrun1. by simplify_res.
Qed.

(** The requests for an address are known to its channel, and to no other. *)
Lemma sys_account c s acc h wr :
  channel_in_range c → sys_ok c acc s → 0 ≤ h →
  ∃ t, vlookup (ctrls_ s) (GetChannel c h) = Some t ∧
    times (h, wr) acc = (times (h, wr) (reported_keys s) + open_requests (h, wr) t)%nat ∧
    ∀ i u, i ≠ GetChannel c h → vlookup (ctrls_ s) i = Some u → open_requests (h, wr) u = 0%nat.
Proof.
  intros Hrange Hs Hh. destruct (channel_exists c acc s h Hrange Hs Hh) as [t Ht]. exists t. split; [done|].
  assert (∀ i l, times (h, wr) (for_channel c i l) =
    if decide (GetChannel c h = i) then times (h, wr) l else 0%nat) as Hch.
  { intros i l. apply times_for_channel. }
  split.
  - pose proof (wo_account c _ (sy_ctl _ _ _ Hs _ _ Ht) (h, wr)) as Ha. simpl in Ha.
    by rewrite !Hch, !decide_True in Ha.
  - intros i u Hi Hu. pose proof (wo_account c _ (sy_ctl _ _ _ Hs _ _ Hu) (h, wr)) as Ha. simpl in Ha.
    rewrite !Hch, !decide_False in Ha by congruence. lia.
Qed.

(** ** A sample system: two channels *)

Definition duo_reader : INIReader :=
  MkINIReader (λ _ k d, assoc sample_strings k d)
    (λ _ k d, assoc (("channels", 2)%string :: sample_integers) k d) (λ _ _ d, d).

Definition duo_config : Config :=
  Eval vm_compute in
    match Config_new duo_reader 0 with Ok c => c | Fault _ => Config_uninit end.

Lemma duo_config_new : Config_new duo_reader 0 = Ok duo_config.
Proof. vm_compute. reflexivity. Qed.

#[export] Instance duo_safe : SafeSystem duo_config.
Proof.
  split; [split|done|by eapply Config_new_channels; [apply duo_config_new|done]|done].
  - by apply (Config_new_geometry duo_reader 0); [apply duo_config_new|..].
  - reflexivity.
  - intros [=].
  - intros r Hr. vm_compute in Hr. injection Hr as <-. done.
  - done.
Qed.

Definition duo_ops : list sys_op :=
  [op_add 64 false; op_add 393216 true; op_add 4096 false; op_add 64 false] ++
  replicate 50 op_tick ++ [op_register 3 4] ++ replicate 5 op_tick ++ [op_print_stats].

Definition duo_run (ops : list sys_op) : res (BaseDRAMSystem * list (Z * bool)) :=
  s ← JedecDRAMSystem_new duo_config 1 2; foldM (do_op duo_config) ops (s, []).

(** A run of the sample system is reachable. *)
Lemma duo_reachable ops s acc :
  duo_run ops = Ok (s, acc) → Forall (λ o, ∀ a wr, o = op_add a wr → 0 ≤ a) ops →
  sys_reachable duo_config s acc.
Proof.
  unfold duo_run. intros H Hops. apply bind_Ok_inv in H as (s0 & Hnew & H).
  rewrite list.Forall_forall in Hops. revert H.
  apply (foldM_preserves _ (λ x, sys_reachable duo_config x.1 x.2)); [|by eapply sys_new].
  intros o [s1 acc1] [s2 acc2] Ho Hs1 Hrun. eapply sys_step; [exact Hs1| |exact Hrun].
  destruct o as [a wr| |r w| | |]; simpl; try done. by apply (Hops _ Ho a wr).
Qed.

Lemma duo_ops_ok : Forall (λ o, ∀ a wr, o = op_add a wr → 0 ≤ a) duo_ops.
Proof. unfold duo_ops. repeat constructor; intros a wr [=]; lia. Qed.

Lemma duo_world : ∃ x, duo_run duo_ops = Ok x ∧ (length (calls x.1) =? 4)%nat = true.
Proof. apply res_check_Ok. vm_compute. reflexivity. Qed.

(** ** Properties *)



(** C2: end-to-end accounting.  For each address and direction, the requests
    that [AddTransaction] accepted are the ones reported through a callback
    plus the ones open in the controller of the address's channel: every
    request is reported exactly once or still in flight, and no other channel
    knows about it. *)
Theorem system_conserves (c : Config) (s : BaseDRAMSystem) (acc : list (Z * bool)) (h : Z) (wr : bool) :
  SafeSystem c → sys_reachable c s acc → 0 ≤ h →
  ∃ t, vlookup (ctrls_ s) (GetChannel c h) = Some t ∧
    times (h, wr) acc = (times (h, wr) (reported_keys s) + open_requests (h, wr) t)%nat ∧
    ∀ i u, i ≠ GetChannel c h → vlookup (ctrls_ s) i = Some u → open_requests (h, wr) u = 0%nat.
Proof.
  intros Sys Hr Hh. apply sys_account; [apply Sys|by apply sys_reachable_ok|done].
Qed.

Lemma system_conserves_witness :
  ∃ s acc t, duo_run duo_ops = Ok (s, acc) ∧
    vlookup (ctrls_ s) (GetChannel duo_config 393216) = Some t ∧
    times (393216, true) acc =
      (times (393216%Z, true) (reported_keys s) + open_requests (393216%Z, true) t)%nat.
Proof.
  destruct duo_world as ([s acc] & Hx & _).
  destruct (system_conserves duo_config s acc 393216 true duo_safe
    (duo_reachable _ _ _ Hx duo_ops_ok) ltac:(done)) as (t & Ht & Ha & _).
  exists s, acc, t. split; [exact Hx|]. split; [exact Ht|exact Ha].
Defined.

(** C9: a cycle reports what has completed, once and in order.  [ClockTick]
    calls the registered callback for exactly the transactions whose
    completion cycle is not after the current one, channel by channel and in
    the order in which they completed, before it clocks the controllers; the
    [while (true)] loop over them ends. *)
Theorem tick_reports_completed (c : Config) (s : BaseDRAMSystem) (acc : list (Z * bool)) :
  SafeSystem c → sys_reachable c s acc → op_ok c s op_tick →
  ∃ s', ClockTick c s = Ok s' ∧ clk_ s' = u64 (clk_ s + 1) ∧
    reverse (calls s') = reverse (calls s) ++ all_reports s (channels c).
Proof.
  intros Sys Hr Ho. pose proof (sys_reachable_ok c s acc Sys Hr) as Hs.
  destruct (ClockTick_ok c acc s Hs Ho ss_epoch) as (s' & Hrun & _ & Hk & Hc).
  exists s'. split; [done|]. split; [done|]. rewrite Hc, reverse_app, reverse_involutive.
  rewrite (sy_len _ _ _ Hs), Z2Nat.id; [done|]. pose proof (ss_channels (c:=c)). lia.
Qed.

Lemma tick_reports_completed_witness :
  ∃ s acc s', duo_run (take 42 duo_ops) = Ok (s, acc) ∧ ClockTick duo_config s = Ok s' ∧
    clk_ s' = u64 (clk_ s + 1) ∧
    reverse (calls s') = reverse (calls s) ++ all_reports s (channels duo_config).
Proof.
  destruct (res_check_Ok (duo_run (take 42 duo_ops)) (λ _, true) ltac:(vm_compute; reflexivity))
    as ([s acc] & Hx & _).
  destruct (tick_reports_completed duo_config s acc duo_safe
    (duo_reachable _ _ _ Hx (Forall_take _ _ _ duo_ops_ok)) ltac:(intros [=])) as (s' & H).
  exists s, acc, s'. split; [exact Hx|exact H].
Defined.
