(* ===== verification/SystemTrace.v ===== *)
(** * SystemTrace: the command traces of a memory system

    Each channel of a [JedecDRAMSystem] writes its own command trace
    (src/src/dram_system.cc, controller.cc).  In runs of less than 2^64 cycles
    the clocks of a trace never run backwards, every line is a command that
    the device knows, and the commands respect every timing constraint and the
    activation windows.  The address trace of the system holds the requests. *)

From S2P Require Import Refresh CommandQueue.
From S2P Require Import Prelude Common Configuration Timing BankState ChannelState ChannelSafety Protocol.
From S2P Require Import SimpleStats Controller ControllerSafety ControllerRuns ControllerTrace.
From S2P Require Import DramSystem DramSystemSafety.
Local Open Scope Z_scope.

(** ** What an operation writes *)

Definition logs (s : BaseDRAMSystem) : list (Z * Z * list (Z * Command)) := log_of <$> ctrls_ s.

(** A controller after a cycle. *)
Definition ticked (t t' : Controller) : Prop :=
  ∃ cmds, log_of t' = (channel_id_ t, u64 (Controller.clk_ t + 1),
    cmd_trace_ t ++ (pair (Controller.clk_ t) <$> cmds)).

Lemma ClockTick_ticked c T t t' : Controller.ClockTick c T t = Ok t' → ticked t t'.
Proof.
  intros (t1 & [cmds E1] & E2)%ClockTick_logged. injection E1 as I1 C1 T1.
  exists cmds. by rewrite E2, I1, C1, T1.
Qed.

Lemma ticked_log t t1 t' t2 : log_of t1 = log_of t → log_of t2 = log_of t' → ticked t t' → ticked t1 t2.
Proof. intros [= I1 C1 T1] E [cmds H]. exists cmds. by rewrite E, I1, C1, T1. Qed.

Lemma logs_lookup s s' i t' :
  logs s' = logs s → vlookup (ctrls_ s') i = Some t' →
  ∃ t, vlookup (ctrls_ s) i = Some t ∧ log_of t' = log_of t.
Proof.
  intros E [Hi Hl]%vlookup_Some. assert (logs s' !! Z.to_nat i = Some (log_of t')) as Hg
    by (unfold logs; by rewrite list_lookup_fmap, Hl).
  rewrite E in Hg. unfold logs in Hg. rewrite list_lookup_fmap in Hg.
  apply fmap_Some in Hg as (t & Ht & Hlog). exists t. split; [|done]. by apply vlookup_Some.
Qed.

Lemma drain_logs fuel i s s' : drain fuel i s = Ok s' → logs s' = logs s.
Proof.
  revert s; induction fuel as [|fuel IH]; intros s; [done|]. cbn [drain]. intros H.
  apply bind_Ok_inv in H as (t & Ht & H).
  pose proof (ReturnDoneTrans_log (clk_ s) t) as Hlog.
  destruct (ReturnDoneTrans (clk_ s) t) as [p t1]. apply bind_Ok_inv in H as (v & Hv & H).
  assert (log_of <$> v = logs s) as E.
  { apply (vec_modify_fmap log_of _ _ _ _ Hv). intros a a' Ha [= <-].
    apply vec_get_Ok in Ht. rewrite Ha in Ht. by injection Ht as ->. }
  repeat case_decide; try (apply IH in H; rewrite H); by simplify_res.
Qed.

Lemma drain_all_logs n s s' : for_upto n drain_channel s = Ok s' → logs s' = logs s.
Proof.
  unfold for_upto. apply (foldM_preserves _ (λ s1, logs s1 = logs s)); [|done].
  intros i s1 s2 _ E H. apply bind_Ok_inv in H as (t & _ & H%drain_logs). congruence.
Qed.

Lemma for_ctrls_logs f s s' :
  (∀ t t', f t = Ok t' → log_of t' = log_of t) → for_ctrls f s = Ok s' → logs s' = logs s.
Proof.
  intros Hf. unfold for_ctrls, for_upto. apply (foldM_preserves _ (λ s1, logs s1 = logs s)); [|done].
  intros i s1 s2 _ E H. apply bind_Ok_inv in H as (v & Hv & H). simplify_res.
  etransitivity; [|exact E]. apply (vec_modify_fmap log_of _ _ _ _ Hv). intros a a' _. apply Hf.
Qed.

Lemma PrintEpochStats_log t t' : Controller.PrintEpochStats t = Ok t' → log_of t' = log_of t.
Proof. unfold Controller.PrintEpochStats. intros H. by simplify_res. Qed.

Lemma PrintFinalStats_log t t' : Controller.PrintFinalStats t = Ok t' → log_of t' = log_of t.
Proof. unfold Controller.PrintFinalStats. intros H. by simplify_res. Qed.

Lemma AddTransaction_logs c a wr s ok s' : AddTransaction c a wr s = Ok (ok, s') → logs s' = logs s.
Proof.
  unfold AddTransaction. cbv zeta. intros H. apply bind_Ok_inv in H as (b & _ & H).
  apply bind_Ok_inv in H as (s1 & Hs1 & H). simplify_res.
  change (logs s1 = logs s). destruct ok; [|by simplify_res].
  apply bind_Ok_inv in Hs1 as (v & Hv & Hs1). simplify_res.
  apply (vec_modify_fmap log_of _ _ _ _ Hv). intros t t' _ [= <-]. apply AddTransaction_log.
Qed.

(** After the first [n] channels of a cycle. *)
Definition ticked_upto (s : BaseDRAMSystem) (n : Z) (s1 : BaseDRAMSystem) : Prop :=
  length (ctrls_ s1) = length (ctrls_ s) ∧
  ∀ i t', vlookup (ctrls_ s1) i = Some t' → ∃ t, vlookup (ctrls_ s) i = Some t ∧
    (i < n → ticked t t') ∧ (n ≤ i → t' = t).

Lemma tick_channel_upto c s n s1 s2 :
  ticked_upto s n s1 → tick_channel c n s1 = Ok s2 → ticked_upto s (n + 1) s2.
Proof.
  intros [Hl IH] H. unfold tick_channel in H.
  apply bind_Ok_inv in H as (t & Ht & H). apply bind_Ok_inv in H as (t1 & Ht1 & H).
  apply bind_Ok_inv in H as (v & Hv & H). apply vec_get_Ok in Ht.
  destruct (vec_set_replaced _ _ _ t1 Ht) as (w & Hw & Rl & Rv).
  rewrite Hv in Hw. injection Hw as <-.
  assert (ctrls_ s2 = v) as E2 by (simplify_res; by repeat case_match).
  split; [congruence|]. rewrite E2. intros i t'. rewrite Rv. case_decide as Hi.
  - intros [= <-]. subst i. destruct (IH n t Ht) as (t0 & Ht0 & _ & E). exists t0.
    rewrite (E ltac:(lia)) in Ht1. split_and!; [done| |lia]. intros _. by eapply ClockTick_ticked.
  - intros Hlk. destruct (IH i t' Hlk) as (t0 & Ht0 & E1 & E3). exists t0.
    split_and!; [done|intros; apply E1; lia|intros; apply E3; lia].
Qed.

Lemma tick_all_logs c n s s' :
  n = Z.of_nat (length (ctrls_ s)) → for_upto n (tick_channel c) s = Ok s' →
  ∀ i t', vlookup (ctrls_ s') i = Some t' → ∃ t, vlookup (ctrls_ s) i = Some t ∧ ticked t t'.
Proof.
  intros -> Hrun. assert (ticked_upto s (Z.of_nat (length (ctrls_ s))) s') as [Hl Hall].
  { revert Hrun. apply for_upto_preserves; [lia| |].
    - split; [done|]. intros i t' Hv. apply vlookup_range in Hv as Hr. exists t'. split_and!; [done|lia|done].
    - intros n s1 s2 _. apply tick_channel_upto. }
  intros i t' Hv. destruct (Hall i t' Hv) as (t & Ht & H & _). exists t. split; [done|].
  apply vlookup_range in Hv. apply H. lia.
Qed.

(** A cycle, among the operations of the system. *)
Definition is_tick (o : sys_op) : bool := match o with op_tick => true | _ => false end.

(** What an operation leaves of the logs: a cycle extends each of them, the
    other operations leave them alone. *)
Lemma do_op_logs c o s acc s' acc' :
  do_op c o (s, acc) = Ok (s', acc') →
  ∀ i t', vlookup (ctrls_ s') i = Some t' → ∃ t, vlookup (ctrls_ s) i = Some t ∧
    if is_tick o then ticked t t' else log_of t' = log_of t.
Proof.
  assert (logs s' = logs s → is_tick o = false →
    ∀ i t', vlookup (ctrls_ s') i = Some t' → ∃ t, vlookup (ctrls_ s) i = Some t ∧
    if is_tick o then ticked t t' else log_of t' = log_of t) as Hsame.
  { intros E Ho i t' Hv. rewrite Ho. destruct (logs_lookup _ _ _ _ E Hv) as (t & Ht & Hl). by exists t. }
  intros H. destruct o as [a wr| |r w| | |]; unfold do_op in H.
  - apply bind_Ok_inv in H as ([ok s1] & H & E). simplify_res. apply Hsame; [|done].
    by eapply AddTransaction_logs.
  - clear Hsame. apply bind_Ok_inv in H as (s1 & H & E). injection E as <- _. unfold ClockTick in H.
    apply bind_Ok_inv in H as (s2 & H2%drain_all_logs & H). apply bind_Ok_inv in H as (s3 & H3 & H).
    assert (Z.of_nat (length (ctrls_ s)) = Z.of_nat (length (ctrls_ s2))) as El.
    { apply (f_equal length) in H2. unfold logs in H2. rewrite !length_fmap in H2. lia. }
    rewrite El in H3. intros i t' Hv. cbn [is_tick].
    assert (logs s1 = logs s3) as E1.
    { simplify_res. case_decide; [done|].
      case_decide; [by apply (for_ctrls_logs _ _ _ PrintEpochStats_log) in H|by simplify_res]. }
    destruct (logs_lookup _ _ _ _ E1 Hv) as (t3 & Ht3 & L3).
    destruct (tick_all_logs c _ s2 s3 eq_refl H3 i t3 Ht3) as (t2 & Ht2 & Htick).
    destruct (logs_lookup _ _ _ _ H2 Ht2) as (t & Ht & L2). exists t. split; [done|].
    by eapply ticked_log.
  - simplify_res. by apply Hsame.
  - simplify_res. by apply Hsame.
  - apply bind_Ok_inv in H as (s1 & H & E). simplify_res. apply Hsame; [|done].
    by apply (for_ctrls_logs _ _ _ PrintFinalStats_log) in H.
  - apply bind_Ok_inv in H as (s1 & H & E). simplify_res. apply Hsame; [|done].
    eapply for_ctrls_logs; [|exact H]. by intros t t' [= <-].
Qed.

(** ** Runs with their number of cycles *)

Definition ticks (o : sys_op) : Z := if is_tick o then 1 else 0.

Inductive sys_run (c : Config) : Z → BaseDRAMSystem → list (Z * bool) → Prop :=
  | run_new rcb wcb s : JedecDRAMSystem_new c rcb wcb = Ok s → sys_run c 0 s []
  | run_op o n s acc s' acc' :
      sys_run c n s acc → op_ok c s o → do_op c o (s, acc) = Ok (s', acc') →
      sys_run c (n + ticks o) s' acc'.

Lemma sys_run_reachable c n s acc : sys_run c n s acc → 0 ≤ n ∧ sys_reachable c s acc.
Proof.
  induction 1 as [rcb wcb s Hn|o n s acc s' acc' _ [IH1 IH2] Ho Hrun].
  - split; [done|]. by eapply sys_new.
  - split; [unfold ticks; case_match; lia|]. by eapply sys_step.
Qed.

(** The controller of channel [i] after [n] cycles. *)
Definition traced (n i : Z) (t : Controller) : Prop :=
  channel_id_ t = i ∧ Controller.clk_ t = n ∧ clock_monotone (cmd_trace_ t) ∧
  Forall (λ e, 0 ≤ e.1 < n) (cmd_trace_ t).

Lemma new_traced c rcb wcb s i t :
  0 < channels c → JedecDRAMSystem_new c rcb wcb = Ok s → vlookup (ctrls_ s) i = Some t → traced 0 i t.
Proof.
  intros Hch Hnew Hv. unfold JedecDRAMSystem_new in Hnew. destruct (IsHMC c); [done|].
  apply bind_Ok_inv in Hnew as ([] & _ & Hnew). revert i t Hv.
  assert (Z.of_nat (length (ctrls_ s)) = channels c ∧
    ∀ i t, vlookup (ctrls_ s) i = Some t → traced 0 i t) as [_ H]; [|exact H].
  revert Hnew. apply (for_upto_preserves (λ n s1, Z.of_nat (length (ctrls_ s1)) = n ∧
    ∀ i t, vlookup (ctrls_ s1) i = Some t → traced 0 i t)); [lia| |].
  - split; [done|]. intros i t Hv. apply vlookup_range in Hv. simpl in Hv. lia.
  - intros i s1 s2 Hi [Hl IH] H. apply bind_Ok_inv in H as (t1 & Ht1 & H). simplify_res. simpl.
    split; [rewrite length_app; simpl; lia|]. intros j t [Hj Hv]%vlookup_Some.
    apply lookup_app_Some in Hv as [Hv|[Hge Hv]].
    + apply IH. by apply vlookup_Some.
    + apply list_lookup_singleton_Some in Hv as [Hj0 <-].
      assert (j = Z.of_nat (length (ctrls_ s1))) as -> by lia.
      unfold Controller_new in Ht1. simplify_res. unfold traced. simpl. split_and!; [done|done| |constructor].
      intros ? ? ? ? _ Hnil. by rewrite lookup_nil in Hnil.
Qed.

Lemma sys_run_traced c n s acc :
  0 < channels c → sys_run c n s acc → n < two64 →
  ∀ i t, vlookup (ctrls_ s) i = Some t → traced n i t.
Proof.
  intros Hch Hrun. induction Hrun as [rcb wcb s Hn|o n s acc s' acc' Hs IH Ho Hrun]; intros Hlt i t' Hv.
  - by eapply new_traced.
  - pose proof (proj1 (sys_run_reachable _ _ _ _ Hs)) as Hn0.
    destruct (do_op_logs _ _ _ _ _ _ Hrun i t' Hv) as (t & Ht & Hlog). unfold ticks in *.
    destruct (is_tick o).
    + destruct (IH ltac:(lia) i t Ht) as (E1 & E2 & E3 & E4). destruct Hlog as [cmds [= I C T]].
      unfold traced. rewrite I, C, T, E1, E2. rewrite u64_small by lia. split_and!; [done|done| |].
      * apply clock_monotone_extend; [done|]. eapply list.Forall_impl; [exact E4|]. simpl. lia.
      * apply list.Forall_app. split.
        -- eapply list.Forall_impl; [exact E4|]. simpl. lia.
        -- apply list.Forall_fmap, list.Forall_forall. intros x _. simpl. lia.
    + destruct (IH ltac:(lia) i t Ht) as (E1 & E2 & E3 & E4). injection Hlog as I C T.
      unfold traced. rewrite I, C, T, Z.add_0_r. done.
Qed.

(** The controller of a channel of a reachable system is well-formed. *)
Lemma sys_run_ctrl c n s acc i t :
  SafeSystem c → sys_run c n s acc → vlookup (ctrls_ s) i = Some t → ctrl_ok c [] t.
Proof.
  intros Sys [_ Hre]%sys_run_reachable Ht.
  apply (wo_ctrl _ _ (sy_ctl _ _ _ (sys_reachable_ok _ _ _ Sys Hre) _ _ Ht)).
Qed.

(** ** Traces that keep to the tables of the device *)

Record timely (c : Config) (tr : list (Z * Command)) : Prop := {
  tm_delays m n t1 t2 d c1 c2 i j k :
    (m < n)%nat → tr !! m = Some (t1, c1) → tr !! n = Some (t2, c2) → checked c2 i j k →
    0 ≤ i < ranks c → 0 ≤ j < bankgroups c → 0 ≤ k < banks_per_group c →
    (cmd_type c2, d) ∈ constraints_for (Timing_new c) c1 i j k → 0 ≤ t1 + d < two64 →
    t1 + d ≤ t2;
  tm_windows r n a b :
    0 ≤ r < ranks c → activations r tr !! n = Some a → activations r tr !! (n + 4)%nat = Some b →
    0 ≤ a + tFAW c < two64 → a + tFAW c ≤ b }.

Lemma issued_timely c tr s :
  Geometry c → issued c tr s → clock_monotone tr → timely c tr.
Proof.
  intros Geo Hre Hmono. constructor.
  - intros. rewrite <- (u64_small (t1 + d)) by done. by eapply issued_timing.
  - intros. rewrite <- (u64_small (a + tFAW c)) by done. by eapply issued_spaced.
Qed.

(** ** The runs of the sample system *)

(** The number of cycles is the clock of the system. *)
Lemma sys_run_clk c n s acc : SafeSystem c → sys_run c n s acc → n < two64 → clk_ s = n.
Proof.
  intros Sys Hrun Hn. pose proof (proj2 (sys_run_reachable _ _ _ _ Hrun)) as Hre.
  pose proof (sys_reachable_ok _ _ _ Sys Hre) as Hs. pose proof (ss_channels (c:=c)).
  destruct (vlookup_lt (ctrls_ s) 0) as [t Ht]; [pose proof (sy_len _ _ _ Hs); lia|].
  rewrite <- (sy_clk _ _ _ Hs 0 t Ht). by apply (sys_run_traced c n s acc ss_channels Hrun Hn 0 t Ht).
Qed.

Lemma ticks_range o : 0 ≤ ticks o ≤ 1.
Proof. unfold ticks. case_match; lia. Qed.

Lemma sys_run_ops c ops n s acc s' acc' :
  SafeSystem c → n + Z.of_nat (length ops) < 2 ^ 63 →
  Forall (λ o, ∀ a wr, o = op_add a wr → 0 ≤ a) ops →
  sys_run c n s acc → foldM (do_op c) ops (s, acc) = Ok (s', acc') →
  sys_run c (foldl (λ n o, n + ticks o) n ops) s' acc'.
Proof.
  intros Sys. revert n s acc. induction ops as [|o ops IH]; intros n s acc Hlen Hops Hs Hrun.
  - simpl in Hrun. by simplify_res.
  - apply list.Forall_cons in Hops as [Ho Hops]. simpl in Hrun, Hlen.
    apply bind_Ok_inv in Hrun as ([s1 acc1] & H1 & Hrun). pose proof (ticks_range o).
    eapply (IH _ s1 acc1); [lia|done| |exact Hrun]. eapply run_op; [exact Hs| |exact H1].
    destruct o as [a wr| |r w| | |]; simpl; try done; [by apply (Ho a wr)|].
    intros _. rewrite (sys_run_clk c n s acc Sys Hs) by (unfold two64; lia). lia.
Qed.

Lemma new_sys_run c rcb wcb ops s acc :
  SafeSystem c → Z.of_nat (length ops) < 2 ^ 63 →
  Forall (λ o, ∀ a wr, o = op_add a wr → 0 ≤ a) ops →
  (s ← JedecDRAMSystem_new c rcb wcb; foldM (do_op c) ops (s, [])) = Ok (s, acc) →
  sys_run c (foldl (λ n o, n + ticks o) 0 ops) s acc.
Proof.
  intros Sys Hlen Hops H. apply bind_Ok_inv in H as (s0 & Hnew & H).
  eapply sys_run_ops; [exact Sys|lia|exact Hops|by eapply run_new|exact H].
Qed.

Lemma duo_sys_run ops s acc :
  Z.of_nat (length ops) < 2 ^ 63 → Forall (λ o, ∀ a wr, o = op_add a wr → 0 ≤ a) ops →
  duo_run ops = Ok (s, acc) → sys_run duo_config (foldl (λ n o, n + ticks o) 0 ops) s acc.
Proof. apply (new_sys_run duo_config 1 2), _. Qed.

(** ** Properties *)


Lemma duo_traced : ∃ x t, duo_run duo_ops = Ok x ∧ vlookup (ctrls_ x.1) 0 = Some t ∧
  ((3 <=? length (cmd_trace_ t))%nat = true).
Proof.
  assert (match duo_run duo_ops with
    | Ok x => match vlookup (ctrls_ x.1) 0 with
              | Some t => (3 <=? length (cmd_trace_ t))%nat | None => false end
    | _ => false end = true) as H by (vm_compute; reflexivity).
  destruct (duo_run duo_ops) as [x|]; [|discriminate]. exists x.
  destruct (vlookup (ctrls_ x.1) 0) as [t|]; [|discriminate]. exists t. by split_and!.
Qed.


(** C5: a memory system never misleads its devices.  A device knows of the
    commands only; the abstract device keeps a register for the open row of
    each bank, which an activation sets and a precharge or an automatic one
    clears.  In every run of a system, every command of every channel is one
    that the abstract device accepts after the commands before: a read or a
    write names the row that is open in its bank, a precharge comes to an open
    bank, an activation to a closed one, and a refresh only when every bank
    that it is for is closed. *)
Theorem system_follows_protocol (c : Config) (n : Z) (s : BaseDRAMSystem) (acc : list (Z * bool))
    (i : Z) (t : Controller) :
  SafeSystem c → sys_run c n s acc → vlookup (ctrls_ s) i = Some t → protocol c (cmd_trace_ t).
Proof.
  intros Sys Hrun Ht. pose proof (sys_run_ctrl c n s acc i t Sys Hrun Ht) as Hc.
  apply (issued_rows c _ _ (ct_trace _ _ _ Hc)).
Qed.

Lemma system_follows_protocol_witness :
  ∃ x t, duo_run duo_ops = Ok x ∧ vlookup (ctrls_ x.1) 0 = Some t ∧
    (3 <=? length (cmd_trace_ t))%nat = true ∧ protocol duo_config (cmd_trace_ t).
Proof.
  destruct duo_traced as ([s acc] & t & Hx & Ht & Hl). exists (s, acc), t.
  split; [exact Hx|split; [exact Ht|split; [exact Hl|]]].
  exact (system_follows_protocol duo_config _ s acc 0 t duo_safe
    (duo_sys_run duo_ops _ _ eq_refl duo_ops_ok Hx) Ht).
Defined.

(** C25: what the command trace of a channel holds.  Every line was written
    in a cycle of the run, and its command is a command: it is valid, its rank
    and, unless it is for a whole rank, its bank group and its bank exist, it
    is no self-refresh entry, and its coordinates are either those of its
    address, or it needs no row and its coordinates are those of a refresh,
    with -1 for the channel, the row and the column. *)
Theorem commands_in_device (c : Config) (n : Z) (s : BaseDRAMSystem) (acc : list (Z * bool))
    (i : Z) (t : Controller) (clk : Z) (cmd : Command) :
  SafeSystem c → sys_run c n s acc → n < two64 → vlookup (ctrls_ s) i = Some t →
  (clk, cmd) ∈ cmd_trace_ t →
  0 ≤ clk < n ∧ IsValid cmd = true ∧ cmd_addr_ok c cmd ∧ cmd_type cmd ≠ SREF_ENTER ∧
  ((0 ≤ hex_addr cmd ∧ addr cmd = AddressMapping c (hex_addr cmd)) ∨
   (needs_row (cmd_type cmd) = false ∧ for_refresh c (addr cmd))).
Proof.
  intros Sys Hrun Hn Ht He.
  destruct (sys_run_traced c n s acc ss_channels Hrun Hn i t Ht) as (_ & _ & _ & Hc).
  rewrite list.Forall_forall in Hc. split; [exact (Hc _ He)|].
  pose proof (ct_recorded _ _ _ (sys_run_ctrl c n s acc i t Sys Hrun Ht)) as Hr.
  rewrite list.Forall_forall in Hr. destruct (Hr _ He) as (_ & H1 & H2 & H3 & H4). by split_and!.
Qed.

Lemma commands_in_device_witness :
  ∃ x t clk cmd, duo_run duo_ops = Ok x ∧ vlookup (ctrls_ x.1) 0 = Some t ∧
    (clk, cmd) ∈ cmd_trace_ t ∧ 0 ≤ clk < 55 ∧ IsValid cmd = true.
Proof.
  destruct duo_traced as ([s acc] & t & Hx & Ht & Hl). exists (s, acc), t.
  destruct (cmd_trace_ t) as [|[clk cmd] tr] eqn:E; [discriminate|]. exists clk, cmd.
  assert ((clk, cmd) ∈ cmd_trace_ t) as He by (rewrite E; apply list_elem_of_here).
  destruct (commands_in_device duo_config 55 s acc 0 t clk cmd duo_safe
    (duo_sys_run duo_ops _ _ eq_refl duo_ops_ok Hx) ltac:(vm_compute; reflexivity) Ht He) as (Hc & Hv & _).
  split; [exact Hx|split; [exact Ht|split; [rewrite <- E; exact He|split; [exact Hc|exact Hv]]]].
Defined.
