(* ===== verification/IdealSafety.v ===== *)
(** * IdealSafety: the ideal memory answers every request (src/src/dram_system.cc)

    The loop of [IdealDRAMSystem::ClockTick] erases an element and then steps
    over the next one.  Nothing is lost, and everything is answered, but a
    request behind another one of the same cycle waits for a later tick. *)

From S2P Require Import Prelude Common Configuration Controller ControllerRuns DramSystem.
Local Open Scope Z_scope.

Module Ideal.
Import DramSystem.Ideal.

Definition ticks (n : nat) (s : IdealDRAMSystem) : IdealDRAMSystem := Nat.iter n ClockTick s.

Lemma ticks_succ n s : ticks (S n) s = ticks n (ClockTick s).
Proof. unfold ticks. induction n as [|n IH]; simpl in *; [done|by rewrite IH]. Qed.

(** What one scan of the buffer does. *)
Lemma scan_spec clk lat call q log :
  ∃ new kept, scan clk lat call q log = (kept, reverse (call <$> new) ++ log) ∧
    q ≡ₚ new ++ kept ∧ Forall (λ x, expired clk lat x = true) new ∧
    (∀ x q', q = x :: q' → expired clk lat x = true → new ≠ []).
Proof.
  remember (length q) as n eqn:Hn. assert (length q ≤ n)%nat as Hle by lia. clear Hn.
  revert q log Hle; induction n as [|n IH]; intros q log Hle.
  - destruct q; [|simpl in Hle; lia]. exists [], []. simpl. split_and!; [done|done|constructor|done].
  - destruct q as [|x q]; [by exists [], []|]. simpl in Hle. simpl.
    destruct (expired clk lat x) eqn:Ex.
    + destruct q as [|y q].
      * exists [x], []. split_and!; [done|done|by repeat constructor|done].
      * destruct (IH q (call x :: log)) as (new & kept & -> & Hp & Hf & _); [simpl in Hle; lia|].
        exists (x :: new), (y :: kept). split_and!; [|rewrite Hp; solve_Permutation|by constructor|done].
        rewrite fmap_cons, reverse_cons, <- app_assoc. done.
    + destruct (IH q log) as (new & kept & -> & Hp & Hf & _); [lia|].
      exists new, (x :: kept). split_and!; [done|rewrite Hp; solve_Permutation|done|].
      intros z q' [= <- <-]. congruence.
Qed.

Definition reported (s : IdealDRAMSystem) : list (Z * bool) := DramSystem.reported <$> calls (base s).

Lemma ClockTick_spec s :
  ∃ new, let s' := ClockTick s in
    infinite_buffer_q_ s ≡ₚ new ++ infinite_buffer_q_ s' ∧
    reported s' = reverse (key <$> new) ++ reported s ∧
    latency_ s' = latency_ s ∧ clk_ (base s') = u64 (clk_ (base s) + 1) ∧
    (∀ x q, infinite_buffer_q_ s = x :: q →
       expired (clk_ (base s)) (latency_ s) x = true → new ≠ []).
Proof.
  unfold ClockTick.
  destruct (scan_spec (clk_ (base s)) (latency_ s) (callback (base s)) (infinite_buffer_q_ s)
    (calls (base s))) as (new & kept & -> & Hp & _ & Hh).
  exists new. split_and!; [done| |done|done|done].
  unfold reported. simpl. by rewrite fmap_app, fmap_reverse, <- list_fmap_compose.
Qed.

(** The requests open in the buffer or reported are the same before and after. *)
Definition all_requests (s : IdealDRAMSystem) : list (Z * bool) :=
  (key <$> infinite_buffer_q_ s) ++ reported s.

Lemma ClockTick_requests s : all_requests (ClockTick s) ≡ₚ all_requests s.
Proof.
  destruct (ClockTick_spec s) as (new & Hp & Hr & _). unfold all_requests. rewrite Hr, Hp.
  rewrite fmap_app, reverse_Permutation. solve_Permutation.
Qed.

(** Every request of the buffer was added before now, and [room] cycles are
    left before the clock wraps. *)
Definition buffer_ok (room : Z) (s : IdealDRAMSystem) : Prop :=
  0 ≤ latency_ s < two64 ∧ clk_ (base s) + room < two64 ∧
  Forall (λ x, 0 ≤ added_cycle x ≤ clk_ (base s)) (infinite_buffer_q_ s).

Lemma buffer_ok_tick room s :
  0 < room → 0 ≤ clk_ (base s) → buffer_ok room s →
  buffer_ok (room - 1) (ClockTick s) ∧ clk_ (base (ClockTick s)) = clk_ (base s) + 1.
Proof.
  intros Hr Hc (H1 & H2 & H3).
  destruct (ClockTick_spec s) as (new & Hp & _ & El & Ek & _).
  assert (clk_ (base (ClockTick s)) = clk_ (base s) + 1) as Ek' by (rewrite Ek; apply u64_small; lia).
  split; [|done]. unfold buffer_ok. rewrite El, Ek'. split_and!; [lia..|].
  rewrite Hp in H3. apply list.Forall_app in H3 as [_ H3].
  eapply list.Forall_impl; [exact H3|]. simpl. lia.
Qed.

(** With everything expired, a tick reports at least one request. *)
Lemma tick_progress s :
  buffer_ok 1 s → (∀ x, x ∈ infinite_buffer_q_ s → added_cycle x + latency_ s ≤ clk_ (base s)) →
  (length (infinite_buffer_q_ (ClockTick s)) ≤ length (infinite_buffer_q_ s) - 1)%nat.
Proof.
  intros (H1 & H2 & H3) Hold. destruct (ClockTick_spec s) as (new & Hp & _ & _ & _ & Hh).
  apply Permutation_length in Hp as Hl. rewrite length_app in Hl.
  destruct (infinite_buffer_q_ s) as [|x q] eqn:Eq; [simpl in *; lia|].
  apply list.Forall_cons in H3 as [Hx _].
  assert (new ≠ []) as Hne.
  { apply (Hh x q); [done|]. unfold expired. apply Z.leb_le.
    rewrite !u64_small by lia. pose proof (Hold x ltac:(set_solver)). lia. }
  destruct new; [done|]. simpl in *. lia.
Qed.

Lemma ticks_drain n s :
  0 ≤ clk_ (base s) → buffer_ok (Z.of_nat n + 1) s →
  (∀ x, x ∈ infinite_buffer_q_ s → added_cycle x + latency_ s ≤ clk_ (base s)) →
  (length (infinite_buffer_q_ (ticks n s)) ≤ length (infinite_buffer_q_ s) - n)%nat.
Proof.
  revert s; induction n as [|n IH]; intros s Hc Hb Hold; [simpl; lia|]. rewrite ticks_succ.
  destruct (buffer_ok_tick (Z.of_nat (S n) + 1) s ltac:(lia) Hc Hb) as [Hb' Ek].
  assert (buffer_ok 1 s) as Hb1 by (destruct Hb as (? & ? & ?); split_and!; try done; lia).
  pose proof (tick_progress s Hb1 Hold) as Hp.
  destruct (ClockTick_spec s) as (new & Hperm & _ & El & _).
  assert (length (infinite_buffer_q_ (ticks n (ClockTick s))) ≤
          length (infinite_buffer_q_ (ClockTick s)) - n)%nat; [|lia].
  apply IH; [lia| |].
  - replace (Z.of_nat n + 1) with (Z.of_nat (S n) + 1 - 1) by lia. done.
  - intros x Hx. rewrite El, Ek. assert (x ∈ infinite_buffer_q_ s) as Hx' by (rewrite Hperm; set_solver).
    specialize (Hold x Hx'). lia.
Qed.

(** Ticks until everything has expired. *)
Lemma ticks_wait n room s :
  0 ≤ clk_ (base s) → buffer_ok room s → Z.of_nat n ≤ room →
  buffer_ok (room - Z.of_nat n) (ticks n s) ∧ clk_ (base (ticks n s)) = clk_ (base s) + Z.of_nat n ∧
  latency_ (ticks n s) = latency_ s ∧
  (∀ x, x ∈ infinite_buffer_q_ (ticks n s) → x ∈ infinite_buffer_q_ s) ∧
  (length (infinite_buffer_q_ (ticks n s)) ≤ length (infinite_buffer_q_ s))%nat.
Proof.
  revert room s; induction n as [|n IH]; intros room s Hc Hb Hn.
  { rewrite Z.sub_0_r, Z.add_0_r. done. }
  rewrite ticks_succ. destruct (buffer_ok_tick room s ltac:(lia) Hc Hb) as [Hb' Ek].
  destruct (ClockTick_spec s) as (new & Hp & _ & El & _).
  destruct (IH (room - 1) (ClockTick s)) as (I1 & I2 & I3 & I4 & I5); [lia|done|lia|].
  split_and!.
  - replace (room - Z.of_nat (S n)) with (room - 1 - Z.of_nat n) by lia. done.
  - lia.
  - congruence.
  - intros x Hx%I4. rewrite Hp. set_solver.
  - apply Permutation_length in Hp. rewrite length_app in Hp. lia.
Qed.

Lemma ticks_add n m s : ticks (n + m) s = ticks m (ticks n s).
Proof. revert s; induction n as [|n IH]; intros s; [done|]. simpl plus. by rewrite !ticks_succ, IH. Qed.

Lemma ticks_requests n s : all_requests (ticks n s) ≡ₚ all_requests s.
Proof.
  revert s; induction n as [|n IH]; intros s; [done|]. rewrite ticks_succ, IH. apply ClockTick_requests.
Qed.

(** Two requests of one cycle are not answered in one cycle. *)
Lemma neighbour_waits s x y :
  infinite_buffer_q_ s = [x; y] → expired (clk_ (base s)) (latency_ s) x = true →
  infinite_buffer_q_ (ClockTick s) = [y] ∧ reported (ClockTick s) = key x :: reported s.
Proof. intros E Hx. unfold ClockTick. rewrite E. simpl. rewrite Hx. done. Qed.

(** ** Properties *)

(** C33: the ideal memory answers everything.  With no further requests, all
    of the [n] requests in the buffer have been reported, each once, after
    [latency_ + n] ticks: although an erased element makes the loop step over
    its neighbour, every tick in which something has expired reports at least
    one request. *)
Theorem ideal_answers_all (s : IdealDRAMSystem) :
  0 ≤ clk_ (base s) → 
  buffer_ok (latency_ s + Z.of_nat (length (infinite_buffer_q_ s)) + 1) s →
  let s' := ticks (Z.to_nat (latency_ s) + length (infinite_buffer_q_ s)) s in
  infinite_buffer_q_ s' = [] ∧ reported s' ≡ₚ (key <$> infinite_buffer_q_ s) ++ reported s.
Proof.
  intros Hc Hb s'. pose proof Hb as (Hl & _ & Hadd).
  set (n := length (infinite_buffer_q_ s)) in *.
  destruct (ticks_wait (Z.to_nat (latency_ s)) _ s Hc Hb) as (W1 & W2 & W3 & W4 & W5); [lia|].
  pose proof (ticks_drain n (ticks (Z.to_nat (latency_ s)) s)) as Hdrain.
  rewrite <- ticks_add in Hdrain. fold s' in Hdrain.
  assert (infinite_buffer_q_ s' = []) as Hnil.
  { apply nil_length_inv. enough (length (infinite_buffer_q_ s') ≤ 0)%nat by lia.
    etransitivity; [apply Hdrain|lia].
    - lia.
    - destruct W1 as (? & ? & ?). split_and!; try done; lia.
    - intros x Hx%W4. rewrite list.Forall_forall in Hadd. specialize (Hadd x Hx). lia. }
  split; [done|]. pose proof (ticks_requests (Z.to_nat (latency_ s) + n) s) as Hp.
  unfold all_requests in Hp. fold s' in Hp. by rewrite Hnil in Hp.
Qed.

(** Two reads and a write of the same cycle. *)
Definition sample_ideal : IdealDRAMSystem :=
  let s := IdealDRAMSystem_new sample_config 1 2 in
  (AddTransaction 192 true (AddTransaction 128 false (AddTransaction 64 false s).2).2).2.

Lemma ideal_answers_all_witness :
  let s' := ticks (Z.to_nat (latency_ sample_ideal) + 3) sample_ideal in
  infinite_buffer_q_ s' = [] ∧ reported s' ≡ₚ (key <$> infinite_buffer_q_ sample_ideal) ++ [].
Proof.
  apply (ideal_answers_all sample_ideal).
  - vm_compute. discriminate.
  - split_and!; [vm_compute; discriminate|reflexivity|reflexivity|].
    repeat constructor; vm_compute; discriminate.
Defined.
End Ideal.
