(* ===== verification/Hmc.v ===== *)
(** * Hmc: the hybrid memory cube (src/src/hmc.h, hmc.cc)

    Requests enter through the links, cross a crossbar to one of four
    quadrants and are handed to the vault (a [Controller]) of their address;
    the response of a request is created when it enters, waits in a lookup
    table until the vault has answered, and crosses back to its link.  The
    logic die has a clock of its own, faster than the DRAM's.

    A packet is allocated with [new], is in one queue at a time and is deleted
    when it leaves the last one, so the queues hold the packets themselves. *)

From S2P Require Import Refresh CommandQueue.
From S2P Require Import Prelude Common Configuration Timing BankState ChannelState ChannelSafety.
From S2P Require Import SimpleStats Controller ControllerSafety ControllerRuns DramSystem.
Local Open Scope Z_scope.

(** ** Packets *)

Inductive HMCReqType : Type :=
  | RD0 | RD16 | RD32 | RD48 | RD64 | RD80 | RD96 | RD112 | RD128 | RD256
  | WR0 | WR16 | WR32 | WR48 | WR64 | WR80 | WR96 | WR112 | WR128 | WR256
  | P_WR16 | P_WR32 | P_WR48 | P_WR64 | P_WR80 | P_WR96 | P_WR112 | P_WR128 | P_WR256
  | ADD8 | ADD16 | P_2ADD8 | P_ADD16 | ADDS8R | ADDS16R | INC8 | P_INC8
  | XOR16 | OR16 | NOR16 | AND16 | NAND16
  | CASGT8 | CASGT16 | CASLT8 | CASLT16 | CASEQ8 | CASZERO16
  | EQ8 | EQ16 | BWR | P_BWR | BWR8R | SWAP16 | HMCReqType_SIZE.

#[export] Instance HMCReqType_eq_dec : EqDecision HMCReqType.
Proof. solve_decision. Defined.

Inductive HMCRespType : Type := NONE | RD_RS | WR_RS | ERR | HMCRespType_SIZE.

#[export] Instance HMCRespType_eq_dec : EqDecision HMCRespType.
Proof. solve_decision. Defined.

(** [type >= WR0 && type <= P_WR256] in the order of the enumeration. *)
Definition is_write_type (t : HMCReqType) : bool :=
  match t with
  | WR0 | WR16 | WR32 | WR48 | WR64 | WR80 | WR96 | WR112 | WR128 | WR256
  | P_WR16 | P_WR32 | P_WR48 | P_WR64 | P_WR80 | P_WR96 | P_WR112 | P_WR128 | P_WR256 => true
  | _ => false
  end.

(** The length of a request packet in flits. *)
Definition request_flits (t : HMCReqType) : res Z :=
  match t with
  | RD0 | WR0 => Ok 0
  | RD16 | RD32 | RD48 | RD64 | RD80 | RD96 | RD112 | RD128 | RD256 => Ok 1
  | WR16 | P_WR16 => Ok 2
  | WR32 | P_WR32 => Ok 3
  | WR48 | P_WR48 => Ok 4
  | WR64 | P_WR64 => Ok 5
  | WR80 | P_WR80 => Ok 6
  | WR96 | P_WR96 => Ok 7
  | WR112 | P_WR112 => Ok 8
  | WR128 | P_WR128 => Ok 9
  | WR256 | P_WR256 => Ok 17
  | ADD8 | ADD16 | P_2ADD8 | P_ADD16 | ADDS8R | ADDS16R => Ok 2
  | INC8 | P_INC8 => Ok 1
  | XOR16 | OR16 | NOR16 | AND16 | NAND16 | CASGT8 | CASGT16 | CASLT8 | CASLT16 | CASEQ8
  | CASZERO16 => Ok 2
  | EQ8 | EQ16 | BWR | P_BWR | BWR8R | SWAP16 => Ok 2
  | HMCReqType_SIZE => Fault (AbruptExit "hmc.cc" 107)
  end.

(** The kind and length of the response to a request. *)
Definition response_type (t : HMCReqType) : res (HMCRespType * Z) :=
  match t with
  | RD0 => Ok (RD_RS, 0)
  | RD16 => Ok (RD_RS, 2)
  | RD32 => Ok (RD_RS, 3)
  | RD48 => Ok (RD_RS, 4)
  | RD64 => Ok (RD_RS, 5)
  | RD80 => Ok (RD_RS, 6)
  | RD96 => Ok (RD_RS, 7)
  | RD112 => Ok (RD_RS, 8)
  | RD128 => Ok (RD_RS, 9)
  | RD256 => Ok (RD_RS, 17)
  | WR0 => Ok (WR_RS, 0)
  | WR16 | WR32 | WR48 | WR64 | WR80 | WR96 | WR112 | WR128 | WR256 => Ok (WR_RS, 1)
  | P_WR16 | P_WR32 | P_WR48 | P_WR64 | P_WR80 | P_WR96 | P_WR112 | P_WR128 | P_WR256 => Ok (NONE, 0)
  | ADD8 | ADD16 => Ok (WR_RS, 1)
  | P_2ADD8 | P_ADD16 => Ok (NONE, 0)
  | ADDS8R | ADDS16R => Ok (RD_RS, 2)
  | INC8 => Ok (WR_RS, 1)
  | P_INC8 => Ok (NONE, 0)
  | XOR16 | OR16 | NOR16 | AND16 | NAND16 | CASGT8 | CASGT16 | CASLT8 | CASLT16 | CASEQ8
  | CASZERO16 => Ok (RD_RS, 2)
  | EQ8 | EQ16 | BWR => Ok (WR_RS, 1)
  | P_BWR => Ok (NONE, 0)
  | BWR8R | SWAP16 => Ok (RD_RS, 2)
  | HMCReqType_SIZE => Fault (AbruptExit "hmc.cc" 237)
  end.

Record HMCRequest : Type := MkHMCRequest {
  req_type : HMCReqType; mem_operand : Z; req_link : Z; req_quad : Z; vault : Z;
  req_flits : Z; req_is_write : bool; req_exit_time : Z }.

#[export] Instance HMCRequest_eta : RecordEta HMCRequest := λ r, MkHMCRequest
  (req_type r) (mem_operand r) (req_link r) (req_quad r) (vault r) (req_flits r) (req_is_write r)
  (req_exit_time r).

Record HMCResponse : Type := MkHMCResponse {
  resp_id : Z; resp_type : HMCRespType; resp_link : Z; resp_quad : Z; resp_flits : Z;
  resp_exit_time : Z }.

#[export] Instance HMCResponse_eta : RecordEta HMCResponse := λ r, MkHMCResponse
  (resp_id r) (resp_type r) (resp_link r) (resp_quad r) (resp_flits r) (resp_exit_time r).

(** [link] and [exit_time] are indeterminate until the packet is queued. *)
Definition HMCRequest_new (t : HMCReqType) (hex_addr vault : Z) : res HMCRequest :=
  flits ← request_flits t;
  Ok (MkHMCRequest t hex_addr 0 (Z.rem vault 4) vault flits (is_write_type t) 0).

Definition HMCResponse_new (id : Z) (t : HMCReqType) (dest_link src_quad : Z) : res HMCResponse :=
  '(ty, flits) ← response_type t;
  Ok (MkHMCResponse id ty dest_link src_quad flits 0).

(** ** The system *)

Record HMCMemorySystem : Type := MkHMCMemorySystem {
  hmc_base : BaseDRAMSystem;
  logic_clk_ : Z; ps_per_dram_ : Z; ps_per_logic_ : Z; logic_ps_ : Z; dram_ps_ : Z;
  next_link_ : Z; links_ : Z; queue_depth_ : Z;
  resp_lookup_table_ : gmap Z (list HMCResponse);
  link_req_queues_ : list (list HMCRequest);
  link_resp_queues_ : list (list HMCResponse);
  quad_req_queues_ : list (list HMCRequest);
  quad_resp_queues_ : list (list HMCResponse);
  link_busy_ : list Z; quad_busy_ : list Z;
  link_age_counter_ : list Z; quad_age_counter_ : list Z }.

#[export] Instance HMCMemorySystem_eta : RecordEta HMCMemorySystem := λ s, MkHMCMemorySystem
  (hmc_base s) (logic_clk_ s) (ps_per_dram_ s) (ps_per_logic_ s) (logic_ps_ s) (dram_ps_ s)
  (next_link_ s) (links_ s) (queue_depth_ s) (resp_lookup_table_ s) (link_req_queues_ s)
  (link_resp_queues_ s) (quad_req_queues_ s) (quad_resp_queues_ s) (link_busy_ s) (quad_busy_ s)
  (link_age_counter_ s) (quad_age_counter_ s).

(** A vector of queues, changed at one index. *)
Definition push {A} (v : list (list A)) (i : Z) (a : A) : res (list (list A)) :=
  vec_modify v i (λ q, Ok (q ++ [a])).
Definition pop {A} (v : list (list A)) (i : Z) : res (list (list A)) :=
  vec_modify v i (λ q, Ok (tail q)).
Definition front {A} (q : list A) : res A := of_option OutOfRange (head q).
Definition queue_size {A} (q : list A) : Z := Z.of_nat (length q).

Section hmc.
Context (config_ : Config).

(** The period of the logic clock.  [1000000 / (double)logic_speed] is
    truncated: for an [int] the quotient of the doubles lies on the same side
    of every integer as the exact one, so this is the integer quotient.  The
    conversion of an infinite or negative value is undefined. *)
Definition logic_period (logic_speed : Z) : res Z :=
  if decide (logic_speed = 0) then Fault UndefinedConversion
  else let q := Z.quot 1000000 logic_speed in
       if decide (q < 0) then Fault UndefinedConversion else Ok q.

Definition SetClockRatio (s : HMCMemorySystem) : res HMCMemorySystem :=
  let s := s <| ps_per_dram_ := 800 |> in
  link_cycles_per_flit ← int_div 128 (link_width config_);
  logic_speed ← int_div (link_speed config_) link_cycles_per_flit;
  p ← logic_period logic_speed;
  Ok (s <| ps_per_logic_ := if decide (ps_per_dram_ s < p) then ps_per_dram_ s else p |>).

Definition HMCMemorySystem_new (read_callback write_callback : Z) : res HMCMemorySystem :=
  let s := MkHMCMemorySystem (BaseDRAMSystem_new read_callback write_callback)
             0 0 0 0 0 0 0 0 ∅ [] [] [] [] [] [0; 0; 0; 0] [] [0; 0; 0; 0] in
  if negb (IsHMC config_) then Fault (AbruptExit "hmc.cc" 255)
  else
    s ← SetClockRatio s;
    _ ← check_reserve (channels config_);
    b ← for_upto (channels config_)
          (λ i b, t ← Controller_new config_ i; Ok (b <| ctrls_ ::= λ v, v ++ [t] |>)) (hmc_base s);
    _ ← check_reserve (num_links config_);
    let links := Z.to_nat (num_links config_) in
    Ok (s <| hmc_base := b |>
          <| queue_depth_ := u64 (xbar_queue_depth config_) |>
          <| links_ := num_links config_ |>
          <| link_req_queues_ := replicate links [] |>
          <| link_resp_queues_ := replicate links [] |>
          <| quad_req_queues_ := replicate 4 [] |>
          <| quad_resp_queues_ := replicate 4 [] |>
          <| link_busy_ := replicate links 0 |>
          <| link_age_counter_ := replicate links 0 |>).

(** ** Accepting requests *)

Definition IterateNextLink (s : HMCMemorySystem) : res HMCMemorySystem :=
  if decide (links_ s = 0) then Fault DivideByZero
  else Ok (s <| next_link_ := Z.rem (next_link_ s + 1) (links_ s) |>).

Definition WillAcceptTransaction (hex_addr : Z) (is_write : bool) (s : HMCMemorySystem) : bool :=
  existsb (λ q, queue_size q <? queue_depth_ s) (link_req_queues_ s).

Definition InsertReqToLink (req : HMCRequest) (link : Z) (s : HMCMemorySystem)
    : res (bool * HMCMemorySystem) :=
  q ← vec_get (link_req_queues_ s) link;
  if decide (queue_size q < queue_depth_ s) then
    v ← push (link_req_queues_ s) link (req <| req_link := link |>);
    resp ← HMCResponse_new (mem_operand req) (req_type req) link (req_quad req);
    age ← vec_set (link_age_counter_ s) link 1;
    Ok (true, s <| link_req_queues_ := v |>
                <| resp_lookup_table_ ::= λ m, mm_insert m (resp_id resp) resp |>
                <| link_age_counter_ := age |>
                <| hmc_base ::= λ b, b <| last_req_clk_ := clk_ b |> |>)
  else Ok (false, s).

(** The [while (start_link != next_link_)] loop. *)
Fixpoint insert_elsewhere (fuel : nat) (start_link : Z) (req : HMCRequest) (s : HMCMemorySystem)
    : res (bool * HMCMemorySystem) :=
  match fuel with
  | O => Fault NoFuel
  | S fuel =>
    if decide (start_link = next_link_ s) then Ok (false, s)
    else
      '(ok, s) ← InsertReqToLink req (next_link_ s) s;
      s ← IterateNextLink s;
      if (ok : bool) then Ok (true, s) else insert_elsewhere fuel start_link req s
  end.

Definition InsertHMCReq (req : HMCRequest) (s : HMCMemorySystem) : res (bool * HMCMemorySystem) :=
  '(is_inserted, s) ← InsertReqToLink req (next_link_ s) s;
  let start_link := next_link_ s in
  s ← IterateNextLink s;
  if (is_inserted : bool) then Ok (true, s)
  else insert_elsewhere (S (length (link_req_queues_ s))) start_link req s.

(** Each transaction moves [block_size] bytes. *)
Definition block_req_type (is_write : bool) : res HMCReqType :=
  let b := block_size config_ in
  if is_write then
    if decide (b = 0) then Ok WR0 else if decide (b = 32) then Ok WR32
    else if decide (b = 64) then Ok WR64 else if decide (b = 128) then Ok WR128
    else if decide (b = 256) then Ok WR256 else Fault (AbruptExit "hmc.cc" 366)
  else
    if decide (b = 0) then Ok RD0 else if decide (b = 32) then Ok RD32
    else if decide (b = 64) then Ok RD64 else if decide (b = 128) then Ok RD128
    else if decide (b = 256) then Ok RD256 else Fault (AbruptExit "hmc.cc" 388).

Definition AddTransaction (hex_addr : Z) (is_write : bool) (s : HMCMemorySystem)
    : res (bool * HMCMemorySystem) :=
  t ← block_req_type is_write;
  req ← HMCRequest_new t hex_addr (GetChannel config_ hex_addr);
  InsertHMCReq req s.

(** ** Arbitration *)

(** Inserts a position before the first entry that its age exceeds: the code
    compares the age with the entry, which is a position. *)
Fixpoint insert_pos (age pos : Z) (age_queue : list Z) : list Z :=
  match age_queue with
  | [] => [pos]
  | it :: rest => if decide (it < age) then pos :: it :: rest else it :: insert_pos age pos rest
  end.

Definition BuildAgeQueue (age_counter : list Z) (s : HMCMemorySystem) : res (list Z) :=
  let queue_len := Z.of_nat (length age_counter) in
  if decide (queue_len = 0) then Fault DivideByZero
  else
    let start_pos := logic_clk_ s mod queue_len in
    for_upto queue_len (λ i age_queue,
      let pos := Z.rem (i + start_pos) queue_len in
      age ← vec_get age_counter pos;
      Ok (if decide (0 < age) then insert_pos age pos age_queue else age_queue)) [].

(** The crossbar moves two flits a cycle. *)
Definition drain_xbar (busy : list Z) : list Z :=
  (λ i, if decide (0 < i) then i - 2 else i) <$> busy.

(** ** Requests on their way to the vaults *)

Definition InsertReqToDRAM (req : HMCRequest) (s : HMCMemorySystem) : res HMCMemorySystem :=
  let trans := Transaction_new (mem_operand req) (req_is_write req) in
  v ← vec_modify (ctrls_ (hmc_base s)) (vault req) (λ t, Ok (Controller.AddTransaction trans t).2);
  Ok (s <| hmc_base ::= λ b, b <| ctrls_ := v |> |>).

Definition drain_quad_requests (i : Z) (s : HMCMemorySystem) : res HMCMemorySystem :=
  q ← vec_get (quad_req_queues_ s) i;
  r ← vec_get (quad_resp_queues_ s) i;
  match q with
  | [] => Ok s
  | req :: _ =>
    if decide (queue_size r < queue_depth_ s) then
      if decide (req_exit_time req ≤ logic_clk_ s) then
        t ← vec_get (ctrls_ (hmc_base s)) (vault req);
        if Controller.WillAcceptTransaction (mem_operand req) (req_is_write req) t then
          s ← InsertReqToDRAM req s;
          v ← pop (quad_req_queues_ s) i;
          Ok (s <| quad_req_queues_ := v |>)
        else Ok s
      else Ok s
    else Ok s
  end.

(** One link's turn: its oldest request crosses, or it grows older. *)
Definition link_to_quad (src_link : Z) (s : HMCMemorySystem) : res HMCMemorySystem :=
  q ← vec_get (link_req_queues_ s) src_link;
  req ← front q;
  let dest_quad := req_quad req in
  d ← vec_get (quad_req_queues_ s) dest_quad;
  busy ← (if decide (queue_size d < queue_depth_ s)
          then b ← vec_get (quad_busy_ s) dest_quad; Ok (negb (bool_decide (b ≤ 0)))
          else Ok true);
  if negb busy then
    links ← pop (link_req_queues_ s) src_link;
    quads ← push (quad_req_queues_ s) dest_quad
              (req <| req_exit_time := u64 (logic_clk_ s + req_flits req) |>);
    b ← vec_set (quad_busy_ s) dest_quad (req_flits req);
    age ← vec_set (link_age_counter_ s) src_link (if decide (tail q = []) then 0 else 1);
    Ok (s <| link_req_queues_ := links |> <| quad_req_queues_ := quads |> <| quad_busy_ := b |>
          <| link_age_counter_ := age |>)
  else
    age ← vec_modify (link_age_counter_ s) src_link (λ a, Ok (a + 1));
    Ok (s <| link_age_counter_ := age |>).

Definition DrainRequests (s : HMCMemorySystem) : res HMCMemorySystem :=
  s ← for_upto 4 drain_quad_requests s;
  let s := s <| quad_busy_ ::= drain_xbar |> in
  age_queue ← BuildAgeQueue (link_age_counter_ s) s;
  foldM link_to_quad age_queue s.

(** ** Responses on their way back *)

Definition resp_call (b : BaseDRAMSystem) (resp : HMCResponse) : Call :=
  if decide (resp_type resp = RD_RS) then MkCall (read_callback_ b) (resp_id resp, false)
  else MkCall (write_callback_ b) (resp_id resp, true).

Definition drain_link_responses (i : Z) (s : HMCMemorySystem) : res HMCMemorySystem :=
  q ← vec_get (link_resp_queues_ s) i;
  match q with
  | [] => Ok s
  | resp :: _ =>
    if decide (resp_exit_time resp ≤ logic_clk_ s) then
      v ← pop (link_resp_queues_ s) i;
      Ok (s <| hmc_base ::= λ b, b <| calls ::= cons (resp_call b resp) |> |>
            <| link_resp_queues_ := v |>)
    else Ok s
  end.

Definition quad_to_link (src_quad : Z) (s : HMCMemorySystem) : res HMCMemorySystem :=
  q ← vec_get (quad_resp_queues_ s) src_quad;
  resp ← front q;
  let dest_link := resp_link resp in
  d ← vec_get (link_resp_queues_ s) dest_link;
  busy ← (if decide (queue_size d < queue_depth_ s)
          then b ← vec_get (link_busy_ s) dest_link; Ok (negb (bool_decide (b ≤ 0)))
          else Ok true);
  if negb busy then
    quads ← pop (quad_resp_queues_ s) src_quad;
    links ← push (link_resp_queues_ s) dest_link
              (resp <| resp_exit_time := u64 (logic_clk_ s + resp_flits resp) |>);
    b ← vec_set (link_busy_ s) dest_link (resp_flits resp);
    age ← vec_set (quad_age_counter_ s) src_quad (if decide (tail q = []) then 0 else 1);
    Ok (s <| quad_resp_queues_ := quads |> <| link_resp_queues_ := links |> <| link_busy_ := b |>
          <| quad_age_counter_ := age |>)
  else
    age ← vec_modify (quad_age_counter_ s) src_quad (λ a, Ok (a + 1));
    Ok (s <| quad_age_counter_ := age |>).

Definition DrainResponses (s : HMCMemorySystem) : res HMCMemorySystem :=
  s ← for_upto (links_ s) drain_link_responses s;
  let s := s <| link_busy_ ::= drain_xbar |> in
  age_queue ← BuildAgeQueue (quad_age_counter_ s) s;
  foldM quad_to_link age_queue s.

(** ** The clocks *)

(** A vault has answered; dereferencing [end()] of the table is undefined. *)
Definition VaultCallback (req_id : Z) (s : HMCMemorySystem) : res HMCMemorySystem :=
  resp ← of_option OutOfRange (mm_find (resp_lookup_table_ s) req_id);
  v ← push (quad_resp_queues_ s) (resp_quad resp) resp;
  age ← vec_set (quad_age_counter_ s) (resp_quad resp) 1;
  Ok (s <| resp_lookup_table_ ::= λ m, mm_erase_first m req_id |>
        <| quad_resp_queues_ := v |> <| quad_age_counter_ := age |>).

(** The [while (true)] loop over the completed transactions of vault [i]; the
    fuel is one more than the entries of its return queue. *)
Fixpoint drain_vault (fuel : nat) (i : Z) (s : HMCMemorySystem) : res HMCMemorySystem :=
  match fuel with
  | O => Fault NoFuel
  | S fuel =>
    t ← vec_get (ctrls_ (hmc_base s)) i;
    let '(done, t) := ReturnDoneTrans (clk_ (hmc_base s)) t in
    v ← vec_set (ctrls_ (hmc_base s)) i t;
    let s := s <| hmc_base ::= λ b, b <| ctrls_ := v |> |> in
    if decide (done.2 = 1) then s ← VaultCallback done.1 s; drain_vault fuel i s
    else if decide (done.2 = 0) then s ← VaultCallback done.1 s; drain_vault fuel i s
    else Ok s
  end.

Definition collect_vault (i : Z) (s : HMCMemorySystem) : res HMCMemorySystem :=
  t ← vec_get (ctrls_ (hmc_base s)) i; drain_vault (S (length (return_queue_ t))) i s.

Definition with_base (f : BaseDRAMSystem → res BaseDRAMSystem) (s : HMCMemorySystem)
    : res HMCMemorySystem :=
  b ← f (hmc_base s); Ok (s <| hmc_base := b |>).

Definition DRAMClockTick (s : HMCMemorySystem) : res HMCMemorySystem :=
  s ← for_upto (Z.of_nat (length (ctrls_ (hmc_base s)))) collect_vault s;
  s ← with_base (for_ctrls (Controller.ClockTick config_ (Timing_new config_))) s;
  let s := s <| hmc_base ::= λ b, b <| clk_ ::= λ k, u64 (k + 1) |> |> in
  if decide (u64 (epoch_period config_) = 0) then Fault DivideByZero
  else if decide (clk_ (hmc_base s) mod u64 (epoch_period config_) = 0)
  then with_base PrintEpochStats s else Ok s.

Definition advance_logic (s : HMCMemorySystem) : HMCMemorySystem :=
  s <| logic_ps_ ::= λ p, u64 (p + ps_per_logic_ s) |> <| logic_clk_ ::= λ k, u64 (k + 1) |>.

Definition logic_tick (s : HMCMemorySystem) : res HMCMemorySystem :=
  s ← DrainResponses s; s ← DrainRequests s; Ok (advance_logic s).

(** [while (logic_ps_ < dram_ps_ + ps_per_dram_)] *)
Fixpoint logic_loop (fuel : nat) (s : HMCMemorySystem) : res HMCMemorySystem :=
  if decide (logic_ps_ s < u64 (dram_ps_ s + ps_per_dram_ s)) then
    match fuel with O => Fault NoFuel | S fuel => s ← logic_tick s; logic_loop fuel s end
  else Ok s.

(** A logic cycle lasts at least a picosecond, so [ps_per_dram_] of them
    cover a DRAM cycle. *)
Definition ClockTick (s : HMCMemorySystem) : res HMCMemorySystem :=
  s ← (if decide (dram_ps_ s = logic_ps_ s) then
         s ← DrainResponses s; s ← DRAMClockTick s; s ← DrainRequests s; Ok (advance_logic s)
       else DRAMClockTick s);
  s ← logic_loop (Z.to_nat (ps_per_dram_ s)) s;
  Ok (s <| dram_ps_ ::= λ p, u64 (p + ps_per_dram_ s) |>).

(** ** Inherited operations *)

Definition RegisterCallbacks (read_callback write_callback : Z) (s : HMCMemorySystem) : HMCMemorySystem :=
  s <| hmc_base ::= DramSystem.RegisterCallbacks read_callback write_callback |>.
End hmc.
