(* ===== verification/HmcSafety.v ===== *)
(** * HmcSafety: what a hybrid memory cube guarantees (src/src/hmc.cc)

    The invariant of the cube: every packet has a valid link, quadrant and
    vault, the age counters say which queues hold packets, the queues between
    the crossbar's sides keep to their depth, and for each address the lookup
    table holds exactly one response per request that is on its way to the
    vaults or open inside one.  Every operation keeps it and returns. *)

From S2P Require Import Refresh CommandQueue.
From S2P Require Import Prelude Common Configuration Timing BankState ChannelState ChannelSafety.
From S2P Require Import SimpleStats Controller ControllerSafety ControllerRuns DramSystem.
From S2P Require Import DramSystemSafety Hmc.
Local Open Scope Z_scope.

(** ** Vectors of queues *)

Lemma vec_modify_replaced {A} (v : list A) i f a a' :
  vlookup v i = Some a → f a = Ok a' →
  vec_modify v i f = Ok (<[Z.to_nat i := a']> v) ∧ replaced v i a' (<[Z.to_nat i := a']> v).
Proof.
  intros Ha Hf. pose proof (vlookup_range _ _ _ Ha). split.
  - unfold vec_modify. apply vec_get_Ok in Ha as ->. simpl. by rewrite Hf.
  - split; [by rewrite length_insert|]. intros j. by apply vlookup_insert.
Qed.

Lemma replaced_length {A} (v w : list A) i a : replaced v i a w → length w = length v.
Proof. by intros [? _]. Qed.

Lemma push_run {A} (v : list (list A)) i q a :
  vlookup v i = Some q →
  ∃ w, push v i a = Ok w ∧ replaced v i (q ++ [a]) w ∧ concat w ≡ₚ a :: concat v.
Proof.
  intros Hq. destruct (vec_modify_replaced v i (λ q, Ok (q ++ [a])) q _ Hq eq_refl) as [Hw Hr].
  eexists. split; [exact Hw|]. split; [done|]. apply vlookup_Some in Hq as [_ Hq].
  destruct (concat_insert v _ q (q ++ [a]) Hq) as (rest & H1 & H2).
  rewrite H2, H1, <- app_assoc. simpl. by rewrite Permutation_middle.
Qed.

Lemma pop_run {A} (v : list (list A)) i q a :
  vlookup v i = Some (a :: q) →
  ∃ w, pop v i = Ok w ∧ replaced v i q w ∧ concat v ≡ₚ a :: concat w.
Proof.
  intros Hq. destruct (vec_modify_replaced v i (λ q, Ok (tail q)) _ q Hq eq_refl) as [Hw Hr].
  eexists. split; [exact Hw|]. split; [done|]. apply vlookup_Some in Hq as [_ Hq].
  destruct (concat_insert v _ _ q Hq) as (rest & H1 & H2). by rewrite H2, H1.
Qed.

(** The age of a queue is positive exactly when the queue holds something. *)
Definition ages_ok {A} (v : list (list A)) (age : list Z) : Prop :=
  length age = length v ∧
  ∀ i q a, vlookup v i = Some q → vlookup age i = Some a → (0 < a ↔ q ≠ []).

Definition bounded {A} (n : Z) (v : list (list A)) : Prop :=
  ∀ i q, vlookup v i = Some q → queue_size q ≤ n.

Lemma ages_ok_replaced {A} (v v' : list (list A)) age age' i q a :
  ages_ok v age → replaced v i q v' → replaced age i a age' → (0 < a ↔ q ≠ []) → ages_ok v' age'.
Proof.
  intros [Hl Ha] [L1 R1] [L2 R2] Hq. split; [congruence|]. intros j q' a'. rewrite R1, R2.
  case_decide; [by intros [= <-] [= <-]|apply Ha].
Qed.

Lemma ages_ok_older {A} (v : list (list A)) age age' i q a :
  ages_ok v age → vlookup v i = Some q → replaced age i a age' → (0 < a ↔ q ≠ []) → ages_ok v age'.
Proof. intros Hok Hq%replaced_same. by apply (ages_ok_replaced v v). Qed.

Lemma bounded_replaced {A} n (v v' : list (list A)) i q :
  bounded n v → replaced v i q v' → queue_size q ≤ n → bounded n v'.
Proof. intros Hb [_ R] Hq j q'. rewrite R. case_decide; [by intros [= <-]|apply Hb]. Qed.

Lemma queue_size_snoc {A} (q : list A) a : queue_size (q ++ [a]) = queue_size q + 1.
Proof. unfold queue_size. rewrite length_app. simpl. lia. Qed.

Lemma queue_size_cons {A} (q : list A) a : queue_size (a :: q) = queue_size q + 1.
Proof. unfold queue_size. simpl. lia. Qed.

(** ** The invariant *)

(** Packets without the cycle at which they leave the crossbar. *)
Definition req_core (r : HMCRequest) : HMCRequest := r <| req_exit_time := 0 |>.
Definition resp_core (r : HMCResponse) : HMCResponse := r <| resp_exit_time := 0 |>.

(** The requests on their way to the vaults; the responses on their way back. *)
Definition requests (s : HMCMemorySystem) : list HMCRequest :=
  req_core <$> concat (link_req_queues_ s) ++ concat (quad_req_queues_ s).
Definition responses (s : HMCMemorySystem) : list HMCResponse :=
  resp_core <$> concat (quad_resp_queues_ s) ++ concat (link_resp_queues_ s).

(** What a response will report. *)
Definition resp_key (r : HMCResponse) : Z * bool :=
  (resp_id r, negb (bool_decide (resp_type r = RD_RS))).

Definition at_address (h : Z) (l : list HMCRequest) : nat :=
  length (filter (λ r, mem_operand r = h) l).

Definition req_good (c : Config) (r : HMCRequest) : Prop :=
  0 ≤ mem_operand r ∧ vault r = GetChannel c (mem_operand r) ∧ req_quad r = Z.rem (vault r) 4.

Definition resp_good (c : Config) (r : HMCResponse) : Prop :=
  0 ≤ resp_link r < num_links c ∧ 0 ≤ resp_quad r < 4.

(** The requests for an address that are open inside a vault, and inside the
    vault of the address. *)
Definition open_at (h : Z) (t : Controller) : nat :=
  (open_requests (h, false) t + open_requests (h, true) t)%nat.

Definition vault_open (c : Config) (h : Z) (b : BaseDRAMSystem) : nat :=
  match vlookup (ctrls_ b) (GetChannel c h) with
  | Some t => open_at h t
  | None => 0
  end.

(** A vault in a state that some run of its controller reaches, with
    addresses of its own only. *)
Definition vault_ok (c : Config) (i : Z) (t : Controller) : Prop :=
  ∃ acc ans, world_ok c (MkWorld t acc ans) ∧ Forall (λ k, GetChannel c k.1 = i) acc.

Record shape_ok (c : Config) (s : HMCMemorySystem) : Prop := {
  hs_links : links_ s = num_links c;
  hs_depth : queue_depth_ s = u64 (xbar_queue_depth c);
  hs_next : 0 ≤ next_link_ s < num_links c;
  hs_clk : 0 ≤ logic_clk_ s;
  hs_link_req : Z.of_nat (length (link_req_queues_ s)) = num_links c;
  hs_link_resp : Z.of_nat (length (link_resp_queues_ s)) = num_links c;
  hs_link_busy : Z.of_nat (length (link_busy_ s)) = num_links c;
  hs_quad_req : length (quad_req_queues_ s) = 4%nat;
  hs_quad_resp : length (quad_resp_queues_ s) = 4%nat;
  hs_quad_busy : length (quad_busy_ s) = 4%nat;
  hs_link_age : ages_ok (link_req_queues_ s) (link_age_counter_ s);
  hs_quad_age : ages_ok (quad_resp_queues_ s) (quad_age_counter_ s);
  hs_link_req_size : bounded (queue_depth_ s) (link_req_queues_ s);
  hs_quad_req_size : bounded (queue_depth_ s) (quad_req_queues_ s);
  hs_link_resp_size : bounded (queue_depth_ s) (link_resp_queues_ s) }.

(** [acc] are the requests accepted so far. *)
Record hmc_ok (c : Config) (acc : list (Z * bool)) (s : HMCMemorySystem) : Prop := {
  hm_shape : shape_ok c s;
  hm_len : length (ctrls_ (hmc_base s)) = Z.to_nat (channels c);
  hm_clk : ∀ i t, vlookup (ctrls_ (hmc_base s)) i = Some t → Controller.clk_ t = clk_ (hmc_base s);
  hm_vault : ∀ i t, vlookup (ctrls_ (hmc_base s)) i = Some t → vault_ok c i t;
  hm_req : Forall (req_good c) (requests s);
  hm_resp : Forall (resp_good c) (responses s);
  hm_table : ∀ h r, r ∈ mm_at (resp_lookup_table_ s) h → resp_good c r ∧ resp_id r = h;
  hm_count : ∀ h, length (mm_at (resp_lookup_table_ s) h) =
    (at_address h (requests s) + vault_open c h (hmc_base s))%nat;
  hm_acc : ∀ k, times k acc = (times k (reported_keys (hmc_base s)) +
    times k (resp_key <$> responses s) + times k (resp_key <$> mm_at (resp_lookup_table_ s) k.1))%nat }.

(** What a cube needs of its configuration; at less than a picosecond a cycle
    its logic clock would never catch up. *)
Class SafeHmc (c : Config) : Prop := {
  sh_safe :: SafeConfig c;
  sh_hmc : IsHMC c = true;
  sh_channels : 0 < channels c;
  sh_range : channel_in_range c;
  sh_epoch : u64 (epoch_period c) ≠ 0;
  sh_links : 0 < num_links c;
  sh_block : block_size c ∈ [0; 32; 64; 128; 256];
  sh_speed : ∃ k v, int_div 128 (link_width c) = Ok k ∧ int_div (link_speed c) k = Ok v ∧
               0 < v ≤ 1000000 }.

Lemma at_address_cons h r l :
  at_address h (r :: l) = ((if decide (mem_operand r = h) then 1 else 0) + at_address h l)%nat.
Proof. unfold at_address. rewrite list.filter_cons. by destruct (decide _). Qed.

Lemma at_address_perm h l l' : l ≡ₚ l' → at_address h l = at_address h l'.
Proof. unfold at_address. by intros ->. Qed.

(** Steps that leave the vaults, the table and the packets alone. *)
Lemma hmc_ok_moved c acc s s' :
  hmc_ok c acc s → shape_ok c s' → hmc_base s' = hmc_base s →
  resp_lookup_table_ s' = resp_lookup_table_ s → requests s' ≡ₚ requests s →
  responses s' ≡ₚ responses s → hmc_ok c acc s'.
Proof.
  intros [H1 H2 H3 H4 H5 H6 H7 H8 H9] Hs Eb Et Hq Hr. constructor; rewrite ?Eb, ?Et; try done.
  - by rewrite Hq.
  - by rewrite Hr.
  - intros h. by rewrite (at_address_perm _ _ _ Hq), H8.
  - intros k. rewrite H9. by rewrite (times_perm _ _ _ (fmap_Permutation resp_key _ _ Hr)).
Qed.

(** ** Arbitration *)

Lemma insert_pos_perm age pos l : insert_pos age pos l ≡ₚ pos :: l.
Proof.
  induction l as [|it l IH]; simpl; [done|]. case_decide; [done|]. rewrite IH. constructor.
Qed.

(** The order in which the positions are looked at. *)
Definition rotation (n start : Z) : list Z := (λ i, Z.rem (i + start) n) <$> seqZ 0 n.

Definition positive_at (ages : list Z) (i : Z) : bool :=
  match vlookup ages i with Some a => 0 <? a | None => false end.

Lemma rotation_spec n start : 0 ≤ start < n → NoDup (rotation n start) ∧ ∀ i, i ∈ rotation n start ↔ 0 ≤ i < n.
Proof.
  intros Hs. split.
  - apply (NoDup_fmap_2_strong (λ i, Z.rem (i + start) n)); [|apply NoDup_seqZ].
    intros x y Hx%elem_of_seqZ Hy%elem_of_seqZ. rewrite !Z.rem_mod_nonneg by lia. intros E.
    apply (f_equal (λ z, (z - start) mod n)) in E. rewrite !Zminus_mod_idemp_l in E.
    replace (x + start - start) with x in E by lia. replace (y + start - start) with y in E by lia.
    by rewrite !Z.mod_small in E by lia.
  - intros i. unfold rotation. rewrite list_elem_of_fmap. split.
    + intros (j & -> & Hj%elem_of_seqZ). rewrite Z.rem_mod_nonneg by lia. apply Z.mod_pos_bound. lia.
    + intros Hi. exists ((i - start) mod n). pose proof (Z.mod_pos_bound (i - start) n ltac:(lia)). split.
      * rewrite Z.rem_mod_nonneg by lia. rewrite Zplus_mod_idemp_l.
        replace (i - start + start) with i by lia. by rewrite Z.mod_small.
      * apply elem_of_seqZ. lia.
Qed.

Lemma BuildAgeQueue_run ages s :
  ages ≠ [] → 0 ≤ logic_clk_ s →
  ensures (BuildAgeQueue ages s) (λ l,
    l ≡ₚ filter (λ i, positive_at ages i = true)
           (rotation (Z.of_nat (length ages)) (logic_clk_ s mod Z.of_nat (length ages)))).
Proof.
  intros Hne Hk. unfold BuildAgeQueue. set (n := Z.of_nat (length ages)).
  assert (0 < n) as Hn by (destruct ages; simpl in *; [done|lia]). rewrite decide_False by lia.
  pose proof (Z.mod_pos_bound (logic_clk_ s) n Hn) as Hst. set (st := logic_clk_ s mod n) in *.
  unfold rotation, for_upto. generalize (seqZ 0 n) (λ i, proj1 (elem_of_seqZ 0 n i)). intros l Hl.
  destruct (foldM_total (λ i age_queue, age ← vec_get ages (Z.rem (i + st) n);
      Ok (if decide (0 < age) then insert_pos age (Z.rem (i + st) n) age_queue else age_queue))
    (λ pre q, q ≡ₚ filter (λ i, positive_at ages i = true) ((λ i, Z.rem (i + st) n) <$> pre)) l [])
    as (q & Hrun & Hq); [done| |by exists q].
  intros pre i q Hi _ Hq. specialize (Hl i Hi).
  pose proof (Z.rem_mod_nonneg (i + st) n ltac:(lia) Hn) as E.
  pose proof (Z.mod_pos_bound (i + st) n Hn) as Hp. rewrite <- E in Hp.
  destruct (vlookup_lt ages (Z.rem (i + st) n) Hp) as [a Ha].
  apply vec_get_Ok in Ha as Hg. rewrite Hg. simpl. eexists. split; [done|].
  rewrite fmap_app, list.filter_app, <- Hq. simpl. rewrite list.filter_cons.
  assert (positive_at ages (Z.rem (i + st) n) = (0 <? a)) as Ep by (unfold positive_at; by rewrite Ha).
  destruct (decide (0 < a)).
  - rewrite decide_True by by rewrite Ep, Z.ltb_lt. rewrite insert_pos_perm.
    change (filter _ []) with (@nil Z). by rewrite Permutation_app_comm.
  - rewrite decide_False by (rewrite Ep, Z.ltb_lt; lia). change (filter _ []) with (@nil Z). by rewrite app_nil_r.
Qed.

(** The arbiter's queue names each waiting queue once, and no other. *)
Lemma BuildAgeQueue_ready {A} (v : list (list A)) ages s :
  ages_ok v ages → v ≠ [] → 0 ≤ logic_clk_ s →
  ensures (BuildAgeQueue ages s) (λ l, NoDup l ∧
    ∀ i, i ∈ l ↔ ∃ x q, vlookup v i = Some (x :: q)).
Proof.
  intros [Hl Ha] Hne Hk. eapply ensures_mono; [apply BuildAgeQueue_run; [by destruct ages, v|done]|].
  intros l Hp. destruct (rotation_spec (Z.of_nat (length ages)) (logic_clk_ s mod Z.of_nat (length ages)))
    as [Hnd Hrot]. { apply Z.mod_pos_bound. destruct ages, v; simpl in *; done || lia. }
  split; [rewrite Hp; by apply list.NoDup_filter|]. intros i. rewrite Hp, list_elem_of_filter, Hrot.
  unfold positive_at. split.
  - intros [Hi _]. destruct (vlookup ages i) as [a|] eqn:Hai; [|done].
    destruct (vlookup_lt v i) as [q Hq]; [rewrite <- Hl; by eapply vlookup_range|].
    apply Z.ltb_lt in Hi. specialize (Ha i q a Hq Hai). destruct q as [|x q]; [naive_solver|eauto].
  - intros (x & q & Hq). pose proof (vlookup_range _ _ _ Hq) as Hr. rewrite <- Hl in Hr.
    destruct (vlookup_lt ages i Hr) as [a Hai]. rewrite Hai. split; [|done]. apply Z.ltb_lt.
    by apply (Ha i _ a Hq Hai).
Qed.

(** Reads a vector at an index where it is known. *)
Ltac get H :=
  let E := fresh in
  pose proof (proj2 (vec_get_Ok _ _ _) H) as E; rewrite E; clear E; cbn [mbind res_bind].

Lemma elem_of_queue {A} (v : list (list A)) i q x : vlookup v i = Some q → x ∈ q → x ∈ concat v.
Proof.
  intros [_ Hq]%vlookup_Some Hx. destruct (concat_insert v _ q q Hq) as (rest & -> & _). set_solver.
Qed.

Section cube.
Context (c : Config) `{Hmc : !SafeHmc c}.

Lemma req_good_quad r : req_good c r → 0 ≤ vault r < channels c ∧ 0 ≤ req_quad r < 4.
Proof.
  intros (Ha & Hv & ->). pose proof (sh_range _ Ha) as Hc. rewrite <- GetChannel_mapping, <- Hv in Hc.
  split; [done|]. rewrite Z.rem_mod_nonneg by lia. by apply Z.mod_pos_bound.
Qed.

Lemma link_request_good acc s i q r :
  hmc_ok c acc s → vlookup (link_req_queues_ s) i = Some q → r ∈ q → req_good c r.
Proof.
  intros Hs Hq Hr. pose proof (hm_req _ _ _ Hs) as H. rewrite list.Forall_forall in H.
  apply (H (req_core r)), list_elem_of_fmap_2, elem_of_app. left. by eapply elem_of_queue.
Qed.

Lemma quad_request_good acc s i q r :
  hmc_ok c acc s → vlookup (quad_req_queues_ s) i = Some q → r ∈ q → req_good c r.
Proof.
  intros Hs Hq Hr. pose proof (hm_req _ _ _ Hs) as H. rewrite list.Forall_forall in H.
  apply (H (req_core r)), list_elem_of_fmap_2, elem_of_app. right. by eapply elem_of_queue.
Qed.

Lemma quad_response_good acc s i q r :
  hmc_ok c acc s → vlookup (quad_resp_queues_ s) i = Some q → r ∈ q → resp_good c r.
Proof.
  intros Hs Hq Hr. pose proof (hm_resp _ _ _ Hs) as H. rewrite list.Forall_forall in H.
  apply (H (resp_core r)), list_elem_of_fmap_2, elem_of_app. left. by eapply elem_of_queue.
Qed.

(** The age that the arbiter writes after a queue was served. *)
Lemma served_age {A} (q : list A) : 0 < (if decide (q = []) then 0 else 1) ↔ q ≠ [].
Proof. destruct q; simpl; split; intros; try done; lia. Qed.

Lemma link_to_quad_ok acc s i req q :
  hmc_ok c acc s → vlookup (link_req_queues_ s) i = Some (req :: q) →
  ensures (link_to_quad i s) (λ s', hmc_ok c acc s' ∧
    ∀ j, j ≠ i → vlookup (link_req_queues_ s') j = vlookup (link_req_queues_ s) j).
Proof.
  intros Hs Hq. pose proof (hm_shape _ _ _ Hs) as Hsh.
  pose proof (link_request_good _ _ _ _ req Hs Hq ltac:(set_solver)) as Hgood.
  destruct (req_good_quad _ Hgood) as [_ Hquad].
  destruct (vlookup_lt (quad_req_queues_ s) (req_quad req)) as [d Hd]; [by rewrite (hs_quad_req _ _ Hsh)|].
  destruct (vlookup_lt (quad_busy_ s) (req_quad req)) as [b Hb]; [by rewrite (hs_quad_busy _ _ Hsh)|].
  destruct (hs_link_age _ _ Hsh) as [Hlen Hage].
  destruct (vlookup_lt (link_age_counter_ s) i) as [a Ha]; [rewrite Hlen; by eapply vlookup_range|].
  unfold link_to_quad, front. get Hq. cbn [head of_option mbind res_bind]. get Hd.
  assert (ensures (age ← vec_modify (link_age_counter_ s) i (λ a, Ok (a + 1)); Ok (s <| link_age_counter_ := age |>))
    (λ s', hmc_ok c acc s' ∧ ∀ j, j ≠ i → vlookup (link_req_queues_ s') j = vlookup (link_req_queues_ s) j)) as Hstall.
  { destruct (vec_modify_replaced (link_age_counter_ s) i (λ a, Ok (a + 1)) a _ Ha eq_refl) as [-> Hr].
    apply ensures_ret. split; [|done]. apply (hmc_ok_moved c acc s); try done.
    destruct Hsh. constructor; try done. simpl. eapply ages_ok_older; [done|exact Hq|exact Hr|].
    specialize (Hage _ _ _ Hq Ha). split; [done|]. intros _. assert (0 < a) by (by apply Hage). lia. }
  destruct (decide (queue_size d < queue_depth_ s)) as [Hroom|]; [get Hb|exact Hstall].
  rewrite negb_involutive. destruct (bool_decide (b ≤ 0)); [clear Hstall|exact Hstall].
  set (out := req <| req_exit_time := _ |>).
  destruct (pop_run _ _ _ _ Hq) as (links & -> & Hlr & Hlp). cbn [mbind res_bind].
  destruct (push_run _ _ _ out Hd) as (quads & -> & Hqr & Hqp). cbn [mbind res_bind].
  destruct (vec_set_replaced _ _ _ (req_flits req) Hb) as (busy & -> & Hbr). cbn [mbind res_bind].
  destruct (vec_set_replaced _ _ _ (if decide (tail (req :: q) = []) then 0 else 1) Ha) as (age & -> & Har).
  apply ensures_ret. split; [|intros j Hj; simpl; destruct Hlr as [_ ->]; by rewrite decide_False].
  apply (hmc_ok_moved c acc s); try done.
  - apply replaced_length in Hlr as L1, Hqr as L2, Hbr as L3.
    destruct Hsh. constructor; simpl; rewrite ?L1, ?L2, ?L3; try done.
    + eapply ages_ok_replaced; [done|exact Hlr|exact Har|apply served_age].
    + eapply bounded_replaced; [|exact Hlr|]; [done|]. apply hs_link_req_size0 in Hq.
      rewrite queue_size_cons in Hq. lia.
    + eapply bounded_replaced; [|exact Hqr|]; [done|]. rewrite queue_size_snoc. lia.
  - unfold requests. simpl. rewrite Hlp, Hqp. simpl. rewrite <- Permutation_middle. simpl. done.
Qed.
Lemma quad_to_link_ok acc s i resp q :
  hmc_ok c acc s → vlookup (quad_resp_queues_ s) i = Some (resp :: q) →
  ensures (quad_to_link i s) (λ s', hmc_ok c acc s' ∧
    ∀ j, j ≠ i → vlookup (quad_resp_queues_ s') j = vlookup (quad_resp_queues_ s) j).
Proof.
  intros Hs Hq. pose proof (hm_shape _ _ _ Hs) as Hsh.
  destruct (quad_response_good _ _ _ _ resp Hs Hq ltac:(set_solver)) as [Hlink _].
  destruct (vlookup_lt (link_resp_queues_ s) (resp_link resp)) as [d Hd]; [by rewrite (hs_link_resp _ _ Hsh)|].
  destruct (vlookup_lt (link_busy_ s) (resp_link resp)) as [b Hb]; [by rewrite (hs_link_busy _ _ Hsh)|].
  destruct (hs_quad_age _ _ Hsh) as [Hlen Hage].
  destruct (vlookup_lt (quad_age_counter_ s) i) as [a Ha]; [rewrite Hlen; by eapply vlookup_range|].
  unfold quad_to_link, front. get Hq. cbn [head of_option mbind res_bind]. get Hd.
  assert (ensures (age ← vec_modify (quad_age_counter_ s) i (λ a, Ok (a + 1)); Ok (s <| quad_age_counter_ := age |>))
    (λ s', hmc_ok c acc s' ∧ ∀ j, j ≠ i → vlookup (quad_resp_queues_ s') j = vlookup (quad_resp_queues_ s) j)) as Hstall.
  { destruct (vec_modify_replaced (quad_age_counter_ s) i (λ a, Ok (a + 1)) a _ Ha eq_refl) as [-> Hr].
    apply ensures_ret. split; [|done]. apply (hmc_ok_moved c acc s); try done.
    destruct Hsh. constructor; try done. simpl. eapply ages_ok_older; [done|exact Hq|exact Hr|].
    specialize (Hage _ _ _ Hq Ha). split; [done|]. intros _. assert (0 < a) by (by apply Hage). lia. }
  destruct (decide (queue_size d < queue_depth_ s)) as [Hroom|]; [get Hb|exact Hstall].
  rewrite negb_involutive. destruct (bool_decide (b ≤ 0)); [clear Hstall|exact Hstall].
  set (out := resp <| resp_exit_time := _ |>).
  destruct (pop_run _ _ _ _ Hq) as (quads & -> & Hqr & Hqp). cbn [mbind res_bind].
  destruct (push_run _ _ _ out Hd) as (links & -> & Hlr & Hlp). cbn [mbind res_bind].
  destruct (vec_set_replaced _ _ _ (resp_flits resp) Hb) as (busy & -> & Hbr). cbn [mbind res_bind].
  destruct (vec_set_replaced _ _ _ (if decide (tail (resp :: q) = []) then 0 else 1) Ha) as (age & -> & Har).
  apply ensures_ret. split; [|intros j Hj; simpl; destruct Hqr as [_ ->]; by rewrite decide_False].
  apply (hmc_ok_moved c acc s); try done.
  - apply replaced_length in Hlr as L1, Hqr as L2, Hbr as L3.
    destruct Hsh. constructor; simpl; rewrite ?L1, ?L2, ?L3; try done.
    + eapply ages_ok_replaced; [done|exact Hqr|exact Har|apply served_age].
    + eapply bounded_replaced; [|exact Hlr|]; [done|]. rewrite queue_size_snoc. lia.
  - unfold responses. simpl. rewrite Hlp, Hqp. simpl. rewrite <- Permutation_middle. simpl. done.
Qed.

(** A turn for each queue that the arbiter named. *)
Lemma turns_ok {A} (queues : HMCMemorySystem → list (list A)) step acc :
  (∀ s i x q, hmc_ok c acc s → vlookup (queues s) i = Some (x :: q) →
     ensures (step i s) (λ s', hmc_ok c acc s' ∧ ∀ j, j ≠ i → vlookup (queues s') j = vlookup (queues s) j)) →
  ∀ l s, hmc_ok c acc s → NoDup l → (∀ i, i ∈ l → ∃ x q, vlookup (queues s) i = Some (x :: q)) →
  ensures (foldM step l s) (hmc_ok c acc).
Proof.
  intros Hstep. induction l as [|i l IH]; intros s Hs Hnd Hl; simpl; [by apply ensures_ret|].
  apply list.NoDup_cons in Hnd as [Hi Hnd]. destruct (Hl i) as (x & q & Hq); [set_solver|].
  eapply ensures_bind; [by eapply Hstep|]. intros s1 [Hs1 Hsame]. apply IH; [done..|].
  intros j Hj. rewrite Hsame by (intros ->; done). apply Hl. set_solver.
Qed.

(** Idling the crossbar. *)
Lemma drain_link_busy_ok acc s : hmc_ok c acc s → hmc_ok c acc (s <| link_busy_ ::= drain_xbar |>).
Proof.
  intros Hs. apply (hmc_ok_moved c acc s); try done. destruct (hm_shape _ _ _ Hs).
  constructor; try done. unfold drain_xbar. simpl. by rewrite length_fmap.
Qed.

Lemma drain_quad_busy_ok acc s : hmc_ok c acc s → hmc_ok c acc (s <| quad_busy_ ::= drain_xbar |>).
Proof.
  intros Hs. apply (hmc_ok_moved c acc s); try done. destruct (hm_shape _ _ _ Hs).
  constructor; try done. unfold drain_xbar. simpl. by rewrite length_fmap.
Qed.

(** The arbiter of the links, and that of the quadrants. *)
Lemma link_queue_ok acc s :
  hmc_ok c acc s → ensures (BuildAgeQueue (link_age_counter_ s) s) (λ l, NoDup l ∧
    ∀ i, i ∈ l ↔ ∃ x q, vlookup (link_req_queues_ s) i = Some (x :: q)).
Proof.
  intros Hs. pose proof (hm_shape _ _ _ Hs) as Hsh. pose proof sh_links.
  apply (BuildAgeQueue_ready (link_req_queues_ s)); [apply Hsh| |apply Hsh].
  intros E. pose proof (hs_link_req _ _ Hsh) as Hl. rewrite E in Hl. simpl in Hl. lia.
Qed.

Lemma quad_queue_ok acc s :
  hmc_ok c acc s → ensures (BuildAgeQueue (quad_age_counter_ s) s) (λ l, NoDup l ∧
    ∀ i, i ∈ l ↔ ∃ x q, vlookup (quad_resp_queues_ s) i = Some (x :: q)).
Proof.
  intros Hs. pose proof (hm_shape _ _ _ Hs) as Hsh.
  apply (BuildAgeQueue_ready (quad_resp_queues_ s)); [apply Hsh| |apply Hsh].
  intros E. pose proof (hs_quad_resp _ _ Hsh) as Hl. by rewrite E in Hl.
Qed.

Lemma link_turns_ok acc s :
  hmc_ok c acc s →
  ensures (age_queue ← BuildAgeQueue (link_age_counter_ s) s; foldM link_to_quad age_queue s) (hmc_ok c acc).
Proof.
  intros Hs. eapply ensures_bind; [by eapply link_queue_ok|]. intros l [Hnd Hl].
  apply (turns_ok link_req_queues_ link_to_quad); [|done..|intros i; apply Hl].
  intros. by eapply link_to_quad_ok.
Qed.

Lemma quad_turns_ok acc s :
  hmc_ok c acc s →
  ensures (age_queue ← BuildAgeQueue (quad_age_counter_ s) s; foldM quad_to_link age_queue s) (hmc_ok c acc).
Proof.
  intros Hs. eapply ensures_bind; [by eapply quad_queue_ok|]. intros l [Hnd Hl].
  apply (turns_ok quad_resp_queues_ quad_to_link); [|done..|intros i; apply Hl].
  intros. by eapply quad_to_link_ok.
Qed.

(** ** Responses to the client *)

Lemma drain_link_responses_ok acc s i :
  hmc_ok c acc s → 0 ≤ i < links_ s →
  ensures (drain_link_responses i s) (λ s', hmc_ok c acc s' ∧ links_ s' = links_ s).
Proof.
  intros Hs Hi. pose proof (hm_shape _ _ _ Hs) as Hsh.
  destruct (vlookup_lt (link_resp_queues_ s) i) as [q Hq].
  { rewrite (hs_link_resp _ _ Hsh), <- (hs_links _ _ Hsh). done. }
  unfold drain_link_responses. get Hq. destruct q as [|resp q]; [by apply ensures_ret|].
  case_decide; [|by apply ensures_ret].
  destruct (pop_run _ _ _ _ Hq) as (links & -> & Hlr & Hlp). apply ensures_ret. split; [|done].
  set (s' := (_ : HMCMemorySystem) <| link_resp_queues_ := links |>).
  assert (responses s ≡ₚ resp_core resp :: responses s') as Hp.
  { unfold responses. simpl. rewrite Hlp, <- Permutation_middle. done. }
  assert (reported_keys (hmc_base s') = resp_key (resp_core resp) :: reported_keys (hmc_base s)) as Hk.
  { unfold reported_keys. change (calls (hmc_base s')) with (resp_call (hmc_base s) resp :: calls (hmc_base s)).
    rewrite fmap_cons. f_equal. unfold resp_call, resp_key. simpl. by repeat case_decide. }
  pose proof Hs as [_ H2 H3 H4 H5 H6 H7 H8 H9]. constructor; try done.
  - destruct Hsh. apply replaced_length in Hlr as L1. constructor; simpl; rewrite ?L1; try done.
    eapply bounded_replaced; [|exact Hlr|]; [done|]. apply hs_link_resp_size0 in Hq.
    rewrite queue_size_cons in Hq. lia.
  - rewrite Hp in H6. by apply list.Forall_cons in H6 as [_ ?].
  - intros k. rewrite H9, Hk, (times_perm _ _ _ (fmap_Permutation resp_key _ _ Hp)).
    rewrite fmap_cons, !times_cons. simpl. lia.
Qed.

Lemma DrainResponses_ok acc s : hmc_ok c acc s → ensures (DrainResponses s) (hmc_ok c acc).
Proof.
  intros Hs. unfold DrainResponses.
  eapply ensures_bind; [|intros s1 Hs1; apply quad_turns_ok, drain_link_busy_ok, Hs1].
  apply (ensures_mono _ (λ s1, hmc_ok c acc s1 ∧ links_ s1 = links_ s)); [|by intros s1 [? _]].
  apply for_upto_ensures; [|done].
  intros i s1 Hi [Hs1 El]. eapply ensures_mono; [apply drain_link_responses_ok; [done|by rewrite El]|].
  intros s2 [? ?]. split; [done|congruence].
Qed.
(** ** The vaults *)

Lemma vault_add i t a wr :
  vault_ok c i t → GetChannel c a = i → 0 ≤ a → Controller.WillAcceptTransaction a wr t = true →
  let t' := (Controller.AddTransaction (Transaction_new a wr) t).2 in
  vault_ok c i t' ∧ Controller.clk_ t' = Controller.clk_ t ∧
  ∀ h, open_at h t' = ((if decide (a = h) then 1 else 0) + open_at h t)%nat.
Proof.
  intros (acc & ans & Hw & Hacc) Hi Ha Hok t'. split_and!.
  - exists ((a, wr) :: acc), ans. split; [|by constructor].
    destruct (do_event_ok c (Submit a wr) _ Hw Ha) as (w' & Hrun & Hw'). simpl in Hrun.
    rewrite Hok in Hrun. by simplify_res.
  - apply AddTransaction_clk.
  - intros h. unfold open_at, t'. rewrite !AddTransaction_open. unfold times. simpl.
    rewrite !list.filter_cons. change (key (Transaction_new a wr)) with (a, wr).
    destruct (decide (a = h)) as [->|Hne].
    + destruct wr; [rewrite decide_False, decide_True|rewrite decide_True, decide_False]; done || simpl; lia.
    + rewrite !decide_False by congruence. simpl. lia.
Qed.

Lemma vault_collect i t clk p t' :
  vault_ok c i t → ReturnDoneTrans clk t = (p, t') →
  vault_ok c i t' ∧ Controller.clk_ t' = Controller.clk_ t ∧
  (p.2 ≠ -1 → GetChannel c p.1 = i ∧
     ∀ h, open_at h t = ((if decide (p.1 = h) then 1 else 0) + open_at h t')%nat) ∧
  (p.2 = -1 → t' = t).
Proof.
  intros (acc & ans & Hw & Hacc) E. pose proof (collect_ok c clk t p t' acc ans _ E Hw) as Hw'.
  pose proof (λ k, ReturnDoneTrans_open clk t p t' k E) as Ho.
  assert (p.2 ≠ -1 → answer p = [(p.1, bool_decide (p.2 = 1))]) as Ans
    by (intros Hp; unfold answer; by rewrite decide_False).
  split; [by exists acc, (answer p ++ ans)|]. split.
  { pose proof (ReturnDoneTrans_queues clk t) as Hq. rewrite E in Hq. by apply queues_of_clk. }
  split.
  - intros Hp. specialize (Ans Hp). rewrite Ans in *. split.
    + pose proof (wo_account c _ Hw' (p.1, bool_decide (p.2 = 1))) as Ha. simpl in Ha.
      rewrite times_cons, decide_True in Ha by done.
      rewrite list.Forall_forall in Hacc. apply (Hacc (p.1, bool_decide (p.2 = 1))).
      unfold times in Ha. destruct (filter _ acc) as [|k l] eqn:Ef; [simpl in Ha; lia|].
      assert (k ∈ filter (λ x, x = (p.1, bool_decide (p.2 = 1))) acc) as Hk by (rewrite Ef; set_solver).
      by apply list_elem_of_filter in Hk as [-> ?].
    + intros h. unfold open_at. rewrite !Ho. unfold times. simpl. rewrite !list.filter_cons.
      destruct (decide (p.1 = h)) as [<-|Hne].
      * destruct (bool_decide (p.2 = 1));
          [rewrite decide_False, decide_True|rewrite decide_True, decide_False]; done || simpl; lia.
      * rewrite !decide_False by congruence. simpl. lia.
  - intros Hp. unfold ReturnDoneTrans in E. destruct (take_done clk (return_queue_ t)) as [[x r]|].
    + injection E as <- _. simpl in Hp. by destruct (is_write x).
    + by injection E as _ <-.
Qed.

Lemma same_account acc ans t t' h :
  world_ok c (MkWorld t acc ans) → world_ok c (MkWorld t' acc ans) → open_at h t' = open_at h t.
Proof.
  intros Hw Hw'. unfold open_at.
  pose proof (wo_account c _ Hw (h, false)) as A1. pose proof (wo_account c _ Hw' (h, false)) as A2.
  pose proof (wo_account c _ Hw (h, true)) as A3. pose proof (wo_account c _ Hw' (h, true)) as A4.
  simpl in *. lia.
Qed.

Lemma vault_tick i t :
  vault_ok c i t → clock_room c t →
  ensures (Controller.ClockTick c (Timing_new c) t) (λ t', vault_ok c i t' ∧
    Controller.clk_ t' = u64 (Controller.clk_ t + 1) ∧ ∀ h, open_at h t' = open_at h t).
Proof.
  intros (acc & ans & Hw & Hacc) Hroom.
  destruct (do_event_ok c Cycle _ Hw Hroom) as (w' & Hrun & Hw'). simpl in Hrun.
  destruct (Controller.ClockTick c (Timing_new c) t) as [t'|] eqn:Et; [|done].
  simpl in Hrun. simplify_res. apply ensures_ret. split; [by exists acc, ans|].
  split; [by eapply ClockTick_clk|]. intros h. by eapply same_account.
Qed.

Lemma vault_stats f i t :
  stats_step c f → vault_ok c i t →
  ensures (f t) (λ t', vault_ok c i t' ∧ Controller.clk_ t' = Controller.clk_ t ∧
    ∀ h, open_at h t' = open_at h t).
Proof.
  intros Hf (acc & ans & Hw & Hacc). destruct (Hf t acc ans Hw) as (t' & -> & Ek & Hw').
  apply ensures_ret. split; [by exists acc, ans|]. split; [done|]. intros h. by eapply same_account.
Qed.
Lemma vault_open_replaced b b' i t t' h :
  vlookup (ctrls_ b) i = Some t → replaced (ctrls_ b) i t' (ctrls_ b') →
  vault_open c h b' = if decide (GetChannel c h = i) then open_at h t' else vault_open c h b.
Proof. intros Ht [_ R]. unfold vault_open. rewrite R. by case_decide. Qed.

Lemma vault_open_own b i t h :
  vlookup (ctrls_ b) i = Some t → GetChannel c h = i → vault_open c h b = open_at h t.
Proof. intros Ht Hi. unfold vault_open. by rewrite Hi, Ht. Qed.

(** ** Requests into the vaults *)

Lemma drain_quad_requests_ok acc s i :
  hmc_ok c acc s → 0 ≤ i < 4 → ensures (drain_quad_requests i s) (hmc_ok c acc).
Proof.
  intros Hs Hi. pose proof (hm_shape _ _ _ Hs) as Hsh.
  destruct (vlookup_lt (quad_req_queues_ s) i) as [q Hq]; [by rewrite (hs_quad_req _ _ Hsh)|].
  destruct (vlookup_lt (quad_resp_queues_ s) i) as [r Hr]; [by rewrite (hs_quad_resp _ _ Hsh)|].
  unfold drain_quad_requests. get Hq. get Hr. destruct q as [|req q]; [by apply ensures_ret|].
  do 2 (case_decide; [|by apply ensures_ret]).
  pose proof (quad_request_good _ _ _ _ req Hs Hq ltac:(set_solver)) as Hgood.
  destruct (req_good_quad _ Hgood) as [Hv _]. destruct Hgood as (Ha & Ev & _).
  destruct (vlookup_lt (ctrls_ (hmc_base s)) (vault req)) as [t Ht]; [rewrite (hm_len _ _ _ Hs); lia|].
  get Ht. destruct (Controller.WillAcceptTransaction _ _ t) eqn:Hok; [|by apply ensures_ret].
  destruct (vault_add _ t (mem_operand req) (req_is_write req) (hm_vault _ _ _ Hs _ _ Ht) (eq_sym Ev) Ha Hok)
    as (Hvo & Hk & Hopen).
  set (t' := (Controller.AddTransaction _ t).2) in *. unfold InsertReqToDRAM.
  destruct (vec_modify_replaced (ctrls_ (hmc_base s)) (vault req)
    (λ t, Ok (Controller.AddTransaction (Transaction_new (mem_operand req) (req_is_write req)) t).2) t t' Ht eq_refl)
    as [-> Hcr]. cbn [mbind res_bind].
  destruct (pop_run _ _ _ _ Hq) as (quads & Hpop & Hqr & Hqp). simpl. rewrite Hpop. apply ensures_ret.
  set (s' := (_ : HMCMemorySystem) <| quad_req_queues_ := quads |>).
  assert (requests s ≡ₚ req_core req :: requests s') as Hp.
  { unfold requests. simpl. rewrite Hqp, <- Permutation_middle. done. }
  pose proof Hs as [_ H2 H3 H4 H5 H6 H7 H8 H9]. constructor; try done.
  - destruct Hsh. apply replaced_length in Hqr as L1. constructor; simpl; rewrite ?L1; try done.
    eapply bounded_replaced; [|exact Hqr|]; [done|]. apply hs_quad_req_size0 in Hq.
    rewrite queue_size_cons in Hq. lia.
  - simpl. by rewrite length_insert.
  - intros j u. simpl. destruct Hcr as [_ ->]. case_decide; [|apply H3].
    intros [= <-]. rewrite Hk. by eapply H3.
  - intros j u. simpl. destruct Hcr as [_ ->]. case_decide; [|apply H4]. intros [= <-]. by subst j.
  - rewrite Hp in H5. by apply list.Forall_cons in H5 as [_ ?].
  - intros h. change (mm_at (resp_lookup_table_ s') h) with (mm_at (resp_lookup_table_ s) h).
    rewrite H8, (at_address_perm _ _ _ Hp), at_address_cons. change (mem_operand (req_core req)) with (mem_operand req).
    rewrite (vault_open_replaced (hmc_base s) (hmc_base s') _ t t' h Ht Hcr).
    destruct (decide (GetChannel c h = vault req)) as [E1|E1].
    + rewrite (vault_open_own _ _ _ _ Ht E1), Hopen. destruct (decide _); lia.
    + rewrite decide_False; [lia|]. intros E2. apply E1. by rewrite <- E2.
Qed.

Lemma DrainRequests_ok acc s : hmc_ok c acc s → ensures (DrainRequests s) (hmc_ok c acc).
Proof.
  intros Hs. unfold DrainRequests.
  eapply ensures_bind; [|intros s1 Hs1; apply link_turns_ok, drain_quad_busy_ok, Hs1].
  apply for_upto_ensures; [|done]. intros i s1 Hi Hs1. by apply drain_quad_requests_ok.
Qed.

(** ** Responses out of the vaults *)

(** Collecting one transaction of vault [i], and its callback. *)
(** One vault replaced by another of its states. *)
Lemma vaults_replaced acc s i t t' v :
  hmc_ok c acc s → vlookup (ctrls_ (hmc_base s)) i = Some t → replaced (ctrls_ (hmc_base s)) i t' v →
  vault_ok c i t' → Controller.clk_ t' = Controller.clk_ t →
  length v = Z.to_nat (channels c) ∧
  (∀ j u, vlookup v j = Some u → Controller.clk_ u = clk_ (hmc_base s)) ∧
  (∀ j u, vlookup v j = Some u → vault_ok c j u).
Proof.
  intros Hs Ht [Hl R] Hvo Hk. pose proof (hm_len _ _ _ Hs). split; [congruence|].
  split; intros j u; rewrite R; case_decide.
  - intros Hu. simplify_eq. rewrite Hk. by eapply (hm_clk _ _ _ Hs).
  - apply Hs.
  - intros Hu. by simplify_eq.
  - apply Hs.
Qed.

(** The vault has answered a request for [h]: its response leaves the table. *)
Lemma vault_answer_ok acc s i t t' h v :
  hmc_ok c acc s → vlookup (ctrls_ (hmc_base s)) i = Some t → replaced (ctrls_ (hmc_base s)) i t' v →
  vault_ok c i t' → Controller.clk_ t' = Controller.clk_ t → GetChannel c h = i →
  (∀ k, open_at k t = ((if decide (h = k) then 1 else 0) + open_at k t')%nat) →
  let s1 := s <| hmc_base ::= λ b, b <| ctrls_ := v |> |> in
  ensures (VaultCallback h s1) (λ s', hmc_ok c acc s' ∧ hmc_base s' = hmc_base s1).
Proof.
  intros Hs Ht Hv Hvo Hk Hch Hopen s1. pose proof Hs as [Hsh H2 H3 H4 H5 H6 H7 H8 H9].
  destruct (vaults_replaced acc s i t t' v Hs Ht Hv Hvo Hk) as (G2 & G3 & G4).
  pose proof (H8 h) as Hcount. rewrite (vault_open_own _ _ _ _ Ht Hch), Hopen, decide_True in Hcount by done.
  unfold VaultCallback, mm_find. change (resp_lookup_table_ s1) with (resp_lookup_table_ s).
  destruct (mm_at (resp_lookup_table_ s) h) as [|resp rest] eqn:Etab; [simpl in Hcount; lia|].
  cbn [head of_option mbind res_bind].
  destruct (H7 h resp) as [[Hrl Hrq] Hid]; [rewrite Etab; set_solver|].
  destruct (vlookup_lt (quad_resp_queues_ s) (resp_quad resp)) as [q Hq]; [by rewrite (hs_quad_resp _ _ Hsh)|].
  destruct (hs_quad_age _ _ Hsh) as [Hal _].
  destruct (vlookup_lt (quad_age_counter_ s) (resp_quad resp)) as [a Ha];
    [rewrite Hal; by eapply vlookup_range|].
  change (quad_resp_queues_ s1) with (quad_resp_queues_ s).
  change (quad_age_counter_ s1) with (quad_age_counter_ s).
  destruct (push_run _ _ _ resp Hq) as (quads & -> & Hqr & Hqp). cbn [mbind res_bind].
  destruct (vec_set_replaced _ _ _ 1 Ha) as (age & -> & Har). apply ensures_ret. split; [|done].
  set (s2 := (_ : HMCMemorySystem) <| quad_age_counter_ := age |>).
  assert (responses s2 ≡ₚ resp_core resp :: responses s) as Hp by (unfold responses; simpl; by rewrite Hqp).
  assert (∀ k, mm_at (resp_lookup_table_ s2) k = if decide (k = h) then rest else mm_at (resp_lookup_table_ s) k) as Ht2.
  { intros k. simpl. rewrite mm_at_erase, Etab. done. }
  constructor; try done.
  + destruct Hsh. apply replaced_length in Hqr as L1. constructor; simpl; rewrite ?L1; try done.
    eapply ages_ok_replaced; [done|exact Hqr|exact Har|]. split; [intros _ E0; by destruct q|lia].
  + rewrite Hp. by constructor.
  + intros k r. rewrite Ht2. case_decide; [|apply H7]. subst k. intros Hr. apply H7. rewrite Etab. set_solver.
  + intros k. change (requests s2) with (requests s).
    rewrite (vault_open_replaced (hmc_base s) (hmc_base s2) _ t t' k Ht Hv), Ht2.
    destruct (decide (k = h)) as [->|Hkh]; [rewrite decide_True by done; simpl in Hcount; lia|].
    rewrite H8. case_decide as E1; [|done]. rewrite (vault_open_own _ _ _ _ Ht E1), Hopen, decide_False by congruence. lia.
  + intros k. change (reported_keys (hmc_base s2)) with (reported_keys (hmc_base s)).
    rewrite H9, (times_perm _ _ _ (fmap_Permutation resp_key _ _ Hp)), Ht2, fmap_cons, times_cons.
    change (resp_key (resp_core resp)) with (resp_key resp). destruct (decide (k.1 = h)) as [->|Hkh].
    * rewrite Etab, fmap_cons, times_cons. lia.
    * rewrite decide_False; [lia|]. intros <-. apply Hkh. done.
Qed.


Lemma collect_ok_cube acc s i t p t' v :
  hmc_ok c acc s → vlookup (ctrls_ (hmc_base s)) i = Some t →
  ReturnDoneTrans (clk_ (hmc_base s)) t = (p, t') → replaced (ctrls_ (hmc_base s)) i t' v →
  let s1 := s <| hmc_base ::= λ b, b <| ctrls_ := v |> |> in
  if decide (p.2 = -1) then hmc_ok c acc s1
  else ensures (VaultCallback p.1 s1) (λ s', hmc_ok c acc s' ∧ hmc_base s' = hmc_base s1).
Proof.
  intros Hs Ht E Hv s1. pose proof Hs as [Hsh H2 H3 H4 H5 H6 H7 H8 H9].
  destruct (vault_collect i t _ p t' (H4 _ _ Ht) E) as (Hvo & Hk & Hne & Heq).
  destruct (vaults_replaced acc s i t t' v Hs Ht Hv Hvo Hk) as (G2 & G3 & G4).
  destruct (decide (p.2 = -1)) as [Ep|Ep].
  - specialize (Heq Ep). subst t'. constructor; try done; [by destruct Hsh|].
    intros h. rewrite (vault_open_replaced (hmc_base s) (hmc_base s1) _ t t h Ht Hv).
    case_decide as E1; [|apply H8]. rewrite <- (vault_open_own _ _ _ _ Ht E1). apply H8.
  - destruct (Hne Ep) as [Hch Hopen]. by apply (vault_answer_ok acc s i t t' p.1 v).
Qed.
Lemma drain_vault_ok acc fuel i s t :
  hmc_ok c acc s → vlookup (ctrls_ (hmc_base s)) i = Some t → (length (return_queue_ t) < fuel)%nat →
  ensures (drain_vault fuel i s) (hmc_ok c acc).
Proof.
  revert s t; induction fuel as [|fuel IH]; intros s t Hs Ht Hf; [lia|]. cbn [drain_vault]. get Ht.
  destruct (ReturnDoneTrans (clk_ (hmc_base s)) t) as [p t'] eqn:E.
  destruct (vec_set_replaced _ _ _ t' Ht) as (v & -> & Hv). cbn [mbind res_bind].
  set (s1 := s <| hmc_base ::= _ |>). pose proof (collect_ok_cube acc s i t p t' v Hs Ht E Hv) as Hone.
  change (s <| hmc_base ::= _ |>) with s1 in Hone. cbv zeta in Hone.
  assert (p.2 = 1 ∨ p.2 = 0 ∨ p.2 = -1) as Hcases.
  { unfold ReturnDoneTrans in E. destruct (take_done _ _) as [[x r]|]; injection E as <- _; simpl; [|lia].
    destruct (is_write x); simpl; lia. }
  destruct (decide (p.2 = -1)) as [Ep|Ep].
  { rewrite !decide_False by lia. by apply ensures_ret. }
  assert (length (return_queue_ t') < fuel)%nat as Hf'.
  { unfold ReturnDoneTrans in E. pose proof (take_done_spec (clk_ (hmc_base s)) (return_queue_ t)) as Hspec.
    destruct (take_done _ _) as [[x r]|]; [|by injection E as <- _]. injection E as _ <-.
    destruct Hspec as (_ & _ & Hl). destruct (is_write x); simpl; lia. }
  assert (∀ s2, hmc_ok c acc s2 ∧ hmc_base s2 = hmc_base s1 → ensures (drain_vault fuel i s2) (hmc_ok c acc)) as Hnext.
  { intros s2 [Hs2 Eb]. apply (IH s2 t'); [done| |done]. rewrite Eb. simpl. destruct Hv as [_ ->].
    by rewrite decide_True. }
  destruct (decide (p.2 = 1)); [by eapply ensures_bind|]. rewrite decide_True by lia. by eapply ensures_bind.
Qed.

Lemma collect_vault_ok acc s i :
  hmc_ok c acc s → 0 ≤ i < channels c → ensures (collect_vault i s) (hmc_ok c acc).
Proof.
  intros Hs Hi. destruct (vlookup_lt (ctrls_ (hmc_base s)) i) as [t Ht]; [rewrite (hm_len _ _ _ Hs); lia|].
  unfold collect_vault. get Ht. eapply drain_vault_ok; [done|exact Ht|lia].
Qed.

(** A loop over the vaults that changes each of them once. *)
Lemma for_ctrls_each (P : Z → Controller → Prop) (Q : Z → Controller → Controller → Prop) f b :
  (∀ i t, P i t → ensures (f t) (Q i t)) →
  (∀ i t, vlookup (ctrls_ b) i = Some t → P i t) →
  ensures (for_ctrls f b) (λ b', ∃ v, b' = b <| ctrls_ := v |> ∧ length v = length (ctrls_ b) ∧
    ∀ i t', vlookup v i = Some t' → ∃ t, vlookup (ctrls_ b) i = Some t ∧ Q i t t').
Proof.
  intros Hf HP. unfold for_ctrls. set (n := Z.of_nat (length (ctrls_ b))).
  destruct (for_upto_total (λ i b1, ∃ v, b1 = b <| ctrls_ := v |> ∧ length v = length (ctrls_ b) ∧
      (∀ j, i ≤ j → vlookup v j = vlookup (ctrls_ b) j) ∧
      ∀ j t', j < i → vlookup v j = Some t' → ∃ t, vlookup (ctrls_ b) j = Some t ∧ Q j t t')
    n (λ i s, v ← vec_modify (ctrls_ s) i f; Ok (s <| ctrls_ := v |>)) b) as (b' & Hrun & v & -> & Hl & _ & Hv).
  - lia.
  - exists (ctrls_ b). split_and!; [by destruct b|done|done|]. intros j t' Hj Hlk%vlookup_range. lia.
  - intros i b1 Hi (v & -> & Hl & Hge & Hlt). simpl.
    destruct (vlookup_lt (ctrls_ b) i) as [t Ht]; [lia|].
    destruct (Hf i t (HP i t Ht)) as (t' & Hft & HQ).
    destruct (vec_modify_replaced v i f t t') as [-> [Rl R]]; [rewrite Hge by lia; done|done|].
    eexists. split; [done|]. exists (<[Z.to_nat i := t']> v). split_and!; [done|congruence| |].
    + intros j Hj. rewrite R, decide_False by lia. apply Hge. lia.
    + intros j u Hj. rewrite R. case_decide as Hji; [|apply Hlt; lia]. intros [= <-]. subst j. eauto.
  - exists (b <| ctrls_ := v |>). split; [exact Hrun|]. exists v. split_and!; [done|done|].
    intros i t' Hlk. apply Hv; [|done]. apply vlookup_range in Hlk. lia.
Qed.

(** Vaults that change without starting or finishing a request. *)
Lemma hmc_ok_vaults acc s b' :
  hmc_ok c acc s → calls b' = calls (hmc_base s) → length (ctrls_ b') = length (ctrls_ (hmc_base s)) →
  (∀ i t', vlookup (ctrls_ b') i = Some t' → Controller.clk_ t' = clk_ b' ∧ vault_ok c i t' ∧
     ∃ t, vlookup (ctrls_ (hmc_base s)) i = Some t ∧ ∀ h, open_at h t' = open_at h t) →
  hmc_ok c acc (s <| hmc_base := b' |>).
Proof.
  intros [Hsh H2 H3 H4 H5 H6 H7 H8 H9] Ec El Hv. constructor; try done.
  - by destruct Hsh.
  - simpl. congruence.
  - intros i t Ht. by apply (Hv i).
  - intros i t Ht. by apply (Hv i).
  - intros h. simpl. rewrite H8. f_equal. unfold vault_open.
    destruct (vlookup (ctrls_ b') (GetChannel c h)) as [t'|] eqn:E'.
    + destruct (Hv _ _ E') as (_ & _ & t & -> & Hh). by rewrite Hh.
    + destruct (vlookup (ctrls_ (hmc_base s)) (GetChannel c h)) as [t|] eqn:E; [|done].
      apply vlookup_range in E. rewrite <- El in E. by apply vlookup_lt in E as [? ?]; congruence.
  - intros k. unfold reported_keys in *. simpl. rewrite Ec. apply H9.
Qed.

Lemma vaults_tick_ok acc s :
  hmc_ok c acc s → clk_ (hmc_base s) < 2 ^ 63 →
  ensures (with_base (for_ctrls (Controller.ClockTick c (Timing_new c))) s)
    (λ s', hmc_ok c acc (s' <| hmc_base ::= λ b, b <| clk_ ::= λ k, u64 (k + 1) |> |>)).
Proof.
  intros Hs Hk. unfold with_base.
  eapply ensures_bind; [apply (for_ctrls_each
    (λ i t, vault_ok c i t ∧ Controller.clk_ t = clk_ (hmc_base s))
    (λ i t t', vault_ok c i t' ∧ Controller.clk_ t' = u64 (clk_ (hmc_base s) + 1) ∧ ∀ h, open_at h t' = open_at h t))|].
  - intros i t [Hv E]. rewrite <- E. apply vault_tick; [done|]. intros _. by rewrite E.
  - intros i t Ht. split; [by eapply hm_vault|by eapply hm_clk].
  - intros b' (v & -> & Hl & Hv). apply ensures_ret.
    apply (hmc_ok_vaults acc s ((hmc_base s) <| ctrls_ := v |> <| clk_ ::= λ k, u64 (k + 1) |>) Hs); try done.
    intros i t' Ht'. destruct (Hv i t' Ht') as (t & Ht & Hvo & Ek & Ho). split; [done|]. split; [done|eauto].
Qed.

Lemma vaults_stats_ok f acc s :
  stats_step c f → hmc_ok c acc s → ensures (with_base (for_ctrls f) s) (hmc_ok c acc).
Proof.
  intros Hf Hs. unfold with_base.
  eapply ensures_bind; [apply (for_ctrls_each (vault_ok c)
    (λ i t t', vault_ok c i t' ∧ Controller.clk_ t' = Controller.clk_ t ∧ ∀ h, open_at h t' = open_at h t))|].
  - intros i t. by apply vault_stats.
  - intros i t Ht. by eapply hm_vault.
  - intros b' (v & -> & Hl & Hv). apply ensures_ret. apply (hmc_ok_vaults acc s); try done.
    intros i t' Ht'. destruct (Hv i t' Ht') as (t & Ht & Hvo & Ek & Ho).
    split; [rewrite Ek; by eapply (hm_clk _ _ _ Hs)|]. split; [done|eauto].
Qed.
End cube.
