(* ===== verification/HmcRuns.v ===== *)
(** * HmcRuns: the clocks and the runs of a hybrid memory cube (src/src/hmc.cc)

    The DRAM and the logic die keep step, a request is accepted exactly when a
    link has room, and the constructor establishes the invariant of
    [HmcSafety]; so every operation returns in every state that a run
    reaches.  A sample cube, the shipped HMC_2GB_4Lx16, closes the file. *)

From S2P Require Import Refresh CommandQueue.
From S2P Require Import Prelude Common Configuration Timing BankState ChannelState ChannelSafety.
From S2P Require Import SimpleStats Controller ControllerSafety ControllerRuns DramSystem.
From S2P Require Import DramSystemSafety Hmc HmcSafety.
Local Open Scope Z_scope.

Section clocks.
Context (c : Config) `{Hmc : !SafeHmc c}.

(** ** The clocks *)

Definition clocks_of (s : HMCMemorySystem) : Z * Z * Z * Z * Z * Z :=
  (clk_ (hmc_base s), logic_clk_ s, ps_per_dram_ s, ps_per_logic_ s, logic_ps_ s, dram_ps_ s).

Lemma foldM_clocks {A} (f : A → HMCMemorySystem → res HMCMemorySystem) l s s' :
  (∀ x s1 s2, f x s1 = Ok s2 → clocks_of s2 = clocks_of s1) →
  foldM f l s = Ok s' → clocks_of s' = clocks_of s.
Proof.
  intros Hf. apply (foldM_preserves f (λ s1, clocks_of s1 = clocks_of s)); [|done].
  intros x s1 s2 _ E Hrun. rewrite <- E. by eapply Hf.
Qed.

Lemma link_to_quad_clocks i s s' : link_to_quad i s = Ok s' → clocks_of s' = clocks_of s.
Proof. unfold link_to_quad. intros H. step_inv; done. Qed.

Lemma quad_to_link_clocks i s s' : quad_to_link i s = Ok s' → clocks_of s' = clocks_of s.
Proof. unfold quad_to_link. intros H. step_inv; done. Qed.

Lemma drain_quad_requests_clocks i s s' : drain_quad_requests i s = Ok s' → clocks_of s' = clocks_of s.
Proof. unfold drain_quad_requests, InsertReqToDRAM. intros H. step_inv; done. Qed.

Lemma drain_link_responses_clocks i s s' : drain_link_responses i s = Ok s' → clocks_of s' = clocks_of s.
Proof. unfold drain_link_responses. intros H. step_inv; done. Qed.

Lemma DrainRequests_clocks s s' : DrainRequests s = Ok s' → clocks_of s' = clocks_of s.
Proof.
  unfold DrainRequests, for_upto. intros H. simplify_res.
  apply foldM_clocks in H; [|apply link_to_quad_clocks].
  apply foldM_clocks in Hrun; [|apply drain_quad_requests_clocks]. by rewrite H, <- Hrun.
Qed.

Lemma DrainResponses_clocks s s' : DrainResponses s = Ok s' → clocks_of s' = clocks_of s.
Proof.
  unfold DrainResponses, for_upto. intros H. simplify_res.
  apply foldM_clocks in H; [|apply quad_to_link_clocks].
  apply foldM_clocks in Hrun; [|apply drain_link_responses_clocks]. by rewrite H, <- Hrun.
Qed.

Lemma VaultCallback_clocks h s s' : VaultCallback h s = Ok s' → clocks_of s' = clocks_of s.
Proof. unfold VaultCallback. intros H. by simplify_res. Qed.

Lemma drain_vault_clocks fuel i s s' : drain_vault fuel i s = Ok s' → clocks_of s' = clocks_of s.
Proof.
  revert s; induction fuel as [|fuel IH]; intros s; simpl; intros H; [done|].
  simplify_res. destruct (ReturnDoneTrans _ _) as [p t]. simplify_res.
  repeat case_decide; simplify_res; try done; apply IH in H; apply VaultCallback_clocks in Hrun1;
    by rewrite H, Hrun1.
Qed.

Lemma collect_vault_clocks i s s' : collect_vault i s = Ok s' → clocks_of s' = clocks_of s.
Proof. unfold collect_vault. intros H. simplify_res. by eapply drain_vault_clocks. Qed.

Lemma for_ctrls_clocks f s s' : with_base (for_ctrls f) s = Ok s' → clocks_of s' = clocks_of s.
Proof.
  unfold with_base, for_ctrls, for_upto. intros H. simplify_res.
  assert (clk_ a = clk_ (hmc_base s)) as E.
  { revert Hrun. apply (foldM_preserves _ (λ b, clk_ b = clk_ (hmc_base s))); [|done].
    intros i b1 b2 _ E H. by simplify_res. }
  unfold clocks_of. simpl. by rewrite E.
Qed.

Lemma advance_logic_ok acc s : hmc_ok c acc s → hmc_ok c acc (advance_logic s).
Proof.
  intros Hs. apply (hmc_ok_moved c acc s); try done. destruct (hm_shape _ _ _ Hs).
  constructor; try done. apply u64_range.
Qed.

(** A cycle of the DRAM. *)
Definition dram_ticked (s s' : HMCMemorySystem) : Prop :=
  clocks_of s' = clocks_of (s <| hmc_base ::= λ b, b <| clk_ ::= λ k, u64 (k + 1) |> |>).

Lemma DRAMClockTick_ok acc s :
  hmc_ok c acc s → clk_ (hmc_base s) < 2 ^ 63 →
  ensures (DRAMClockTick c s) (λ s', hmc_ok c acc s' ∧ dram_ticked s s').
Proof.
  intros Hs Hk. unfold DRAMClockTick. pose proof sh_channels as Hch. rewrite (hm_len _ _ _ Hs), Z2Nat.id by lia.
  eapply ensures_bind.
  { apply (for_upto_ensures (λ s1, hmc_ok c acc s1 ∧ clocks_of s1 = clocks_of s)); [|done].
    intros i s1 Hi [Hs1 E]. destruct (collect_vault_ok c acc s1 i Hs1 Hi) as (s2 & Hrun & Hs2). exists s2.
    split; [done|]. split; [done|]. by rewrite (collect_vault_clocks _ _ _ Hrun). }
  intros s1 [Hs1 E1]. destruct (vaults_tick_ok c acc s1 Hs1) as (s2 & Hrun2 & Hs2).
  { by injection E1 as -> _ _ _ _ _. }
  rewrite Hrun2. cbn [mbind res_bind]. rewrite decide_False by apply sh_epoch.
  set (s3 := s2 <| hmc_base ::= _ |>) in *.
  assert (dram_ticked s s3) as T3.
  { apply for_ctrls_clocks in Hrun2. rewrite E1 in Hrun2. injection Hrun2 as F1 F2 F3 F4 F5 F6.
    unfold dram_ticked, clocks_of. simpl. congruence. }
  case_decide; [|by apply ensures_ret].
  destruct (vaults_stats_ok c _ acc s3 (PrintEpochStats_step c) Hs2) as (s4 & Hrun4 & Hs4).
  exists s4. split; [exact Hrun4|]. split; [done|]. unfold dram_ticked. by rewrite (for_ctrls_clocks _ _ _ Hrun4).
Qed.

Lemma logic_tick_ok acc s :
  hmc_ok c acc s →
  ensures (logic_tick s) (λ s', hmc_ok c acc s' ∧ clocks_of s' = clocks_of (advance_logic s)).
Proof.
  intros Hs. unfold logic_tick. destruct (DrainResponses_ok c acc s Hs) as (s1 & Hrun1 & Hs1).
  rewrite Hrun1. simpl. destruct (DrainRequests_ok c acc s1 Hs1) as (s2 & Hrun2 & Hs2).
  rewrite Hrun2. apply ensures_ret. apply DrainResponses_clocks in Hrun1. apply DrainRequests_clocks in Hrun2.
  split; [by apply advance_logic_ok|]. rewrite Hrun1 in Hrun2. injection Hrun2 as F1 F2 F3 F4 F5 F6.
  unfold clocks_of. simpl. congruence.
Qed.
(** The clocks between two cycles: [k] DRAM cycles of 800 ps and [n] logic
    cycles of [p] ps, the logic clock less than one of its cycles ahead. *)
Definition clocks_at (p k n : Z) (s : HMCMemorySystem) : Prop :=
  clocks_of s = (k, n, 800, p, p * n, 800 * k) ∧ 0 < p ≤ 800 ∧ 0 ≤ k ∧ 0 ≤ n ∧
  800 * k ≤ p * n < 800 * k + p.

Lemma logic_loop_ok acc fuel s p k n D :
  hmc_ok c acc s → clocks_of s = (k, n, 800, p, p * n, D) → 0 < p ≤ 800 → 0 ≤ n →
  0 ≤ D < 2 ^ 63 → D + 800 - p * n ≤ Z.of_nat fuel → p * n < D + 800 + p →
  ensures (logic_loop fuel s) (λ s', hmc_ok c acc s' ∧ ∃ n', 0 ≤ n' ∧
    clocks_of s' = (k, n', 800, p, p * n', D) ∧ D + 800 ≤ p * n' < D + 800 + p).
Proof.
  revert s n; induction fuel as [|fuel IH]; intros s n Hs E Hp Hn HD Hf Hlt; simpl;
    pose proof E as [= E1 E2 E3 E4 E5 E6]; rewrite E3, E5, E6, u64_small by (unfold two64; lia).
  - rewrite decide_False by lia. apply ensures_ret. split; [done|]. exists n. split_and!; [done..|lia|lia].
  - case_decide; [|apply ensures_ret; split; [done|]; exists n; split_and!; [done..|lia|lia]].
    eapply ensures_bind; [by apply logic_tick_ok|]. intros s1 [Hs1 C1].
    assert (p * (n + 1) < D + 800 + p) as Hn1 by lia.
    apply (IH s1 (n + 1)); [done| |done|lia|done|lia|done].
    rewrite C1. unfold clocks_of, advance_logic. simpl. rewrite E1, E2, E3, E4, E5, E6.
    rewrite !u64_small by (unfold two64; nia). do 2 f_equal. lia.
Qed.

Lemma ClockTick_ok_cube acc s p k n :
  hmc_ok c acc s → clocks_at p k n s → k < 2 ^ 53 →
  ensures (ClockTick c s) (λ s', hmc_ok c acc s' ∧ ∃ n', clocks_at p (k + 1) n' s').
Proof.
  intros Hs (E & Hp & Hk & Hn & Hr) Hroom. unfold ClockTick. pose proof E as [= E1 E2 E3 E4 E5 E6].
  assert (u64 (k + 1) = k + 1) as Ek by (apply u64_small; unfold two64; lia).
  eapply (ensures_bind _ _ (λ s1, hmc_ok c acc s1 ∧ ∃ n1, clocks_of s1 = (k + 1, n1, 800, p, p * n1, 800 * k) ∧
    0 ≤ n1 ∧ 800 * k ≤ p * n1 < 800 * k + 800 + p)).
  - assert (∀ s1, hmc_ok c acc s1 → clocks_of s1 = clocks_of s →
      ensures (DRAMClockTick c s1) (λ s2, hmc_ok c acc s2 ∧ clocks_of s2 = (k + 1, n, 800, p, p * n, 800 * k))) as Hdram.
    { intros s1 Hs1 C1. rewrite E in C1. injection C1 as F1 F2 F3 F4 F5 F6.
      eapply ensures_mono; [apply DRAMClockTick_ok; [done|lia]|]. intros s2 [Hs2 C2]. split; [done|].
      rewrite C2. unfold clocks_of. simpl. by rewrite F1, F2, F3, F4, F5, F6, Ek. }
    case_decide as Heq.
    + destruct (DrainResponses_ok c acc s Hs) as (s1 & R1 & Hs1). rewrite R1. cbn [mbind res_bind].
      eapply ensures_bind; [apply Hdram; [done|by apply DrainResponses_clocks in R1]|].
      intros s2 [Hs2 C2]. destruct (DrainRequests_ok c acc s2 Hs2) as (s3 & R3 & Hs3). rewrite R3.
      apply ensures_ret. split; [by apply advance_logic_ok|]. exists (n + 1).
      apply DrainRequests_clocks in R3. rewrite C2 in R3. injection R3 as F1 F2 F3 F4 F5 F6.
      split; [|nia]. unfold clocks_of, advance_logic. simpl. rewrite F1, F2, F3, F4, F5, F6.
      rewrite !u64_small by (unfold two64; nia). do 2 f_equal. lia.
    + eapply ensures_mono; [by apply Hdram|]. intros s1 [Hs1 C1]. split; [done|]. exists n.
      split_and!; [done|done|lia|lia].
  - intros s1 (Hs1 & n1 & C1 & Hn1 & Hr1).
    assert (ps_per_dram_ s1 = 800) as -> by (injection C1; done).
    eapply ensures_bind; [eapply (logic_loop_ok acc _ s1 p _ n1 (800 * k)); [done|exact C1|done|done|lia|lia|lia]|].
    intros s2 (Hs2 & n2 & Hn2 & C2 & Hr2). apply ensures_ret. split.
    + apply (hmc_ok_moved c acc s2); try done. by destruct (hm_shape _ _ _ Hs2).
    + exists n2. split; [|split_and!; lia]. pose proof C2 as [= F1 F2 F3 F4 F5 F6].
      unfold clocks_of. simpl. rewrite F1, F2, F3, F4, F5, F6, u64_small by (unfold two64; lia).
      f_equal. lia.
Qed.
(** ** New requests *)

Definition has_room (s : HMCMemorySystem) (link : Z) : bool :=
  match vlookup (link_req_queues_ s) link with
  | Some q => queue_size q <? queue_depth_ s
  | None => false
  end.

Lemma has_room_accepts s link a wr : has_room s link = true → WillAcceptTransaction a wr s = true.
Proof.
  unfold has_room. destruct (vlookup _ _) as [q|] eqn:E; [|done]. intros H. apply existsb_exists.
  exists q. split; [|done]. by apply list_elem_of_In, (vlookup_elem _ link).
Qed.

Lemma full_refuses s a wr :
  (∀ link, 0 ≤ link < Z.of_nat (length (link_req_queues_ s)) → has_room s link = false) →
  WillAcceptTransaction a wr s = false.
Proof.
  intros H. apply not_true_is_false. intros (q & Hq & Hlt)%existsb_exists.
  apply list_elem_of_In, list_elem_of_lookup in Hq as [n Hn]. pose proof (lookup_lt_Some _ _ _ Hn).
  specialize (H (Z.of_nat n) ltac:(lia)). unfold has_room in H.
  assert (vlookup (link_req_queues_ s) (Z.of_nat n) = Some q) as E
    by (apply vlookup_Some; split; [lia|by rewrite Nat2Z.id]).
  rewrite E in H. congruence.
Qed.

(** [s'] is [s] with one more request, [key], accepted. *)
Definition accepted_one (acc : list (Z * bool)) (key : Z * bool) (s s' : HMCMemorySystem) : Prop :=
  hmc_ok c (key :: acc) s' ∧ clocks_of s' = clocks_of s ∧ calls (hmc_base s') = calls (hmc_base s) ∧
  (∀ a wr, WillAcceptTransaction a wr s = true) ∧
  ∃ r, requests s' ≡ₚ r :: requests s ∧ mem_operand r = key.1.

Lemma InsertReqToLink_ok acc s req link wr ty fl :
  hmc_ok c acc s → req_good c req → 0 ≤ link < num_links c →
  response_type (req_type req) = Ok (ty, fl) → wr = negb (bool_decide (ty = RD_RS)) →
  if has_room s link
  then ensures (InsertReqToLink req link s) (λ r, r.1 = true ∧ accepted_one acc (mem_operand req, wr) s r.2)
  else InsertReqToLink req link s = Ok (false, s).
Proof.
  intros Hs Hreq Hl Hty ->. pose proof Hs as [Hsh H2 H3 H4 H5 H6 H7 H8 H9].
  destruct (vlookup_lt (link_req_queues_ s) link) as [q Hq]; [by rewrite (hs_link_req _ _ Hsh)|].
  unfold has_room, InsertReqToLink. rewrite Hq. get Hq.
  destruct (queue_size q <? queue_depth_ s) eqn:Hroom; [apply Z.ltb_lt in Hroom|apply Z.ltb_ge in Hroom];
    [rewrite decide_True by done|by rewrite decide_False by lia].
  destruct (hs_link_age _ _ Hsh) as [Hal _].
  destruct (vlookup_lt (link_age_counter_ s) link) as [a Ha]; [rewrite Hal; by eapply vlookup_range|].
  destruct (push_run _ _ _ (req <| req_link := link |>) Hq) as (links & -> & Hlr & Hlp). cbn [mbind res_bind].
  unfold HMCResponse_new. rewrite Hty. cbn [mbind res_bind].
  destruct (vec_set_replaced _ _ _ 1 Ha) as (age & -> & Har). apply ensures_ret. cbn [fst snd].
  set (resp := MkHMCResponse _ ty link _ fl 0). set (s' := (_ : HMCMemorySystem) <| hmc_base ::= _ |>).
  assert (requests s' ≡ₚ req_core (req <| req_link := link |>) :: requests s) as Hp
    by (unfold requests; simpl; by rewrite Hlp).
  split; [done|]. split; [|split_and!; [done|done| |by eexists]].
  2: { intros a' wr'. apply (has_room_accepts _ link). unfold has_room. rewrite Hq. by apply Z.ltb_lt. }
  assert (∀ h, mm_at (resp_lookup_table_ s') h =
    if decide (h = mem_operand req) then mm_at (resp_lookup_table_ s) (mem_operand req) ++ [resp]
    else mm_at (resp_lookup_table_ s) h) as Ht by (intros h; apply mm_at_insert).
  assert (resp_good c resp) as Hresp by (split; [done|by apply (req_good_quad c)]).
  constructor; try done.
  - destruct Hsh. apply replaced_length in Hlr as L1. constructor; simpl; rewrite ?L1; try done.
    + eapply ages_ok_replaced; [done|exact Hlr|exact Har|]. split; [intros _ E0; by destruct q|lia].
    + eapply bounded_replaced; [|exact Hlr|]; [done|]. rewrite queue_size_snoc. lia.
  - rewrite Hp. by constructor.
  - intros h r. rewrite Ht. case_decide; [subst h|apply H7].
    intros [Hr| ->%list_elem_of_singleton]%elem_of_app; [by apply H7|done].
  - intros h. change (vault_open c h (hmc_base s')) with (vault_open c h (hmc_base s)).
    rewrite (at_address_perm _ _ _ Hp), at_address_cons, Ht.
    change (mem_operand (req_core _)) with (mem_operand req). pose proof (H8 h).
    destruct (decide (h = mem_operand req)) as [->|Hne].
    + rewrite decide_True, length_app by done. simpl. lia.
    + rewrite decide_False by done. lia.
  - intros k. change (reported_keys (hmc_base s')) with (reported_keys (hmc_base s)).
    change (responses s') with (responses s). rewrite times_cons, H9, Ht.
    change (mem_operand req, _) with (resp_key resp). destruct (decide (k.1 = mem_operand req)) as [Ek|Hne].
    + rewrite fmap_app, times_app, Ek. simpl. rewrite times_cons. change (times k []) with 0%nat. lia.
    + rewrite decide_False; [lia|]. intros <-. by apply Hne.
Qed.

Lemma IterateNextLink_ok acc s :
  hmc_ok c acc s →
  let s' := s <| next_link_ := (next_link_ s + 1) mod num_links c |> in
  IterateNextLink s = Ok s' ∧ hmc_ok c acc s'.
Proof.
  intros Hs s'. pose proof (hm_shape _ _ _ Hs) as Hsh. pose proof sh_links as Hn.
  pose proof (hs_next _ _ Hsh). unfold IterateNextLink. rewrite (hs_links _ _ Hsh), decide_False by lia.
  rewrite Z.rem_mod_nonneg by lia. split; [done|].
  apply (hmc_ok_moved c acc s); try done. destruct Hsh. constructor; try done. by apply Z.mod_pos_bound.
Qed.

(** The links the round robin has found full. *)
Definition all_full (start m : Z) (s : HMCMemorySystem) : Prop :=
  ∀ j, 0 ≤ j < m → has_room s ((start + j) mod num_links c) = false.

Lemma insert_elsewhere_ok acc req wr ty fl start fuel k s :
  req_good c req → response_type (req_type req) = Ok (ty, fl) → wr = negb (bool_decide (ty = RD_RS)) →
  0 ≤ start < num_links c → hmc_ok c acc s → 0 < k ≤ num_links c →
  next_link_ s = (start + k) mod num_links c → all_full start k s → num_links c - k < Z.of_nat fuel →
  ensures (insert_elsewhere fuel start req s) (λ r,
    if r.1 then accepted_one acc (mem_operand req, wr) s r.2
    else all_full start (num_links c) s ∧ r.2 = s <| next_link_ := start |>).
Proof.
  intros Hreq Hty Hwr Hst. revert k s. induction fuel as [|fuel IH]; intros k s Hs Hk Hnext Hfull Hf; [lia|].
  pose proof sh_links as Hn. simpl. rewrite Hnext.
  destruct (decide (start = (start + k) mod num_links c)) as [Heq|Heq].
  - assert (k = num_links c) as ->.
    { destruct (decide (start + k < num_links c)) as [Hlt|Hge].
      - rewrite Z.mod_small in Heq by lia. lia.
      - replace ((start + k) mod num_links c) with ((start + k - num_links c) mod num_links c) in Heq
          by (rewrite <- (Z_mod_plus_full _ 1); f_equal; lia).
        rewrite Z.mod_small in Heq by lia. lia. }
    apply ensures_ret. split; [done|]. simpl. rewrite <- Heq in Hnext. rewrite <- Hnext. by destruct s.
  - assert (k < num_links c) as Hkn.
    { destruct (decide (k = num_links c)) as [->|]; [|lia]. exfalso. apply Heq.
      rewrite <- (Z.mod_small start (num_links c)) at 1 by lia.
      rewrite <- (Z_mod_plus_full start 1). f_equal. lia. }
    pose proof (Z.mod_pos_bound (start + k) (num_links c) Hn) as Hlink.
    pose proof (InsertReqToLink_ok acc s req _ wr ty fl Hs Hreq Hlink Hty Hwr) as Hins.
    destruct (has_room s ((start + k) mod num_links c)) eqn:Hroom.
    + destruct Hins as ([ok s1] & -> & Hok & Hs1 & C1 & L1 & W1 & R1). cbn [mbind res_bind fst snd] in *. subst ok.
      destruct (IterateNextLink_ok _ s1 Hs1) as [-> Hs2]. cbn [mbind res_bind].
    apply ensures_ret. split_and!; [exact Hs2|exact C1|exact L1|exact W1|exact R1].
    + rewrite Hins. cbn [mbind res_bind]. destruct (IterateNextLink_ok _ s Hs) as [-> Hs2]. cbn [mbind res_bind].
      eapply ensures_mono; [apply (IH (k + 1)); [done|lia| | |lia]|].
      * simpl. rewrite Hnext, Zplus_mod_idemp_l. f_equal. lia.
      * intros j Hj. destruct (decide (j = k)) as [->|]; [exact Hroom|]. apply Hfull. lia.
      * intros [[] s'] H; [exact H|]. destruct H as [H1 H2]. split; [exact H1|exact H2].
Qed.
Lemma InsertHMCReq_ok acc req wr ty fl s :
  req_good c req → response_type (req_type req) = Ok (ty, fl) → wr = negb (bool_decide (ty = RD_RS)) →
  hmc_ok c acc s →
  ensures (InsertHMCReq req s) (λ r,
    if r.1 then accepted_one acc (mem_operand req, wr) s r.2
    else all_full (next_link_ s) (num_links c) s ∧ r.2 = s).
Proof.
  intros Hreq Hty Hwr Hs. pose proof (hm_shape _ _ _ Hs) as Hsh. pose proof (hs_next _ _ Hsh) as Hnext.
  pose proof (hs_link_req _ _ Hsh) as Hlen. unfold InsertHMCReq.
  pose proof (InsertReqToLink_ok acc s req _ wr ty fl Hs Hreq Hnext Hty Hwr) as Hins.
  destruct (has_room s (next_link_ s)) eqn:Hroom.
  - destruct Hins as ([ok s1] & -> & Hok & Hs1 & C1 & L1 & W1 & R1). cbn [mbind res_bind fst snd] in *. subst ok.
    destruct (IterateNextLink_ok _ s1 Hs1) as [-> Hs2]. cbn [mbind res_bind].
    apply ensures_ret. split_and!; [exact Hs2|exact C1|exact L1|exact W1|exact R1].
  - rewrite Hins. cbn [mbind res_bind]. destruct (IterateNextLink_ok _ s Hs) as [-> Hs2]. cbn [mbind res_bind].
    eapply ensures_mono; [apply (insert_elsewhere_ok acc req wr ty fl _ _ 1); try done; simpl; try lia|].
    + intros j Hj. replace j with 0 by lia. rewrite Z.add_0_r, (Z.mod_small (next_link_ s)) by done. exact Hroom.
    + intros [[] s'] H; [exact H|]. destruct H as [H1 H2]. split; [exact H1|].
      simpl in H2. rewrite H2. by destruct s.
Qed.

Lemma block_req_type_ok wr : ∃ t ty fl n, block_req_type c wr = Ok t ∧
  response_type t = Ok (ty, fl) ∧ wr = negb (bool_decide (ty = RD_RS)) ∧ request_flits t = Ok n ∧
  is_write_type t = wr.
Proof.
  pose proof sh_block as H. unfold block_req_type.
  repeat (apply elem_of_cons in H as [->|H]); [..|by apply not_elem_of_nil in H];
    destruct wr; repeat (rewrite decide_False by done); rewrite decide_True by done; simpl; eauto 10.
Qed.

(** A request is accepted exactly when [WillAcceptTransaction] says so. *)
Lemma AddTransaction_ok_cube acc s a wr :
  hmc_ok c acc s → 0 ≤ a →
  ensures (AddTransaction c a wr s) (λ r, r.1 = WillAcceptTransaction a wr s ∧
    if r.1 then accepted_one acc (a, wr) s r.2 else r.2 = s).
Proof.
  intros Hs Ha. pose proof (hm_shape _ _ _ Hs) as Hsh. unfold AddTransaction.
  destruct (block_req_type_ok wr) as (t & ty & fl & n & -> & Hty & Hwr & Hfl & Hw). cbn [mbind res_bind].
  unfold HMCRequest_new. rewrite Hfl. cbn [mbind res_bind].
  set (req := MkHMCRequest _ _ _ _ _ _ _ _).
  eapply ensures_mono; [apply (InsertHMCReq_ok acc req wr ty fl s); done|].
  intros [[] s'] H; cbn [fst snd] in *.
  - split; [|exact H]. destruct H as (_ & _ & _ & H & _). by rewrite H.
  - destruct H as [Hfull ->]. split; [|done]. symmetry. apply full_refuses. intros link Hl.
    rewrite (hs_link_req _ _ Hsh) in Hl. pose proof (hs_next _ _ Hsh).
    specialize (Hfull ((link - next_link_ s) mod num_links c) ltac:(apply Z.mod_pos_bound; lia)).
    rewrite Zplus_mod_idemp_r in Hfull. replace (next_link_ s + (link - next_link_ s)) with link in Hfull by lia.
    by rewrite Z.mod_small in Hfull.
Qed.

(** ** Construction *)

Lemma SetClockRatio_ok s :
  ∃ p, 0 < p ≤ 800 ∧ SetClockRatio c s = Ok (s <| ps_per_dram_ := 800 |> <| ps_per_logic_ := p |>).
Proof.
  destruct sh_speed as (k & v & Hk & Hv & Hr). unfold SetClockRatio. rewrite Hk. cbn [mbind res_bind].
  rewrite Hv. cbn [mbind res_bind]. unfold logic_period. rewrite decide_False by lia.
  assert (0 < Z.quot 1000000 v) by (apply Z.quot_str_pos; lia). rewrite decide_False by lia.
  cbn [mbind res_bind]. eexists. split; [|done]. simpl. case_decide; lia.
Qed.

Lemma ages_ok_new {A} n : ages_ok (replicate n ([] : list A)) (replicate n 0).
Proof.
  split; [by rewrite !length_replicate|]. intros i q a Hq%vlookup_replicate_inv Ha%vlookup_replicate_inv.
  subst. split; [lia|done].
Qed.

Lemma bounded_new {A} d n : 0 ≤ d → bounded d (replicate n ([] : list A)).
Proof. intros Hd i q Hq%vlookup_replicate_inv. by subst. Qed.

Lemma concat_new {A} n : concat (replicate n ([] : list A)) = [].
Proof. by induction n. Qed.

Lemma HMCMemorySystem_new_ok rcb wcb s :
  HMCMemorySystem_new c rcb wcb = Ok s →
  hmc_ok c [] s ∧ (∃ p, clocks_at p 0 0 s) ∧ calls (hmc_base s) = [].
Proof.
  unfold HMCMemorySystem_new. rewrite sh_hmc. cbn [negb]. set (s0 := MkHMCMemorySystem _ _ _ _ _ _ _ _ _ _ _ _ _ _ _ _ _ _).
  destruct (SetClockRatio_ok s0) as (p & Hp & ->). cbn [mbind res_bind]. intros H.
  apply bind_Ok_inv in H as ([] & _ & H). apply bind_Ok_inv in H as (b & Hb & H).
  apply bind_Ok_inv in H as ([] & _ & H). injection H as <-.
  destruct (new_controllers_ok c (BaseDRAMSystem_new rcb wcb) b sh_channels eq_refl Hb) as (H1 & H2 & H3 & H4).
  pose proof sh_links as Hn. pose proof (u64_range (xbar_queue_depth c)) as [Hd _].
  split; [|split; [|done]].
  - constructor; try done.
    + constructor; simpl; try done; rewrite ?length_replicate, ?Z2Nat.id by lia; try done.
      * apply ages_ok_new.
      * apply (ages_ok_new 4).
      * by apply bounded_new.
      * by apply (bounded_new _ 4).
      * by apply bounded_new.
    + intros i t Ht. change (clk_ (hmc_base _)) with (clk_ b). rewrite H3. by apply (H4 i).
    + intros i t Ht. exists [], []. split; [by apply (H4 i)|constructor].
    + unfold requests. simpl. by rewrite concat_new.
    + unfold responses. simpl. by rewrite concat_new.
    + intros h r. change (mm_at (resp_lookup_table_ _) h) with (mm_at (∅ : gmap Z (list HMCResponse)) h).
      unfold mm_at. rewrite lookup_empty. by intros ?%not_elem_of_nil.
    + intros h. unfold requests, vault_open, mm_at. simpl. rewrite concat_new, lookup_empty. simpl.
      destruct (vlookup (ctrls_ b) _) as [t|] eqn:Et; [|done]. destruct (H4 _ _ Et) as [_ Hw].
      pose proof (wo_account c _ Hw (h, false)) as A1. pose proof (wo_account c _ Hw (h, true)) as A2.
      unfold open_at.
      cbn in A1, A2. by rewrite <- A1, <- A2.
    + intros k. unfold responses, reported_keys, mm_at. simpl. by rewrite concat_new, H2, lookup_empty.
  - exists p. split; [|split_and!; lia]. unfold clocks_of. simpl. rewrite H3. do 2 f_equal. lia.
Qed.
End clocks.

(** ** Runs of a cube *)

Definition do_cube_op (c : Config) (o : sys_op) (x : HMCMemorySystem * list (Z * bool))
    : res (HMCMemorySystem * list (Z * bool)) :=
  let '(s, acc) := x in
  match o with
  | op_add a wr =>
    '(ok, s) ← AddTransaction c a wr s; Ok (s, if (ok : bool) then (a, wr) :: acc else acc)
  | op_tick => s ← ClockTick c s; Ok (s, acc)
  | op_register r w => Ok (RegisterCallbacks r w s, acc)
  | op_stats_mo => s ← with_base (λ b, Ok (stats_mo b).2) s; Ok (s, acc)
  | op_print_stats => s ← with_base PrintStats s; Ok (s, acc)
  | op_reset_stats => s ← with_base ResetStats s; Ok (s, acc)
  end.

(** Addresses are [uint64_t]; up to 2^53 DRAM cycles the picosecond counters
    stay in range. *)
Definition cube_op_ok (s : HMCMemorySystem) (o : sys_op) : Prop :=
  match o with
  | op_add a _ => 0 ≤ a
  | op_tick => clk_ (hmc_base s) < 2 ^ 53
  | _ => True
  end.

Inductive cube_reachable (c : Config) : HMCMemorySystem → list (Z * bool) → Prop :=
  | cube_new rcb wcb s : HMCMemorySystem_new c rcb wcb = Ok s → cube_reachable c s []
  | cube_step o s acc s' acc' :
      cube_reachable c s acc → cube_op_ok s o → do_cube_op c o (s, acc) = Ok (s', acc') →
      cube_reachable c s' acc'.

(** What every reachable state satisfies. *)
Definition cube_ok (c : Config) (x : HMCMemorySystem * list (Z * bool)) : Prop :=
  hmc_ok c x.2 x.1 ∧ ∃ p k n, clocks_at p k n x.1.

Lemma clocks_at_same p k n s s' : clocks_of s' = clocks_of s → clocks_at p k n s → clocks_at p k n s'.
Proof. unfold clocks_at. by intros ->. Qed.

(** Statistics and callbacks. *)
Lemma cube_stats_ok c f acc s :
  SafeHmc c → stats_step c f → cube_ok c (s, acc) →
  ensures (with_base (for_ctrls f) s) (λ s', cube_ok c (s', acc)).
Proof.
  intros Hc Hf [Hs (p & k & n & Hk)]. destruct (vaults_stats_ok c f acc s Hf Hs) as (s' & Hrun & Hs').
  exists s'. split; [done|]. split; [done|]. exists p, k, n. eapply clocks_at_same; [|exact Hk].
  by eapply for_ctrls_clocks.
Qed.

Lemma cube_moved_ok c acc s b :
  calls b = calls (hmc_base s) → ctrls_ b = ctrls_ (hmc_base s) → clk_ b = clk_ (hmc_base s) →
  cube_ok c (s, acc) → cube_ok c (s <| hmc_base := b |>, acc).
Proof.
  intros Ec Ev Ek [[Hsh H2 H3 H4 H5 H6 H7 H8 H9] (p & k & n & Hc)]. split.
  - constructor; simpl; rewrite ?Ev, ?Ek; try done.
    + by destruct Hsh.
    + intros h. unfold vault_open. simpl. rewrite Ev. apply H8.
    + intros q. unfold reported_keys. simpl. rewrite Ec. apply H9.
  - exists p, k, n. eapply clocks_at_same; [|exact Hc]. unfold clocks_of. simpl. by rewrite Ek.
Qed.

Lemma do_cube_op_ok c o s acc :
  SafeHmc c → cube_ok c (s, acc) → cube_op_ok s o → ensures (do_cube_op c o (s, acc)) (cube_ok c).
Proof.
  intros Hc Hx Ho. pose proof Hx as [Hs (p & k & n & Hk)]. destruct o as [a wr| |r w| | |]; cbn [do_cube_op].
  - eapply ensures_bind; [by apply (AddTransaction_ok_cube c acc s a wr)|].
    intros [[] s'] [_ H]; apply ensures_ret; simpl in H; [|by subst s'].
    destruct H as (Hs' & Ck & _). split; [done|]. exists p, k, n. by eapply clocks_at_same.
  - eapply ensures_bind; [apply (ClockTick_ok_cube c acc s p k n); [done|done|]|].
    + destruct Hk as [[= E1 _ _ _ _ _] _]. simpl in Ho. lia.
    + intros s' (Hs' & n' & Hk'). apply ensures_ret. split; [done|eauto].
  - apply ensures_ret. by apply cube_moved_ok.
  - apply ensures_ret. by apply cube_moved_ok.
  - eapply ensures_bind; [apply (cube_stats_ok c _ acc s Hc (PrintFinalStats_step c) Hx)|].
    intros s' Hs'. by apply ensures_ret.
  - eapply ensures_bind; [apply (cube_stats_ok c _ acc s Hc (ResetStats_step c) Hx)|].
    intros s' Hs'. by apply ensures_ret.
Qed.

Lemma cube_reachable_ok c s acc : SafeHmc c → cube_reachable c s acc → cube_ok c (s, acc).
Proof.
  intros Hc. induction 1 as [rcb wcb s Hn|o s acc s' acc' _ IH Ho Hrun].
  - destruct (HMCMemorySystem_new_ok c rcb wcb s Hn) as (Hs & (p & Hp) & _). split; [done|eauto].
  - destruct (do_cube_op_ok c o s acc Hc IH Ho) as (x & Hrun' & Hx). rewrite Hrun in Hrun'. by simplify_res.
Qed.

(** ** A sample cube: configs/HMC_4GB_4Lx16.ini *)

Definition cube_reader : INIReader :=
  MkINIReader
    (λ _ k d, assoc [("protocol", "HMC"); ("address_mapping", "rocorabgbach");
       ("queue_structure", "PER_BANK"); ("row_buf_policy", "CLOSE_PAGE")]%string k d)
    (λ _ k d, assoc
      [("num_links", 4); ("link_width", 16); ("link_speed", 15000); ("block_size", 64);
       ("xbar_queue_depth", 6); ("bankgroups", 1); ("banks_per_group", 16); ("rows", 65536);
       ("columns", 64); ("device_width", 32); ("num_dies", 4); ("CL", 17); ("CWL", 17);
       ("tRCD", 17); ("tRP", 17); ("tRAS", 34); ("tRFC", 420); ("tREFI", 9364); ("tRRD_S", 4);
       ("tRRD_L", 4); ("tWTR_S", 3); ("tWTR_L", 3); ("tFAW", 27); ("tWR", 17); ("tCCD_S", 6);
       ("tCCD_L", 6); ("tXS", 12); ("tCKSRE", 1); ("tXP", 8); ("tRTP_L", 8); ("tRTP_S", 8);
       ("tRTRS", 0); ("channel_size", 256); ("channels", 16); ("bus_width", 32);
       ("cmd_queue_size", 8); ("trans_queue_size", 32); ("epoch_period", 1250000);
       ("output_level", 1)]%string k d)
    (λ _ k d, assoc [("unified_queue", true)]%string k d).

Definition cube_config : Config :=
  Eval vm_compute in
    match Config_new cube_reader 0 with Ok c => c | Fault _ => Config_uninit end.

Lemma cube_config_new : Config_new cube_reader 0 = Ok cube_config.
Proof. vm_compute. reflexivity. Qed.

#[export] Instance cube_safe : SafeHmc cube_config.
Proof.
  split; [split|done|done|by eapply Config_new_channels; [apply cube_config_new|done]|done|done| |].
  - by apply (Config_new_geometry cube_reader 0); [apply cube_config_new|..].
  - reflexivity.
  - intros [=].
  - intros r Hr. vm_compute in Hr. injection Hr as <-. done.
  - done.
  - vm_compute. set_solver.
  - exists 8, 1875. split_and!; [done|done|lia|lia].
Qed.

(** Reads and a write to one quadrant, and two reads of one address. *)
Definition cube_ops : list sys_op :=
  [op_add 0 false; op_add 256 true; op_add 512 false; op_add 0 false; op_add 768 false; op_add 256 false] ++
  replicate 6 op_tick ++ [op_register 3 4] ++ replicate 70 op_tick ++ [op_print_stats].

Definition cube_run (ops : list sys_op) : res (HMCMemorySystem * list (Z * bool)) :=
  s ← HMCMemorySystem_new cube_config 1 2; foldM (do_cube_op cube_config) ops (s, []).

(** A run of the sample cube is reachable while the cycle count is small. *)
Definition cube_ops_ok (ops : list sys_op) : bool :=
  forallb (λ o, match o with op_add a _ => 0 <=? a | _ => true end) ops && (Z.of_nat (length ops) <? 1000).

Lemma do_cube_op_clk c o s acc s' acc' :
  do_cube_op c o (s, acc) = Ok (s', acc') → SafeHmc c → cube_ok c (s, acc) → cube_op_ok s o →
  clk_ (hmc_base s') ≤ clk_ (hmc_base s) + 1.
Proof.
  intros Hrun Hc [Hs (p & k & n & Hk)] Ho. destruct o as [a wr| |r w| | |]; cbn [do_cube_op] in Hrun.
  - destruct (AddTransaction_ok_cube c acc s a wr Hs Ho) as ([ok s1] & E & _ & H). rewrite E in Hrun.
    cbn [mbind res_bind] in Hrun. injection Hrun as <- _. destruct ok; simpl in H; [|subst; lia].
    destruct H as (_ & [= E1 _ _ _ _ _] & _). rewrite E1. lia.
  - pose proof Hk as [[= E1 _ _ _ _ _] _].
    destruct (ClockTick_ok_cube c acc s p k n Hs Hk) as (s1 & E & _ & n' & [[= E1' _ _ _ _ _] _]);
      [simpl in Ho; lia|].
    rewrite E in Hrun. cbn [mbind res_bind] in Hrun. injection Hrun as <- _. lia.
  - injection Hrun as <- _. simpl. lia.
  - injection Hrun as <- _. simpl. lia.
  - simplify_res. apply for_ctrls_clocks in Hrun0. injection Hrun0 as E1 _ _ _ _ _. lia.
  - simplify_res. apply for_ctrls_clocks in Hrun0. injection Hrun0 as E1 _ _ _ _ _. lia.
Qed.

Lemma cube_run_reachable ops s acc :
  cube_run ops = Ok (s, acc) → cube_ops_ok ops = true → cube_reachable cube_config s acc.
Proof.
  unfold cube_run, cube_ops_ok. intros H [Hops Hlen]%andb_prop. apply Z.ltb_lt in Hlen.
  apply bind_Ok_inv in H as (s0 & Hnew & H).
  assert (clk_ (hmc_base s0) + Z.of_nat (length ops) < 2 ^ 53) as Hroom.
  { destruct (HMCMemorySystem_new_ok cube_config 1 2 s0 Hnew) as (_ & (p & [= E _ _ _ _ _] & _) & _). lia. }
  assert (cube_reachable cube_config s0 []) as Hr by by eapply cube_new.
  clear Hnew Hlen. revert s0 Hroom Hr H. generalize (@nil (Z * bool)).
  induction ops as [|o ops IH]; intros acc0 s0 Hroom Hr H; simpl in H.
  - by injection H as <- <-.
  - apply bind_Ok_inv in H as ([s1 acc1] & Hstep & H). apply andb_prop in Hops as [Ho Hops].
    assert (cube_op_ok s0 o) as Hok.
    { destruct o; try done; simpl in *; [by apply Z.leb_le|lia]. }
    pose proof (do_cube_op_clk _ _ _ _ _ _ Hstep cube_safe (cube_reachable_ok _ _ _ cube_safe Hr) Hok).
    apply (IH Hops acc1 s1); [simpl in Hroom; lia| |done]. by eapply cube_step.
Qed.

Lemma cube_ops_fine n : (n < 100)%nat → cube_ops_ok (take n cube_ops) = true.
Proof.
  intros Hn. do 100 (destruct n as [|n]; [reflexivity|]). lia.
Qed.

Lemma cube_world : ∃ x, cube_run (take 50 cube_ops) = Ok x ∧
  ((length (calls (hmc_base x.1)) =? 2)%nat && (clk_ (hmc_base x.1) =? 43)) = true.
Proof. apply res_check_Ok. vm_compute. reflexivity. Qed.

Lemma cube_world_reachable s acc :
  cube_run (take 50 cube_ops) = Ok (s, acc) → cube_reachable cube_config s acc.
Proof. intros H. by apply (cube_run_reachable (take 50 cube_ops)). Qed.

(** ** Properties *)

(** C10: no operation of a cube stops the simulation.  In every state that a
    run reaches, a request, a clock cycle, a change of callbacks and the
    statistics return: every packet has a link, a quadrant and a vault, the
    vaults accept what they are handed, and the response of an answered
    request is in the lookup table, whose [end()] is never dereferenced. *)
Theorem cube_never_faults (c : Config) (s : HMCMemorySystem) (acc : list (Z * bool)) (o : sys_op) :
  SafeHmc c → cube_reachable c s acc → cube_op_ok s o → ∃ x, do_cube_op c o (s, acc) = Ok x.
Proof.
  intros Hc Hr Ho. destruct (do_cube_op_ok c o s acc Hc (cube_reachable_ok c s acc Hc Hr) Ho)
    as (x & Hrun & _). by exists x.
Qed.

Lemma cube_never_faults_witness :
  ∃ x y, cube_run (take 50 cube_ops) = Ok x ∧ do_cube_op cube_config op_tick x = Ok y.
Proof.
  destruct cube_world as ([s acc] & Hx & Hk). exists (s, acc).
  destruct (cube_never_faults cube_config s acc op_tick cube_safe (cube_world_reachable s acc Hx))
    as [y Hy].
  - apply andb_prop in Hk as [_ Hk]. apply Z.eqb_eq in Hk. simpl in *. rewrite Hk. lia.
  - exists y. split; [exact Hx|exact Hy].
Defined.

(** C11: end-to-end accounting of a cube.  For each address and direction,
    the requests accepted are those reported to the client, those whose
    response is crossing back, and those whose response waits in the lookup
    table; and the table holds for each address one response per request that
    is on its way to the vaults or open in the vault of the address.  No
    request is lost or answered twice in the crossbar, in any interleaving of
    requests to the same address. *)
Theorem cube_conserves (c : Config) (s : HMCMemorySystem) (acc : list (Z * bool)) :
  SafeHmc c → cube_reachable c s acc →
  (∀ k, times k acc = (times k (reported_keys (hmc_base s)) + times k (resp_key <$> responses s) +
     times k (resp_key <$> mm_at (resp_lookup_table_ s) k.1))%nat) ∧
  ∀ h, length (mm_at (resp_lookup_table_ s) h) =
    (at_address h (requests s) + vault_open c h (hmc_base s))%nat.
Proof.
  intros Hc Hr. destruct (cube_reachable_ok c s acc Hc Hr) as [Hs _]. split; [apply Hs|apply Hs].
Qed.

Lemma cube_conserves_witness :
  ∃ s acc, cube_run (take 50 cube_ops) = Ok (s, acc) ∧
    times (0, false) acc = (times (0%Z, false) (reported_keys (hmc_base s)) +
      times (0%Z, false) (resp_key <$> responses s) +
      times (0%Z, false) (resp_key <$> mm_at (resp_lookup_table_ s) 0%Z))%nat ∧
    length (mm_at (resp_lookup_table_ s) 0%Z) =
      (at_address 0 (requests s) + vault_open cube_config 0 (hmc_base s))%nat.
Proof.
  destruct cube_world as ([s acc] & Hx & _). exists s, acc.
  destruct (cube_conserves cube_config s acc cube_safe (cube_world_reachable s acc Hx)) as [H1 H2].
  split; [exact Hx|]. split; [exact (H1 (0, false))|exact (H2 0)].
Defined.

(** C22: the two clocks keep step.  A DRAM cycle ends: the
    [while (logic_ps_ < dram_ps_ + ps_per_dram_)] loop runs as many logic
    cycles as it takes for the logic die not to be behind, and no more.  The
    time that either side has spent is its cycle count times its period, and
    between cycles the logic die is ahead by less than one of its periods. *)
Theorem cube_clocks_keep_step (c : Config) (s : HMCMemorySystem) (acc : list (Z * bool)) :
  SafeHmc c → cube_reachable c s acc → clk_ (hmc_base s) < 2 ^ 53 →
  ∃ s', ClockTick c s = Ok s' ∧ clk_ (hmc_base s') = clk_ (hmc_base s) + 1 ∧
    dram_ps_ s' = 800 * clk_ (hmc_base s') ∧ logic_ps_ s' = ps_per_logic_ s' * logic_clk_ s' ∧
    dram_ps_ s' ≤ logic_ps_ s' < dram_ps_ s' + ps_per_logic_ s' ∧ ps_per_logic_ s' = ps_per_logic_ s.
Proof.
  intros Hc Hr Hk. destruct (cube_reachable_ok c s acc Hc Hr) as [Hs (p & k & n & Hat)].
  pose proof Hat as [[= E1 _ _ E4 _ _] _].
  destruct (ClockTick_ok_cube c acc s p k n Hs Hat) as (s' & Hrun & _ & n' & [= F1 F2 F3 F4 F5 F6] & Hp & Hr'); [lia|].
  exists s'. rewrite F1, F2, F4, F5, F6, E1, E4. split_and!; try done; lia.
Qed.

Lemma cube_clocks_keep_step_witness :
  ∃ s acc s', cube_run (take 50 cube_ops) = Ok (s, acc) ∧ ClockTick cube_config s = Ok s' ∧
    logic_ps_ s' = ps_per_logic_ s' * logic_clk_ s' ∧
    dram_ps_ s' ≤ logic_ps_ s' < dram_ps_ s' + ps_per_logic_ s'.
Proof.
  destruct cube_world as ([s acc] & Hx & Hk). exists s, acc.
  destruct (cube_clocks_keep_step cube_config s acc cube_safe (cube_world_reachable s acc Hx))
    as (s' & H1 & _ & _ & H4 & H5 & _).
  - apply andb_prop in Hk as [_ Hk]. apply Z.eqb_eq in Hk. simpl in *. rewrite Hk. lia.
  - exists s'. split; [exact Hx|]. split; [exact H1|]. split; [exact H4|exact H5].
Defined.



(** The crossbar's queues keep to their depth.  In every reachable state
    no request queue of a link or a quadrant and no response queue of a link
    holds more than [xbar_queue_depth] packets, although their lengths are
    tested in one place and changed in others. *)
Theorem cube_queues_bounded (c : Config) (s : HMCMemorySystem) (acc : list (Z * bool)) :
  SafeHmc c → cube_reachable c s acc →
  (∀ i q, vlookup (link_req_queues_ s) i = Some q → queue_size q ≤ u64 (xbar_queue_depth c)) ∧
  (∀ i q, vlookup (quad_req_queues_ s) i = Some q → queue_size q ≤ u64 (xbar_queue_depth c)) ∧
  (∀ i q, vlookup (link_resp_queues_ s) i = Some q → queue_size q ≤ u64 (xbar_queue_depth c)).
Proof.
  intros Hc Hr. destruct (cube_reachable_ok c s acc Hc Hr) as [[Hsh _ _ _ _ _ _ _ _] _].
  rewrite <- (hs_depth _ _ Hsh). split_and!; apply Hsh.
Qed.

Lemma cube_queues_bounded_witness :
  ∃ s acc, cube_run (take 50 cube_ops) = Ok (s, acc) ∧
    ∀ i q, vlookup (link_req_queues_ s) i = Some q → queue_size q ≤ 6.
Proof.
  destruct cube_world as ([s acc] & Hx & _). exists s, acc. split; [exact Hx|].
  exact (proj1 (cube_queues_bounded cube_config s acc cube_safe (cube_world_reachable s acc Hx))).
Defined.

(** C37: the arbiter starves nobody in a cycle.  In every reachable state the
    queue that [BuildAgeQueue] builds for the links, and the one for the
    quadrants, names each queue that holds a packet exactly once and no empty
    one: the age counters agree with the queues, and the [front()] of every
    turn exists. *)
Theorem arbiter_serves_waiting (c : Config) (s : HMCMemorySystem) (acc : list (Z * bool)) :
  SafeHmc c → cube_reachable c s acc →
  (∃ l, BuildAgeQueue (link_age_counter_ s) s = Ok l ∧ NoDup l ∧
    ∀ i, i ∈ l ↔ ∃ x q, vlookup (link_req_queues_ s) i = Some (x :: q)) ∧
  (∃ l, BuildAgeQueue (quad_age_counter_ s) s = Ok l ∧ NoDup l ∧
    ∀ i, i ∈ l ↔ ∃ x q, vlookup (quad_resp_queues_ s) i = Some (x :: q)).
Proof.
  intros Hc Hr. destruct (cube_reachable_ok c s acc Hc Hr) as [Hs _]. split.
  - apply (link_queue_ok c acc s Hs).
  - apply (quad_queue_ok c acc s Hs).
Qed.

Lemma cube_waiting : ∃ x, cube_run (take 8 cube_ops) = Ok x ∧
  (bool_decide (link_age_counter_ x.1 = [5; 4; 0; 5]) &&
   match BuildAgeQueue (link_age_counter_ x.1) x.1 with
   | Ok l => bool_decide (l = [3; 1; 0]) | Fault _ => false end) = true.
Proof. apply res_check_Ok. vm_compute. reflexivity. Qed.

Lemma arbiter_serves_waiting_witness :
  ∃ s acc l, cube_run (take 8 cube_ops) = Ok (s, acc) ∧
    BuildAgeQueue (link_age_counter_ s) s = Ok l ∧ NoDup l.
Proof.
  destruct cube_waiting as ([s acc] & Hx & _).
  destruct (arbiter_serves_waiting cube_config s acc cube_safe
    (cube_run_reachable (take 8 cube_ops) s acc Hx eq_refl)) as [(l & H1 & H2 & _) _].
  exists s, acc, l. split; [exact Hx|]. split; [exact H1|exact H2].
Defined.

(** The arbiter does not serve the oldest first.  [BuildAgeQueue]
    compares an age with a position, where its comment promises a descending
    order of the ages: on the shipped HMC_4GB_4Lx16 a run reaches a state in
    which link 0 has waited 5 cycles and link 1 only 4, and link 1 is served
    before link 0. *)
Theorem age_queue_unsorted :
  ∃ s acc, cube_reachable cube_config s acc ∧ link_age_counter_ s = [5; 4; 0; 5] ∧
    BuildAgeQueue (link_age_counter_ s) s = Ok [3; 1; 0].
Proof.
  destruct cube_waiting as ([s acc] & Hx & H). apply andb_prop in H as [H1 H2].
  destruct (BuildAgeQueue _ _) as [l|] eqn:El; [|done]. simpl in El. apply bool_decide_eq_true_1 in H1, H2.
  subst l. exists s, acc. split; [|by split]. by apply (cube_run_reachable (take 8 cube_ops)).
Qed.
