(* ===== verification/MemorySystem.v ===== *)
(** * MemorySystem: the facade for clients (src/src/memory_system.h,
    memory_system.cc)

    [MemorySystem] builds the configuration and one of the two memories that
    it may name, and forwards every call to it.  What a client may rely on is
    the interface [Memory]: the operations, and the laws that they keep.  The
    JEDEC systems, the cube and the facade over both implement it; the
    clients of [Cpu] are verified against it alone. *)

From S2P Require Import Refresh CommandQueue.
From S2P Require Import Prelude Common Configuration Timing BankState ChannelState ChannelSafety.
From S2P Require Import SimpleStats Controller ControllerSafety ControllerRuns DramSystem.
From S2P Require Import DramSystemSafety Hmc HmcSafety HmcRuns.
Local Open Scope Z_scope.

(** ** The facade *)

(** The object behind [BaseDRAMSystem *dram_system_]. *)
Inductive DRAMSystem : Type :=
  | jedec_system (s : BaseDRAMSystem)
  | hmc_system (s : HMCMemorySystem).

Record MemorySystem : Type := MkMemorySystem { config_ : Config; dram_system_ : DRAMSystem }.

#[export] Instance MemorySystem_eta : RecordEta MemorySystem := λ m,
  MkMemorySystem (config_ m) (dram_system_ m).

Definition MemorySystem_new (reader : INIReader) (parse_error read_callback write_callback : Z)
    : res MemorySystem :=
  c ← Config_new reader parse_error;
  d ← (if IsHMC c
       then s ← HMCMemorySystem_new c read_callback write_callback; Ok (hmc_system s)
       else s ← JedecDRAMSystem_new c read_callback write_callback; Ok (jedec_system s));
  Ok (MkMemorySystem c d).

(** A call through the virtual table that changes the memory. *)
Definition dispatch (jedec : BaseDRAMSystem → res BaseDRAMSystem)
    (hmc : HMCMemorySystem → res HMCMemorySystem) (m : MemorySystem) : res MemorySystem :=
  d ← match dram_system_ m with
      | jedec_system s => s ← jedec s; Ok (jedec_system s)
      | hmc_system s => s ← hmc s; Ok (hmc_system s)
      end;
  Ok (m <| dram_system_ := d |>).

Definition ClockTick (m : MemorySystem) : res MemorySystem :=
  dispatch (DramSystem.ClockTick (config_ m)) (Hmc.ClockTick (config_ m)) m.

Definition GetChannelMask (m : MemorySystem) : Z := ch_mask (config_ m).
Definition GetRankMask (m : MemorySystem) : Z := ra_mask (config_ m).
Definition GetBankMask (m : MemorySystem) : Z := ba_mask (config_ m).
Definition GetRowMask (m : MemorySystem) : Z := ro_mask (config_ m).
Definition GetBusBits (m : MemorySystem) : Z := bus_width (config_ m).
Definition GetBurstLength (m : MemorySystem) : Z := BL (config_ m).
Definition GetQueueSize (m : MemorySystem) : Z := trans_queue_size (config_ m).

Definition RegisterCallbacks (read_callback write_callback : Z) : MemorySystem → res MemorySystem :=
  dispatch (λ s, Ok (DramSystem.RegisterCallbacks read_callback write_callback s))
           (λ s, Ok (Hmc.RegisterCallbacks read_callback write_callback s)).

Definition WillAcceptTransaction (hex_addr : Z) (is_write : bool) (m : MemorySystem) : res bool :=
  match dram_system_ m with
  | jedec_system s => DramSystem.WillAcceptTransaction (config_ m) hex_addr is_write s
  | hmc_system s => Ok (Hmc.WillAcceptTransaction hex_addr is_write s)
  end.

Definition AddTransaction (hex_addr : Z) (is_write : bool) (m : MemorySystem)
    : res (bool * MemorySystem) :=
  '(ok, d) ← match dram_system_ m with
             | jedec_system s =>
               '(ok, s) ← DramSystem.AddTransaction (config_ m) hex_addr is_write s; Ok (ok, jedec_system s)
             | hmc_system s =>
               '(ok, s) ← Hmc.AddTransaction (config_ m) hex_addr is_write s; Ok (ok, hmc_system s)
             end;
  Ok (ok, m <| dram_system_ := d |>).

Definition PrintStats : MemorySystem → res MemorySystem :=
  dispatch DramSystem.PrintStats (with_base DramSystem.PrintStats).

Definition stats_mo : MemorySystem → res MemorySystem :=
  dispatch (λ s, Ok (DramSystem.stats_mo s).2) (with_base (λ b, Ok (DramSystem.stats_mo b).2)).

Definition ResetStats : MemorySystem → res MemorySystem :=
  dispatch DramSystem.ResetStats (with_base DramSystem.ResetStats).

(** ** The interface *)

Class MemoryOps (M : Type) := {
  memory_tick : M → res M;
  memory_will_accept : Z → bool → M → res bool;
  memory_add : Z → bool → M → res (bool * M);
  memory_print : M → res M }.

(** [valid n acc m]: the memory [m] has accepted the requests [acc], the
    latest first, and has at least [n] cycles left before its counters wrap.
    [reports m] are the requests it has answered. *)
Class Memory (M : Type) `{MemoryOps M} (valid : nat → list (Z * bool) → M → Prop)
    (reports : M → list (Z * bool)) : Prop := {
  law_tick n acc m : valid (S n) acc m → ensures (memory_tick m) (valid n acc);
  law_add n acc m a wr : valid n acc m → 0 ≤ a →
    ∃ ok, memory_will_accept a wr m = Ok ok ∧
      (ok = true → ensures (memory_add a wr m) (λ r, r.1 = true ∧ valid n ((a, wr) :: acc) r.2));
  law_print n acc m : valid n acc m → ensures (memory_print m) (valid n acc);
  law_reports n acc m k : valid n acc m → 0 ≤ k.1 → (times k (reports m) ≤ times k acc)%nat }.

(** ** The JEDEC systems implement the interface *)

Section jedec.
Context (c : Config) `{Sys : !SafeSystem c}.

#[export] Instance jedec_ops : MemoryOps BaseDRAMSystem := {
  memory_tick := DramSystem.ClockTick c;
  memory_will_accept := DramSystem.WillAcceptTransaction c;
  memory_add := DramSystem.AddTransaction c;
  memory_print := DramSystem.PrintStats }.

Definition jedec_valid (n : nat) (acc : list (Z * bool)) (s : BaseDRAMSystem) : Prop :=
  sys_reachable c s acc ∧ 0 ≤ DramSystem.clk_ s ∧ DramSystem.clk_ s + Z.of_nat n ≤ 2 ^ 53.

Lemma for_ctrls_clk f s s' : for_ctrls f s = Ok s' → DramSystem.clk_ s' = DramSystem.clk_ s.
Proof.
  unfold for_ctrls, for_upto.
  apply (foldM_preserves _ (λ b, DramSystem.clk_ b = DramSystem.clk_ s)); [|done].
  intros i b1 b2 _ E H. by simplify_res.
Qed.

(** An operation takes at most a cycle. *)
Lemma do_op_clk o s acc x :
  do_op c o (s, acc) = Ok x → sys_ok c acc s → op_ok c s o → 0 ≤ DramSystem.clk_ s < 2 ^ 53 →
  0 ≤ DramSystem.clk_ x.1 ≤ DramSystem.clk_ s + 1.
Proof.
  intros Hrun Hs Ho Hk. destruct o as [a wr| |r w| | |]; cbn [do_op] in Hrun.
  - destruct (AddTransaction_ok_sys c acc s a wr ss_range Hs Ho) as (ok & s' & E & _ & _ & Ek & _).
    rewrite E in Hrun. injection Hrun as <-. simpl. lia.
  - destruct (ClockTick_ok c acc s Hs Ho ss_epoch) as (s' & E & _ & Ek & _). rewrite E in Hrun.
    injection Hrun as <-. simpl. rewrite Ek, u64_small by (unfold two64; lia). lia.
  - injection Hrun as <-. simpl. lia.
  - injection Hrun as <-. simpl. lia.
  - simplify_res. apply for_ctrls_clk in Hrun0. simpl. lia.
  - simplify_res. apply for_ctrls_clk in Hrun0. simpl. lia.
Qed.

#[export] Instance jedec_memory : Memory BaseDRAMSystem jedec_valid reported_keys.
Proof.
  split.
  - intros n acc s (Hr & H0 & Hn). pose proof (sys_reachable_ok c s acc Sys Hr) as Hs.
    assert (op_ok c s op_tick) as Ho by (intros _; lia).
    destruct (ClockTick_ok c acc s Hs Ho ss_epoch) as (s' & Hrun & _ & Hk & _). exists s'. split; [exact Hrun|].
    rewrite u64_small in Hk by (unfold two64; lia). split; [|lia].
    apply (sys_step c op_tick s acc s' acc Hr Ho). simpl. by rewrite Hrun.
  - intros n acc s a wr (Hr & H0 & Hn) Ha. pose proof (sys_reachable_ok c s acc Sys Hr) as Hs.
    destruct (AddTransaction_ok_sys c acc s a wr ss_range Hs Ha) as (ok & s' & Hrun & Hw & _ & Hk & _).
    exists ok. split; [exact Hw|]. intros ->. exists (true, s'). split; [exact Hrun|]. split; [done|].
    simpl. split; [|lia]. apply (sys_step c (op_add a wr) s acc); [done..|]. simpl. by rewrite Hrun.
  - intros n acc s (Hr & H0 & Hn). pose proof (sys_reachable_ok c s acc Sys Hr) as Hs.
    destruct (do_op_ok c op_print_stats s acc Sys Hs I) as (s' & acc' & Hrun & _). pose proof Hrun as Hstep.
    cbn [do_op] in Hrun. simplify_res. eexists. split; [exact Hrun0|]. apply for_ctrls_clk in Hrun0.
    split; [|lia]. by apply (sys_step c op_print_stats s acc').
  - intros n acc s [h wr] (Hr & _) Hh. pose proof (sys_reachable_ok c s acc Sys Hr) as Hs.
    destruct (sys_account c s acc h wr ss_range Hs Hh) as (t & _ & Ha & _). lia.
Qed.
End jedec.

(** ** The cube implements the interface *)

Section cube.
Context (c : Config) `{Cube : !SafeHmc c}.

#[export] Instance cube_memory_ops : MemoryOps HMCMemorySystem := {
  memory_tick := Hmc.ClockTick c;
  memory_will_accept a wr s := Ok (Hmc.WillAcceptTransaction a wr s);
  memory_add := Hmc.AddTransaction c;
  memory_print := with_base DramSystem.PrintStats }.

Definition cube_valid (n : nat) (acc : list (Z * bool)) (s : HMCMemorySystem) : Prop :=
  cube_reachable c s acc ∧ DramSystem.clk_ (hmc_base s) + Z.of_nat n ≤ 2 ^ 53.

#[export] Instance cube_memory : Memory HMCMemorySystem cube_valid (λ s, reported_keys (hmc_base s)).
Proof.
  split.
  - intros n acc s (Hr & Hn). destruct (cube_reachable_ok c s acc Cube Hr) as [Hs (p & k & n0 & Hk)].
    pose proof Hk as [[= E1 _ _ _ _ _] _].
    destruct (ClockTick_ok_cube c acc s p k n0 Hs Hk) as (s' & Hrun & _ & n' & [[= E1' _ _ _ _ _] _]); [lia|].
    exists s'. split; [exact Hrun|]. split; [|lia].
    apply (cube_step c op_tick s acc s' acc Hr); [simpl; lia|]. simpl. by rewrite Hrun.
  - intros n acc s a wr (Hr & Hn) Ha. destruct (cube_reachable_ok c s acc Cube Hr) as [Hs _].
    destruct (AddTransaction_ok_cube c acc s a wr Hs Ha) as ([ok s'] & Hrun & Hok & H). simpl in Hok, H.
    exists ok. split; [simpl; by rewrite Hok|]. intros ->. destruct H as (_ & [= E1 _ _ _ _ _] & _).
    exists (true, s'). split; [exact Hrun|]. split; [done|]. simpl. split; [|lia].
    apply (cube_step c (op_add a wr) s acc); [done..|]. simpl. by rewrite Hrun.
  - intros n acc s (Hr & Hn). pose proof (cube_reachable_ok c s acc Cube Hr) as Hx.
    destruct (cube_stats_ok c _ acc s Cube (PrintFinalStats_step c) Hx) as (s' & Hrun & _).
    exists s'. split; [exact Hrun|]. split.
    + apply (cube_step c op_print_stats s acc s' acc Hr I). cbn [do_cube_op].
      change (with_base DramSystem.PrintStats s) with (with_base (for_ctrls Controller.PrintFinalStats) s).
      by rewrite Hrun.
    + apply for_ctrls_clocks in Hrun. injection Hrun as E1 _ _ _ _ _. lia.
  - intros n acc s k (Hr & _) _. destruct (cube_reachable_ok c s acc Cube Hr) as [Hs _].
    pose proof (hm_acc _ _ _ Hs k). cbn [fst snd] in *. lia.
Qed.
End cube.

(** ** The facade implements the interface *)

Definition SafeMemory (c : Config) : Prop := if IsHMC c then SafeHmc c else SafeSystem c.

#[export] Instance facade_ops : MemoryOps MemorySystem := {
  memory_tick := ClockTick;
  memory_will_accept := WillAcceptTransaction;
  memory_add := AddTransaction;
  memory_print := PrintStats }.

(** The memory behind the facade is the one that its configuration names. *)
Definition facade_valid (n : nat) (acc : list (Z * bool)) (m : MemorySystem) : Prop :=
  SafeMemory (config_ m) ∧
  match dram_system_ m with
  | jedec_system s => IsHMC (config_ m) = false ∧ jedec_valid (config_ m) n acc s
  | hmc_system s => IsHMC (config_ m) = true ∧ cube_valid (config_ m) n acc s
  end.

Definition facade_reports (m : MemorySystem) : list (Z * bool) :=
  match dram_system_ m with
  | jedec_system s => reported_keys s
  | hmc_system s => reported_keys (hmc_base s)
  end.

(** A call forwarded to either memory keeps what it keeps there. *)
Lemma dispatch_ok fj fh n n' acc m :
  (∀ c s, SafeSystem c → jedec_valid c n acc s → config_ m = c → ensures (fj s) (jedec_valid c n' acc)) →
  (∀ c s, SafeHmc c → cube_valid c n acc s → config_ m = c → ensures (fh s) (cube_valid c n' acc)) →
  facade_valid n acc m → ensures (dispatch fj fh m) (facade_valid n' acc).
Proof.
  intros Hj Hh [Hc Hv]. unfold dispatch. unfold SafeMemory in Hc. destruct m as [c [s|s]]; simpl in *.
  - destruct Hv as [E Hv]. rewrite E in Hc. destruct (Hj c s Hc Hv eq_refl) as (s' & -> & Hs').
    apply ensures_ret. split; [|by split]. unfold SafeMemory. simpl. by rewrite E.
  - destruct Hv as [E Hv]. rewrite E in Hc. destruct (Hh c s Hc Hv eq_refl) as (s' & -> & Hs').
    apply ensures_ret. split; [|by split]. unfold SafeMemory. simpl. by rewrite E.
Qed.

#[export] Instance facade_memory : Memory MemorySystem facade_valid facade_reports.
Proof.
  split.
  - intros n acc m Hv. change (memory_tick m) with (ClockTick m). unfold ClockTick.
    apply (dispatch_ok (DramSystem.ClockTick (config_ m)) (Hmc.ClockTick (config_ m)) (S n)); [| |done].
    + intros c s Hc Hs <-. exact (@law_tick _ _ _ _ (jedec_memory (config_ m)) n acc s Hs).
    + intros c s Hc Hs <-. exact (@law_tick _ _ _ _ (cube_memory (config_ m)) n acc s Hs).
  - intros n acc m a wr [Hc Hv] Ha. unfold SafeMemory in Hc. destruct m as [c [s|s]]; simpl in *;
      destruct Hv as [E Hv]; rewrite E in Hc.
    + destruct (@law_add _ _ _ _ (jedec_memory c) n acc s a wr Hv Ha) as (ok & Hw & Hadd). simpl in Hw.
      exists ok. split; [exact Hw|]. intros Ht. destruct (Hadd Ht) as ([ok' s'] & Hrun & Hok & Hs').
      simpl in Hrun. unfold AddTransaction. simpl. rewrite Hrun. apply ensures_ret. split; [exact Hok|].
      split; [|by split]. unfold SafeMemory. simpl. by rewrite E.
    + destruct (@law_add _ _ _ _ (cube_memory c) n acc s a wr Hv Ha) as (ok & Hw & Hadd). simpl in Hw.
      exists ok. split; [exact Hw|]. intros Ht. destruct (Hadd Ht) as ([ok' s'] & Hrun & Hok & Hs').
      simpl in Hrun. unfold AddTransaction. simpl. rewrite Hrun. apply ensures_ret. split; [exact Hok|].
      split; [|by split]. unfold SafeMemory. simpl. by rewrite E.
  - intros n acc m Hv. apply (dispatch_ok _ _ n); [| |done].
    + intros c s Hc Hs _. exact (@law_print _ _ _ _ (jedec_memory c) n acc s Hs).
    + intros c s Hc Hs _. exact (@law_print _ _ _ _ (cube_memory c) n acc s Hs).
  - intros n acc m k [Hc Hv] Hk. unfold SafeMemory in Hc. destruct m as [c [s|s]]; simpl in *;
      destruct Hv as [E Hv]; rewrite E in Hc.
    + exact (@law_reports _ _ _ _ (jedec_memory c) n acc s k Hv Hk).
    + exact (@law_reports _ _ _ _ (cube_memory c) n acc s k Hv Hk).
Qed.

(** ** Runs through the facade *)

Definition do_memory_op (o : sys_op) (x : MemorySystem * list (Z * bool))
    : res (MemorySystem * list (Z * bool)) :=
  let '(m, acc) := x in
  match o with
  | op_add a wr => '(ok, m) ← AddTransaction a wr m; Ok (m, if (ok : bool) then (a, wr) :: acc else acc)
  | op_tick => m ← ClockTick m; Ok (m, acc)
  | op_register r w => m ← RegisterCallbacks r w m; Ok (m, acc)
  | op_stats_mo => m ← stats_mo m; Ok (m, acc)
  | op_print_stats => m ← PrintStats m; Ok (m, acc)
  | op_reset_stats => m ← ResetStats m; Ok (m, acc)
  end.

Definition as_jedec (c : Config) (x : BaseDRAMSystem * list (Z * bool)) : MemorySystem * list (Z * bool) :=
  (MkMemorySystem c (jedec_system x.1), x.2).
Definition as_cube (c : Config) (x : HMCMemorySystem * list (Z * bool)) : MemorySystem * list (Z * bool) :=
  (MkMemorySystem c (hmc_system x.1), x.2).


Lemma do_memory_op_jedec c o x :
  do_memory_op o (as_jedec c x) = y ← do_op c o x; Ok (as_jedec c y).
Proof.
  destruct x as [s acc]. destruct o as [a wr| |r w| | |]; cbn [do_memory_op do_op as_jedec fst snd].
  - unfold AddTransaction. cbn [dram_system_ config_].
    by destruct (DramSystem.AddTransaction c a wr s) as [[[] s']|f].
  - unfold ClockTick, dispatch. cbn [dram_system_ config_]. by destruct (DramSystem.ClockTick c s).
  - done.
  - done.
  - unfold PrintStats, dispatch. cbn [dram_system_]. by destruct (DramSystem.PrintStats s).
  - unfold ResetStats, dispatch. cbn [dram_system_]. by destruct (DramSystem.ResetStats s).
Qed.

Lemma do_memory_op_cube c o x :
  do_memory_op o (as_cube c x) = y ← do_cube_op c o x; Ok (as_cube c y).
Proof.
  destruct x as [s acc]. destruct o as [a wr| |r w| | |]; cbn [do_memory_op do_cube_op as_cube fst snd].
  - unfold AddTransaction. cbn [dram_system_ config_].
    by destruct (Hmc.AddTransaction c a wr s) as [[[] s']|f].
  - unfold ClockTick, dispatch. cbn [dram_system_ config_]. by destruct (Hmc.ClockTick c s).
  - done.
  - done.
  - unfold PrintStats, dispatch. cbn [dram_system_]. by destruct (with_base DramSystem.PrintStats s).
  - unfold ResetStats, dispatch. cbn [dram_system_]. by destruct (with_base DramSystem.ResetStats s).
Qed.

(** Addresses are [uint64_t]. *)
Definition memory_op_ok (o : sys_op) : Prop :=
  match o with op_add a _ => 0 ≤ a | _ => True end.

Lemma do_memory_op_ok n o m acc :
  facade_valid (S n) acc m → memory_op_ok o →
  ensures (do_memory_op o (m, acc)) (λ x, facade_valid n x.2 x.1).
Proof.
  intros [Hc Hv] Ho. unfold SafeMemory in Hc. destruct m as [c [s|s]]; cbn [dram_system_ config_] in *;
    destruct Hv as [E Hv]; rewrite E in Hc.
  - rewrite (do_memory_op_jedec c o (s, acc) : do_memory_op o (MkMemorySystem c (jedec_system s), acc) = _).
    destruct Hv as (Hr & H0 & Hn).
    pose proof (sys_reachable_ok c s acc Hc Hr) as Hs.
    assert (op_ok c s o) as Hop by (destruct o; simpl in *; try done; lia).
    destruct (do_op_ok c o s acc Hc Hs Hop) as (s' & acc' & Hrun & _).
    pose proof (do_op_clk c o s acc _ Hrun Hs Hop ltac:(lia)) as Hk. rewrite Hrun. apply ensures_ret.
    split; simpl; [unfold SafeMemory; by rewrite E|]. split; [done|]. simpl in Hk.
    split; [by eapply sys_step|lia].
  - rewrite (do_memory_op_cube c o (s, acc) : do_memory_op o (MkMemorySystem c (hmc_system s), acc) = _).
    destruct Hv as (Hr & Hn).
    pose proof (cube_reachable_ok c s acc Hc Hr) as Hx.
    assert (cube_op_ok s o) as Hop by (destruct o; simpl in *; try done; lia).
    destruct (do_cube_op_ok c o s acc Hc Hx Hop) as ([s' acc'] & Hrun & _).
    pose proof (do_cube_op_clk c o s acc s' acc' Hrun Hc Hx Hop) as Hk. rewrite Hrun. apply ensures_ret.
    split; simpl; [unfold SafeMemory; by rewrite E|]. split; [done|].
    split; [by eapply cube_step|lia].
Qed.

Lemma MemorySystem_new_ok reader e r w m n :
  MemorySystem_new reader e r w = Ok m → SafeMemory (config_ m) → Z.of_nat n ≤ 2 ^ 53 → facade_valid n [] m.
Proof.
  unfold MemorySystem_new. intros H. apply bind_Ok_inv in H as (c & _ & H). apply bind_Ok_inv in H as (d & Hd & H).
  injection H as <-. simpl. intros Hc Hn. split; [done|]. unfold SafeMemory in Hc. simpl in *.
  destruct (IsHMC c) eqn:E; apply bind_Ok_inv in Hd as (s & Hs & [= <-]).
  - split; [done|]. split; [by eapply cube_new|].
    destruct (HMCMemorySystem_new_ok c r w s Hs) as (_ & (p & [= E1 _ _ _ _ _] & _) & _). lia.
  - split; [done|]. split; [by eapply sys_new|].
    destruct (JedecDRAMSystem_new_ok c r w s ss_channels Hs) as (_ & _ & E1). lia.
Qed.

Lemma memory_run_ok ops m acc n :
  facade_valid (length ops + n) acc m → Forall memory_op_ok ops →
  ensures (foldM do_memory_op ops (m, acc)) (λ x, facade_valid n x.2 x.1).
Proof.
  revert m acc; induction ops as [|o ops IH]; intros m acc Hv Hops; [by apply ensures_ret|].
  apply list.Forall_cons in Hops as [Ho Hops]. cbn [foldM].
  eapply ensures_bind; [by apply (do_memory_op_ok (length ops + n))|]. intros [m' acc'] Hv'. by apply IH.
Qed.

(** ** Properties *)


