(* ===== verification/Random.v ===== *)
(** * Random: the generator of the synthetic clients (std::mt19937_64)

    [RandomCPU] and [StreamCPU] draw their addresses from a default-seeded
    [std::mt19937_64] (src/src/cpu.h), which the C++ standard defines
    completely: a linear recurrence over the last 312 states and a tempering
    function. *)

From S2P Require Import Prelude.
Local Open Scope Z_scope.

(** The last 312 states, the oldest first. *)
Record mt19937_64 : Type := Mk_mt19937_64 { mt_state : list Z }.

(** [X_i = f * (X_{i-1} xor (X_{i-1} >> 62)) + i]. *)
Fixpoint mt_seeds (n : nat) (i x : Z) : list Z :=
  match n with
  | O => []
  | S n => x :: mt_seeds n (i + 1) (u64 (6364136223846793005 * Z.lxor x (Z.shiftr x 62) + i))
  end.

Definition mt19937_64_new : mt19937_64 := Mk_mt19937_64 (mt_seeds 312 1 5489).

(** The next state: the upper 33 bits of [X_{i-312}] and the lower 31 of
    [X_{i-311}], twisted into [X_{i-156}]. *)
Definition mt_twist (x0 x1 xm : Z) : Z :=
  let y := Z.lor (Z.land x0 (2 ^ 64 - 2 ^ 31)) (Z.land x1 (2 ^ 31 - 1)) in
  Z.lxor (Z.lxor xm (Z.shiftr y 1)) (if Z.odd y then 0xB5026F5AA96619E9 else 0).

Definition mt_temper (x : Z) : Z :=
  let z := Z.lxor x (Z.land (Z.shiftr x 29) 0x5555555555555555) in
  let z := Z.lxor z (Z.land (Z.shiftl z 17) 0x71D67FFFEDA60000) in
  let z := Z.lxor z (Z.land (Z.shiftl z 37) 0xFFF7EEE000000000) in
  Z.lxor z (Z.shiftr z 43).

(** [operator()]: a value and the generator after it. *)
Definition mt_gen (g : mt19937_64) : Z * mt19937_64 :=
  let st := mt_state g in
  let x := mt_twist (nth 0 st 0) (nth 1 st 0) (nth 156 st 0) in
  (mt_temper x, Mk_mt19937_64 (tail st ++ [x])).

(** The first [n] values. *)
Fixpoint mt_take (n : nat) (g : mt19937_64) : list Z * mt19937_64 :=
  match n with
  | O => ([], g)
  | S n => let '(x, g) := mt_gen g in let '(l, g) := mt_take n g in (x :: l, g)
  end.

(** The standard fixes the 10000th value of a default-seeded generator. *)
Example mt_conforms :
  (mt_gen (mt_take (Z.to_nat 9999) mt19937_64_new).2).1 = 9981545732273789042.
Proof. vm_compute. reflexivity. Qed.

(** ** Range *)

Definition mt_ok (g : mt19937_64) : Prop := Forall (λ x, 0 ≤ x < 2 ^ 64) (mt_state g).

(** Bit operations stay within 64 bits. *)
Definition word64 (x : Z) : Prop := 0 ≤ x < 2 ^ 64.

Lemma word64_bits x : word64 x ↔ 0 ≤ x ∧ ∀ i, 64 ≤ i → Z.testbit x i = false.
Proof.
  unfold word64. split.
  - intros [H0 H]. split; [done|]. intros i Hi. destruct (decide (x = 0)) as [->|]; [apply Z.bits_0|].
    apply Z.bits_above_log2; [done|]. apply Z.log2_lt_pow2 in H; lia.
  - intros [H0 H]. split; [done|]. destruct (decide (x < 2 ^ 64)) as [|Hge]; [done|].
    exfalso. assert (0 < x) as Hx by lia. assert (64 ≤ Z.log2 x) as Hl by (apply Z.log2_le_pow2; lia).
    specialize (H _ Hl). by rewrite Z.bit_log2 in H.
Qed.

Lemma word64_lxor x y : word64 x → word64 y → word64 (Z.lxor x y).
Proof.
  rewrite !word64_bits. intros [H1 H2] [H3 H4]. split; [by apply Z.lxor_nonneg|].
  intros i Hi. by rewrite Z.lxor_spec, H2, H4.
Qed.

Lemma word64_lor x y : word64 x → word64 y → word64 (Z.lor x y).
Proof.
  rewrite !word64_bits. intros [H1 H2] [H3 H4]. split; [by apply Z.lor_nonneg|].
  intros i Hi. by rewrite Z.lor_spec, H2, H4.
Qed.

Lemma word64_land x y : word64 y → word64 (Z.land x y).
Proof.
  rewrite !word64_bits. intros [H1 H2]. split; [apply Z.land_nonneg; by right|].
  intros i Hi. by rewrite Z.land_spec, H2, andb_false_r.
Qed.

Lemma word64_shiftr x n : 0 ≤ n → word64 x → word64 (Z.shiftr x n).
Proof.
  rewrite !word64_bits. intros Hn [H1 H2]. split; [by apply Z.shiftr_nonneg|].
  intros i Hi. rewrite Z.shiftr_spec by lia. apply H2. lia.
Qed.

Lemma mt_temper_ok x : word64 x → word64 (mt_temper x).
Proof.
  intros Hx. unfold mt_temper.
  repeat first [apply word64_lxor | apply word64_shiftr; [lia|] | apply word64_land | exact Hx | done].
Qed.

Lemma mt_twist_ok x0 x1 xm : word64 xm → word64 (mt_twist x0 x1 xm).
Proof.
  intros Hx. unfold mt_twist.
  apply word64_lxor; [|by destruct (Z.odd _)]. apply word64_lxor; [done|]. apply word64_shiftr; [lia|].
  by apply word64_lor; apply word64_land.
Qed.

(** Every value is a [uint64_t]. *)
Lemma mt_gen_ok g : mt_ok g → word64 (mt_gen g).1 ∧ mt_ok (mt_gen g).2.
Proof.
  unfold mt_ok. intros Hg. destruct g as [st]. unfold mt_gen. cbn [mt_state fst snd] in *.
  assert (word64 (nth 156 st 0)) as Hm.
  { destruct (decide (156 < length st)%nat) as [Hl|Hl]; [|rewrite nth_overflow by lia; done].
    rewrite list.Forall_forall in Hg. apply Hg. by apply list_elem_of_In, nth_In. }
  pose proof (mt_twist_ok (nth 0 st 0) (nth 1 st 0) _ Hm) as Ht. split; [by apply mt_temper_ok|].
  apply list.Forall_app. split; [|by repeat constructor; apply Ht]. destruct Hg; [constructor|done].
Qed.

Lemma mt_new_ok : mt_ok mt19937_64_new.
Proof. apply (bool_decide_unpack _). vm_compute. exact I. Qed.
