(* ===== verification/TraceFile.v ===== *)
(** * TraceFile: reading a transaction from a trace (src/src/common.cc)

    [operator>>(std::istream &, Transaction &)] and what it uses of
    [std::istream]: the remaining characters with the eof and fail bits, the
    sentry that skips white space, and the extraction of words and of unsigned
    numbers as libstdc++ implements it in the "C" locale.  An extraction whose
    sentry fails leaves its argument as it was. *)

From Stdlib Require Import Ascii.
From S2P Require Import Prelude Common.
Local Open Scope Z_scope.

(** ** The stream *)

Record istream : Type := MkStream { is_rest : list ascii; is_eof : bool; is_fail : bool }.

#[export] Instance istream_eta : RecordEta istream := λ s, MkStream (is_rest s) (is_eof s) (is_fail s).

Definition chars (s : string) : list ascii := String.list_ascii_of_string s.

Definition istream_open (text : list ascii) : istream := MkStream text false false.

Definition code (c : ascii) : Z := Z.of_N (Ascii.N_of_ascii c).

Definition is_space (c : ascii) : bool := (code c =? 32) || ((9 <=? code c) && (code c <=? 13)).

(** The longest prefix whose characters satisfy [p]. *)
Fixpoint span (p : ascii → bool) (l : list ascii) : list ascii * list ascii :=
  match l with
  | [] => ([], [])
  | c :: r => if p c then let '(w, rest) := span p r in (c :: w, rest) else ([], l)
  end.

Definition skip_ws (l : list ascii) : list ascii := (span is_space l).2.

(** The sentry of a formatted extraction. *)
Definition sentry (s : istream) : bool * istream :=
  if is_eof s || is_fail s then (false, s <| is_fail := true |>)
  else match skip_ws (is_rest s) with
       | [] => (false, MkStream [] true true)
       | l => (true, MkStream l false false)
       end.

(** The state after an extraction that stopped before [rest]. *)
Definition stopped (rest : list ascii) (fail : bool) : istream :=
  MkStream rest (match rest with [] => true | _ => false end) fail.

(** [is >> word] *)
Definition extract_word (word : list ascii) (s : istream) : list ascii * istream :=
  let '(ok, s) := sentry s in
  if (ok : bool) then
    let '(w, rest) := span (λ c, negb (is_space c)) (is_rest s) in (w, stopped rest false)
  else (word, s).

Definition digit_value (base : Z) (c : ascii) : option Z :=
  let k := code c in
  let d := if (48 <=? k) && (k <=? 57) then k - 48
           else if (97 <=? k) && (k <=? 102) then k - 87
           else if (65 <=? k) && (k <=? 70) then k - 55 else 16 in
  if d <? base then Some d else None.

Fixpoint span_digits (base : Z) (l : list ascii) : list Z * list ascii :=
  match l with
  | [] => ([], [])
  | c :: r =>
    match digit_value base c with
    | Some d => let '(ds, rest) := span_digits base r in (d :: ds, rest)
    | None => ([], l)
    end
  end.

Definition number (base : Z) (ds : list Z) : Z := foldl (λ n d, base * n + d) 0 ds.

(** An optional sign, and the prefix [0x] in base 16. *)
Definition drop_sign (l : list ascii) : bool * list ascii :=
  match l with
  | c :: r => if code c =? 45 then (true, r) else if code c =? 43 then (false, r) else (false, l)
  | [] => (false, l)
  end.

Definition drop_prefix (base : Z) (l : list ascii) : list ascii :=
  match l with
  | z :: x :: r => if (base =? 16) && (code z =? 48) && ((code x =? 120) || (code x =? 88)) then r else l
  | _ => l
  end.

(** [is >> std::hex >> value] and [is >> std::dec >> value] for a
    [uint64_t]: no digit gives 0 and a failure, too many the largest value
    and a failure; a minus sign negates modulo 2^64. *)
Definition extract_u64 (base value : Z) (s : istream) : Z * istream :=
  let '(ok, s) := sentry s in
  if (ok : bool) then
    let '(negative, l) := drop_sign (is_rest s) in
    let '(ds, rest) := span_digits base (drop_prefix base l) in
    let n := number base ds in
    if bool_decide (ds = []) then (0, stopped rest true)
    else if 2 ^ 64 <=? n then (2 ^ 64 - 1, stopped rest true)
    else (if (negative : bool) then u64 (- n) else n, stopped rest false)
  else (value, s).

(** ** Transactions *)

Definition write_types : list (list ascii) := chars <$> ["WRITE"; "write"; "P_MEM_WR"; "BOFF"]%string.

Definition read_transaction (trans : Transaction) (s : istream) : Transaction * istream :=
  let '(a, s) := extract_u64 16 (t_addr trans) s in
  let '(mem_op, s) := extract_word [] s in
  let '(cycle, s) := extract_u64 10 (added_cycle trans) s in
  (trans <| t_addr := a |> <| added_cycle := cycle |>
         <| is_write := bool_decide (mem_op ∈ write_types) |>, s).

(** ** The format of a trace *)

Definition digit_char (d : Z) : ascii := Ascii.ascii_of_N (Z.to_N (if d <? 10 then 48 + d else 87 + d)).

(** The digits of [n], before those of [ds]; one step of fuel each. *)
Fixpoint digits (fuel : nat) (base n : Z) (ds : list Z) : list Z :=
  match fuel with
  | O => ds
  | S fuel => let ds := (n mod base) :: ds in
              if n / base =? 0 then ds else digits fuel base (n / base) ds
  end.

Definition print_number (base n : Z) : list ascii := digit_char <$> digits 64 base n [].

(** A line [0x<addr> <op> <cycle>] of a trace. *)
Record Entry : Type := MkEntry { e_addr : Z; e_op : list ascii; e_cycle : Z }.

Definition newline : ascii := Ascii.ascii_of_N 10.
Definition blank : ascii := Ascii.ascii_of_N 32.

Definition print_entry (e : Entry) : list ascii :=
  chars "0x" ++ print_number 16 (e_addr e) ++ [blank] ++ e_op e ++ [blank] ++ print_number 10 (e_cycle e).

Definition print_trace (es : list Entry) : list ascii := concat ((λ e, print_entry e ++ [newline]) <$> es).

Definition entry_ok (e : Entry) : Prop :=
  0 ≤ e_addr e < 2 ^ 64 ∧ 0 ≤ e_cycle e < 2 ^ 64 ∧ e_op e ≠ [] ∧
  Forall (λ c, is_space c = false) (e_op e).

Definition entry_write (e : Entry) : bool := bool_decide (e_op e ∈ write_types).

Lemma digit_value_char base d : 0 ≤ d < base → base ≤ 16 → digit_value base (digit_char d) = Some d.
Proof.
  intros Hd Hb.
  assert (d = 0 ∨ d = 1 ∨ d = 2 ∨ d = 3 ∨ d = 4 ∨ d = 5 ∨ d = 6 ∨ d = 7 ∨ d = 8 ∨ d = 9 ∨ d = 10 ∨
    d = 11 ∨ d = 12 ∨ d = 13 ∨ d = 14 ∨ d = 15) as H by lia.
  assert (∀ x, digit_value 16 (digit_char d) = Some x → (x <? base) = true →
    digit_value base (digit_char d) = Some x) as Hany.
  { unfold digit_value. cbv zeta. intros x. destruct (_ <? 16); [|done].
    intros [= <-] Hx. by rewrite Hx. }
  apply Hany; [|apply Z.ltb_lt; lia].
  by repeat (destruct H as [H|H]; [by subst d|]); subst d.
Qed.

(** Digits end at a character that is none. *)
Lemma span_digits_chars base ds rest :
  Forall (λ d, 0 ≤ d < base) ds → base ≤ 16 →
  match rest with c :: _ => digit_value base c = None | [] => True end →
  span_digits base ((digit_char <$> ds) ++ rest) = (ds, rest).
Proof.
  intros Hds Hb Hrest. induction Hds as [|d ds Hd _ IH].
  - destruct rest as [|c r]; [done|]. simpl. by rewrite Hrest.
  - rewrite fmap_cons. cbn [app span_digits]. by rewrite digit_value_char, IH.
Qed.

Lemma span_digits_nonneg base l ds rest : span_digits base l = (ds, rest) → Forall (λ d, 0 ≤ d) ds.
Proof.
  revert ds; induction l as [|c l IH]; intros ds; simpl; [by intros [= <- _]|].
  destruct (digit_value base c) as [d|] eqn:Ed; [|by intros [= <- _]].
  destruct (span_digits base l) as [ds' rest']. intros [= <- <-]. constructor; [|by apply IH].
  unfold digit_value in Ed. repeat case_match; simplify_eq; rewrite ?andb_true_iff, ?Z.leb_le in *; lia.
Qed.

Lemma digits_range base n fuel ds :
  0 < base → Forall (λ d, 0 ≤ d < base) ds → Forall (λ d, 0 ≤ d < base) (digits fuel base n ds).
Proof.
  intros Hb. revert n ds; induction fuel as [|fuel IH]; intros n ds Hds; simpl; [done|].
  pose proof (Z.mod_pos_bound n base Hb). case_match; [by constructor|]. apply IH. by constructor.
Qed.

Lemma digits_ne fuel base n ds : digits (S fuel) base n ds ≠ [].
Proof.
  assert (∀ k m l, l ≠ [] → digits k base m l ≠ []) as H.
  { induction k as [|k IH]; intros m l Hl; simpl; [done|]. case_match; [done|]. by apply IH. }
  simpl. case_match; [done|]. by apply H.
Qed.

Lemma number_digits base n fuel ds :
  1 < base → 0 ≤ n < base ^ Z.of_nat fuel →
  foldl (λ m d, base * m + d) 0 (digits fuel base n ds) = foldl (λ m d, base * m + d) n ds.
Proof.
  intros Hb. revert n ds; induction fuel as [|fuel IH]; intros n ds Hn; simpl.
  - replace n with 0 by (simpl in Hn; lia). done.
  - rewrite Nat2Z.inj_succ, Z.pow_succ_r in Hn by lia.
    pose proof (Z.div_mod n base ltac:(lia)) as E. case_match eqn:Hz.
    + apply Z.eqb_eq in Hz. simpl. f_equal. lia.
    + rewrite IH; [simpl; f_equal; lia|]. split; [apply Z.div_pos; lia|]. apply Z.div_lt_upper_bound; lia.
Qed.

Lemma digit_char_code d : 0 ≤ d < 16 → 48 ≤ code (digit_char d).
Proof.
  intros Hd. assert (d ∈ seqZ 0 16) as H by (apply elem_of_seqZ; lia).
  clear Hd. revert d H. apply (proj1 (list.Forall_forall (λ d, 48 ≤ code (digit_char d)) (seqZ 0 16))).
  by repeat constructor.
Qed.

(** A character that starts a number: neither white space nor a sign. *)
Lemma digit_starts c l : 48 ≤ code c → skip_ws (c :: l) = c :: l ∧ drop_sign (c :: l) = (false, c :: l).
Proof.
  intros Hc. split.
  - unfold skip_ws. simpl. unfold is_space.
    destruct (Z.eqb_spec (code c) 32); [lia|]. destruct (Z.leb_spec (code c) 13); [lia|]. by rewrite andb_false_r.
  - simpl. destruct (Z.eqb_spec (code c) 45); [lia|]. by destruct (Z.eqb_spec (code c) 43); [lia|].
Qed.

Lemma skip_ws_cons c l : is_space c = true → skip_ws (c :: l) = skip_ws l.
Proof. intros Hc. unfold skip_ws. simpl. rewrite Hc. by destruct (span is_space l). Qed.

Lemma skip_ws_spaces pre c l :
  Forall (λ c, is_space c = true) pre → is_space c = false → skip_ws (pre ++ c :: l) = c :: l.
Proof.
  intros Hpre Hc. induction Hpre as [|x pre Hx _ IH].
  - unfold skip_ws. simpl. by rewrite Hc.
  - cbn [app]. by rewrite skip_ws_cons.
Qed.

Lemma print_number_range base n : 0 < base → Forall (λ d, 0 ≤ d < base) (digits 64 base n []).
Proof. intros Hb. by apply digits_range. Qed.

Lemma print_number_starts base n :
  0 < base ≤ 16 → ∃ c l, print_number base n = c :: l ∧ 48 ≤ code c.
Proof.
  intros Hb. pose proof (print_number_range base n ltac:(lia)) as Hr.
  unfold print_number. destruct (digits 64 base n []) as [|d ds] eqn:E; [by apply digits_ne in E|].
  exists (digit_char d), (digit_char <$> ds). split; [done|]. apply list.Forall_cons in Hr as [Hd _].
  apply digit_char_code. lia.
Qed.

(** A printed number is read back, up to the character that follows it. *)
Lemma extract_number base n value l rest :
  1 < base ≤ 16 → 0 ≤ n < 2 ^ 64 → skip_ws l ≠ [] → drop_sign (skip_ws l) = (false, skip_ws l) →
  drop_prefix base (skip_ws l) = print_number base n ++ rest →
  match rest with c :: _ => digit_value base c = None | [] => True end →
  extract_u64 base value (MkStream l false false) = (n, stopped rest false).
Proof.
  intros Hb Hn Hne Hsign Hpre Hrest. unfold extract_u64, sentry. cbn [is_eof is_fail is_rest orb].
  destruct (skip_ws l) as [|c0 l0] eqn:El; [done|]. cbn [is_rest]. rewrite Hsign, Hpre. unfold print_number.
  rewrite span_digits_chars; [|apply print_number_range; lia|lia|done].
  rewrite bool_decide_false by apply digits_ne. unfold number. rewrite number_digits; [|lia|]; simpl.
  - rewrite (proj2 (Z.leb_gt _ _)) by lia. done.
  - change 64%positive with (Z.to_pos 64). assert (2 ^ 64 ≤ base ^ 64) by (apply Z.pow_le_mono_l; lia). lia.
Qed.

Lemma span_word w rest :
  Forall (λ c, is_space c = false) w → match rest with c :: _ => is_space c = true | [] => True end →
  span (λ c, negb (is_space c)) (w ++ rest) = (w, rest).
Proof.
  intros Hw Hr. induction Hw as [|c w Hc _ IH]; simpl.
  - destruct rest as [|c r]; [done|]. simpl. by rewrite Hr.
  - by rewrite Hc, IH.
Qed.

(** A word after a blank. *)
Lemma extract_word_after w word rest :
  w ≠ [] → Forall (λ c, is_space c = false) w → match rest with c :: _ => is_space c = true | [] => True end →
  extract_word word (MkStream (blank :: w ++ rest) false false) = (w, stopped rest false).
Proof.
  intros Hne Hw Hr. unfold extract_word, sentry. cbn [is_eof is_fail is_rest orb].
  destruct w as [|c w]; [done|]. apply list.Forall_cons in Hw as Hc. destruct Hc as [Hc _].
  change (blank :: (c :: w) ++ rest) with ([blank] ++ c :: (w ++ rest)).
  rewrite skip_ws_spaces by (done || by repeat constructor). cbn [is_rest].
  change (c :: w ++ rest) with ((c :: w) ++ rest). by rewrite span_word.
Qed.

(** What a line leaves in a transaction. *)
Definition entry_trans (trans : Transaction) (e : Entry) : Transaction :=
  trans <| t_addr := e_addr e |> <| added_cycle := e_cycle e |> <| is_write := entry_write e |>.

(** A line of three fields whose address starts at the characters [l]. *)
Lemma read_fields trans e l rest :
  entry_ok e → skip_ws l ≠ [] → drop_sign (skip_ws l) = (false, skip_ws l) →
  drop_prefix 16 (skip_ws l) =
    print_number 16 (e_addr e) ++ blank :: e_op e ++ blank :: print_number 10 (e_cycle e) ++ rest →
  match rest with c :: _ => digit_value 10 c = None | [] => True end →
  read_transaction trans (MkStream l false false) = (entry_trans trans e, stopped rest false).
Proof.
  intros (Ha & Hc & Hne & Hop) Hl Hsign Hpre Hrest. unfold read_transaction.
  rewrite (extract_number 16 (e_addr e) _ _ _ ltac:(lia) Ha Hl Hsign Hpre) by done.
  unfold stopped at 1. rewrite extract_word_after by done. unfold stopped at 1.
  destruct (print_number_starts 10 (e_cycle e)) as (c & l' & E & Hcode); [lia|].
  destruct (digit_starts c (l' ++ rest) Hcode) as [Hskip Hsg].
  assert (skip_ws (blank :: print_number 10 (e_cycle e) ++ rest) = print_number 10 (e_cycle e) ++ rest) as Hs.
  { rewrite skip_ws_cons, E by done. exact Hskip. }
  rewrite (extract_number 10 (e_cycle e) _ _ rest); rewrite ?Hs; try done; try lia.
  - by rewrite E.
  - rewrite E. exact Hsg.
  - by destruct (print_number 10 (e_cycle e) ++ rest) as [|? [|? ?]].
Qed.

Lemma read_entry trans e pre rest :
  entry_ok e → Forall (λ c, is_space c = true) pre →
  match rest with c :: _ => digit_value 10 c = None | [] => True end →
  read_transaction trans (MkStream (pre ++ print_entry e ++ rest) false false) =
    (entry_trans trans e, stopped rest false).
Proof.
  intros He Hpre Hrest.
  assert (pre ++ print_entry e ++ rest = pre ++ digit_char 0 :: Ascii.ascii_of_N 120
    :: (print_number 16 (e_addr e) ++ blank :: e_op e ++ blank :: print_number 10 (e_cycle e) ++ rest)) as ->.
  { unfold print_entry. rewrite <- !app_assoc. done. }
  apply read_fields; try done; by rewrite skip_ws_spaces.
Qed.

(** The end of the file: nothing is read, and the operation is lost. *)
Lemma read_at_end trans pre :
  Forall (λ c, is_space c = true) pre →
  read_transaction trans (MkStream pre false false) =
    (trans <| is_write := false |>, MkStream [] true true).
Proof.
  intros Hpre. assert (skip_ws pre = []) as Hskip.
  { induction Hpre as [|c pre Hc _ IH]; [done|]. by rewrite skip_ws_cons. }
  unfold read_transaction, extract_u64, extract_word, sentry. cbn [is_eof is_fail is_rest orb].
  rewrite Hskip. by destruct trans.
Qed.

(** Whatever the characters, what is read is an address. *)
Lemma extract_u64_nonneg base value s : 0 ≤ value → 1 < base → 0 ≤ (extract_u64 base value s).1.
Proof.
  intros Hv Hb. unfold extract_u64. destruct (sentry s) as [[] s']; [|done].
  destruct (drop_sign (is_rest s')) as [negative l].
  destruct (span_digits base (drop_prefix base l)) as [ds rest] eqn:E.
  assert (0 ≤ number base ds) as Hn.
  { unfold number. assert (Forall (λ d, 0 ≤ d) ds) as Hds by by eapply span_digits_nonneg.
    assert (∀ n, 0 ≤ n → 0 ≤ foldl (λ n d, base * n + d) n ds) as Hall; [|by apply Hall].
    clear E. induction Hds as [|d ds Hd _ IH]; intros n Hn; simpl; [done|]. apply IH. nia. }
  repeat case_match; simpl; try lia. apply u64_range.
Qed.

Lemma read_transaction_addr trans s : 0 ≤ t_addr trans → 0 ≤ t_addr (read_transaction trans s).1.
Proof.
  intros Ha. unfold read_transaction. pose proof (extract_u64_nonneg 16 (t_addr trans) s Ha ltac:(lia)) as H.
  destruct (extract_u64 16 _ s) as [a s1]. destruct (extract_word [] s1) as [w s2].
  by destruct (extract_u64 10 _ s2) as [cyc s3].
Qed.

(** A whole trace: the transactions that repeated reads of a stream give, and
    the stream after them. *)
Fixpoint read_all (n : nat) (trans : Transaction) (s : istream) : list Transaction * istream :=
  match n with
  | O => ([], s)
  | S n => let '(t, s) := read_transaction trans s in
           let '(l, s) := read_all n t s in (t :: l, s)
  end.

(** A trace is read as it was written.  For every list of entries, with
    any 64-bit addresses and cycles and any words without white space as
    operations, reading the text of the trace gives each entry's address,
    cycle and direction, in order, and stops before the last newline with no
    error and the end not yet noticed. *)
Theorem trace_read_back (es : list Entry) (trans : Transaction) :
  Forall entry_ok es →
  let '(l, s) := read_all (length es) trans (istream_open (print_trace es)) in
  (λ t, (t_addr t, is_write t, added_cycle t)) <$> l = (λ e, (e_addr e, entry_write e, e_cycle e)) <$> es ∧
  is_eof s = false ∧ is_fail s = false.
Proof.
  intros Hes. unfold istream_open. change (print_trace es) with ([] ++ print_trace es).
  assert (Forall (λ c, is_space c = true) []) as Hpre by constructor.
  revert Hpre. generalize (@nil ascii). revert trans.
  induction Hes as [|e es He _ IH]; intros trans pre Hpre; [done|].
  cbn [length read_all]. unfold print_trace. rewrite fmap_cons. cbn [concat]. rewrite <- app_assoc.
  cbn [app]. rewrite read_entry by (done || by constructor). cbn [app stopped].
  specialize (IH (entry_trans trans e) [newline] ltac:(by repeat constructor)).
  unfold stopped. change (newline :: concat _) with ([newline] ++ print_trace es).
  destruct (read_all _ _ _) as [l s]. destruct IH as (H1 & H2 & H3). split; [|done].
  rewrite !fmap_cons, H1. done.
Qed.

Definition sample_entries : list Entry :=
  [MkEntry 0x40 (chars "READ") 0; MkEntry 0x7fffffffffffffc0 (chars "WRITE") 12; MkEntry 0 (chars "BOFF") 345].

Lemma trace_read_back_witness :
  Forall entry_ok sample_entries ∧
  let '(l, s) := read_all 3 (Transaction_new 0 false) (istream_open (print_trace sample_entries)) in
  (λ t, (t_addr t, is_write t, added_cycle t)) <$> l = [(0x40, false, 0); (0x7fffffffffffffc0, true, 12); (0, true, 345)] ∧
  is_eof s = false ∧ is_fail s = false.
Proof.
  assert (Forall entry_ok sample_entries) as Hes.
  { repeat constructor; simpl; try lia; try done. }
  split; [exact Hes|]. exact (trace_read_back sample_entries (Transaction_new 0 false) Hes).
Defined.
