(* ===== verification/TraceText.v ===== *)
(** * TraceText: the text of commands, transactions and traces (src/src/common.cc)

    The output operators of commands and transactions, and the lines of the
    command trace (controller.cc, with CMD_TRACE) and of the address trace
    (dram_system.cc, with ADDR_TRACE).  The formatting library fmt is
    third-party: its format specifications are the operations of the class
    [Fmt], and [FmtLaws] states what its documentation says of them. *)

From Stdlib Require Import Ascii.
From S2P Require Import Prelude Common TraceFile.
Local Open Scope Z_scope.

(** ** Numbers as text *)

Definition decimal (n : Z) : string := String.string_of_list_ascii (print_number 10 n).

(** A number with its sign; a number in the alternate form of base 16. *)
Definition signed (n : Z) : string := if decide (n < 0) then ("-" +:+ decimal (- n))%string else decimal n.

Definition hexadecimal (n : Z) : string :=
  let digits n := String.string_of_list_ascii (print_number 16 n) in
  (if decide (n < 0) then "-0x" +:+ digits (- n) else "0x" +:+ digits n)%string.

Fixpoint spaces (n : nat) : string :=
  match n with O => ""%string | S n => String " " (spaces n) end.

Definition padding (width : nat) (s : string) : string := spaces (width - String.length s).

(** ** What is used of the library fmt *)

Class Fmt : Type := {
  fmt_left : nat → string → string;    (* {:<n} of a text *)
  fmt_right : nat → string → string;   (* {:>n} of a text *)
  fmt_ileft : nat → Z → string;        (* {:<n} of an integer *)
  fmt_iright : nat → Z → string;       (* {:>n} of an integer *)
  fmt_ihex : nat → Z → string }.       (* {:>#nx} of an integer *)

(** A field is padded with blanks to its width, and never cut. *)
Class FmtLaws (F : Fmt) : Prop := {
  fmt_left_doc : ∀ n s, fmt_left n s = (s +:+ padding n s)%string;
  fmt_right_doc : ∀ n s, fmt_right n s = (padding n s +:+ s)%string;
  fmt_ileft_doc : ∀ n k, fmt_ileft n k = (signed k +:+ padding n (signed k))%string;
  fmt_iright_doc : ∀ n k, fmt_iright n k = (padding n (signed k) +:+ signed k)%string;
  fmt_ihex_doc : ∀ n k, fmt_ihex n k = (padding n (hexadecimal k) +:+ hexadecimal k)%string }.

(** ** The output operators *)

Definition command_string : list string :=
  ["read"; "read_p"; "write"; "write_p"; "activate"; "precharge"; "refresh_bank"; "refresh";
   "self_refresh_enter"; "self_refresh_exit"; "WRONG"]%string.

(** [static_cast<int>(cmd_type)] *)
Definition type_index (ty : CommandType) : Z :=
  match ty with
  | READ => 0 | READ_PRECHARGE => 1 | WRITE => 2 | WRITE_PRECHARGE => 3 | ACTIVATE => 4
  | PRECHARGE => 5 | REFRESH_BANK => 6 | REFRESH => 7 | SREF_ENTER => 8 | SREF_EXIT => 9 | SIZE => 10
  end.

Definition type_name (ty : CommandType) : string :=
  default ""%string (vlookup command_string (type_index ty)).

Section text.
Context {F : Fmt}.

Definition print_command (cmd : Command) : string :=
  (fmt_left 20 (type_name (cmd_type cmd)) +:+ " " +:+ fmt_iright 3 (Channel cmd)
   +:+ " " +:+ fmt_iright 3 (Rank cmd) +:+ " " +:+ fmt_iright 3 (Bankgroup cmd)
   +:+ " " +:+ fmt_iright 3 (Bank cmd) +:+ " " +:+ fmt_ihex 8 (Row cmd)
   +:+ " " +:+ fmt_ihex 8 (Column cmd))%string.

Definition print_transaction (trans : Transaction) : string :=
  let trans_type := if is_write trans then "WRITE"%string else "READ"%string in
  (fmt_ileft 30 (t_addr trans) +:+ " " +:+ fmt_right 8 trans_type)%string.

(** [std::left << std::setw(18) << clk_] *)
Definition setw_left (width : nat) (s : string) : string := (s +:+ padding width s)%string.

(** A line of the command trace. *)
Definition trace_line (e : Z * Command) : string :=
  (setw_left 18 (decimal e.1) +:+ " " +:+ print_command e.2)%string.
End text.

(** A line of the address trace, with the newline of [std::endl]. *)
Definition address_line (e : Z * bool * Z) : list ascii :=
  let '(hex_addr, is_write, clk) := e in
  print_number 16 hex_addr ++ [blank] ++ chars (if is_write then "WRITE " else "READ ")
  ++ print_number 10 clk ++ [newline].

(** ** Numbers are read back *)

Lemma chars_string (l : list ascii) : chars (String.string_of_list_ascii l) = l.
Proof. apply String.list_ascii_of_string_of_list_ascii. Qed.

(** The number that [stoi] and [stoull] read from its print. *)
Lemma read_number n :
  0 ≤ n < 2 ^ 64 →
  drop_sign (skip_ws (print_number 10 n)) = (false, print_number 10 n) ∧
  (span_digits 10 (print_number 10 n)).1 ≠ [] ∧
  number 10 (span_digits 10 (print_number 10 n)).1 = n.
Proof.
  intros Hn. destruct (print_number_starts 10 n ltac:(lia)) as (c & l & E & Hc).
  destruct (digit_starts c l Hc) as [H1 H2]. rewrite <- E in H1, H2. split; [by rewrite H1|].
  unfold print_number at 1 2. rewrite <- (app_nil_r (digit_char <$> _)).
  rewrite span_digits_chars by (done || apply print_number_range; lia). cbn [fst].
  split; [apply digits_ne|]. unfold number. rewrite number_digits; [done|lia|].
  assert (2 ^ 64 ≤ 10 ^ 64) by (by apply (Z.pow_le_mono_l 2 10 64)). lia.
Qed.

(** ** Splitting a line *)

Lemma append_nil_r s : (s +:+ "")%string = s.
Proof. induction s as [|c s IH]; [done|]. change (String c (s +:+ "") = String c s). by rewrite IH. Qed.

Lemma append_assoc s1 s2 s3 : ((s1 +:+ s2) +:+ s3)%string = (s1 +:+ (s2 +:+ s3))%string.
Proof.
  induction s1 as [|c s1 IH]; [done|].
  change (String c ((s1 +:+ s2) +:+ s3) = String c (s1 +:+ (s2 +:+ s3))). by rewrite IH.
Qed.

(** Items without the delimiter, joined by it, are split again. *)
Definition item_ok (delim : ascii) (s : string) : Prop := s ≠ ""%string ∧ delim ∉ chars s.

Lemma StringSplit_item s delim item rest :
  delim ∉ chars s →
  StringSplit_loop (s +:+ String delim rest) delim item
  = keep_item (item +:+ s) ++ StringSplit_loop rest delim "".
Proof.
  revert item; induction s as [|c s IH]; intros item Hs; simpl.
  - rewrite decide_True by done. by rewrite append_nil_r.
  - apply not_elem_of_cons in Hs as [Hc Hs]. rewrite decide_False by congruence.
    rewrite IH by done. by rewrite append_assoc.
Qed.

Lemma StringSplit_last s delim item :
  delim ∉ chars s → StringSplit_loop s delim item = keep_item (item +:+ s).
Proof.
  revert item; induction s as [|c s IH]; intros item Hs; simpl.
  - by rewrite append_nil_r.
  - apply not_elem_of_cons in Hs as [Hc Hs]. rewrite decide_False by congruence.
    rewrite IH by done. by rewrite append_assoc.
Qed.

Fixpoint join (delim : ascii) (s : string) (ss : list string) : string :=
  match ss with
  | [] => s
  | s' :: ss' => s +:+ String delim (join delim s' ss')
  end.

Lemma StringSplit_join delim s ss :
  Forall (item_ok delim) (s :: ss) → StringSplit (join delim s ss) delim = s :: ss.
Proof.
  unfold StringSplit. revert s; induction ss as [|s' ss IH]; intros s Hall;
    apply list.Forall_cons in Hall as [[Hne Hd] Hss]; cbn [join].
  - rewrite StringSplit_last by done. simpl. unfold keep_item. by rewrite decide_False.
  - rewrite StringSplit_item by done. rewrite IH by done. simpl. unfold keep_item.
    by rewrite decide_False.
Qed.

Lemma decimal_item n : item_ok " "%char (decimal n).
Proof.
  unfold item_ok, decimal. split.
  - destruct (print_number_starts 10 n ltac:(lia)) as (c & l & -> & _). done.
  - rewrite chars_string. unfold print_number. intros (d & Hd & Hin)%list_elem_of_fmap.
    pose proof (print_number_range 10 n ltac:(lia)) as Hr. rewrite list.Forall_forall in Hr.
    specialize (Hr d Hin). pose proof (digit_char_code d ltac:(lia)) as Hc. rewrite <- Hd in Hc.
    vm_compute in Hc. done.
Qed.

