(* ===== verification/AddressTrace.v ===== *)
(** * AddressTrace: the address trace of a memory system

    With ADDR_TRACE a [JedecDRAMSystem] writes a line for every request that
    it is given, accepted or not (src/src/dram_system.cc).  The file has the
    format that the trace client reads (src/src/common.cc, cpu.cc), so a run
    can be repeated from it. *)

From Stdlib Require Import Ascii.
From S2P Require Import Refresh CommandQueue.
From S2P Require Import Prelude Common Configuration Timing BankState ChannelState ChannelSafety.
From S2P Require Import SimpleStats Controller ControllerSafety ControllerRuns ControllerTrace.
From S2P Require Import DramSystem DramSystemSafety SystemTrace TraceFile TraceText.
Local Open Scope Z_scope.

(** ** What an operation writes *)

Lemma drain_addresses fuel i s s' : drain fuel i s = Ok s' → address_trace_ s' = address_trace_ s.
Proof.
  revert s; induction fuel as [|fuel IH]; intros s; [done|]. cbn [drain]. intros H.
  apply bind_Ok_inv in H as (t & Ht & H). destruct (ReturnDoneTrans (clk_ s) t) as [p t1].
  apply bind_Ok_inv in H as (v & Hv & H).
  repeat case_decide; try (apply IH in H; rewrite H); by simplify_res.
Qed.

Lemma loop_addresses n f s s' :
  (∀ i s1 s2, f i s1 = Ok s2 → address_trace_ s2 = address_trace_ s1) →
  for_upto n f s = Ok s' → address_trace_ s' = address_trace_ s.
Proof.
  intros Hf. unfold for_upto.
  apply (foldM_preserves _ (λ s1, address_trace_ s1 = address_trace_ s)); [|done].
  intros i s1 s2 _ E H%Hf. congruence.
Qed.

Lemma for_ctrls_addresses f s s' : for_ctrls f s = Ok s' → address_trace_ s' = address_trace_ s.
Proof. apply loop_addresses. intros i s1 s2 H. by apply bind_Ok_inv in H as (v & _ & [= <-]). Qed.

Lemma ClockTick_addresses c s s' : ClockTick c s = Ok s' → address_trace_ s' = address_trace_ s.
Proof.
  unfold ClockTick. intros H. apply bind_Ok_inv in H as (s2 & H2 & H).
  apply bind_Ok_inv in H as (s3 & H3 & H).
  apply loop_addresses in H2; [|by intros i s4 s5 (t & _ & Hd%drain_addresses)%bind_Ok_inv].
  apply loop_addresses in H3.
  2:{ intros i s4 s5 H4. unfold tick_channel in H4. apply bind_Ok_inv in H4 as (t & _ & H4).
      apply bind_Ok_inv in H4 as (t1 & _ & H4). apply bind_Ok_inv in H4 as (v & _ & H4).
      simplify_res. by destruct (is_active_cycles t1). }
  case_decide; [done|]. etransitivity; [|etransitivity; [exact H3|exact H2]].
  case_decide; [by apply for_ctrls_addresses in H|by simplify_res].
Qed.

Lemma do_op_addresses c o s acc s' acc' :
  do_op c o (s, acc) = Ok (s', acc') →
  match o with
  | op_add a wr => address_trace_ s' = address_trace_ s ++ [(a, wr, clk_ s)] ∧
                   (acc' = acc ∨ acc' = (a, wr) :: acc)
  | _ => address_trace_ s' = address_trace_ s ∧ acc' = acc
  end.
Proof.
  intros H. destruct o as [a wr| |r w| | |]; unfold do_op in H.
  - apply bind_Ok_inv in H as ([ok s1] & H & E). simplify_res. split; [|destruct ok; auto].
    unfold AddTransaction in H. cbv zeta in H. apply bind_Ok_inv in H as (b & _ & H).
    apply bind_Ok_inv in H as (s2 & H2 & H). simplify_res.
    destruct ok; [|by simplify_res]. apply bind_Ok_inv in H2 as (v & _ & H2). by simplify_res.
  - apply bind_Ok_inv in H as (s1 & H%ClockTick_addresses & E). by simplify_res.
  - by simplify_res.
  - by simplify_res.
  - apply bind_Ok_inv in H as (s1 & H%for_ctrls_addresses & E). by simplify_res.
  - apply bind_Ok_inv in H as (s1 & H%for_ctrls_addresses & E). by simplify_res.
Qed.

(** ** The trace of a run *)

(** The clocks of a list of lines do not run backwards and are at most [n]. *)
Definition in_order (n : Z) (l : list (Z * bool * Z)) : Prop :=
  (∀ j k x y, (j ≤ k)%nat → l !! j = Some x → l !! k = Some y → x.2 ≤ y.2) ∧
  Forall (λ e, 0 ≤ e.1.1 ∧ 0 ≤ e.2 ≤ n) l.

Lemma in_order_mono n m l : in_order n l → n ≤ m → in_order m l.
Proof. intros [H1 H2] Hm. split; [done|]. eapply list.Forall_impl; [exact H2|]. simpl. lia. Qed.

Lemma in_order_snoc n l a wr :
  0 ≤ a → 0 ≤ n → in_order n l → in_order n (l ++ [(a, wr, n)]).
Proof.
  intros Ha Hn [H1 H2]. split; [|apply list.Forall_app; split; [done|]; by constructor; [simpl; lia|]].
  intros j k x y Hjk [Hj|[Hgj Hj]]%lookup_app_Some [Hk|[Hgk Hk]]%lookup_app_Some.
  - by eapply H1.
  - apply list_lookup_singleton_Some in Hk as [_ <-]. rewrite list.Forall_forall in H2.
    apply list_elem_of_lookup_2 in Hj. pose proof (H2 _ Hj). simpl in *. lia.
  - apply lookup_lt_Some in Hk. lia.
  - apply list_lookup_singleton_Some in Hj as [_ <-], Hk as [_ <-]. done.
Qed.

(** What is written in a run: every accepted request, in order, and only
    requests. *)
Lemma sys_run_addresses c n s acc :
  SafeSystem c → sys_run c n s acc → n < two64 →
  in_order n (address_trace_ s) ∧ rev acc `sublist_of` (address_trace_ s).*1.
Proof.
  intros Sys Hrun. induction Hrun as [rcb wcb s Hn|o n s acc s' acc' Hs IH Ho Hrun]; intros Hlt.
  - assert (address_trace_ s = []) as ->; [|split; [by split; [intros ? ? ? ? ? [=]|]|done]].
    unfold JedecDRAMSystem_new in Hn. destruct (IsHMC c); [done|].
    apply bind_Ok_inv in Hn as ([] & _ & Hn). apply loop_addresses in Hn; [done|].
    intros i s1 s2 H. apply bind_Ok_inv in H as (t & _ & H). by simplify_res.
  - pose proof (proj1 (sys_run_reachable _ _ _ _ Hs)) as Hn0. pose proof (ticks_range o).
    destruct (IH ltac:(lia)) as [IH1 IH2]. pose proof (do_op_addresses _ _ _ _ _ _ Hrun) as Ha.
    pose proof (sys_run_clk c n s acc Sys Hs ltac:(lia)) as Hclk.
    destruct o as [a wr| |r w| | |]; destruct Ha as [-> Hacc];
      [|subst acc'; split; [apply (in_order_mono n); [done|lia]|done]..].
    rewrite Hclk. unfold ticks. simpl. rewrite Z.add_0_r. split; [by apply in_order_snoc|].
    rewrite fmap_app. simpl. destruct Hacc as [->| ->].
    + by apply sublist_inserts_r.
    + simpl. by apply sublist_app.
Qed.

(** ** The text of the trace *)

Definition line_entry (e : Z * bool * Z) : Entry :=
  let '(a, wr, clk) := e in MkEntry a (chars (if wr then "WRITE" else "READ")) clk.

(** The file of a run. *)
Definition address_file (s : BaseDRAMSystem) : list ascii := concat (address_line <$> address_trace_ s).

Lemma digit_char_not_x d : 0 ≤ d < 16 → (code (digit_char d) =? 120) || (code (digit_char d) =? 88) = false.
Proof.
  intros Hd. assert (d ∈ seqZ 0 16) as H by (apply elem_of_seqZ; lia). clear Hd. revert d H.
  apply (proj1 (list.Forall_forall
    (λ d, (code (digit_char d) =? 120) || (code (digit_char d) =? 88) = false) (seqZ 0 16))).
  by repeat constructor.
Qed.

(** A printed number has no prefix [0x]. *)
Lemma drop_prefix_number n rest :
  drop_prefix 16 (print_number 16 n ++ blank :: rest) = print_number 16 n ++ blank :: rest.
Proof.
  pose proof (print_number_range 16 n ltac:(lia)) as Hr. unfold print_number.
  destruct (digits 64 16 n []) as [|d ds] eqn:E; [by apply digits_ne in E|].
  rewrite fmap_cons. cbn [app]. unfold drop_prefix. apply list.Forall_cons in Hr as [_ Hr].
  destruct ds as [|d' ds].
  - cbn [fmap list_fmap app]. by rewrite !andb_false_r.
  - rewrite fmap_cons. cbn [app]. apply list.Forall_cons in Hr as [Hd' _].
    by rewrite digit_char_not_x, andb_false_r by lia.
Qed.

Lemma read_address_line trans e pre rest :
  0 ≤ e.1.1 < 2 ^ 64 → 0 ≤ e.2 < 2 ^ 64 → Forall (λ c, is_space c = true) pre →
  read_transaction trans (MkStream (pre ++ address_line e ++ rest) false false) =
    (entry_trans trans (line_entry e), stopped (newline :: rest) false).
Proof.
  destruct e as [[a wr] clk]. cbn [fst snd]. intros Ha Hclk Hpre.
  set (body := print_number 16 a ++ blank :: (e_op (line_entry (a, wr, clk)) ++
    blank :: (print_number 10 clk ++ newline :: rest))).
  assert (pre ++ address_line (a, wr, clk) ++ rest = pre ++ body) as ->.
  { unfold address_line, body, line_entry. rewrite <- !app_assoc. by destruct wr. }
  assert (skip_ws (pre ++ body) = body ∧ drop_sign body = (false, body)) as [Hs Hd].
  { destruct (print_number_starts 16 a ltac:(lia)) as (x & l & E & Hx).
    unfold body. rewrite E. cbn [app]. rewrite skip_ws_spaces; [|done|].
    - split; [done|]. by apply digit_starts.
    - destruct (digit_starts x [] Hx) as [Hw _]. unfold skip_ws in Hw. simpl in Hw.
      by destruct (is_space x). }
  apply read_fields; rewrite ?Hs; try done.
  - split; [done|]. split; [done|]. split; [by destruct wr|]. destruct wr; by repeat constructor.
  - unfold body. by destruct (print_number_starts 16 a ltac:(lia)) as (x & l & -> & _).
  - apply drop_prefix_number.
Qed.

Lemma read_address_lines es trans pre :
  Forall (λ c, is_space c = true) pre → Forall (λ e, 0 ≤ e.1.1 < 2 ^ 64 ∧ 0 ≤ e.2 < 2 ^ 64) es →
  let '(l, s) := read_all (length es) trans (MkStream (pre ++ concat (address_line <$> es)) false false) in
  (λ t, (t_addr t, is_write t, added_cycle t)) <$> l = es ∧ is_eof s = false ∧ is_fail s = false.
Proof.
  intros Hpre Hes. revert trans pre Hpre. induction Hes as [|e es [Ha Hc] _ IH]; intros trans pre Hpre; [done|].
  rewrite fmap_cons. cbn [length read_all concat]. rewrite read_address_line by done.
  specialize (IH (entry_trans trans (line_entry e)) [newline] ltac:(by repeat constructor)).
  unfold stopped. change (newline :: concat _) with ([newline] ++ concat (address_line <$> es)).
  destruct (read_all _ _ _) as [l s]. destruct IH as (H1 & H2 & H3). split; [|done].
  rewrite fmap_cons, H1. destruct e as [[a []] clk]; done.
Qed.

(** ** Properties *)


