(* ===== verification/Cpu.v ===== *)
(** * Cpu: the clients of the simulator (src/src/cpu.h, cpu.cc, main.cc)

    [RandomCPU] and [StreamCPU] generate requests, [TraceBasedCPU] reads them
    from a file; each cycle they clock the memory first and then submit what
    it will accept.  They are modelled and verified over any memory with the
    interface of [MemorySystem]: its operations and its laws are all they use.

    [main] chooses a client from the command line and runs it.  The parsed
    arguments and the contents of the files are parameters. *)

From S2P Require Import Prelude Common Configuration ControllerRuns.
From S2P Require Import DramSystem DramSystemSafety Hmc HmcSafety HmcRuns MemorySystem Random TraceFile.
Local Open Scope Z_scope.

Section cpu.
Context {M : Type} `{Ops : !MemoryOps M}.

(** The fields of the base class; its callbacks do nothing. *)
Record CPU : Type := MkCPU { memory_system_ : M; clk_ : Z }.

Definition CPU_new (memory_system : M) : CPU := MkCPU memory_system 0.

(** [WillAcceptTransaction] guards each [AddTransaction], whose result the
    clients ignore. *)
Definition submit (hex_addr : Z) (is_write : bool) (m : M) : res (bool * M) :=
  ok ← memory_will_accept hex_addr is_write m;
  if (ok : bool) then '(_, m) ← memory_add hex_addr is_write m; Ok (true, m) else Ok (false, m).

(** ** RandomCPU *)

(** [last_addr_] is written before it is read. *)
Record RandomCPU : Type := MkRandomCPU {
  random_base : CPU; last_addr_ : Z; last_write_ : bool; random_gen : mt19937_64; random_get_next_ : bool }.

Definition RandomCPU_new (m : M) : RandomCPU := MkRandomCPU (CPU_new m) 0 false mt19937_64_new true.

(** [last_addr_ = gen(); last_write_ = (gen() % 3 == 0);] *)
Definition draw_request (g : mt19937_64) : Z * bool * mt19937_64 :=
  let '(a, g) := mt_gen g in
  let '(w, g) := mt_gen g in
  (a, w mod 3 =? 0, g).

Definition RandomCPU_ClockTick (p : RandomCPU) : res RandomCPU :=
  m ← memory_tick (memory_system_ (random_base p));
  let '(a, w, g) := if random_get_next_ p then draw_request (random_gen p)
                    else (last_addr_ p, last_write_ p, random_gen p) in
  '(get_next, m) ← submit a w m;
  Ok (MkRandomCPU (MkCPU m (u64 (clk_ (random_base p) + 1))) a w g get_next).

(** ** StreamCPU *)

Definition array_size_ : Z := Z.shiftl 2 20.
Definition stride_ : Z := 64.

(** The array addresses are written in the first cycle. *)
Record StreamCPU : Type := MkStreamCPU {
  stream_base : CPU; addr_a_ : Z; addr_b_ : Z; addr_c_ : Z; offset_ : Z; stream_gen : mt19937_64;
  inserted_a_ : bool; inserted_b_ : bool; inserted_c_ : bool }.

Definition StreamCPU_new (m : M) : StreamCPU :=
  MkStreamCPU (CPU_new m) 0 0 0 0 mt19937_64_new false false false.

(** [if (!inserted && WillAccept...) { Add...; inserted = true; }] *)
Definition insert_once (inserted : bool) (hex_addr : Z) (is_write : bool) (m : M) : res (bool * M) :=
  if inserted then Ok (true, m) else submit hex_addr is_write m.

Definition draw_arrays (g : mt19937_64) : Z * Z * Z * mt19937_64 :=
  let '(a, g) := mt_gen g in
  let '(b, g) := mt_gen g in
  let '(c, g) := mt_gen g in
  (a, b, c, g).

Definition StreamCPU_ClockTick (p : StreamCPU) : res StreamCPU :=
  m ← memory_tick (memory_system_ (stream_base p));
  let '(a, b, c, g, off) :=
    if decide (array_size_ ≤ offset_ p ∨ clk_ (stream_base p) = 0)
    then (draw_arrays (stream_gen p), 0)
    else (addr_a_ p, addr_b_ p, addr_c_ p, stream_gen p, offset_ p) in
  '(ia, m) ← insert_once (inserted_a_ p) (u64 (a + off)) false m;
  '(ib, m) ← insert_once (inserted_b_ p) (u64 (b + off)) false m;
  '(ic, m) ← insert_once (inserted_c_ p) (u64 (c + off)) true m;
  let base := MkCPU m (u64 (clk_ (stream_base p) + 1)) in
  Ok (if (ia && ib && ic)%bool
      then MkStreamCPU base a b c (u64 (off + stride_)) g false false false
      else MkStreamCPU base a b c off g ia ib ic).

(** ** TraceBasedCPU *)

Record TraceBasedCPU : Type := MkTraceBasedCPU {
  trace_base : CPU; trace_file_ : istream; trans_ : Transaction; trace_get_next_ : bool }.

#[export] Instance TraceBasedCPU_eta : RecordEta TraceBasedCPU := λ p,
  MkTraceBasedCPU (trace_base p) (trace_file_ p) (trans_ p) (trace_get_next_ p).

(** [trans_] is not initialised: [garbage] is what its memory holds.  The
    constructor fails when the file cannot be opened. *)
Definition TraceBasedCPU_new (garbage : Transaction) (file : option (list Ascii.ascii)) (m : M)
    : res TraceBasedCPU :=
  match file with
  | None => Fault (AbruptExit "cpu.cc" 69)
  | Some text => Ok (MkTraceBasedCPU (CPU_new m) (istream_open text) garbage true)
  end.

(** Not before its cycle: [if (trans_.added_cycle <= clk_) ...]. *)
Definition offer (trans : Transaction) (clk : Z) (m : M) : res (bool * M) :=
  if decide (added_cycle trans ≤ clk) then submit (t_addr trans) (is_write trans) m else Ok (false, m).

Definition TraceBasedCPU_ClockTick (p : TraceBasedCPU) : res TraceBasedCPU :=
  m ← memory_tick (memory_system_ (trace_base p));
  let clk := clk_ (trace_base p) in
  if is_eof (trace_file_ p)
  then Ok (p <| trace_base := MkCPU m (u64 (clk + 1)) |>)
  else
    let '(trans, file) := if trace_get_next_ p then read_transaction (trans_ p) (trace_file_ p)
                          else (trans_ p, trace_file_ p) in
    '(get_next, m) ← offer trans clk m;
    Ok (MkTraceBasedCPU (MkCPU m (u64 (clk + 1))) file trans get_next).

End cpu.
Arguments CPU : clear implicits.
Arguments RandomCPU : clear implicits.
Arguments StreamCPU : clear implicits.
Arguments TraceBasedCPU : clear implicits.

(** The loop of [main] over the cycles. *)
Definition cycles {P : Type} (tick : P → res P) (n : Z) (p : P) : res P := for_upto n (λ _, tick) p.

Lemma cycles_ok {P : Type} (tick : P → res P) (inv : nat → P → Prop) n p :
  (∀ k p, inv (S k) p → ensures (tick p) (inv k)) → inv n p →
  ensures (cycles tick (Z.of_nat n) p) (inv 0%nat).
Proof.
  intros Hstep Hp.
  destruct (for_upto_total (λ i, inv (Z.to_nat (Z.of_nat n - i))) (Z.of_nat n) (λ _, tick) p)
    as (p' & Hrun & Hp'); [lia|by rewrite Z.sub_0_r, Nat2Z.id| |].
  - intros i p1 Hi Hp1. apply Hstep. by replace (S (Z.to_nat (Z.of_nat n - (i + 1)))) with (Z.to_nat (Z.of_nat n - i)) by lia.
  - exists p'. split; [exact Hrun|]. by rewrite Z.sub_diag in Hp'.
Qed.

Section clients.
Context {M : Type} `{Mem : Memory M valid answers}.

(** A request is accepted exactly when it is reported as submitted. *)
Lemma submit_ok n acc m a wr :
  valid n acc m → 0 ≤ a → ensures (submit a wr m) (λ r, valid n ((if r.1 then [(a, wr)] else []) ++ acc) r.2).
Proof.
  intros Hv Ha. destruct (law_add n acc m a wr Hv Ha) as (ok & Hw & Hadd). unfold submit. rewrite Hw.
  cbn [mbind res_bind]. destruct ok; [|by apply ensures_ret].
  destruct (Hadd eq_refl) as ([ok' m'] & -> & _ & Hm'). by apply ensures_ret.
Qed.

(** ** RandomCPU *)

Lemma draw_request_ok g : mt_ok g → 0 ≤ (draw_request g).1.1 ∧ mt_ok (draw_request g).2.
Proof.
  intros Hg. unfold draw_request. apply mt_gen_ok in Hg as [Ha Hg]. destruct (mt_gen g) as [a g1].
  apply mt_gen_ok in Hg as [_ Hg]. cbn [fst snd] in Hg. destruct (mt_gen g1) as [w g2]. split; [apply Ha|exact Hg].
Qed.

(** The first [n] requests that a generator yields, and the generator then. *)
Fixpoint random_requests (n : nat) (g : mt19937_64) : list (Z * bool) * mt19937_64 :=
  match n with
  | O => ([], g)
  | S n => let '(l, g) := random_requests n g in
           let '(a, w, g) := draw_request g in (l ++ [(a, w)], g)
  end.

(** The request that waits to be accepted. *)
Definition random_pending (p : RandomCPU M) : list (Z * bool) :=
  if random_get_next_ p then [] else [(last_addr_ p, last_write_ p)].

Definition random_inv (n : nat) (p : RandomCPU M) : Prop :=
  ∃ acc j, valid n acc (memory_system_ (random_base p)) ∧
    random_requests j mt19937_64_new = (reverse acc ++ random_pending p, random_gen p) ∧
    mt_ok (random_gen p) ∧ 0 ≤ last_addr_ p.

Lemma random_tick_ok n p : random_inv (S n) p → ensures (RandomCPU_ClockTick p) (random_inv n).
Proof.
  intros (acc & j & Hv & Hj & Hg & Ha). unfold RandomCPU_ClockTick.
  eapply ensures_bind; [by apply law_tick|]. intros m Hm.
  set (d := if random_get_next_ p then _ else _).
  assert (∃ j', random_requests j' mt19937_64_new = (reverse acc ++ [(d.1.1, d.1.2)], d.2) ∧ mt_ok d.2 ∧ 0 ≤ d.1.1)
    as (j' & Hj' & Hg' & Ha').
  { subst d. unfold random_pending in Hj. destruct (random_get_next_ p); [|by exists j].
    exists (S j). cbn [random_requests]. rewrite Hj, app_nil_r. pose proof (draw_request_ok _ Hg) as [H1 H2].
    by destruct (draw_request (random_gen p)) as [[a w] g]. }
  destruct d as [[a w] g]. simpl in *. eapply ensures_bind; [by apply (submit_ok n acc)|].
  intros [ok m'] Hm'. apply ensures_ret. eexists _, j'. split; [exact Hm'|]. simpl. rewrite Hj'. split; [|done].
  unfold random_pending. simpl. destruct ok; simpl; [by rewrite reverse_cons, app_nil_r|done].
Qed.

(** ** StreamCPU *)

(** The generator after [i] draws of three array addresses, and the [i]th
    arrays. *)
Definition array_gen (i : nat) : mt19937_64 := Nat.iter i (λ g, (draw_arrays g).2) mt19937_64_new.
Definition stream_arrays (i : nat) : Z * Z * Z := (draw_arrays (array_gen i)).1.

(** The elements of an array. *)
Definition per_array : Z := array_size_ / stride_.

(** The three requests at one offset of the arrays. *)
Definition triple (arrays : Z * Z * Z) (off : Z) : list (Z * bool) :=
  let '(a, b, c) := arrays in [(u64 (a + off), false); (u64 (b + off), false); (u64 (c + off), true)].

(** The requests for element [k], counted over all arrays. *)
Definition element (k : Z) : list (Z * bool) :=
  triple (stream_arrays (Z.to_nat (k / per_array))) (stride_ * (k mod per_array)).

Definition opt {A} (b : bool) (x : A) : list A := if b then [x] else [].

(** The memory has taken [pre], then [l] in some order. *)
Definition so_far (n : nat) (pre l : list (Z * bool)) (m : M) : Prop :=
  ∃ acc part, valid n acc m ∧ reverse acc = pre ++ part ∧ part ≡ₚ l.

Lemma insert_once_ok n pre l1 l2 ins a wr m :
  0 ≤ a → so_far n pre (l1 ++ opt ins (a, wr) ++ l2) m →
  ensures (insert_once ins a wr m) (λ r, so_far n pre (l1 ++ opt r.1 (a, wr) ++ l2) r.2).
Proof.
  intros Ha Hm. unfold insert_once. destruct ins; [by apply ensures_ret|].
  destruct Hm as (acc & part & Hv & Hacc & Hp).
  eapply ensures_mono; [by apply (submit_ok n acc)|]. intros [[] m'] Hm'; simpl in *.
  - exists ((a, wr) :: acc), (part ++ [(a, wr)]). split; [done|]. split; [by rewrite reverse_cons, Hacc, app_assoc|].
    by rewrite Hp, Permutation_app_comm, <- Permutation_middle.
  - exists acc, part. done.
Qed.

(** The requests of the current element that have been submitted. *)
Definition flagged (ia ib ic : bool) (arrays : Z * Z * Z) (off : Z) : list (Z * bool) :=
  let '(a, b, c) := arrays in
  opt ia (u64 (a + off), false) ++ opt ib (u64 (b + off), false) ++ opt ic (u64 (c + off), true).

Lemma inserts_ok {B} n pre ia ib ic a b c off m (K : bool → bool → bool → M → res B) Q :
  so_far n pre (flagged ia ib ic (a, b, c) off) m →
  (∀ ia ib ic m, so_far n pre (flagged ia ib ic (a, b, c) off) m → ensures (K ia ib ic m) Q) →
  ensures ('(ia, m) ← insert_once ia (u64 (a + off)) false m;
           '(ib, m) ← insert_once ib (u64 (b + off)) false m;
           '(ic, m) ← insert_once ic (u64 (c + off)) true m; K ia ib ic m) Q.
Proof.
  intros Hm HK. unfold flagged in *.
  set (xa := (u64 (a + off), false)) in *. set (xb := (u64 (b + off), false)) in *.
  set (xc := (u64 (c + off), true)) in *.
  eapply ensures_bind; [apply (insert_once_ok n pre [] (opt ib xb ++ opt ic xc) ia); [apply u64_range|exact Hm]|].
  intros [ia' m1] H1. cbn [fst snd app] in H1.
  eapply ensures_bind; [apply (insert_once_ok n pre (opt ia' xa) (opt ic xc) ib); [apply u64_range|exact H1]|].
  intros [ib' m2] H2. cbn [fst snd] in H2. rewrite app_assoc, <- (app_nil_r (opt ic xc)) in H2.
  eapply ensures_bind; [apply (insert_once_ok n pre (opt ia' xa ++ opt ib' xb) [] ic); [apply u64_range|exact H2]|].
  intros [ic' m3] H3. cbn [fst snd] in H3. rewrite app_nil_r, <- app_assoc in H3. by apply HK.
Qed.

Definition none_inserted (p : StreamCPU M) : Prop :=
  inserted_a_ p = false ∧ inserted_b_ p = false ∧ inserted_c_ p = false.

(** Element [k] is the [r]th of the arrays [G]. *)
Definition stream_at (G r : Z) (p : StreamCPU M) : Prop :=
  0 ≤ G ∧ 0 ≤ r ≤ per_array ∧ offset_ p = stride_ * r ∧
  (addr_a_ p, addr_b_ p, addr_c_ p) = stream_arrays (Z.to_nat G) ∧
  stream_gen p = array_gen (S (Z.to_nat G)) ∧ (r = per_array → none_inserted p).

Definition stream_inv (n : nat) (p : StreamCPU M) : Prop :=
  ∃ k blocks, Forall2 Permutation blocks (element <$> seqZ 0 k) ∧
    so_far n (concat blocks) (flagged (inserted_a_ p) (inserted_b_ p) (inserted_c_ p)
      (addr_a_ p, addr_b_ p, addr_c_ p) (offset_ p)) (memory_system_ (stream_base p)) ∧
    0 ≤ clk_ (stream_base p) ∧ clk_ (stream_base p) + Z.of_nat n < 2 ^ 64 ∧
    ((clk_ (stream_base p) = 0 ∧ k = 0 ∧ none_inserted p ∧ stream_gen p = array_gen 0) ∨
     (0 < clk_ (stream_base p) ∧ ∃ G r, k = G * per_array + r ∧ stream_at G r p)).

Lemma per_array_eq : per_array = 32768.
Proof. reflexivity. Qed.

Lemma element_eq G r : 0 ≤ G → 0 ≤ r < per_array →
  element (G * per_array + r) = triple (stream_arrays (Z.to_nat G)) (stride_ * r).
Proof.
  rewrite per_array_eq. intros HG Hr. unfold element. rewrite per_array_eq.
  rewrite Z.div_add_l, Z.div_small by lia. rewrite Z.add_0_r.
  by rewrite Z.add_comm, Z_mod_plus_full, Z.mod_small by lia.
Qed.

(** Drawing the next arrays, in the first cycle and at the end of the last ones. *)
Lemma stream_draw_ok k p :
  (clk_ (stream_base p) = 0 ∧ k = 0 ∧ none_inserted p ∧ stream_gen p = array_gen 0) ∨
     (0 < clk_ (stream_base p) ∧ ∃ G r, k = G * per_array + r ∧ stream_at G r p) →
  ∃ G r, k = G * per_array + r ∧ 0 ≤ G ∧ 0 ≤ r < per_array ∧
    (if decide (array_size_ ≤ offset_ p ∨ clk_ (stream_base p) = 0)
     then (draw_arrays (stream_gen p), 0)
     else (addr_a_ p, addr_b_ p, addr_c_ p, stream_gen p, offset_ p)) =
      (stream_arrays (Z.to_nat G), array_gen (S (Z.to_nat G)), stride_ * r) ∧
    flagged (inserted_a_ p) (inserted_b_ p) (inserted_c_ p) (addr_a_ p, addr_b_ p, addr_c_ p) (offset_ p) =
      flagged (inserted_a_ p) (inserted_b_ p) (inserted_c_ p) (stream_arrays (Z.to_nat G)) (stride_ * r).
Proof.
  assert (∀ G, 0 ≤ G → stream_gen p = array_gen (Z.to_nat G) → none_inserted p →
    draw_arrays (stream_gen p) = (stream_arrays (Z.to_nat G), array_gen (S (Z.to_nat G))) ∧
    flagged (inserted_a_ p) (inserted_b_ p) (inserted_c_ p) (addr_a_ p, addr_b_ p, addr_c_ p) (offset_ p) =
      flagged (inserted_a_ p) (inserted_b_ p) (inserted_c_ p) (stream_arrays (Z.to_nat G)) (stride_ * 0)) as Hdraw.
  { intros G HG Hg (-> & -> & ->). split; [|by destruct (stream_arrays _) as [[]]].
    rewrite Hg. unfold stream_arrays. rewrite surjective_pairing at 1. done. }
  pose proof per_array_eq as Hper. intros [(Hk & -> & Hnone & Hg)|(Hk & G & r & -> & HG & Hr & Hoff & Harr & Hg & Hend)].
  - destruct (Hdraw 0 ltac:(lia) Hg Hnone) as [E1 E2]. exists 0, 0. split_and!; try lia; [|done].
    rewrite decide_True by by right. by rewrite E1.
  - destruct (decide (r = per_array)) as [->|Hne].
    + destruct (Hdraw (G + 1) ltac:(lia)) as [E1 E2];
        [rewrite Hg; f_equal; lia|by apply Hend|].
      exists (G + 1), 0. split_and!; try lia; [|done].
      rewrite decide_True by (left; rewrite Hoff, Hper; done). by rewrite E1.
    + exists G, r. split_and!; try lia; [|by rewrite Hoff, Harr].
      rewrite decide_False; [by rewrite Hoff, Harr, Hg|].
      rewrite Hoff, Hper in *. unfold array_size_, stride_. change (Z.shiftl 2 20) with 2097152. lia.
Qed.

Lemma so_far_tick n pre l m : so_far (S n) pre l m → ensures (memory_tick m) (so_far n pre l).
Proof.
  intros (acc & part & Hv & Hp). eapply ensures_mono; [by apply law_tick|]. intros m' Hm'. by exists acc, part.
Qed.

Lemma stream_tick_ok n p : stream_inv (S n) p → ensures (StreamCPU_ClockTick p) (stream_inv n).
Proof.
  intros (k & blocks & Hblocks & Hm & Hclk & Hroom & Hmode). unfold StreamCPU_ClockTick.
  eapply ensures_bind; [by apply so_far_tick|]. intros m Hm'.
  destruct (stream_draw_ok k p Hmode) as (G & r & -> & HG & Hr & -> & Hflag). rewrite Hflag in Hm'.
  destruct (stream_arrays (Z.to_nat G)) as [[a b] c] eqn:Earr.
  assert (u64 (clk_ (stream_base p) + 1) = clk_ (stream_base p) + 1) as Ek
    by (apply u64_small; unfold two64; lia).
  eapply inserts_ok; [exact Hm'|]. intros ia ib ic m2 H2. apply ensures_ret. rewrite Ek.
  pose proof per_array_eq as Hper. destruct (ia && ib && ic) eqn:Eall.
  - apply andb_prop in Eall as [[-> ->]%andb_prop ->]. destruct H2 as (acc & part & Hv & Hacc & Hp).
    exists (G * per_array + r + 1), (blocks ++ [part]). split_and!; simpl; [|..|lia|lia|].
    + rewrite seqZ_app, fmap_app by lia. apply Forall2_app; [done|].
      change (seqZ _ 1) with [G * per_array + r]. constructor; [|constructor].
      rewrite element_eq, Earr by done. exact Hp.
    + exists acc, []. split; [done|]. split; [|done]. rewrite concat_app, Hacc. simpl. by rewrite !app_nil_r.
    + right. split; [lia|]. exists G, (r + 1). split; [lia|]. unfold stream_at, stride_ in *. simpl.
      split_and!; [lia..| |done|done|by intros _]. rewrite u64_small by (unfold two64; lia). lia.
  - exists (G * per_array + r), blocks. split_and!; simpl; [done|exact H2|lia|lia|].
    right. split; [lia|]. exists G, r. split; [done|]. unfold stream_at. simpl.
    split_and!; [lia..|done|done|done|lia].
Qed.

(** What is submitted of element [k] is a part of its three requests. *)
Lemma flagged_element k p :
  (clk_ (stream_base p) = 0 ∧ k = 0 ∧ none_inserted p ∧ stream_gen p = array_gen 0) ∨
     (0 < clk_ (stream_base p) ∧ ∃ G r, k = G * per_array + r ∧ stream_at G r p) →
  flagged (inserted_a_ p) (inserted_b_ p) (inserted_c_ p) (addr_a_ p, addr_b_ p, addr_c_ p) (offset_ p)
    ⊆+ element k.
Proof.
  intros Hmode. destruct (stream_draw_ok k p Hmode) as (G & r & -> & HG & Hr & _ & ->).
  rewrite element_eq by done. unfold flagged, triple. destruct (stream_arrays (Z.to_nat G)) as [[a b] c].
  assert (∀ (f : bool) (x : Z * bool) l l', l ⊆+ l' → opt f x ++ l ⊆+ x :: l') as Hopt.
  { intros [] x l l' Hl; simpl; [by apply submseteq_skip|by apply submseteq_cons]. }
  apply Hopt, Hopt. rewrite <- (app_nil_r (opt _ _)). by apply Hopt.
Qed.

(** ** TraceBasedCPU *)

Lemma offer_ok n acc trans clk m :
  valid n acc m → 0 ≤ t_addr trans →
  ensures (offer trans clk m) (λ r,
    valid n ((if r.1 then [(t_addr trans, is_write trans)] else []) ++ acc) r.2 ∧
    (r.1 = true → added_cycle trans ≤ clk)).
Proof.
  intros Hv Ha. unfold offer. case_decide; [|by apply ensures_ret].
  eapply ensures_mono; [by apply (submit_ok n acc)|]. by intros [ok m'] Hm'.
Qed.

Definition entry_key (e : Entry) : Z * bool := (e_addr e, entry_write e).

(** Entry [j] waits to be read. *)
Definition at_line (es : list Entry) (j : nat) (p : TraceBasedCPU M) : Prop :=
  trace_get_next_ p = true ∧ (j ≤ length es)%nat ∧
  (∃ pre, Forall (λ c, is_space c = true) pre ∧
     trace_file_ p = MkStream (pre ++ print_trace (drop j es)) false false) ∧
  ∀ i e, j = S i → es !! i = Some e → trans_ p = entry_trans (trans_ p) e.

(** Entry [j] has been read and waits to be accepted. *)
Definition waiting (es : list Entry) (j : nat) (p : TraceBasedCPU M) : Prop :=
  trace_get_next_ p = false ∧ ∃ e, es !! j = Some e ∧ trans_ p = entry_trans (trans_ p) e ∧
    trace_file_ p = MkStream ([newline] ++ print_trace (drop (S j) es)) false false.

(** A read past the last entry repeats its address. *)
Definition phantom (es : list Entry) (j : nat) (extra : list (Z * bool)) : Prop :=
  extra = [] ∨ (j = length es ∧ ∃ e, list.last es = Some e ∧ extra = [(e_addr e, false)]).

Definition trace_inv (es : list Entry) (total : Z) (n : nat) (p : TraceBasedCPU M) : Prop :=
  ∃ acc j extra, valid n acc (memory_system_ (trace_base p)) ∧
    reverse acc = (entry_key <$> take j es) ++ extra ∧
    clk_ (trace_base p) + Z.of_nat n = total ∧ 0 ≤ clk_ (trace_base p) ∧
    (∀ i e, (i < j)%nat → es !! i = Some e → e_cycle e < clk_ (trace_base p)) ∧
    ((extra = [] ∧ (at_line es j p ∨ waiting es j p)) ∨
     (is_eof (trace_file_ p) = true ∧ phantom es j extra)).

(** Offering entry [j], just read or still waiting. *)
Lemma offer_entry_ok es total n acc j m trans e clk :
  Forall entry_ok es → es !! j = Some e → trans = entry_trans trans e →
  valid n acc m → reverse acc = entry_key <$> take j es →
  clk + Z.of_nat (S n) = total → 0 ≤ clk → total < 2 ^ 64 →
  (∀ i e, (i < j)%nat → es !! i = Some e → e_cycle e < clk) →
  ensures ('(get_next, m) ← offer trans clk m;
           Ok (MkTraceBasedCPU (MkCPU m (u64 (clk + 1)))
                 (MkStream ([newline] ++ print_trace (drop (S j) es)) false false) trans get_next))
    (trace_inv es total n).
Proof.
  intros Hes He Htr Hv Hacc Htot Hclk Hmax Hdone.
  assert (u64 (clk + 1) = clk + 1) as Ek by (apply u64_small; unfold two64; lia).
  assert (entry_ok e) as [Ha _] by by eapply Forall_lookup_1.
  assert (t_addr trans = e_addr e ∧ added_cycle trans = e_cycle e ∧ is_write trans = entry_write e)
    as (E1 & E2 & E3) by by rewrite Htr.
  eapply ensures_bind; [apply (offer_ok n acc); [done|lia]|]. intros [ok m'] [Hm' Hok]. apply ensures_ret.
  rewrite Ek. rewrite E1, E3 in Hm'. simpl in *. destruct ok.
  - exists ((e_addr e, entry_write e) :: acc), (S j), []. simpl. split_and!; [done| |lia|lia| |].
    + by rewrite reverse_cons, Hacc, (take_S_r _ _ e), fmap_app, app_nil_r.
    + intros i e' Hi He'. destruct (decide (i = j)) as [->|]; [|specialize (Hdone i e' ltac:(lia) He'); lia].
      rewrite He in He'. injection He' as <-. specialize (Hok eq_refl). lia.
    + left. split; [done|]. left. split; [done|]. split; [by eapply lookup_lt_Some|].
      split; [exists [newline]; by repeat constructor|].
      intros i e' [= <-] He'. simpl. rewrite He in He'. by injection He' as <-.
  - exists acc, j, []. simpl. split_and!; [done|by rewrite app_nil_r|lia|lia| |].
    + intros i e' Hi He'. specialize (Hdone i e' Hi He'). lia.
    + left. split; [done|]. right. split; [done|]. by exists e.
Qed.

Lemma print_trace_cons e es : print_trace (e :: es) = print_entry e ++ [newline] ++ print_trace es.
Proof. unfold print_trace. rewrite fmap_cons. simpl. by rewrite <- app_assoc. Qed.

(** The read that finds the end of the file. *)
Lemma offer_end_ok es total n acc m trans clk :
  es ≠ [] → (∀ i e, length es = S i → es !! i = Some e → trans = entry_trans trans e) →
  Forall entry_ok es → valid n acc m → reverse acc = entry_key <$> es →
  clk + Z.of_nat (S n) = total → 0 ≤ clk → total < 2 ^ 64 →
  (∀ i e, (i < length es)%nat → es !! i = Some e → e_cycle e < clk) →
  ensures ('(get_next, m) ← offer (trans <| is_write := false |>) clk m;
           Ok (MkTraceBasedCPU (MkCPU m (u64 (clk + 1))) (MkStream [] true true)
                 (trans <| is_write := false |>) get_next))
    (trace_inv es total n).
Proof.
  intros Hne Htr Hes Hv Hacc Htot Hclk Hmax Hdone.
  assert (u64 (clk + 1) = clk + 1) as Ek by (apply u64_small; unfold two64; lia).
  destruct (list.last es) as [e|] eqn:Elast; [|by apply last_None in Elast].
  rewrite last_lookup in Elast.
  assert (trans = entry_trans trans e) as E.
  { apply (Htr (Nat.pred (length es))); [destruct es; simpl in *; [done|lia]|done]. }
  assert (t_addr trans = e_addr e) as E1 by by rewrite E.
  assert (entry_ok e) as [Ha _] by by eapply Forall_lookup_1.
  eapply ensures_bind; [apply (offer_ok n acc); [done|simpl; lia]|]. intros [ok m'] [Hm' _]. apply ensures_ret.
  rewrite Ek. simpl in *. rewrite E1 in Hm'.
  exists ((if ok then [(e_addr e, false)] else []) ++ acc), (length es), (if ok then [(e_addr e, false)] else []).
  simpl. split_and!; [done| |lia|lia| |].
  - rewrite reverse_app, Hacc, firstn_all. by destruct ok.
  - intros i e' Hi He'. specialize (Hdone i e' Hi He'). lia.
  - right. split; [done|]. destruct ok; [right|by left]. split; [done|]. exists e. by rewrite last_lookup.
Qed.

Lemma trace_tick_ok es total n p :
  es ≠ [] → Forall entry_ok es → total < 2 ^ 64 →
  trace_inv es total (S n) p → ensures (TraceBasedCPU_ClockTick p) (trace_inv es total n).
Proof.
  intros Hne Hes Hmax (acc & j & extra & Hv & Hacc & Htot & Hclk & Hdone & Hcase).
  unfold TraceBasedCPU_ClockTick. eapply ensures_bind; [by apply law_tick|]. intros m Hm.
  destruct Hcase as [(-> & [(Hnext & Hj & (pre & Hpre & Hfile) & Htr)|(Hnext & e & He & Htr & Hfile)])|[Heof Hextra]].
  - rewrite Hfile, Hnext. cbn [is_eof]. rewrite app_nil_r in Hacc.
    destruct (es !! j) as [e|] eqn:He.
    + rewrite (drop_S _ _ _ He), print_trace_cons, read_entry; [|by eapply Forall_lookup_1|done|done].
      cbn [app stopped]. by apply (offer_entry_ok es total n acc j m _ e).
    + apply lookup_ge_None in He. rewrite drop_ge, app_nil_r, read_at_end by done.
      rewrite take_ge in Hacc by done. apply (offer_end_ok es total n acc); try done.
      * intros i e Hi He'. apply (Htr i); [lia|done].
      * intros i e Hi He'. apply (Hdone i); [lia|done].
  - rewrite Hfile, Hnext. cbn [is_eof]. rewrite app_nil_r in Hacc.
    by apply (offer_entry_ok es total n acc j m _ e).
  - rewrite Heof. apply ensures_ret. exists acc, j, extra. simpl.
    rewrite (u64_small (_ + 1)) by (unfold two64; lia). split_and!; try done; try lia.
    + intros i e Hi He. specialize (Hdone i e Hi He). lia.
    + by right.
Qed.

(** Whatever the file holds, reading it goes on. *)
Definition trace_safe (n : nat) (p : TraceBasedCPU M) : Prop :=
  ∃ acc, valid n acc (memory_system_ (trace_base p)) ∧ 0 ≤ t_addr (trans_ p).

Lemma trace_safe_tick n p : trace_safe (S n) p → ensures (TraceBasedCPU_ClockTick p) (trace_safe n).
Proof.
  intros (acc & Hv & Ha). unfold TraceBasedCPU_ClockTick. eapply ensures_bind; [by apply law_tick|].
  intros m Hm. destruct (is_eof (trace_file_ p)); [apply ensures_ret; by exists acc|].
  assert (0 ≤ t_addr (if trace_get_next_ p then read_transaction (trans_ p) (trace_file_ p)
                      else (trans_ p, trace_file_ p)).1) as Ha'.
  { destruct (trace_get_next_ p); [|done]. by apply read_transaction_addr. }
  destruct (if trace_get_next_ p then _ else _) as [trans file]. simpl in Ha'.
  eapply ensures_bind; [by apply (offer_ok n acc)|]. intros [ok m'] [Hm' _]. apply ensures_ret.
  eexists. split; [exact Hm'|exact Ha'].
Qed.

(** Runs from a new client. *)
Lemma random_cpu_ok m n : valid n [] m →
  ensures (cycles RandomCPU_ClockTick (Z.of_nat n) (RandomCPU_new m)) (λ p,
    ∃ acc, valid 0%nat acc (memory_system_ (random_base p)) ∧ ∃ j,
      (random_requests j mt19937_64_new).1 = reverse acc ++ random_pending p).
Proof.
  intros Hv. eapply ensures_mono; [apply (cycles_ok RandomCPU_ClockTick random_inv n _ random_tick_ok)|].
  - exists [], 0%nat. split_and!; [done..|apply mt_new_ok|done].
  - intros p (acc & j & Hacc & Hj & _). exists acc. split; [done|]. exists j. by rewrite Hj.
Qed.

Lemma stream_cpu_ok m n : valid n [] m → Z.of_nat n < 2 ^ 64 →
  ensures (cycles StreamCPU_ClockTick (Z.of_nat n) (StreamCPU_new m)) (λ p,
    ∃ acc, valid 0%nat acc (memory_system_ (stream_base p)) ∧ ∃ k blocks part,
      reverse acc = concat blocks ++ part ∧
      Forall2 Permutation blocks (element <$> seqZ 0 k) ∧ part ⊆+ element k).
Proof.
  intros Hv Hn. eapply ensures_mono; [apply (cycles_ok StreamCPU_ClockTick stream_inv n _ stream_tick_ok)|].
  - exists 0, []. split_and!; [by constructor| |done|simpl; lia|by left].
    exists [], []. by split_and!.
  - intros p (k & blocks & Hb & (acc & part & Hacc & Eacc & Hpart) & _ & _ & Hmode). exists acc.
    split; [done|]. exists k, blocks, part. split_and!; [done..|]. rewrite Hpart. by apply flagged_element.
Qed.

Lemma print_ok n acc m : valid n acc m → ensures (memory_print m) (λ m', valid n acc m').
Proof. apply law_print. Qed.
End clients.

(** ** The program *)

(** [cpu->PrintStats()] *)
Definition CPU_PrintStats (p : CPU MemorySystem) : res (CPU MemorySystem) :=
  m ← MemorySystem.PrintStats (memory_system_ p); Ok (MkCPU m (clk_ p)).

(** The client and its cycles, once the command line is parsed.  [files] is the
    file system, [reader] and [parse_error] what the INI library makes of the
    configuration file. *)
Definition simulate (garbage : Transaction) (files : string → option (list Ascii.ascii))
    (reader : INIReader) (parse_error : Z) (trace_file stream_type : string) (num_cycles : Z)
    : res (CPU MemorySystem) :=
  m ← MemorySystem_new reader parse_error 0 0;
  if bool_decide (trace_file ≠ ""%string) then
    p ← TraceBasedCPU_new garbage (files trace_file) m;
    p ← cycles TraceBasedCPU_ClockTick num_cycles p; CPU_PrintStats (trace_base p)
  else if bool_decide (stream_type = "stream"%string) || bool_decide (stream_type = "s"%string) then
    p ← cycles StreamCPU_ClockTick num_cycles (StreamCPU_new m); CPU_PrintStats (stream_base p)
  else
    p ← cycles RandomCPU_ClockTick num_cycles (RandomCPU_new m); CPU_PrintStats (random_base p).

(** What the command-line parser returns: it throws for the help flag and for
    an error, and otherwise gives the arguments; an option that is not set has
    the empty text or the default number of cycles. *)
Inductive Parsed : Type :=
  | ParsedHelp
  | ParsedError
  | ParsedArgs (config_file trace_file stream_type : string) (num_cycles : option Z).

(** [main]: the exit status, and the client where there was one. *)
Definition main (garbage : Transaction) (files : string → option (list Ascii.ascii))
    (ini : string → INIReader * Z) (parsed : Parsed) : res (Z * option (CPU MemorySystem)) :=
  match parsed with
  | ParsedHelp => Ok (0, None)
  | ParsedError => Ok (1, None)
  | ParsedArgs config_file trace_file stream_type num_cycles =>
    if bool_decide (config_file = ""%string) then Ok (1, None)
    else
      let '(reader, parse_error) := ini config_file in
      cpu ← simulate garbage files reader parse_error trace_file stream_type (default 100000 num_cycles);
      Ok (0, Some cpu)
  end.

(** ** Properties *)

(** A new memory over the two-channel sample configuration. *)
Lemma duo_facade : ∃ m, MemorySystem_new duo_reader 0 0 0 = Ok m ∧
  SafeMemory (config_ m) ∧ ∀ n, Z.of_nat n ≤ 2 ^ 53 → facade_valid n [] m.
Proof.
  destruct (res_check_Ok (MemorySystem_new duo_reader 0 0 0) (λ _, true) ltac:(vm_compute; reflexivity))
    as (m & Hm & _). exists m. split; [exact Hm|].
  assert (SafeMemory (config_ m)) as Hc.
  { pose proof Hm as E. unfold MemorySystem_new in E. rewrite duo_config_new in E. cbn [mbind res_bind] in E.
    apply bind_Ok_inv in E as (d & _ & [= <-]). exact duo_safe. }
  split; [exact Hc|]. intros n Hn. by apply (MemorySystem_new_ok duo_reader 0 0 0).
Qed.

(** The random client submits what it draws.  Over any memory that keeps
    the interface, every cycle returns, and after any number of cycles the
    accepted requests are, in order, the requests that the default-seeded
    mt19937_64 yields, but for the one that still waits: none is dropped when
    the memory refuses it, and none submitted twice. *)
Theorem random_cpu_submits {M} `{Mem : Memory M valid answers} (m : M) (n : nat) :
  valid n [] m →
  ∃ p acc j, cycles RandomCPU_ClockTick (Z.of_nat n) (RandomCPU_new m) = Ok p ∧
    valid 0%nat acc (memory_system_ (random_base p)) ∧
    (random_requests j mt19937_64_new).1 = reverse acc ++ random_pending p.
Proof.
  intros Hv. destruct (random_cpu_ok m n Hv) as (p & Hrun & acc & Hacc & j & Hj). by exists p, acc, j.
Qed.

Lemma random_cpu_submits_witness :
  ∃ m p acc j, MemorySystem_new duo_reader 0 0 0 = Ok m ∧
    cycles RandomCPU_ClockTick 20 (RandomCPU_new m) = Ok p ∧
    (random_requests j mt19937_64_new).1 = reverse acc ++ random_pending p.
Proof.
  destruct duo_facade as (m & Hm & _ & Hv).
  destruct (random_cpu_submits m 20 (Hv 20%nat ltac:(lia))) as (p & acc & j & H1 & _ & H3).
  exists m, p, acc, j. split; [exact Hm|]. split; [exact H1|exact H3].
Defined.

(** The stream client adds arrays.  After any number of cycles the
    accepted requests are those of the elements [0 .. k-1], an element after
    the other with its three requests in some order, and a part of those of
    element [k]: reads of the two sources and a write of the target at the
    same offset, 32768 elements to each drawing of three arrays, nothing
    skipped at the end of an array and nothing submitted twice. *)
Theorem stream_cpu_submits {M} `{Mem : Memory M valid answers} (m : M) (n : nat) :
  valid n [] m → Z.of_nat n < 2 ^ 64 →
  ∃ p acc k blocks part, cycles StreamCPU_ClockTick (Z.of_nat n) (StreamCPU_new m) = Ok p ∧
    valid 0%nat acc (memory_system_ (stream_base p)) ∧
    reverse acc = concat blocks ++ part ∧
    Forall2 Permutation blocks (element <$> seqZ 0 k) ∧ part ⊆+ element k.
Proof.
  intros Hv Hn. destruct (stream_cpu_ok m n Hv Hn) as (p & Hrun & acc & Hacc & k & blocks & part & Hx).
  by exists p, acc, k, blocks, part.
Qed.

Lemma stream_cpu_submits_witness :
  ∃ m p acc k blocks part, MemorySystem_new duo_reader 0 0 0 = Ok m ∧
    cycles StreamCPU_ClockTick 20 (StreamCPU_new m) = Ok p ∧
    reverse acc = concat blocks ++ part ∧ Forall2 Permutation blocks (element <$> seqZ 0 k).
Proof.
  destruct duo_facade as (m & Hm & _ & Hv).
  destruct (stream_cpu_submits m 20 (Hv 20%nat ltac:(lia)) ltac:(lia))
    as (p & acc & k & blocks & part & H1 & _ & H3 & H4 & _).
  exists m, p, acc, k, blocks, part. split; [exact Hm|]. split; [exact H1|]. split; [exact H3|exact H4].
Defined.

(** C24: the trace client replays its trace.  On the text of any list of
    entries, after any number of cycles the accepted requests are, in order,
    a first part of the entries, each accepted in a cycle not before its own;
    once the trace has been used up, at most one request follows, a read of
    the last address. *)
Theorem trace_cpu_submits {M} `{Mem : Memory M valid answers} (m : M) (n : nat) (es : list Entry)
    (garbage : Transaction) (p0 : TraceBasedCPU M) :
  valid n [] m → Z.of_nat n < 2 ^ 64 → es ≠ [] → Forall entry_ok es →
  TraceBasedCPU_new garbage (Some (print_trace es)) m = Ok p0 →
  ∃ p acc j extra, cycles TraceBasedCPU_ClockTick (Z.of_nat n) p0 = Ok p ∧
    valid 0%nat acc (memory_system_ (trace_base p)) ∧
    reverse acc = (entry_key <$> take j es) ++ extra ∧ phantom es j extra ∧
    ∀ i e, (i < j)%nat → es !! i = Some e → e_cycle e < Z.of_nat n.
Proof.
  intros Hv Hn Hne Hes [= <-].
  destruct (cycles_ok TraceBasedCPU_ClockTick (trace_inv (valid := valid) es (Z.of_nat n)) n
      (MkTraceBasedCPU (CPU_new m) (istream_open (print_trace es)) garbage true)) as (p & Hrun & Hp).
  - intros k p. by apply (trace_tick_ok (answers := answers)).
  - exists [], 0%nat, []. simpl. split_and!; [done..|lia|lia|]. left. split; [done|]. left.
    split; [done|]. split; [lia|]. split; [by exists []|done].
  - destruct Hp as (acc & j & extra & Hacc & Eacc & Hclk & _ & Hdone & Hcase).
    exists p, acc, j, extra. split_and!; [exact Hrun|exact Hacc|done| |].
    + destruct Hcase as [[-> _]|[_ Hx]]; [by left|done].
    + intros i e Hi He. specialize (Hdone i e Hi He). lia.
Qed.

Lemma trace_cpu_submits_witness :
  ∃ m p0 p acc j extra, MemorySystem_new duo_reader 0 0 0 = Ok m ∧
    TraceBasedCPU_new (Transaction_new 0 false) (Some (print_trace sample_entries)) m = Ok p0 ∧
    cycles TraceBasedCPU_ClockTick 20 p0 = Ok p ∧
    reverse acc = (entry_key <$> take j sample_entries) ++ extra ∧ phantom sample_entries j extra.
Proof.
  destruct duo_facade as (m & Hm & _ & Hv).
  destruct (trace_cpu_submits m 20 sample_entries (Transaction_new 0 false) _ (Hv 20%nat ltac:(lia))
    ltac:(lia) ltac:(done) ltac:(repeat constructor; simpl; try lia; try done) eq_refl)
    as (p & acc & j & extra & H1 & _ & H3 & H4 & _).
  eexists m, _, p, acc, j, extra. split; [exact Hm|]. split; [reflexivity|]. split; [exact H1|].
  split; [exact H3|exact H4].
Defined.

(** Every simulation returns, unless its trace cannot be opened. *)
Lemma simulate_returns (garbage : Transaction) (files : string → option (list Ascii.ascii))
    (reader : INIReader) (e : Z) (trace_file stream_type : string) (n : nat) (m : MemorySystem) :
  MemorySystem_new reader e 0 0 = Ok m → SafeMemory (config_ m) → Z.of_nat n ≤ 2 ^ 53 →
  0 ≤ t_addr garbage →
  if bool_decide (trace_file ≠ ""%string ∧ files trace_file = None)
  then simulate garbage files reader e trace_file stream_type (Z.of_nat n) = Fault (AbruptExit "cpu.cc" 69)
  else ∃ p, simulate garbage files reader e trace_file stream_type (Z.of_nat n) = Ok p.
Proof.
  intros Hm Hc Hn Hg. pose proof (MemorySystem_new_ok reader e 0 0 m n Hm Hc Hn) as Hv.
  assert (∀ (base : CPU MemorySystem) acc, facade_valid 0 acc (memory_system_ base) →
    ∃ p, CPU_PrintStats base = Ok p) as Hprint.
  { intros base acc Hb. destruct (print_ok 0 acc _ Hb) as (m' & Hrun & _). simpl in Hrun.
    unfold CPU_PrintStats. rewrite Hrun. simpl. eauto. }
  unfold simulate. rewrite Hm. cbn [mbind res_bind]. destruct (decide (trace_file = ""%string)) as [->|Hne].
  - assert (¬ (""%string ≠ ""%string)) as Hempty by (intros Hx; by apply Hx).
    rewrite (bool_decide_false (_ ∧ _)) by exact (λ Hx, Hempty (proj1 Hx)). rewrite (bool_decide_false _ Hempty).
    destruct (bool_decide (stream_type = "stream"%string) || _).
    + destruct (stream_cpu_ok m n Hv) as (p & -> & acc & Hp & _); [lia|]. by apply (Hprint _ acc).
    + destruct (random_cpu_ok m n Hv) as (p & -> & acc & Hp & _). by apply (Hprint _ acc).
  - rewrite (bool_decide_true (trace_file ≠ _)) by done. destruct (files trace_file) as [text|].
    + rewrite bool_decide_false by naive_solver. cbn [TraceBasedCPU_new mbind res_bind].
      destruct (cycles_ok TraceBasedCPU_ClockTick trace_safe n
        (MkTraceBasedCPU (CPU_new m) (istream_open text) garbage true) trace_safe_tick) as (p & -> & acc & Hp & _);
        [by exists []|]. by apply (Hprint _ acc).
    + by rewrite bool_decide_true.
Qed.

(** C13: the program returns.  Whatever the command-line parser makes of the
    arguments, [main] ends with an exit status: 0 for the help, 1 for an error
    or without a configuration; and for every configuration that the
    constructor accepts and that keeps the bounds of [SafeMemory], each client,
    any contents of the trace file and up to 2^53 cycles, it runs its cycles,
    prints the statistics and ends with 0: no abort, no failed access, no
    endless loop.  A trace that cannot be opened ends it with [AbruptExit]. *)
Theorem main_returns (garbage : Transaction) (files : string → option (list Ascii.ascii))
    (ini : string → INIReader * Z) (parsed : Parsed) :
  0 ≤ t_addr garbage →
  (∀ config trace stream n, parsed = ParsedArgs config trace stream n → config ≠ ""%string →
    0 ≤ default 100000 n ≤ 2 ^ 53 ∧
    ∃ m, MemorySystem_new (ini config).1 (ini config).2 0 0 = Ok m ∧ SafeMemory (config_ m)) →
  match parsed with
  | ParsedHelp => main garbage files ini parsed = Ok (0, None)
  | ParsedError => main garbage files ini parsed = Ok (1, None)
  | ParsedArgs config trace _ _ =>
    if bool_decide (config = ""%string) then main garbage files ini parsed = Ok (1, None)
    else if bool_decide (trace ≠ ""%string ∧ files trace = None)
    then main garbage files ini parsed = Fault (AbruptExit "cpu.cc" 69)
    else ∃ cpu, main garbage files ini parsed = Ok (0, Some cpu)
  end.
Proof.
  intros Hg Hargs. destruct parsed as [| |config trace stream n]; [done|done|].
  unfold main. case_bool_decide as Hc; [done|].
  destruct (Hargs config trace stream n eq_refl Hc) as (Hn & m & Hm & Hsafe).
  destruct (ini config) as [reader e]. cbn [fst snd] in Hm.
  pose proof (simulate_returns garbage files reader e trace stream (Z.to_nat (default 100000 n)) m
    Hm Hsafe ltac:(lia) Hg) as Hsim. rewrite Z2Nat.id in Hsim by lia.
  destruct (bool_decide (trace ≠ _ ∧ _)); [by rewrite Hsim|]. destruct Hsim as [cpu ->]. by exists cpu.
Qed.

Lemma main_returns_witness :
  (∃ p, main (Transaction_new 0 false) (λ _, None) (λ _, (duo_reader, 0))
     (ParsedArgs "duo.ini" "" "stream" (Some 30)) = Ok (0, Some p)) ∧
  (∃ p, main (Transaction_new 0 false) (λ _, Some (chars "garbage")) (λ _, (duo_reader, 0))
     (ParsedArgs "duo.ini" "t" "" None) = Ok (0, Some p)).
Proof.
  destruct duo_facade as (m & Hm & Hc & _). split.
  - refine (main_returns (Transaction_new 0 false) (λ _, None) (λ _, (duo_reader, 0))
      (ParsedArgs "duo.ini" "" "stream" (Some 30)) ltac:(simpl; lia) _).
    intros config trace stream n [= <- <- <- <-] _. split; [simpl; lia|]. exists m. exact (conj Hm Hc).
  - refine (main_returns (Transaction_new 0 false) (λ _, Some (chars "garbage")) (λ _, (duo_reader, 0))
      (ParsedArgs "duo.ini" "t" "" None) ltac:(simpl; lia) _).
    intros config trace stream n [= <- <- <- <-] _. split; [simpl; lia|]. exists m. exact (conj Hm Hc).
Defined.

(** A memory that has accepted nothing reports nothing. *)
Lemma no_reports n m k : facade_valid n [] m → 0 ≤ k.1 → k ∉ facade_reports m.
Proof.
  intros Hv Hk Hin. pose proof (law_reports n [] m k Hv Hk) as Hle.
  assert (0 < times k (facade_reports m))%nat as Hpos.
  { unfold times. apply list_elem_of_In, in_split in Hin as (l1 & l2 & ->).
    rewrite list.filter_app, length_app, list.filter_cons, decide_True by done. simpl. lia. }
  change (times k []) with 0%nat in Hle. lia.
Qed.

(** The trace client on the two-channel sample configuration. *)
Definition trace_run (text : list Ascii.ascii) (n : Z) : res (TraceBasedCPU MemorySystem) :=
  m ← MemorySystem_new duo_reader 0 0 0;
  p ← TraceBasedCPU_new (Transaction_new 0 false) (Some text) m;
  cycles TraceBasedCPU_ClockTick n p.

(** A trace without a final newline, whose one request is for cycle 5. *)
Definition unterminated : list Ascii.ascii := chars "0x40 WRITE 5".

Definition lost_inv (n : nat) (p : TraceBasedCPU MemorySystem) : Prop :=
  facade_valid n [] (memory_system_ (trace_base p)) ∧
  (is_eof (trace_file_ p) = true ∨
   (clk_ (trace_base p) = 0 ∧ trace_file_ p = istream_open unterminated ∧ trace_get_next_ p = true)).

Lemma lost_tick n p : lost_inv (S n) p → ensures (TraceBasedCPU_ClockTick p) (lost_inv n).
Proof.
  intros [Hv Hcase]. unfold TraceBasedCPU_ClockTick.
  eapply ensures_bind; [apply (law_tick n [] _ Hv)|]. intros m Hm. destruct Hcase as [Heof|(Hk & Hfile & Hnext)].
  - rewrite Heof. apply ensures_ret. split; [exact Hm|by left].
  - rewrite Hfile, Hnext, Hk. change (is_eof (istream_open unterminated)) with false.
    assert (∀ t, read_transaction t (istream_open unterminated) =
      (t <| t_addr := 64 |> <| added_cycle := 5 |> <| is_write := true |>, MkStream [] true false)) as Hread.
    { intros t. unfold read_transaction. by destruct t. }
    rewrite Hread. unfold offer. rewrite decide_False by (simpl; lia). apply ensures_ret. split; [exact Hm|by left].
Qed.

Definition reports_phantom (p : TraceBasedCPU MemorySystem) : bool :=
  bool_decide (facade_reports (memory_system_ (trace_base p)) = [(64, false); (64, true)]).

(** The end of a trace is misread, both ways.  After the newline of the
    last line the client reads once more, and submits a read of the last
    address that the trace does not contain: here the trace is one write, and
    a write and a read are answered.  Without a newline at the end the last
    request is lost unless it is accepted in the cycle in which it is read:
    here it is for cycle 5, is read in cycle 0, and is never submitted. *)
Theorem trace_end_misread :
  (∃ p, trace_run (chars "0x40 WRITE 0" ++ [newline]) 100 = Ok p ∧
     facade_reports (memory_system_ (trace_base p)) = [(64, false); (64, true)]) ∧
  (∀ n, Z.of_nat n ≤ 2 ^ 53 → ∃ p, trace_run unterminated (Z.of_nat n) = Ok p ∧
     facade_valid 0 [] (memory_system_ (trace_base p)) ∧
     ∀ k, 0 ≤ k.1 → k ∉ facade_reports (memory_system_ (trace_base p))).
Proof.
  split.
  - destruct (res_check_Ok (trace_run (chars "0x40 WRITE 0" ++ [newline]) 100)
      reports_phantom ltac:(vm_compute; reflexivity)) as (p & Hp & H). exists p. split; [exact Hp|]. by apply (bool_decide_eq_true_1 _ H).
  - intros n Hn. destruct duo_facade as (m & Hm & _ & Hv).
    set (p0 := MkTraceBasedCPU (CPU_new m) (istream_open unterminated) (Transaction_new 0 false) true).
    assert (lost_inv n p0) as Hp0 by (split; [exact (Hv n Hn)|right; split_and!; reflexivity]).
    destruct (cycles_ok TraceBasedCPU_ClockTick lost_inv n p0 lost_tick Hp0) as (p & Hrun & Hvp & _).
    exists p. split; [unfold trace_run; rewrite Hm; exact Hrun|]. split; [exact Hvp|].
    intros k. by apply (no_reports 0).
Qed.
