(* ===== verification/Energy.v ===== *)
(** * Energy: power parameters and floating-point statistics
    (src/src/configuration.cc, simple_stats.cc)

    The floating-point members of [Config], with [InitPowerParams], and the
    part of [SimpleStats] that is computed from them at the end of an epoch
    and of a run: energies, bandwidth, power, averages, and the list of pairs
    that is printed.  [PowerParams] and [FloatStats] hold the members that the
    records of Configuration.v and SimpleStats.v leave out.  The real values
    of the INI file come from the third-party reader, a parameter.  The text of
    a number (std::to_string, fmt) and the JSON objects are not modelled: a
    printed value is the number itself. *)

From stdpp Require Import pretty.
From S2P Require Import Prelude Double Configuration SimpleStats.
Local Open Scope Z_scope.

(** ** Power parameters *)

Record PowerParams : Type := MkPowerParams {
  tCK : double;
  act_energy_inc : double; read_energy_inc : double;
  write_energy_inc : double; ref_energy_inc : double; refb_energy_inc : double;
  act_stb_energy_inc : double; pre_stb_energy_inc : double;
  pre_pd_energy_inc : double; sref_energy_inc : double }.

(** [InitPowerParams], after [InitTimingParams] has read [tCK].
    [pre_energy_inc] is declared in the class and never written. *)
Definition InitPowerParams (GetReal : string → string → double → double) (c : Config)
    : PowerParams :=
  let gr := GetReal "power" in
  let VDD := gr "VDD" (dec 12 1) in
  let IDD0 := gr "IDD0" (of_Z 48) in
  let IDD2P := gr "IDD2P" (of_Z 25) in
  let IDD2N := gr "IDD2N" (of_Z 34) in
  let IDD3N := gr "IDD3N" (of_Z 43) in
  let IDD4W := gr "IDD4W" (of_Z 123) in
  let IDD4R := gr "IDD4R" (of_Z 135) in
  let IDD5AB := gr "IDD5AB" (of_Z 250) in
  let IDD5PB := gr "IDD5PB" (of_Z 5) in
  let IDD6x := gr "IDD6x" (of_Z 31) in
  let devices := of_Z (devices_per_rank c) in
  MkPowerParams
    (GetReal "timing" "tCK" (of_Z 1))
    (VDD * (IDD0 * of_Z (tRC c) - (IDD3N * of_Z (tRAS c) + IDD2N * of_Z (tRP c))) * devices)%D
    (VDD * (IDD4R - IDD3N) * of_Z (burst_cycle c) * devices)%D
    (VDD * (IDD4W - IDD3N) * of_Z (burst_cycle c) * devices)%D
    (VDD * (IDD5AB - IDD3N) * of_Z (tRFC c) * devices)%D
    (VDD * (IDD5PB - IDD3N) * of_Z (tRFCb c) * devices)%D
    (VDD * IDD3N * devices)%D (VDD * IDD2N * devices)%D
    (VDD * IDD2P * devices)%D (VDD * IDD6x * devices)%D.

(** ** Floating-point statistics *)

Inductive printed : Type := PInt (z : Z) | PDouble (d : double).

Record FloatStats : Type := MkFloatStats {
  doubles_ : gmap string double;
  vec_doubles_ : gmap string (list double);
  calculated_ : gmap string double;
  histo_headers_ : gmap string (list string);
  print_pairs_ : list (string * printed) }.

#[export] Instance FloatStats_eta : RecordEta FloatStats := λ f, MkFloatStats
  (doubles_ f) (vec_doubles_ f) (calculated_ f) (histo_headers_ f) (print_pairs_ f).

(** [std::to_string] of an [int] in a name. *)
Definition to_string (z : Z) : string := pretty z.

Definition double_names : list string :=
  ["act_energy"; "read_energy"; "write_energy"; "ref_energy"; "refb_energy"]%string.
Definition vec_double_names : list string :=
  ["act_stb_energy"; "pre_stb_energy"; "sref_energy"]%string.
Definition calculated_names : list string :=
  ["average_bandwidth"; "total_energy"; "average_power"; "average_read_latency";
   "average_interarrival"]%string.

(** The headers that [InitHistoStat] makes for a histogram. *)
Definition make_headers (name : string) (start_val end_val num_bins : Z) : res (list string) :=
  bin_width ← int_div (end_val - start_val) num_bins;
  Ok ((name +:+ "[-" +:+ to_string start_val +:+ "]")
    :: ((λ i, name +:+ "[" +:+ to_string (start_val + (i - 1) * bin_width) +:+ "-"
                   +:+ to_string (start_val + i * bin_width - 1) +:+ "]")
          <$> seqZ 1 num_bins)
    ++ [name +:+ "[" +:+ to_string end_val +:+ "-]"])%string.

Definition init_headers (h : string * Z * Z * Z) (f : FloatStats) : res FloatStats :=
  let '(name, start_val, end_val, num_bins) := h in
  headers ← make_headers name start_val end_val num_bins;
  Ok (f <| histo_headers_ ::= emplace name headers |>).

Definition histo_inits : list (string * Z * Z * Z) :=
  [("read_latency", 0, 200, 10); ("write_latency", 0, 200, 10);
   ("interarrival_latency", 0, 100, 10)]%string.

(** The rest of the constructor [SimpleStats(config, channel_id)]. *)
Definition FloatStats_new (config : Config) : res FloatStats :=
  foldM init_headers histo_inits (MkFloatStats
    (foldl (λ m n, emplace n d0 m) ∅ double_names)
    (foldl (λ m n, emplace n (replicate (Z.to_nat (ranks config)) d0) m) ∅ vec_double_names)
    (foldl (λ m n, emplace n d0 m) ∅ calculated_names) ∅ []).

(** [map[name] = v] and [v[i] = x] on a vector of the map. *)
Definition set_double (name : string) (d : double) (f : FloatStats) : FloatStats :=
  f <| doubles_ ::= <[name := d]> |>.
Definition set_calculated (name : string) (d : double) (f : FloatStats) : FloatStats :=
  f <| calculated_ ::= <[name := d]> |>.
Definition set_vec_double (name : string) (i : Z) (d : double) (f : FloatStats)
    : res FloatStats :=
  v ← vec_modify (at_or [] (vec_doubles_ f) name) i (λ _, Ok d);
  Ok (f <| vec_doubles_ ::= <[name := v]> |>).

Definition GetHistoAvg (h : HistoCount) : double :=
  if decide (histo_count h = 0) then d0
  else (of_Z (histo_sum h) / of_Z (histo_count h))%D.

(** [ref_counters[name]] and [ref_vcounters[name][i]]. *)
Definition counter (m : gmap string Z) (name : string) : Z := at_or 0 m name.
Definition vec_counter (m : gmap string (list Z)) (name : string) (i : Z) : res Z :=
  of_option OutOfRange (vlookup (at_or [] m name) i).

(** The energies of the commands counted in [m]. *)
Definition command_energies (p : PowerParams) (m : gmap string Z) (f : FloatStats) : FloatStats :=
  let e name inc := (of_Z (counter m name) * inc)%D in
  set_double "refb_energy" (e "num_refb_cmds" (refb_energy_inc p))
  (set_double "ref_energy" (e "num_ref_cmds" (ref_energy_inc p))
  (set_double "write_energy" (e "num_write_cmds" (write_energy_inc p))
  (set_double "read_energy" (e "num_read_cmds" (read_energy_inc p))
  (set_double "act_energy" (e "num_act_cmds" (act_energy_inc p)) f)))).

(** The standby and self-refresh energy of rank [i]. *)
Definition rank_energy (p : PowerParams) (v : gmap string (list Z)) (i : Z)
    (st : FloatStats * double) : res (FloatStats * double) :=
  let '(f, background_energy) := st in
  active ← vec_counter v "rank_active_cycles" i;
  idle ← vec_counter v "all_bank_idle_cycles" i;
  sref ← vec_counter v "sref_cycles" i;
  let act_stb := (of_Z active * act_stb_energy_inc p)%D in
  let pre_stb := (of_Z idle * pre_stb_energy_inc p)%D in
  let sref_energy := (of_Z sref * sref_energy_inc p)%D in
  f ← set_vec_double "act_stb_energy" i act_stb f;
  f ← set_vec_double "pre_stb_energy" i pre_stb f;
  f ← set_vec_double "sref_energy" i sref_energy f;
  Ok (f, (background_energy + (act_stb + pre_stb + sref_energy))%D).

(** The total energy, summed in the order of the code. *)
Definition sum_energies (f : FloatStats) (background_energy : double) : double :=
  let d n := at_or d0 (doubles_ f) n in
  (d "act_energy"%string + d "read_energy"%string + d "write_energy"%string
   + d "ref_energy"%string + d "refb_energy"%string + background_energy)%D.

(** The energies of the commands and ranks: the part of the update that runs
    before the histograms.  Returns the background energy too. *)
Definition update_energies (config : Config) (p : PowerParams) (m : gmap string Z)
    (v : gmap string (list Z)) (f : FloatStats) : res (FloatStats * double) :=
  for_upto (ranks config) (rank_energy p v) (command_energies p m f, d0).

(** The calculated statistics of the counts [m] and histograms [h]. *)
Definition update_calculated (config : Config) (p : PowerParams) (m : gmap string Z)
    (h : gmap string HistoCount) (background_energy : double) (f : FloatStats)
    : res FloatStats :=
  let total_reqs := u64 (counter m "num_reads_done" + counter m "num_writes_done") in
  let total_time := (of_Z (counter m "num_cycles") * tCK p)%D in
  let avg_bw := (of_Z (u64 (total_reqs * u64 (request_size_bytes config))) / total_time)%D in
  let total_energy := sum_energies f background_energy in
  reads ← of_option UncaughtException (h !! "read_latency"%string);
  arrivals ← of_option UncaughtException (h !! "interarrival_latency"%string);
  Ok (set_calculated "average_interarrival" (GetHistoAvg arrivals)
     (set_calculated "average_read_latency" (GetHistoAvg reads)
     (set_calculated "average_power" (total_energy / of_Z (counter m "num_cycles"))%D
     (set_calculated "total_energy" total_energy
     (set_calculated "average_bandwidth" avg_bw f))))).

(** ** The printed pairs *)

Definition indexed_names {A} (name : string) (g : A → printed) (v : list A)
    : list (string * printed) :=
  imap (λ i x, (name +:+ "." +:+ to_string (Z.of_nat i), g x)%string) v.

(** [names[i]] for every bin. *)
Fixpoint zip_headers (names : list string) (bins : list Z) : res (list (string * printed)) :=
  match bins, names with
  | [], _ => Ok []
  | _ :: _, [] => Fault OutOfRange
  | b :: bins', n :: names' => r ← zip_headers names' bins'; Ok ((n, PInt b) :: r)
  end.

Definition UpdatePrints (epoch : bool) (s : SimpleStats) (f : FloatStats) : res FloatStats :=
  let ref_counters := if epoch then epoch_counters_ s else counters_ s in
  let ref_vcounter := if epoch then epoch_vec_counters_ s else vec_counters_ s in
  let ref_hbins := if epoch then epoch_histo_bins_ s else histo_bins_ s in
  let f := f <| print_pairs_ ::= λ l, l
    ++ ((λ p, (p.1, PInt p.2)) <$> map_to_list ref_counters)
    ++ (map_to_list ref_vcounter ≫= λ p, indexed_names p.1 PInt p.2) |> in
  f ← foldM (λ p f,
        r ← zip_headers (at_or [] (histo_headers_ f) p.1) p.2;
        Ok (f <| print_pairs_ ::= λ l, l ++ r |>))
      (map_to_list ref_hbins) f;
  Ok (f <| print_pairs_ ::= λ l, l
    ++ ((λ p, (p.1, PDouble p.2)) <$> map_to_list (doubles_ f))
    ++ (map_to_list (vec_doubles_ f) ≫= λ p, indexed_names p.1 PDouble p.2)
    ++ ((λ p, (p.1, PDouble p.2)) <$> map_to_list (calculated_ f)) |>).

(** ** The whole of [UpdateEpochStats] and [UpdateFinalStats] *)

Definition UpdateEpochStats_all (config : Config) (p : PowerParams) (s : SimpleStats)
    (f : FloatStats) : res (SimpleStats * FloatStats) :=
  s ← UpdateCounters s;
  '(f, background_energy) ←
    update_energies config p (epoch_counters_ s) (epoch_vec_counters_ s) f;
  s ← UpdateHistoBins s;
  f ← update_calculated config p (epoch_counters_ s) (epoch_histo_counts_ s)
        background_energy f;
  f ← UpdatePrints true s f;
  Ok (s <| epoch_counters_ ::= zero_counters |>
        <| epoch_vec_counters_ ::= zero_vecs |>
        <| epoch_histo_counts_ ::= clear_histos |>, f).

Definition UpdateFinalStats_all (config : Config) (p : PowerParams) (s : SimpleStats)
    (f : FloatStats) : res (SimpleStats * FloatStats) :=
  s ← UpdateCounters s;
  '(f, background_energy) ← update_energies config p (counters_ s) (vec_counters_ s) f;
  s ← UpdateHistoBins s;
  f ← update_calculated config p (counters_ s) (histo_counts_ s) background_energy f;
  f ← UpdatePrints false s f;
  Ok (s, f).

(** [PrintEpochStats] and [PrintFinalStats]: what they print at an output
    level that shows the text, and the pairs cleared for the next time. *)
Definition PrintEpochStats (config : Config) (p : PowerParams) (s : SimpleStats)
    (f : FloatStats) : res (SimpleStats * FloatStats * list (string * printed)) :=
  '(s, f) ← UpdateEpochStats_all config p s f;
  Ok (s, f <| print_pairs_ := [] |>,
      if decide (2 ≤ output_level config) then print_pairs_ f else []).

Definition PrintFinalStats (config : Config) (p : PowerParams) (s : SimpleStats)
    (f : FloatStats) : res (SimpleStats * FloatStats * list (string * printed)) :=
  '(s, f) ← UpdateFinalStats_all config p s f;
  Ok (s, f <| print_pairs_ := [] |>,
      if decide (1 ≤ output_level config) then print_pairs_ f else []).

(** [Reset]: the floating-point members are zeroed, entry by entry. *)
Definition FloatStats_Reset (f : FloatStats) : FloatStats :=
  f <| doubles_ ::= fmap (λ _, d0) |>
    <| vec_doubles_ ::= fmap (λ v : list double, (λ _, d0) <$> v) |>
    <| calculated_ ::= fmap (λ _, d0) |>.

(** ** Invariant of the floating-point statistics *)

(** The per-rank energies have a slot for every rank, every bin has a header,
    and the two averaged histograms are registered. *)
Record floats_ok (c : Config) (s : SimpleStats) (f : FloatStats) : Prop := {
  fo_ranks : ∀ n, n ∈ vec_double_names →
    length (at_or [] (vec_doubles_ f) n) = Z.to_nat (ranks c);
  fo_headers : ∀ n, (length (at_or [] (epoch_histo_bins_ s) n)
                     ≤ length (at_or [] (histo_headers_ f) n))%nat;
  fo_histos : ∀ n, n ∈ ["read_latency"; "interarrival_latency"]%string →
    is_Some (histo_counts_ s !! n) ∧ is_Some (epoch_histo_counts_ s !! n) }.

Lemma fill_bins_length bounds width counts bins b :
  fill_bins bounds width counts bins = Ok b → length b = length bins.
Proof.
  unfold fill_bins. intros H. revert H.
  apply (foldM_preserves _ (λ b, length b = length bins)); [|by rewrite length_fmap].
  intros p b1 b2 _ Hb1 H. simplify_res. apply vec_modify_inv in H as (? & ? & _ & _ & Hl & _).
  congruence.
Qed.

Lemma UpdateHistoBins_shape s s' :
  UpdateHistoBins s = Ok s' →
  (∀ n, length (at_or [] (epoch_histo_bins_ s') n) = length (at_or [] (epoch_histo_bins_ s) n)) ∧
  (∀ n, is_Some (histo_counts_ s !! n) → is_Some (histo_counts_ s' !! n)) ∧
  epoch_histo_counts_ s' = epoch_histo_counts_ s ∧
  epoch_counters_ s' = epoch_counters_ s ∧ counters_ s' = counters_ s.
Proof.
  unfold UpdateHistoBins. intros H. apply bind_Ok_inv in H as (bins & Hbins & H).
  apply bind_Ok_inv in H as ([fc fb] & Hf & H). simplify_res. simpl. split_and!; try done.
  - intros n. apply same_lengths_at. revert Hbins.
    apply (foldM_preserves _ (λ m, same_lengths m (epoch_histo_bins_ s))); [|apply same_lengths_refl].
    intros p m1 m2 Hin Hm1 Hrun. apply bind_Ok_inv in Hrun as (b & Hb & [= <-]).
    destruct p as [k v]. apply elem_of_map_to_list in Hin.
    eapply same_lengths_insert; [done|done|]. by eapply fill_bins_length.
  - intros n Hn. revert Hf. apply (foldM_preserves _ (λ acc, is_Some (acc.1 !! n))); [|done].
    intros [k v] acc1 acc2 _ Hacc Hrun. apply bind_Ok_inv in Hrun as (w & _ & [= <-]). simpl.
    destruct (decide (n = k)) as [->|]; [rewrite lookup_insert_eq|rewrite lookup_insert_ne]; done.
Qed.

Lemma UpdateCounters_shape s s' :
  UpdateCounters s = Ok s' →
  epoch_histo_bins_ s' = epoch_histo_bins_ s ∧ histo_counts_ s' = histo_counts_ s ∧
  epoch_histo_counts_ s' = epoch_histo_counts_ s ∧ epoch_counters_ s' = epoch_counters_ s ∧
  epoch_vec_counters_ s' = epoch_vec_counters_ s.
Proof. unfold UpdateCounters. intros H. by simplify_res. Qed.

(** *** The energies of the ranks *)

Lemma set_vec_double_ok c s n i d f :
  floats_ok c s f → n ∈ vec_double_names → 0 ≤ i < ranks c →
  ensures (set_vec_double n i d f) (λ f',
    floats_ok c s f' ∧ doubles_ f' = doubles_ f ∧ print_pairs_ f' = print_pairs_ f).
Proof.
  intros [H1 H2 H3] Hn Hi. unfold set_vec_double. pose proof (H1 n Hn) as Hl.
  destruct (vlookup_lt (at_or [] (vec_doubles_ f) n) i) as [x Hx]; [lia|].
  destruct (vec_modify_Ok _ i (λ _, Ok d) _ _ Hx eq_refl) as (w & -> & Hw & _). simpl.
  apply ensures_ret. split; [|done]. constructor; [|done..].
  intros m Hm. unfold at_or. simpl. destruct (decide (m = n)) as [->|].
  - rewrite lookup_insert_eq. simpl. congruence.
  - rewrite lookup_insert_ne by done. by apply H1.
Qed.

(** The counters of a rank exist in both sets of per-rank counters. *)
Definition vecs_ok (c : Config) (v : gmap string (list Z)) : Prop :=
  ∀ n, n ∈ vec_counter_names → length (at_or [] v n) = Z.to_nat (ranks c).

Lemma stats_ok_vecs c s : stats_ok c s → vecs_ok c (epoch_vec_counters_ s) ∧ vecs_ok c (vec_counters_ s).
Proof.
  intros [H1 H2 _ _]. split; intros n Hn; destruct (H1 n Hn) as (v & Hv & Hl); unfold at_or.
  - by rewrite Hv.
  - destruct (H2 n v Hv) as (w & -> & Hw). simpl. congruence.
Qed.

Lemma vec_counter_ok c v n i :
  vecs_ok c v → n ∈ vec_counter_names → 0 ≤ i < ranks c → ensures (vec_counter v n i) (λ _, True).
Proof.
  intros Hv Hn Hi. unfold vec_counter. destruct (vlookup_lt (at_or [] v n) i) as [x ->].
  - rewrite Hv by done. lia.
  - by apply ensures_ret.
Qed.

Lemma rank_energy_ok c s p v i f d dbl :
  floats_ok c s f → doubles_ f = dbl → print_pairs_ f = [] → vecs_ok c v → 0 ≤ i < ranks c →
  ensures (rank_energy p v i (f, d)) (λ r,
    floats_ok c s r.1 ∧ doubles_ r.1 = dbl ∧ print_pairs_ r.1 = []).
Proof.
  intros Hf Hd Hp Hv Hi. unfold rank_energy.
  do 3 (eapply ensures_bind; [by eapply vec_counter_ok; [done|set_solver|done]|intros ? _]).
  eapply ensures_bind; [by apply set_vec_double_ok; [done|set_solver|done]|].
  intros f1 (H1 & H1d & H1p).
  eapply ensures_bind; [by apply set_vec_double_ok; [done|set_solver|done]|].
  intros f2 (H2 & H2d & H2p).
  eapply ensures_bind; [by apply set_vec_double_ok; [done|set_solver|done]|].
  intros f3 (H3 & H3d & H3p). apply ensures_ret. simpl. split_and!; [done|congruence..].
Qed.

Lemma update_energies_ok c s p m v f :
  floats_ok c s f → print_pairs_ f = [] → vecs_ok c v →
  ensures (update_energies c p m v f) (λ r,
    floats_ok c s r.1 ∧ doubles_ r.1 = doubles_ (command_energies p m f) ∧ print_pairs_ r.1 = []).
Proof.
  intros Hf Hp Hv. apply for_upto_ensures.
  - intros i [f1 d] Hi (H1 & H2 & H3). by eapply rank_energy_ok.
  - split; [|done]. by destruct Hf.
Qed.

(** *** Printing *)

Lemma zip_headers_ok names bins :
  (length bins ≤ length names)%nat → ensures (zip_headers names bins) (λ _, True).
Proof.
  revert names; induction bins as [|b bins IH]; intros [|n names] H; simpl in *;
    try (by apply ensures_ret); [lia|].
  eapply ensures_bind; [apply IH; lia|]. intros r _. by apply ensures_ret.
Qed.

(** What is printed: at least these pairs; only [print_pairs_] changes. *)
Lemma UpdatePrints_ok c epoch s f :
  stats_ok c s → floats_ok c s f →
  ensures (UpdatePrints epoch s f) (λ f',
    floats_ok c s f' ∧ doubles_ f' = doubles_ f ∧ calculated_ f' = calculated_ f ∧
    (∀ n z, (if epoch then epoch_counters_ s else counters_ s) !! n = Some z →
       (n, PInt z) ∈ print_pairs_ f') ∧
    (∀ n d, doubles_ f !! n = Some d ∨ calculated_ f !! n = Some d →
       (n, PDouble d) ∈ print_pairs_ f')).
Proof.
  intros Hs Hf. unfold UpdatePrints. set (f1 := f <| print_pairs_ ::= _ |>).
  set (same := λ f' : FloatStats, doubles_ f' = doubles_ f ∧ vec_doubles_ f' = vec_doubles_ f ∧
    calculated_ f' = calculated_ f ∧ histo_headers_ f' = histo_headers_ f ∧
    print_pairs_ f1 ⊆ print_pairs_ f').
  eapply (ensures_bind _ _ same).
  - apply foldM_ensures; [|done]. intros [n b] f2 Hin (H1 & H2 & H3 & H4 & H5).
    apply elem_of_map_to_list in Hin. cbn [fst snd].
    eapply ensures_bind; [apply zip_headers_ok|].
    + rewrite H4. destruct Hf as [_ Hh _]. specialize (Hh n). destruct Hs as [_ _ _ Ht].
      assert (length b = length (at_or [] (epoch_histo_bins_ s) n)) as ->; [|done].
      destruct epoch; [unfold at_or; by rewrite Hin|]. rewrite <- Ht. unfold at_or. by rewrite Hin.
    + intros r _. apply ensures_ret. split_and!; try done. simpl. set_solver.
  - intros f2 (H1 & H2 & H3 & H4 & H5). apply ensures_ret. split_and!; try done.
    + destruct Hf as [F1 F2 F3]. constructor; simpl; [by rewrite H2|by rewrite H4|done].
    + intros n z Hn. simpl. apply elem_of_app. left. apply H5. simpl.
      apply elem_of_app. right. apply elem_of_app. left.
      apply list_elem_of_fmap. exists (n, z). split; [done|]. by apply elem_of_map_to_list.
    + intros n d Hn. simpl. rewrite H1, H3. rewrite !elem_of_app. right.
      destruct Hn as [Hn|Hn]; [left|right; right];
        (apply list_elem_of_fmap; exists (n, d); split; [done|by apply elem_of_map_to_list]).
Qed.

(** A lookup in a chain of insertions at other, literal keys. *)
Ltac lookup_inserts := repeat (rewrite lookup_insert_ne; [|done]); rewrite lookup_insert_eq.

Lemma update_calculated_ok c s p m h d f :
  floats_ok c s f → (∀ n, n ∈ ["read_latency"; "interarrival_latency"]%string → is_Some (h !! n)) →
  ensures (update_calculated c p m h d f) (λ f',
    floats_ok c s f' ∧ doubles_ f' = doubles_ f ∧
    calculated_ f' !! "total_energy"%string = Some (sum_energies f d) ∧
    calculated_ f' !! "average_power"%string
      = Some (sum_energies f d / of_Z (counter m "num_cycles"))%D).
Proof.
  intros Hf Hh. unfold update_calculated.
  destruct (Hh "read_latency"%string) as [r ->]; [set_solver|].
  destruct (Hh "interarrival_latency"%string) as [a ->]; [set_solver|].
  apply ensures_ret. split_and!; [by destruct Hf|done|..]; simpl; by lookup_inserts.
Qed.

(** The energies that are counts times the energy of one command. *)
Definition energy_table (p : PowerParams) : list (string * string * double) :=
  [("act_energy", "num_act_cmds", act_energy_inc p);
   ("read_energy", "num_read_cmds", read_energy_inc p);
   ("write_energy", "num_write_cmds", write_energy_inc p);
   ("ref_energy", "num_ref_cmds", ref_energy_inc p);
   ("refb_energy", "num_refb_cmds", refb_energy_inc p)]%string.

Lemma command_energies_table p m f name cmd inc :
  (name, cmd, inc) ∈ energy_table p →
  doubles_ (command_energies p m f) !! name = Some (of_Z (counter m cmd) * inc)%D.
Proof.
  intros H. repeat (apply elem_of_cons in H as [[= -> -> ->]|H]; [simpl; by lookup_inserts|]).
  by apply not_elem_of_nil in H.
Qed.

(** The counters that the text shows, and the doubles, with their values. *)
Definition shows (out : list (string * printed)) (m : gmap string Z) (f : FloatStats) : Prop :=
  (∀ n z, m !! n = Some z → (n, PInt z) ∈ out) ∧
  (∀ n d, doubles_ f !! n = Some d ∨ calculated_ f !! n = Some d → (n, PDouble d) ∈ out).

(** The energies of [f] are those of the counts [m]. *)
Definition energies_of (p : PowerParams) (m : gmap string Z) (f : FloatStats) : Prop :=
  (∀ name cmd inc, (name, cmd, inc) ∈ energy_table p →
     doubles_ f !! name = Some (of_Z (counter m cmd) * inc)%D) ∧
  ∃ e, calculated_ f !! "total_energy"%string = Some e ∧
    calculated_ f !! "average_power"%string = Some (e / of_Z (counter m "num_cycles"))%D ∧
    ∃ background, e = sum_energies f background.

(** The floating-point part of both updates: counts [m], per-rank counters [v]
    and histograms [h], printed from the statistics [s]. *)
Lemma float_update_ok c s p m v (h : gmap string HistoCount) (epoch : bool) f :
  stats_ok c s → floats_ok c s f → print_pairs_ f = [] → vecs_ok c v →
  (∀ n, n ∈ ["read_latency"; "interarrival_latency"]%string → is_Some (h !! n)) →
  m = (if epoch then epoch_counters_ s else counters_ s) →
  ∃ f1 background f2 f3,
    update_energies c p m v f = Ok (f1, background) ∧
    update_calculated c p m h background f1 = Ok f2 ∧ UpdatePrints epoch s f2 = Ok f3 ∧
    floats_ok c s f3 ∧ energies_of p m f3 ∧ shows (print_pairs_ f3) m f3.
Proof.
  intros Hs Hf Hp Hv Hh Hm.
  destruct (update_energies_ok c s p m v f) as ([f1 bg] & -> & C1 & C2 & C3); [done..|].
  cbn [fst] in *.
  destruct (update_calculated_ok c s p m h bg f1) as (f2 & Hc & D1 & D2 & D3 & D4); [done..|].
  destruct (UpdatePrints_ok c epoch s f2) as (f3 & Hu & E1 & E2 & E3 & E4 & E5); [done..|].
  exists f1, bg, f2, f3. split_and!; try done.
  - split.
    + intros name cmd inc Hin. rewrite E2, D2, C2. by apply command_energies_table.
    + exists (sum_energies f1 bg). rewrite E3. split_and!; [done..|].
      exists bg. unfold sum_energies. by rewrite E2, D2.
  - split; [by rewrite Hm|]. by rewrite E2, E3.
Qed.

(** Folding the epoch into the totals leaves the floating-point members sound. *)
Lemma fold_epoch_ok c s f :
  stats_ok c s → floats_ok c s f →
  ∃ s1 s2, UpdateCounters s = Ok s1 ∧ UpdateHistoBins s1 = Ok s2 ∧ stats_ok c s1 ∧ stats_ok c s2 ∧
    floats_ok c s2 f ∧ epoch_counters_ s1 = epoch_counters_ s ∧ epoch_counters_ s2 = epoch_counters_ s ∧
    counters_ s2 = counters_ s1.
Proof.
  intros Hs [F1 F2 F3].
  destruct (UpdateCounters_ok c s Hs) as (s1 & H1 & Hs1).
  destruct (UpdateHistoBins_ok c s1 Hs1) as (s2 & H2 & Hs2).
  destruct (UpdateCounters_shape _ _ H1) as (A1 & A2 & A3 & A4 & A5).
  destruct (UpdateHistoBins_shape _ _ H2) as (B1 & B2 & B3 & B4 & B5).
  exists s1, s2. split_and!; try done; [|congruence].
  constructor; [done|intros n; by rewrite B1, A1|]. intros n Hn. destruct (F3 n Hn).
  rewrite B3, A3. split; [apply B2; by rewrite A2|done].
Qed.

Lemma UpdateEpochStats_all_ok c p s f :
  stats_ok c s → floats_ok c s f → print_pairs_ f = [] →
  ensures (UpdateEpochStats_all c p s f) (λ r,
    UpdateEpochStats s = Ok r.1 ∧ stats_ok c r.1 ∧ floats_ok c r.1 r.2 ∧
    energies_of p (epoch_counters_ s) r.2 ∧ shows (print_pairs_ r.2) (epoch_counters_ s) r.2).
Proof.
  intros Hs Hf Hp. destruct (UpdateEpochStats_ok c s Hs) as (s' & Hrun & Hs').
  destruct (fold_epoch_ok c s f Hs Hf) as (s1 & s2 & H1 & H2 & Hs1 & Hs2 & Hf2 & E1 & E2 & _).
  destruct (float_update_ok c s2 p (epoch_counters_ s) (epoch_vec_counters_ s1)
    (epoch_histo_counts_ s2) true f) as (f1 & bg & f2 & f3 & R1 & R2 & R3 & G & He & Hsh);
    [done|done|done|apply (stats_ok_vecs _ _ Hs1)|intros n Hn; by apply (fo_histos _ _ _ Hf2)|done|].
  unfold UpdateEpochStats in Hrun. rewrite H1 in Hrun. cbn [mbind res_bind] in Hrun.
  rewrite H2 in Hrun. cbn [mbind res_bind] in Hrun. injection Hrun as <-.
  unfold UpdateEpochStats_all, UpdateEpochStats. rewrite H1. cbn [mbind res_bind].
  rewrite E1, R1, H2. cbn [mbind res_bind]. rewrite E2, R2. cbn [mbind res_bind].
  rewrite R3. apply ensures_ret. split_and!; [done|done| |done..].
  destruct G as [G1 G2 G3]. constructor; [done|done|]. intros n Hn. destruct (G3 n Hn) as [? [h Hh]].
  split; [done|]. simpl. unfold clear_histos. rewrite lookup_fmap, Hh. by eexists.
Qed.

Lemma UpdateFinalStats_all_ok c p s f :
  stats_ok c s → floats_ok c s f → print_pairs_ f = [] →
  ensures (UpdateFinalStats_all c p s f) (λ r,
    UpdateFinalStats s = Ok r.1 ∧ stats_ok c r.1 ∧ floats_ok c r.1 r.2 ∧
    energies_of p (counters_ r.1) r.2 ∧ shows (print_pairs_ r.2) (counters_ r.1) r.2).
Proof.
  intros Hs Hf Hp.
  destruct (fold_epoch_ok c s f Hs Hf) as (s1 & s2 & H1 & H2 & Hs1 & Hs2 & Hf2 & _ & _ & E3).
  destruct (float_update_ok c s2 p (counters_ s1) (vec_counters_ s1)
    (histo_counts_ s2) false f) as (f1 & bg & f2 & f3 & R1 & R2 & R3 & G & He & Hsh);
    [done|done|done|apply (stats_ok_vecs _ _ Hs1)|intros n Hn; by apply (fo_histos _ _ _ Hf2)|done|].
  unfold UpdateFinalStats_all, UpdateFinalStats. rewrite H1. cbn [mbind res_bind].
  rewrite R1, H2. cbn [mbind res_bind]. rewrite E3, R2. cbn [mbind res_bind].
  rewrite R3. apply ensures_ret. cbn [fst snd]. by rewrite E3.
Qed.

(** The constructor; its headers do not depend on the configuration. *)
Definition initial_headers : gmap string (list string) :=
  Eval vm_compute in
    match foldM init_headers histo_inits (MkFloatStats ∅ ∅ ∅ ∅ []) with
    | Ok f => histo_headers_ f
    | Fault _ => ∅
    end.

Lemma FloatStats_new_run c :
  FloatStats_new c = Ok (MkFloatStats
    (foldl (λ m n, emplace n d0 m) ∅ double_names)
    (foldl (λ m n, emplace n (replicate (Z.to_nat (ranks c)) d0) m) ∅ vec_double_names)
    (foldl (λ m n, emplace n d0 m) ∅ calculated_names) initial_headers []).
Proof. unfold FloatStats_new. vm_compute. reflexivity. Qed.

Lemma FloatStats_new_ok c s :
  SimpleStats_new c = Ok s → ensures (FloatStats_new c) (λ f, floats_ok c s f ∧ print_pairs_ f = []).
Proof.
  intros Hs. rewrite FloatStats_new_run. apply ensures_ret. split; [|done].
  destruct (SimpleStats_new_histos c) as (s' & Hs' & _ & Hb & _).
  rewrite Hs in Hs'. injection Hs' as <-. constructor; cbn [vec_doubles_ histo_headers_].
  - intros n Hn. unfold at_or. rewrite emplace_all_lookup, decide_True by done. apply length_replicate.
  - intros n. rewrite Hb. unfold at_or at 1. destruct (initial_histos !! n) as [b|] eqn:E; [|simpl; lia].
    apply elem_of_list_to_map_2 in E.
    repeat (apply elem_of_cons in E as [[= -> ->]|E]; [vm_compute; lia|]). by apply not_elem_of_nil in E.
  - intros n Hn. revert Hs. intros [= <-].
    repeat (apply elem_of_cons in Hn as [->|Hn]; [split; vm_compute; eauto|]).
    by apply not_elem_of_nil in Hn.
Qed.

(** ** Properties *)


Definition sample_real : string → string → double → double := λ _ _ d, d.
Definition sample_power : PowerParams := InitPowerParams sample_real sample_config.

(** Ten activations, four reads and two hundred cycles of an epoch. *)
Definition sample_epoch : res (SimpleStats * FloatStats) :=
  s ← SimpleStats_new sample_config;
  f ← FloatStats_new sample_config;
  let incs n k s := Nat.iter k (Increment n) s in
  Ok (incs "num_act_cmds" 10%nat (incs "num_read_cmds" 4%nat (incs "num_cycles" 200%nat s)), f)%string.

Lemma incs_ok c n k s : stats_ok c s → stats_ok c (Nat.iter k (Increment n) s).
Proof. intros Hs. induction k as [|k IH]; simpl; [done|by apply Increment_ok]. Qed.

Lemma incs_floats_ok c n k s f : floats_ok c s f → floats_ok c (Nat.iter k (Increment n) s) f.
Proof. intros Hs. induction k as [|k IH]; simpl; [done|]. by destruct IH. Qed.

Lemma sample_epoch_ok :
  ∃ s f, sample_epoch = Ok (s, f) ∧ stats_ok sample_config s ∧ floats_ok sample_config s f ∧
    print_pairs_ f = [].
Proof.
  destruct (SimpleStats_new_ok sample_config) as (s & Hs & Hok).
  destruct (FloatStats_new_ok sample_config s Hs) as (f & Hf & Hfo & Hp).
  unfold sample_epoch. rewrite Hs. cbn [mbind res_bind]. rewrite Hf. do 2 eexists.
  split; [reflexivity|]. split_and!; [by repeat apply incs_ok|by repeat apply incs_floats_ok|done].
Qed.


(** The sample epoch draws power. *)
Example sample_epoch_power :
  res_check ('(s, f) ← sample_epoch; PrintEpochStats sample_config sample_power s f)
    (λ r, match calculated_ r.1.2 !! "average_power"%string with
          | Some d => dlt (of_Z 0) d
          | None => false
          end) = true.
Proof. vm_compute. reflexivity. Qed.

(** The same at the end of the run, for the totals. *)
Lemma final_statistics c p s f :
  stats_ok c s → floats_ok c s f → print_pairs_ f = [] →
  ∃ s' f' out, PrintFinalStats c p s f = Ok (s', f', out) ∧
    UpdateFinalStats s = Ok s' ∧ stats_ok c s' ∧ floats_ok c s' f' ∧ print_pairs_ f' = [] ∧
    energies_of p (counters_ s') f' ∧ (1 ≤ output_level c → shows out (counters_ s') f').
Proof.
  intros Hs Hf Hp.
  destruct (UpdateFinalStats_all_ok c p s f Hs Hf Hp) as ([s' f'] & Hrun & H1 & H2 & [G1 G2 G3] & H4 & H5).
  unfold PrintFinalStats. rewrite Hrun. do 3 eexists. split; [done|].
  split_and!; try done. by intros Hl; rewrite decide_True by done.
Qed.
