(* ===== verification/Tuning.v ===== *)
(** * Tuning: the tuning parameters of the sparse solver (src/src/sp_ienv.c)

    SuperLU asks [sp_ienv] for its parameters.  The table is chosen when the
    file is compiled, by comparing the macro [MACH] with the machines that a
    header of SuperLU numbers; the preprocessor takes an undefined macro for 0,
    so where neither is defined the first table is the one.  The error handler
    [xerbla_] of SuperLU prints and returns. *)

From S2P Require Import Prelude.
Local Open Scope Z_scope.

(** The macros, as the preprocessor compares them. *)
Record Machines : Type := MkMachines {
  MACH : Z; SGI : Z; ORIGIN : Z; DEC : Z; CRAY_PVP : Z; SUN : Z }.

(** Without the header every macro is 0. *)
Definition undefined_machines : Machines := MkMachines 0 0 0 0 0 0.

(** The parameters 1 to 5 of a machine: the panel size, the relaxation, the
    largest supernode, and the least rows and columns of 2-D blocking. *)
Definition machine_table (m : Machines) : list Z :=
  if decide (MACH m = SGI m) then [20; 6; 100; 800; 100]
  else if decide (MACH m = ORIGIN m) then [12; 6; 100; 400; 100]
  else if decide (MACH m = DEC m) then [16; 6; 50; 100; 40]
  else if decide (MACH m = CRAY_PVP m) then [1; 6; 64; 400; 200]
  else if decide (MACH m = SUN m) then [8; 6; 100; 400; 40]
  else [8; 1; 200; 200; 40].

(** The value for [ispec], and whether [xerbla_] is called. *)
Definition sp_ienv (m : Machines) (ispec : Z) : Z * bool :=
  if decide (1 ≤ ispec ≤ 5) then (default 0 (vlookup (machine_table m) (ispec - 1)), false)
  else if decide (ispec = 6) then (-20, false)
  else if decide (ispec = 7 ∨ ispec = 8) then (-1000000, false)
  else (0, true).

(** On every machine the parameters 1 to 5 are positive, the others are growth
    factors, and there are no more. *)
Lemma sp_ienv_ranges m ispec :
  (1 ≤ ispec ≤ 5 → 0 < (sp_ienv m ispec).1) ∧ (6 ≤ ispec ≤ 8 → (sp_ienv m ispec).1 < 0) ∧
  ((sp_ienv m ispec).2 = true ↔ ¬ 1 ≤ ispec ≤ 8).
Proof.
  unfold sp_ienv. repeat case_decide; cbn [fst snd]; (split; [|split]); try lia; try (split; done || lia).
  intros _. assert (Forall (λ v, 0 < v) (machine_table m)) as Hall
    by (unfold machine_table; repeat case_decide; repeat constructor).
  assert (length (machine_table m) = 5%nat) as Hl by (unfold machine_table; by repeat case_decide).
  destruct (vlookup_lt (machine_table m) (ispec - 1)) as [v Hv]; [lia|]. rewrite Hv. simpl.
  exact (Forall_vlookup _ _ _ _ Hall Hv).
Qed.

(** The documentation promises a negative value for an illegal argument; the
    value is 0. *)
Example illegal_argument : sp_ienv undefined_machines 9 = (0, true).
Proof. reflexivity. Qed.

(** Without the header the parameters are those of the first machine. *)
Example undefined_is_sgi : (sp_ienv undefined_machines 1).1 = 20.
Proof. reflexivity. Qed.
