(* ===== verification/Solver.v ===== *)
(** * Solver: the thermal network (src/src/thermal_solver.c, thermal_config.h)

    The chip is a grid of [dimX * dimZ] columns of [3 * numP + 1] nodes (the
    heat sink and the three layers of every die).  The file models the
    construction of the conductance matrix [Midx], a list of (row, column,
    value) triples kept in doubles, of the capacitances and of the initial
    temperatures, the explicit integration of the transient solver, and the
    arrays in compressed form that the steady solver hands to SuperLU.  The
    factorisation itself ([pdgssv]) is third-party code and a parameter.
    Allocations succeed; memory from [malloc] that is not cleared is a
    parameter where it is read or kept.  The printing is left out. *)

From Stdlib Require Import SpecFloat.
From S2P Require Import Prelude Double Configuration.
Local Open Scope Z_scope.

(** ** thermal_config.h *)

Definition M_PI : double := S754_finite false 7074237752028440 (-51).
Definition T0 : double := dec 27315 2.
Definition R_TSV : double := dec 5 6.
Definition Ksi : double := of_Z 148.
Definition Kcu : double := of_Z 401.
Definition Kin : double := dec 15 1.
Definition Khs : double := of_Z 4.
Definition Csi : double := of_Z 1660000.
Definition Ccu : double := of_Z 3200000.
Definition Cin : double := of_Z 1650000.
Definition Chs : double := of_Z 2420000.
Definition Hsi : double := dec 400 6.
Definition Hcu : double := dec 5 6.
Definition Hin : double := dec 20 6.
Definition Hhs : double := dec 1000 6.

(** The [switch (i % 3)] over the layers of a die. *)
Definition by_layer {A} (si cu ins : A) (i : Z) : A :=
  if decide (i `mod` 3 = 0) then si else if decide (i `mod` 3 = 1) then cu else ins.
Definition K_of : Z → double := by_layer Ksi Kcu Kin.
Definition H_of : Z → double := by_layer Hsi Hcu Hin.
Definition C_of : Z → double := by_layer Csi Ccu Cin.

(** [for (i = 0; i < n; i++) v[i] = f(i)] on a fresh array. *)
Definition tabulate {A} (n : Z) (f : Z → res A) : res (list A) :=
  foldM (λ i acc, x ← f i; Ok (acc ++ [x])) (seqZ 0 n) [].

Section grid.
Context (W Lc : double) (numP dimX dimZ : Z).

Definition numLayer : Z := numP * 3.
Definition gridX : double := W / of_Z dimX.
Definition gridZ : double := Lc / of_Z dimZ.

(** The heat sink is as large as the chip. *)
Definition Rsinkx : double := gridX / Khs / gridZ / Hhs.
Definition Rsinky : double := Hhs / Khs / gridX / gridZ.
Definition Rsinkz : double := gridZ / Khs / gridX / Hhs.
Definition Ramb : double := Rsinky / of_Z 2.

Definition initialize_Temperature (Tamb : double) : list double :=
  replicate (Z.to_nat (dimX * dimZ * (numLayer + 1))) Tamb.

(** [calculate_Cap_array]: the capacitance of a node of each layer. *)
Definition capacitance (i : Z) : double :=
  if decide (i = 0) then (Chs * Hhs * gridX * gridZ)%D
  else (C_of (i - 1) * H_of (i - 1) * gridX * gridZ)%D.

Definition calculate_Cap_array : list double := capacitance <$> seqZ 0 (numLayer + 1).

(** ** Resistances *)

(** [mapTSV[l]]: the row of TSVs that layer [l] belongs to, zero for none. *)
Definition mapTSV (l : Z) : Z :=
  if decide (l = numLayer - 2) then numP - 1
  else if decide (l = 0 ∨ l = numLayer - 1) then 0
  else (l - 1) / 3 + 1.

(** [TSV[i][j][k]]: allocated for [numP - 1] rows and filled with zeros. *)
Definition TSV (k : Z) : res double :=
  if decide (0 ≤ k < numP - 1) then Ok (of_Z 0) else Fault OutOfRange.

(** [Rvert[i][j][l + 1]] for the layer [l]. *)
Definition layer_Rvert (l : Z) : res double :=
  let tier := mapTSV l in
  if decide (tier ≠ 0)
  then
    tsv ← TSV (tier - 1);
    let area := (M_PI * R_TSV * R_TSV * tsv)%D in
    Ok (of_Z 1 / (of_Z 1 / (H_of l / K_of l / (gridX * gridZ - area))
                  + of_Z 1 / (H_of l / Kcu / area)))%D
  else Ok (H_of l / K_of l / (gridX * gridZ))%D.

(** [Rvert[i][j]], the same for every [i] and [j]. *)
Definition Rvert : res (list double) :=
  rest ← tabulate numLayer layer_Rvert; Ok (Rsinky :: rest).

(** [Rhori[l]], in the x and in the z direction. *)
Definition Rhori (l : Z) : double * double :=
  if decide (l = 0) then (Rsinkx, Rsinkz)
  else (gridX / K_of (l - 1) / gridZ / H_of (l - 1) * of_Z 10,
        gridZ / K_of (l - 1) / gridZ / H_of (l - 1) * of_Z 10)%D.

(** ** The conductance matrix *)

Definition entry : Type := double * double * double.
Definition e_row (e : entry) : double := e.1.1.
Definition e_col (e : entry) : double := e.1.2.
Definition e_val (e : entry) : double := e.2.
Definition zero_entry : entry := (d0, d0, d0).

(** The number of the node in layer [l] at [(i, j)]. *)
Definition node (l i j : Z) : Z := l * dimX * dimZ + j * dimX + i.

(** The number of neighbours of a node, counted as the code does. *)
Definition count_cell (l i j : Z) (count : Z) : Z :=
  let count := if decide (0 ≤ i - 1) then count + 1 else count in
  let count := if decide (i + 1 < dimX) then count + 1 else count in
  let count := if decide (0 ≤ j - 1) then count + 1 else count in
  let count := if decide (j + 1 < dimZ) then count + 1 else count in
  let count := if decide (l < numLayer) then count + 1 else count in
  if decide (0 < l) then count + 1 else count.

Definition count_entries : Z :=
  foldl (λ c l, foldl (λ c i, foldl (λ c j, count_cell l i j c) c (seqZ 0 dimZ))
                  c (seqZ 0 dimX)) 0 (seqZ 0 (numLayer + 1))
  + dimX * dimZ * (numLayer + 1).

(** [Midx[idx] = {row, col, val}; idx++] when [present]. *)
Definition put (present : bool) (row col : Z) (v : double) (st : list entry * Z)
    : res (list entry * Z) :=
  let '(m, idx) := st in
  if present
  then m ← vec_set m idx (of_Z row, of_Z col, v); Ok (m, idx + 1)
  else Ok (m, idx).

(** [Midx[idx][2] -= Midx[k][2]] for [k] from [idx_re] to [idx - 1]. *)
Definition subtract_row (idx_re idx : Z) (m : list entry) : res (list entry) :=
  foldM (λ k m,
      e ← vec_get m k;
      vec_modify m idx (λ d, Ok (d.1, e_val d - e_val e)%D))
    (seqZ idx_re (idx - idx_re)) m.

(** The last entry of a row is swapped down to its place: [n] steps from [k]. *)
Fixpoint sort_row (n : nat) (k : Z) (m : list entry) : res (list entry) :=
  match n with
  | O => Ok m
  | S n' =>
    a ← vec_get m k; b ← vec_get m (k + 1);
    if dlt (e_col b) (e_col a)
    then m ← vec_set m k b; m ← vec_set m (k + 1) a; sort_row n' (k - 1) m
    else Ok m
  end.

(** The conductance between the layers of heights [a] and [b]. *)
Definition vertical (a b : double) : double := (of_Z (-1) / (a / of_Z 2 + b / of_Z 2))%D.

(** The diagonal entry of the node of a row that starts at [idx_re]. *)
Definition put_diagonal (c idx_re : Z) (st : list entry * Z) : res (list entry * Z) :=
  let '(m, idx) := st in
  m ← vec_modify m idx (λ e, Ok (of_Z c, of_Z c, e_val e));
  m ← subtract_row idx_re idx m;
  m ← vec_modify m idx (λ e,
        Ok (if dlt (e_row e) (of_Z (dimX * dimZ))
            then (e.1, e_val e + of_Z 1 / Ramb)%D else e));
  Ok (m, idx + 1).

(** The row of the node in layer [l] at [(i, j)]. *)
Definition fill_cell (rv : list double) (l j i : Z) (st : list entry * Z)
    : res (list entry * Z) :=
  let c := node l i j in
  let h := Rhori l in
  let idx_re := st.2 in
  st ← (if decide (0 < l)
        then r ← vec_get rv l; r' ← vec_get rv (l - 1);
             put true c (node (l - 1) i j) (vertical r r') st
        else Ok st);
  st ← put (bool_decide (0 ≤ j - 1)) c (node l i (j - 1)) (of_Z (-1) / h.2)%D st;
  st ← put (bool_decide (0 ≤ i - 1)) c (node l i j - 1) (of_Z (-1) / h.1)%D st;
  st ← put (bool_decide (i + 1 < dimX)) c (node l i j + 1) (of_Z (-1) / h.1)%D st;
  st ← put (bool_decide (j + 1 < dimZ)) c (node l i (j + 1)) (of_Z (-1) / h.2)%D st;
  st ← (if decide (l < numLayer)
        then r ← vec_get rv l; r' ← vec_get rv (l + 1);
             put true c (node (l + 1) i j) (vertical r r') st
        else Ok st);
  '(m, idx) ← put_diagonal c idx_re st;
  m ← sort_row (Z.to_nat (idx - 1 - idx_re)) (idx - 2) m;
  Ok (m, idx).

(** [calculate_Midx_array]; the size is the number of allocated entries. *)
Definition calculate_Midx_array : res (list entry) :=
  rv ← Rvert;
  '(m, _) ← for_upto (numLayer + 1) (λ l,
              for_upto dimZ (λ j, for_upto dimX (λ i, fill_cell rv l j i)))
            (replicate (Z.to_nat count_entries) zero_entry, 0);
  Ok m.

(** ** The transient solver *)

Definition layerP (l : Z) : Z := l * 3.
Definition T_size : Z := dimX * dimZ * (numLayer + 1).

(** [memset(v, 0, n * sizeof(double))] *)
Definition memset (v : list double) (n : Z) : res (list double) :=
  if decide (n ≤ Z.of_nat (length v))
  then Ok (replicate (Z.to_nat n) d0 ++ drop (Z.to_nat n) v)
  else Fault OutOfRange.

(** The sources: the heat sink is at ambient temperature. *)
Definition ambient (Tamb : double) (P : list double) : res (list double) :=
  for_upto (dimX * dimZ) (λ i P, vec_set P i (Tamb / Ramb)%D) P.

(** The power of the dies, at the index that this solver computes. *)
Definition transient_power (powerM : list (list (list double))) (P : list double)
    : res (list double) :=
  for_upto numP (λ l, for_upto dimZ (λ j, for_upto dimX (λ i P,
    pw ← get3 powerM i j l;
    vec_set P (dimX * dimZ * (layerP l + 1) + i * dimZ + j) pw))) P.

(** One entry of the matrix applied to [Tp], accumulated in [T]. *)
Definition apply_entry (midx : list entry) (Cap Tp P : list double) (dt : double)
    (b : Z) (T : list double) : res (list double) :=
  e ← vec_get midx b;
  idx0 ← int_of_double (e_row e + hundredth)%D;
  idx1 ← int_of_double (e_col e + hundredth)%D;
  let tmp_c := e_val e in
  idxC ← int_div idx0 (dimX * dimZ);
  cap ← vec_get Cap idxC;
  tp ← vec_get Tp idx1;
  if decide (idx0 = idx1)
  then
    p ← vec_get P idx0;
    let tmp_a := (of_Z 1 - tmp_c * dt / cap)%D in
    let tmp_b := (tmp_a * tp + p * dt / cap)%D in
    vec_modify T idx0 (λ t, Ok (t + tmp_b)%D)
  else
    let tmp_a := (tmp_c * tp * dt / cap)%D in
    vec_modify T idx0 (λ t, Ok (t - tmp_a)%D).

Definition block_size : Z := 8.

(** The entries of the matrix, [block_size] at a time. *)
Fixpoint sweep_blocks (fuel : nat) (midx : list entry) (Cap Tp P : list double) (dt : double)
    (j : Z) (T : list double) : res (list double) :=
  match fuel with
  | O => Fault NoFuel
  | S fuel' =>
    let MidxSize := Z.of_nat (length midx) in
    if decide (j < MidxSize)
    then
      let bound := if decide (j + block_size < MidxSize) then j + block_size else MidxSize in
      T ← foldM (apply_entry midx Cap Tp P dt) (seqZ j (bound - j)) T;
      sweep_blocks fuel' midx Cap Tp P dt (j + block_size) T
    else Ok T
  end.

(** One step in time: [T] from [Tp]; then the two buffers are exchanged and
    the new [T] is cleared. *)
Definition time_step (midx : list entry) (Cap P : list double) (dt : double)
    (buffers : list double * list double) : res (list double * list double) :=
  let '(Tp, T) := buffers in
  T ← sweep_blocks (S (length midx)) midx Cap Tp P dt 0 T;
  cleared ← memset Tp T_size;
  Ok (T, cleared).

(** [garbage] is the content of a fresh buffer, before it is cleared. *)
Definition transient_thermal_solver (powerM : list (list (list double))) (midx : list entry)
    (Cap : list double) (time : double) (iter : Z) (T_trans : list double) (Tamb : double)
    (garbage : list double) : res (list double) :=
  T ← memset garbage T_size;
  P ← memset garbage T_size;
  P ← ambient Tamb P;
  P ← transient_power powerM P;
  let dt := (time / of_Z iter)%D in
  '(Tp, _) ← for_upto iter (λ _, time_step midx Cap P dt) (T_trans, T);
  Ok Tp.

(** ** The steady solver *)

(** The matrix in the compressed form of SuperLU. *)
Record SuperMatrix : Type := MkSuperMatrix {
  m_rows : Z; nnz : Z; m_a : list double; m_asub : list Z; m_xa : list Z }.

(** Entry [i] of the matrix: a new row begins when the row number grows. *)
Definition compress_entry (midx : list entry) (i : Z)
    (st : Z * list Z * list double * list Z) : res (Z * list Z * list double * list Z) :=
  let '(row, xa, a, asub) := st in
  e ← vec_get midx i;
  '(row, xa) ← (if dlt (of_Z row) (e_row e)
                then r ← int_of_double (e_row e); xa ← vec_set xa r i; Ok (r, xa)
                else Ok (row, xa));
  a ← vec_set a i (e_val e);
  c ← int_of_double (e_col e);
  asub ← vec_set asub i c;
  Ok (row, xa, a, asub).

(** The arrays [a], [asub] and [xa], allocated with any content. *)
Definition compress (midx : list entry) (a : list double) (asub xa : list Z)
    : res SuperMatrix :=
  let count := Z.of_nat (length midx) in
  '(row, xa, a, asub) ← for_upto count (compress_entry midx) (-1, xa, a, asub);
  xa ← vec_set xa (row + 1) count;
  Ok (MkSuperMatrix T_size count a asub xa).

Definition steady_power (powerM : list (list (list double))) (rhs : list double)
    : res (list double) :=
  for_upto numP (λ l, for_upto dimX (λ i, for_upto dimZ (λ j rhs,
    pw ← get3 powerM i j l;
    vec_set rhs (dimX * dimZ * (layerP l + 1) + j * dimX + i) pw))) rhs.

(** [pdgssv] solves the system; its answer replaces the right-hand side. *)
Definition steady_thermal_solver (pdgssv : SuperMatrix → list double → list double)
    (powerM : list (list (list double))) (midx : list entry) (Tamb : double)
    (a : list double) (asub xa : list Z) : res (list double) :=
  A ← compress midx a asub xa;
  rhs ← ambient Tamb (replicate (Z.to_nat T_size) d0);
  rhs ← steady_power powerM rhs;
  let Ttp := pdgssv A rhs in
  tabulate T_size (λ i, t ← vec_get Ttp i; Ok (t - T0)%D).

(** [get_maxT] *)
Definition get_maxT (T : list double) : double :=
  foldl (λ maxT t, if dlt maxT t then t else maxT) d0 T.
End grid.

(** A small grid evaluates: two dies of 3 by 4 nodes. *)
Example small_grid_count :
  res_check (calculate_Midx_array (dec 1 2) (dec 1 2) 2 3 4)
    (λ m, bool_decide (length m = Z.to_nat (count_entries 2 3 4))) = true.
Proof. vm_compute. reflexivity. Qed.
