(* ===== verification/SolverSafety.v ===== *)
(** * SolverSafety: what the thermal solver computes

    The conductance matrix is the list of the rows of all nodes in order: every
    row lists the node and its neighbours in the grid by increasing column, the
    matrix is symmetric, and exactly the allocated entries are written.  From
    this the arrays handed to SuperLU are the matrix in compressed form, and
    the tiled sweep of the transient solver is a sweep over the entries that
    indexes nothing out of range. *)

From Stdlib Require Import SpecFloat Sorting.Sorted.
From S2P Require Import Prelude Double Configuration Solver.
Local Open Scope Z_scope.

(** ** Sums over ranges and flattened loops *)

Definition sumZ {A} (f : A → Z) (l : list A) : Z := foldr (λ x s, f x + s) 0 l.

Lemma sumZ_app {A} (f : A → Z) l1 l2 : sumZ f (l1 ++ l2) = sumZ f l1 + sumZ f l2.
Proof. induction l1 as [|x l1 IH]; simpl; lia. Qed.

Lemma sumZ_plus {A} (f g : A → Z) l : sumZ (λ x, f x + g x) l = sumZ f l + sumZ g l.
Proof. induction l as [|x l IH]; simpl; lia. Qed.

Lemma sumZ_const {A} z (l : list A) : sumZ (λ _, z) l = z * Z.of_nat (length l).
Proof. induction l as [|x l IH]; simpl; lia. Qed.

Lemma sumZ_ext {A} (f g : A → Z) l : (∀ x, x ∈ l → f x = g x) → sumZ f l = sumZ g l.
Proof.
  induction l as [|x l IH]; intros H; simpl; [done|].
  rewrite H, IH; [done|set_solver..].
Qed.

Lemma sumZ_swap {A B} (f : A → B → Z) l1 l2 :
  sumZ (λ x, sumZ (f x) l2) l1 = sumZ (λ y, sumZ (λ x, f x y) l1) l2.
Proof.
  induction l1 as [|x l1 IH]; simpl.
  - rewrite sumZ_const. lia.
  - rewrite IH, <- sumZ_plus. done.
Qed.

Lemma foldl_sumZ {A} (f : A → Z → Z) (g : A → Z) l c :
  (∀ x c, f x c = c + g x) → foldl (λ c x, f x c) c l = c + sumZ g l.
Proof.
  intros Hf. revert c; induction l as [|x l IH]; intros c; simpl; [lia|]. rewrite (IH (f x c)), Hf. lia.
Qed.

Lemma length_bind_sumZ {A B} (g : A → list B) (l : list A) :
  Z.of_nat (length (l ≫= g)) = sumZ (λ x, Z.of_nat (length (g x))) l.
Proof. induction l as [|x l IH]; [done|]. rewrite bind_cons, length_app. simpl. lia. Qed.

Lemma list_bind_ext_in {A B} (f g : A → list B) l :
  (∀ x, x ∈ l → f x = g x) → l ≫= f = l ≫= g.
Proof.
  induction l as [|x l IH]; intros H; [done|].
  rewrite !bind_cons, H, IH; [done|set_solver..].
Qed.

Lemma bind_fmap {A B C} (f : A → B) (g : B → list C) (l : list A) :
  (f <$> l) ≫= g = l ≫= (λ x, g (f x)).
Proof. induction l as [|x l IH]; [done|]. by rewrite fmap_cons, !bind_cons, IH. Qed.

(** Two nested loops are one loop over the quotient and the remainder. *)
Lemma bind_seqZ_flat {B} (a b : Z) (g : Z → Z → list B) :
  0 ≤ a → 0 < b →
  (seqZ 0 a ≫= λ x, seqZ 0 b ≫= g x) = (seqZ 0 (a * b) ≫= λ c, g (c / b) (c `mod` b)).
Proof.
  intros Ha Hb. revert a Ha. apply natlike_ind; [done|]. intros a Ha IH.
  rewrite Z.mul_succ_l, !seqZ_app, Z.add_0_l by lia.
  replace (Z.succ a) with (a + 1) by lia. rewrite seqZ_app, !bind_app, IH by lia.
  f_equal. change (seqZ (0 + a) 1) with [0 + a]. rewrite bind_cons, app_nil_r, !Z.add_0_l.
  replace (seqZ (a * b) b) with (Z.add (a * b) <$> seqZ 0 b)
    by (rewrite fmap_add_seqZ; f_equal; lia).
  rewrite bind_fmap. apply list_bind_ext_in. intros y Hy%elem_of_seqZ.
  by rewrite Z.div_add_l, Z.div_small, Z.add_0_r, Z.add_comm, Z.mod_add, Z.mod_small by lia.
Qed.

(** ** The rows of the matrix *)

Definition when {A} (b : bool) (a : A) : list A := if b then [a] else [].

Lemma length_when {A} b (a : A) : length (when b a) = Nat.b2n b.
Proof. by destruct b. Qed.

Section matrix.
Context (W Lc : double) (numP dimX dimZ : Z).
Hypothesis numP_pos : 0 < numP.
Hypothesis dimX_pos : 0 < dimX.
Hypothesis dimZ_pos : 0 < dimZ.

Notation numLayer := (numLayer numP).
Notation node := (node dimX dimZ).
Notation Rhori := (Rhori W Lc dimX dimZ).

(** The number of nodes, which are numbered by [int]. *)
Definition nodes : Z := dimX * dimZ * (numLayer + 1).
Hypothesis nodes_int : nodes < 2 ^ 31.

Context (rv : list double).
Hypothesis rv_length : Z.of_nat (length rv) = numLayer + 1.

Definition R (l : Z) : double := default d0 (vlookup rv l).

(** The neighbours of a node with their conductances, below and above it. *)
Definition lower (l j i : Z) : list (Z * double) :=
  when (bool_decide (0 < l)) (node (l - 1) i j, vertical (R l) (R (l - 1)))
  ++ when (bool_decide (0 ≤ j - 1)) (node l i (j - 1), (of_Z (-1) / (Rhori l).2)%D)
  ++ when (bool_decide (0 ≤ i - 1)) (node l i j - 1, (of_Z (-1) / (Rhori l).1)%D).
Definition upper (l j i : Z) : list (Z * double) :=
  when (bool_decide (i + 1 < dimX)) (node l i j + 1, (of_Z (-1) / (Rhori l).1)%D)
  ++ when (bool_decide (j + 1 < dimZ)) (node l i (j + 1), (of_Z (-1) / (Rhori l).2)%D)
  ++ when (bool_decide (l < numLayer)) (node (l + 1) i j, vertical (R l) (R (l + 1))).

(** The diagonal: minus the sum of the others, and the heat sink's path to
    the ambient. *)
Definition minus_sum (v : double) (ns : list (Z * double)) : double :=
  foldl (λ a n, (a - n.2)%D) v ns.
Definition diagonal (l j i : Z) : double :=
  let d := minus_sum d0 (lower l j i ++ upper l j i) in
  if bool_decide (l = 0) then (d + of_Z 1 / Ramb W Lc dimX dimZ)%D else d.

Definition entry_of (c : Z) (n : Z * double) : entry := (of_Z c, of_Z n.1, n.2).

Definition row_cols (l j i : Z) : list (Z * double) :=
  lower l j i ++ (node l i j, diagonal l j i) :: upper l j i.
Definition row_spec (l j i : Z) : list entry := entry_of (node l i j) <$> row_cols l j i.

Definition rows_spec : list entry :=
  seqZ 0 (numLayer + 1) ≫= λ l, seqZ 0 dimZ ≫= λ j, seqZ 0 dimX ≫= λ i, row_spec l j i.

(** *** Writing behind what is written *)

(** Arithmetic on the lengths of concatenations. *)
Ltac len := repeat (rewrite length_app || rewrite length_fmap || rewrite length_when); cbn [length]; lia.

(** Runs the first operation of a sequence, an access of a vector. *)
Tactic Notation "bind_step" uconstr(H) := erewrite bind_of_Ok; [|apply H; len]; cbv beta.
Ltac bind_modify :=
  erewrite bind_of_Ok; [|rewrite vec_modify_middle by len; reflexivity]; cbv beta.

Definition wr (N : nat) (acc : list entry) : list entry * Z :=
  (acc ++ replicate (N - length acc) zero_entry, Z.of_nat (length acc)).

Lemma put_wr N acc (b : bool) c col v :
  (length acc + length (when b (col, v)) ≤ N)%nat →
  put b c col v (wr N acc) = Ok (wr N (acc ++ (entry_of c <$> when b (col, v)))).
Proof.
  intros HN. unfold put, wr. destruct b; simpl in *; [|by rewrite app_nil_r].
  replace (N - length acc)%nat with (S (N - (length acc + 1))) by lia.
  simpl. rewrite vec_set_middle by done. simpl. rewrite <- app_assoc, length_app. simpl.
  do 2 f_equal. lia.
Qed.

(** The diagonal's loop over the entries [o2] of its row, [o1] being done. *)
Lemma subtract_loop pre c o1 o2 d zs :
  foldM (λ k m, e ← vec_get m k;
      vec_modify m (Z.of_nat (length pre + length (o1 ++ o2)))
        (λ d, Ok (d.1, e_val d - e_val e)%D))
    (seqZ (Z.of_nat (length pre + length o1)) (Z.of_nat (length o2)))
    (pre ++ (entry_of c <$> o1 ++ o2) ++ d :: zs)
  = Ok (pre ++ (entry_of c <$> o1 ++ o2) ++ (d.1, minus_sum d.2 o2) :: zs).
Proof.
  revert o1 d; induction o2 as [|o o2 IH]; intros o1 d.
  { simpl. by destruct d as [[] ?]. }
  rewrite seqZ_cons by (simpl; lia). cbn [foldM].
  assert (∀ d', pre ++ (entry_of c <$> o1 ++ o :: o2) ++ d' :: zs
    = (pre ++ (entry_of c <$> o1)) ++ entry_of c o :: (entry_of c <$> o2) ++ d' :: zs) as Hget.
  { intros d'. by rewrite fmap_app, <- !app_assoc. }
  rewrite Hget, vec_get_middle by len. cbn [mbind res_bind].
  rewrite <- Hget, !(app_assoc pre), vec_modify_middle
    by len.
  cbn [mbind res_bind]. specialize (IH (o1 ++ [o]) (d.1, e_val d - e_val (entry_of c o))%D).
  rewrite <- !(app_assoc pre). rewrite <- !(app_assoc o1) in IH. cbn [app] in IH.
  replace (Z.succ (Z.of_nat (length pre + length o1)))
    with (Z.of_nat (length pre + length (o1 ++ [o]))) by len.
  replace (Z.pred (Z.of_nat (length (o :: o2)))) with (Z.of_nat (length o2)) by (simpl; lia).
  rewrite IH. done.
Qed.

Lemma subtract_row_spec pre c ns d zs :
  subtract_row (Z.of_nat (length pre)) (Z.of_nat (length pre) + Z.of_nat (length ns))
    (pre ++ (entry_of c <$> ns) ++ d :: zs)
  = Ok (pre ++ (entry_of c <$> ns) ++ (d.1, minus_sum d.2 ns) :: zs).
Proof.
  unfold subtract_row. rewrite Z.add_simpl_l. pose proof (subtract_loop pre c [] ns d zs) as H.
  cbn [length app] in H. by rewrite Nat.add_0_r, Nat2Z.inj_add in H.
Qed.

(** The new diagonal entry moves down past the entries of greater column. *)
Lemma sort_row_spec pre lows highs d zs k :
  Forall (λ e, dlt (e_col d) (e_col e) = false) lows →
  Forall (λ e, dlt (e_col d) (e_col e) = true) highs →
  k = Z.of_nat (length pre + length (lows ++ highs)) - 1 →
  sort_row (length (lows ++ highs)) k (pre ++ lows ++ highs ++ d :: zs)
  = Ok (pre ++ lows ++ d :: highs ++ zs).
Proof.
  intros Hl Hh. revert k zs. induction highs as [|h hs IH] using rev_ind; intros k zs ->.
  - rewrite app_nil_r. cbn [app]. destruct lows as [|e ls _] using rev_ind; [done|].
    apply Forall_app in Hl as [_ Hl]. apply list.Forall_cons in Hl as [Hl _].
    replace (length (ls ++ [e])) with (S (length ls)) by len. cbn [sort_row].
    assert (pre ++ (ls ++ [e]) ++ d :: zs = (pre ++ ls) ++ e :: d :: zs) as Hp
      by (by rewrite <- !app_assoc).
    assert ((pre ++ ls) ++ e :: d :: zs = ((pre ++ ls) ++ [e]) ++ d :: zs) as Hp'
      by (by rewrite <- !app_assoc).
    rewrite Hp. bind_step (vec_get_middle (A:=entry)).
    rewrite Hp'. bind_step (vec_get_middle (A:=entry)). by rewrite Hl.
  - apply Forall_app in Hh as [Hh Hd]. apply list.Forall_cons in Hd as [Hd _].
    replace (length (lows ++ hs ++ [h])) with (S (length (lows ++ hs))) by len. cbn [sort_row].
    set (p := pre ++ lows ++ hs).
    assert (∀ x y, pre ++ lows ++ (hs ++ [x]) ++ y :: zs = p ++ x :: y :: zs) as Hp.
    { intros x y. unfold p. by rewrite <- !app_assoc. }
    assert (∀ x y, p ++ x :: y :: zs = (p ++ [x]) ++ y :: zs) as Hp'.
    { intros x y. by rewrite <- app_assoc. }
    assert (length p = length pre + (length lows + length hs))%nat as Hlp by (unfold p; len).
    rewrite Hp. bind_step (vec_get_middle (A:=entry)).
    rewrite Hp'. bind_step (vec_get_middle (A:=entry)).
    rewrite Hd, <- Hp'. bind_step (vec_set_middle (A:=entry)).
    rewrite Hp'. bind_step (vec_set_middle (A:=entry)).
    rewrite <- Hp'. unfold p. rewrite <- !(app_assoc pre), <- !(app_assoc lows), IH by (done || len).
    by rewrite <- !app_assoc.
Qed.
(** *** One row *)

Definition in_grid (l j i : Z) : Prop := 0 ≤ l ≤ numLayer ∧ 0 ≤ j < dimZ ∧ 0 ≤ i < dimX.

Lemma node_range l j i : in_grid l j i → 0 ≤ node l i j < nodes.
Proof. unfold in_grid, Solver.node, nodes. intros. nia. Qed.

Lemma node_sink l j i : in_grid l j i → (node l i j <? dimX * dimZ) = bool_decide (l = 0).
Proof.
  unfold in_grid, Solver.node. intros H. case_bool_decide as Hl.
  - subst. apply Z.ltb_lt. nia.
  - apply Z.ltb_ge. nia.
Qed.

Lemma elem_of_when {A} (b : bool) (x a : A) : x ∈ when b a ↔ b = true ∧ x = a.
Proof. destruct b; simpl; set_solver. Qed.

Lemma node_next l j i : node l i j + 1 = node l (i + 1) j.
Proof. unfold Solver.node. lia. Qed.

Lemma lower_below l j i n : in_grid l j i → n ∈ lower l j i → 0 ≤ n.1 < node l i j.
Proof.
  unfold in_grid, lower, Solver.node. intros H.
  rewrite !elem_of_app, !elem_of_when, !bool_decide_eq_true. intros [[? ->]|[[? ->]|[? ->]]]; simpl; nia.
Qed.

Lemma upper_above l j i n : in_grid l j i → n ∈ upper l j i → node l i j < n.1 < nodes.
Proof.
  unfold upper. intros H.
  rewrite !elem_of_app, !elem_of_when, !bool_decide_eq_true, node_next.
  intros [[? ->]|[[? ->]|[? ->]]]; cbn [fst]; unfold in_grid in *;
    (split; [unfold Solver.node; nia|apply node_range; unfold in_grid; lia]).
Qed.

(** The columns of a row increase. *)
Lemma lower_sorted l j i : in_grid l j i → StronglySorted Z.lt (fst <$> lower l j i).
Proof.
  unfold in_grid, lower, Solver.node. intros H.
  repeat case_bool_decide; cbn [when app fmap list_fmap fst];
    repeat (constructor || apply SSorted_nil); cbn; nia.
Qed.

Lemma upper_sorted l j i : in_grid l j i → StronglySorted Z.lt (fst <$> upper l j i).
Proof.
  unfold in_grid, upper, Solver.node. intros H.
  repeat case_bool_decide; cbn [when app fmap list_fmap fst];
    repeat (constructor || apply SSorted_nil); cbn; nia.
Qed.

Lemma sorted_app (l1 l2 : list Z) (c : Z) :
  StronglySorted Z.lt l1 → StronglySorted Z.lt l2 →
  (∀ x, x ∈ l1 → x < c) → (∀ x, x ∈ l2 → c < x) → StronglySorted Z.lt (l1 ++ c :: l2).
Proof.
  intros H1 H2 Hl Hu. induction H1 as [|x l1 H1 IH Hx]; simpl.
  - constructor; [done|]. by apply list.Forall_forall.
  - constructor; [apply IH; set_solver|]. apply Forall_app. split; [done|].
    apply list.Forall_cons. split; [apply Hl; set_solver|]. apply list.Forall_forall.
    intros y Hy. transitivity c; [apply Hl; set_solver|by apply Hu].
Qed.

Lemma row_sorted l j i : in_grid l j i → StronglySorted Z.lt (fst <$> row_cols l j i).
Proof.
  intros Hg. unfold row_cols. rewrite fmap_app, fmap_cons. apply sorted_app.
  - by apply lower_sorted.
  - by apply upper_sorted.
  - intros x (n & -> & Hn)%list_elem_of_fmap. by apply (lower_below _ _ _ _ Hg).
  - intros x (n & -> & Hn)%list_elem_of_fmap. by apply (upper_above _ _ _ _ Hg).
Qed.

Lemma R_get l : 0 ≤ l ≤ numLayer → vec_get rv l = Ok (R l).
Proof.
  intros Hl. destruct (vlookup_lt rv l) as [r Hr]; [lia|]. unfold R. rewrite Hr.
  by apply vec_get_Ok.
Qed.

Lemma put_diagonal_spec N acc l j i ns :
  in_grid l j i → ns = lower l j i ++ upper l j i → (length acc + length ns < N)%nat →
  put_diagonal W Lc dimX dimZ (node l i j) (Z.of_nat (length acc))
    (wr N (acc ++ (entry_of (node l i j) <$> ns)))
  = Ok (wr N (acc ++ (entry_of (node l i j) <$> ns)
              ++ [entry_of (node l i j) (node l i j, diagonal l j i)])).
Proof.
  intros Hg Hns HN. set (c := node l i j).
  assert (0 ≤ c < nodes) as Hc by by apply node_range.
  unfold put_diagonal, wr.
  replace (N - length (acc ++ (entry_of c <$> ns)))%nat
    with (S (N - (length acc + length ns + 1))) by len.
  cbn [replicate]. bind_modify. rewrite <- app_assoc.
  replace (Z.of_nat (length (acc ++ (entry_of c <$> ns))))
    with (Z.of_nat (length acc) + Z.of_nat (length ns)) by len.
  erewrite bind_of_Ok by apply subtract_row_spec. cbn [e_val fst snd zero_entry].
  rewrite (app_assoc acc). bind_modify. cbn [e_row fst snd].
  assert (0 ≤ dimX * dimZ ≤ nodes) as Hs by (unfold nodes, Solver.numLayer; nia).
  rewrite dlt_of_Z by lia. assert ((c <? dimX * dimZ) = bool_decide (l = 0)) as -> by (by apply node_sink).
  replace (length (acc ++ (entry_of c <$> ns) ++ [entry_of c (c, diagonal l j i)]))
    with (length acc + length ns + 1)%nat by len.
  rewrite <- !app_assoc. cbn [app].
  assert (entry_of c (c, diagonal l j i) = (if bool_decide (l = 0)
    then (of_Z c, of_Z c, (e_val (of_Z c, of_Z c, minus_sum d0 ns) + of_Z 1 / Ramb W Lc dimX dimZ)%D)
    else (of_Z c, of_Z c, minus_sum d0 ns))) as ->.
  { unfold entry_of, diagonal. rewrite <- Hns. by case_bool_decide. }
  do 2 f_equal. lia.
Qed.

(** The conductance to the layer below or above, where there is one. *)
Lemma put_vertical (P : Prop) `{!Decision P} l l' c col st :
  0 ≤ l ≤ numLayer → (P → 0 ≤ l' ≤ numLayer) →
  (if decide P then r ← vec_get rv l; r' ← vec_get rv l'; put true c col (vertical r r') st
   else Ok st) = put (bool_decide P) c col (vertical (R l) (R l')) st.
Proof.
  intros Hl Hl'. case_bool_decide as HP; [|by rewrite decide_False; destruct st].
  rewrite decide_True, !R_get by auto. done.
Qed.

Lemma fill_cell_spec N acc l j i :
  in_grid l j i → (length acc + length (row_spec l j i) ≤ N)%nat →
  fill_cell W Lc numP dimX dimZ rv l j i (wr N acc) = Ok (wr N (acc ++ row_spec l j i)).
Proof.
  intros Hg HN. unfold fill_cell. set (c := node l i j).
  assert (length (row_spec l j i) = length (lower l j i) + length (upper l j i) + 1)%nat as Hlen.
  { unfold row_spec, row_cols. len. }
  assert (Hl := Hg). unfold in_grid in Hl. rewrite put_vertical by lia.
  rewrite Hlen in HN. assert (HN' := HN). unfold lower, upper in HN'. rewrite !length_app, !length_when in HN'.
  do 5 (rewrite put_wr by len; cbn [mbind res_bind]).
  rewrite put_vertical by lia. rewrite put_wr by len. cbn [mbind res_bind].
  rewrite <- !app_assoc, <- !fmap_app, (app_assoc (when (bool_decide (0 ≤ j - 1)) _)).
  rewrite (app_assoc (when (bool_decide (0 < l)) _)).
  change (wr N (acc ++ (entry_of c <$> _)))
    with (wr N (acc ++ (entry_of c <$> lower l j i ++ upper l j i))).
  erewrite bind_of_Ok by (apply put_diagonal_spec; [done..|len]).
  fold c. set (d := entry_of c (c, diagonal l j i)).
  assert (row_spec l j i = (entry_of c <$> lower l j i) ++ d :: (entry_of c <$> upper l j i)) as Hrow.
  { unfold row_spec, row_cols. by rewrite fmap_app. }
  unfold wr. cbn [snd]. rewrite fmap_app.
  set (lows := entry_of c <$> lower l j i) in *. set (highs := entry_of c <$> upper l j i) in *.
  set (zs := replicate _ zero_entry).
  assert (length lows = length (lower l j i) ∧ length highs = length (upper l j i)) as [Hll Hlh]
    by (split; apply length_fmap).
  replace ((acc ++ (lows ++ highs) ++ [d]) ++ zs) with (acc ++ lows ++ highs ++ d :: zs)
    by (by rewrite <- !app_assoc).
  replace (Z.to_nat _) with (length (lows ++ highs)) by len.
  erewrite bind_of_Ok.
  2: { apply sort_row_spec; [apply Forall_fmap, list.Forall_forall..|len].
       - intros n Hn. destruct (lower_below _ _ _ _ Hg Hn). unfold d, entry_of, e_col. cbn [fst snd compose].
         pose proof (node_range _ _ _ Hg). rewrite dlt_of_Z by lia. apply Z.ltb_ge. lia.
       - intros n Hn. destruct (upper_above _ _ _ _ Hg Hn). unfold d, entry_of, e_col. cbn [fst snd compose].
         pose proof (node_range _ _ _ Hg). rewrite dlt_of_Z by lia. apply Z.ltb_lt. lia. }
  rewrite Hrow. unfold zs. do 2 f_equal; [|len].
  rewrite <- !app_assoc. cbn [app]. do 5 f_equal. len.
Qed.
(** *** All rows *)

(** A loop whose body appends [g x], while the array has room. *)
Lemma foldM_wr (N : nat) (f : Z → list entry * Z → res (list entry * Z)) (g : Z → list entry) xs acc :
  (∀ x acc, x ∈ xs → (length acc + length (g x) ≤ N)%nat → f x (wr N acc) = Ok (wr N (acc ++ g x))) →
  (length acc + length (xs ≫= g) ≤ N)%nat →
  foldM f xs (wr N acc) = Ok (wr N (acc ++ (xs ≫= g))).
Proof.
  revert acc; induction xs as [|x xs IH]; intros acc Hf HN; [by rewrite app_nil_r|].
  rewrite bind_cons in *. rewrite length_app in HN. cbn [foldM].
  rewrite Hf by (set_solver || lia). cbn [mbind res_bind].
  rewrite IH; [by rewrite app_assoc|intros; apply Hf; [set_solver|done]|len].
Qed.

Lemma fill_all N :
  (length rows_spec ≤ N)%nat →
  for_upto (numLayer + 1) (λ l, for_upto dimZ (λ j, for_upto dimX (λ i,
    fill_cell W Lc numP dimX dimZ rv l j i))) (wr N []) = Ok (wr N rows_spec).
Proof.
  intros HN. unfold for_upto. unfold rows_spec in *.
  rewrite (foldM_wr N _ (λ l, seqZ 0 dimZ ≫= λ j, seqZ 0 dimX ≫= λ i, row_spec l j i)); [done| |done].
  intros l acc Hl%elem_of_seqZ HNl.
  apply (foldM_wr N _ (λ j, seqZ 0 dimX ≫= λ i, row_spec l j i)); [|done].
  intros j acc' Hj%elem_of_seqZ HNj. apply foldM_wr; [|done].
  intros i acc'' Hi%elem_of_seqZ HNi. apply fill_cell_spec; [unfold in_grid; lia|done].
Qed.

Lemma count_step (P : Prop) `{!Decision P} c :
  (if decide P then c + 1 else c) = c + Z.of_nat (Nat.b2n (bool_decide P)).
Proof. case_bool_decide as HP; [rewrite decide_True|rewrite decide_False]; simpl; (done || lia). Qed.

Lemma length_row_spec l j i c :
  count_cell numP dimX dimZ l i j c + 1 = c + Z.of_nat (length (row_spec l j i)).
Proof.
  unfold row_spec, row_cols, lower, upper, count_cell.
  cbv zeta. rewrite !count_step.
  repeat (rewrite length_fmap || rewrite length_app || rewrite length_when); cbn [length].
  repeat (rewrite length_app || rewrite length_when). lia.
Qed.

(** The first pass counts exactly the entries that the second one writes. *)
Lemma count_entries_rows : count_entries numP dimX dimZ = Z.of_nat (length rows_spec).
Proof.
  unfold count_entries, rows_spec.
  set (k := λ l i j, Z.of_nat (length (row_spec l j i)) - 1).
  rewrite (foldl_sumZ _ (λ l, sumZ (λ i, sumZ (k l i) (seqZ 0 dimZ)) (seqZ 0 dimX))).
  2: { intros l c. apply foldl_sumZ. intros i c'. apply foldl_sumZ. intros j c''.
       unfold k. pose proof (length_row_spec l j i c''). lia. }
  symmetry. rewrite length_bind_sumZ. etransitivity.
  { apply (sumZ_ext _ (λ l, sumZ (λ i, sumZ (k l i) (seqZ 0 dimZ)) (seqZ 0 dimX) + dimX * dimZ)).
    intros l _. rewrite length_bind_sumZ, (sumZ_swap (k l)). etransitivity.
    { apply (sumZ_ext _ (λ j, sumZ (λ i, k l i j) (seqZ 0 dimX) + dimX)).
      intros j _. rewrite length_bind_sumZ. etransitivity.
      { apply (sumZ_ext _ (λ i, k l i j + 1)). intros i _. unfold k. lia. }
      rewrite sumZ_plus, sumZ_const, length_seqZ. lia. }
    rewrite sumZ_plus, sumZ_const, length_seqZ. lia. }
  rewrite sumZ_plus, sumZ_const, length_seqZ. unfold Solver.numLayer. lia.
Qed.

Lemma fill_matrix :
  ensures (for_upto (numLayer + 1) (λ l, for_upto dimZ (λ j, for_upto dimX (λ i,
    fill_cell W Lc numP dimX dimZ rv l j i)))
    (replicate (Z.to_nat (count_entries numP dimX dimZ)) zero_entry, 0))
    (λ r, r.1 = rows_spec).
Proof.
  rewrite count_entries_rows, Nat2Z.id.
  replace (replicate _ zero_entry, 0) with (wr (length rows_spec) [])
    by (unfold wr; cbn [length app]; by rewrite Nat.sub_0_r).
  rewrite fill_all by done. apply ensures_ret. unfold wr. cbn [fst].
  by rewrite Nat.sub_diag, app_nil_r.
Qed.

(** The rows by the number of the node. *)
Definition row_of (c : Z) : list entry :=
  row_spec (c / (dimX * dimZ)) ((c `mod` (dimX * dimZ)) / dimX) ((c `mod` (dimX * dimZ)) `mod` dimX).

Lemma rows_by_node : rows_spec = seqZ 0 nodes ≫= row_of.
Proof.
  unfold rows_spec.
  rewrite (list_bind_ext_in _ (λ l, seqZ 0 (dimZ * dimX) ≫=
    λ r, row_spec l (r / dimX) (r `mod` dimX))).
  - unfold Solver.numLayer. rewrite bind_seqZ_flat by nia. unfold nodes, row_of, Solver.numLayer.
    rewrite (Z.mul_comm dimZ dimX). by rewrite (Z.mul_comm (dimX * dimZ)).
  - intros l _. apply bind_seqZ_flat; lia.
Qed.

Lemma node_split c :
  0 ≤ c < nodes →
  in_grid (c / (dimX * dimZ)) ((c `mod` (dimX * dimZ)) / dimX) ((c `mod` (dimX * dimZ)) `mod` dimX) ∧
  node (c / (dimX * dimZ)) ((c `mod` (dimX * dimZ)) `mod` dimX) ((c `mod` (dimX * dimZ)) / dimX) = c.
Proof.
  intros Hc. assert (0 < dimX * dimZ) as Hxz by nia.
  pose proof (Z.div_mod c (dimX * dimZ)) as H1. pose proof (Z.mod_pos_bound c (dimX * dimZ) Hxz) as H2.
  set (r := c `mod` (dimX * dimZ)) in *. set (l := c / (dimX * dimZ)) in *.
  pose proof (Z.div_mod r dimX) as H3. pose proof (Z.mod_pos_bound r dimX dimX_pos) as H4.
  assert (0 ≤ l < numLayer + 1).
  { split; [apply Z.div_pos; lia|]. apply Z.div_lt_upper_bound; [lia|]. unfold nodes in Hc. lia. }
  assert (0 ≤ r / dimX < dimZ).
  { split; [apply Z.div_pos; lia|]. apply Z.div_lt_upper_bound; lia. }
  unfold in_grid, Solver.node. split; [lia|]. lia.
Qed.
(** *** Symmetry *)

Lemma dadd_comm a b : dadd a b = dadd b a.
Proof.
  unfold dadd, SFadd. destruct a as [[]|[]| |sa ma ea], b as [[]|[]| |sb mb eb]; try done.
  all: rewrite (Z.min_comm ea); f_equal; lia.
Qed.

Lemma vertical_comm a b : vertical a b = vertical b a.
Proof. unfold vertical. by rewrite dadd_comm. Qed.

Lemma elem_of_rows e :
  e ∈ rows_spec ↔ ∃ l j i, in_grid l j i ∧ e ∈ row_spec l j i.
Proof.
  unfold rows_spec, in_grid. rewrite list_elem_of_bind. split.
  - intros (l & (j & (i & Hi & Hr)%list_elem_of_bind & Hj)%list_elem_of_bind & Hl).
    apply elem_of_seqZ in Hl, Hj, Hr. exists l, j, i. split; [lia|done].
  - intros (l & j & i & H & He). exists l. rewrite list_elem_of_bind, elem_of_seqZ. split; [|lia].
    exists j. rewrite list_elem_of_bind, elem_of_seqZ. split; [|lia].
    exists i. rewrite elem_of_seqZ. split; [done|lia].
Qed.

(** The entries of a row, as a list of cases. *)
Lemma elem_of_row_cols l j i n :
  n ∈ row_cols l j i ↔
  n = (node l i j, diagonal l j i)
  ∨ (0 < l ∧ n = (node (l - 1) i j, vertical (R l) (R (l - 1))))
  ∨ (l < numLayer ∧ n = (node (l + 1) i j, vertical (R l) (R (l + 1))))
  ∨ (0 ≤ j - 1 ∧ n = (node l i (j - 1), (of_Z (-1) / (Rhori l).2)%D))
  ∨ (j + 1 < dimZ ∧ n = (node l i (j + 1), (of_Z (-1) / (Rhori l).2)%D))
  ∨ (0 ≤ i - 1 ∧ n = (node l (i - 1) j, (of_Z (-1) / (Rhori l).1)%D))
  ∨ (i + 1 < dimX ∧ n = (node l (i + 1) j, (of_Z (-1) / (Rhori l).1)%D)).
Proof.
  assert (node l i j - 1 = node l (i - 1) j) as E by (unfold Solver.node; lia).
  unfold row_cols, lower, upper. rewrite node_next, E.
  rewrite !elem_of_app, elem_of_cons, !elem_of_app, !elem_of_when, !bool_decide_eq_true. tauto.
Qed.

Lemma row_entry_symmetric l j i n :
  in_grid l j i → n ∈ row_cols l j i →
  ∃ l' j' i', in_grid l' j' i' ∧ node l' i' j' = n.1 ∧ (node l i j, n.2) ∈ row_cols l' j' i'.
Proof.
  intros Hg. assert (Hg' := Hg). unfold in_grid in Hg'. rewrite elem_of_row_cols.
  assert (∀ l' j' i' v, in_grid l' j' i' → (node l i j, v) ∈ row_cols l' j' i' →
    ∃ l0 j0 i0, in_grid l0 j0 i0 ∧ node l0 i0 j0 = node l' i' j' ∧ (node l i j, v) ∈ row_cols l0 j0 i0)
    as Hof by (intros l' j' i' v; exists l', j', i'; auto).
  intros [->|[[? ->]|[[? ->]|[[? ->]|[[? ->]|[[? ->]|[? ->]]]]]]]; cbn [fst snd]; apply Hof;
    try (unfold in_grid; lia); apply elem_of_row_cols.
  - by left.
  - rewrite vertical_comm. do 2 right. left. by replace (l - 1 + 1) with l by lia; split; [lia|].
  - rewrite vertical_comm. right. left. by replace (l + 1 - 1) with l by lia; split; [lia|].
  - do 4 right. left. by replace (j - 1 + 1) with j by lia; split; [lia|].
  - do 3 right. left. by replace (j + 1 - 1) with j by lia; split; [lia|].
  - do 6 right. by replace (i - 1 + 1) with i by lia; split; [lia|].
  - do 5 right. left. by replace (i + 1 - 1) with i by lia; split; [lia|].
Qed.

Lemma rows_symmetric e :
  e ∈ rows_spec → (e_col e, e_row e, e_val e) ∈ rows_spec.
Proof.
  rewrite !elem_of_rows. intros (l & j & i & Hg & He).
  unfold row_spec in He. apply list_elem_of_fmap in He as (n & -> & Hn).
  destruct (row_entry_symmetric l j i n Hg Hn) as (l' & j' & i' & Hg' & Hnode & Hin).
  exists l', j', i'. split; [done|]. apply list_elem_of_fmap.
  exists (node l i j, n.2). split; [|done]. unfold entry_of. by rewrite Hnode.
Qed.
(** *** The compressed form *)

(** The entries with their row and column as integers. *)
Definition numbered (c : Z) : list (Z * Z * double) :=
  (λ n, (c, n.1, n.2)) <$> row_cols (c / (dimX * dimZ)) ((c `mod` (dimX * dimZ)) / dimX)
                             ((c `mod` (dimX * dimZ)) `mod` dimX).
Definition to_entry (e : Z * Z * double) : entry := (of_Z e.1.1, of_Z e.1.2, e.2).

Lemma row_of_numbered c : 0 ≤ c < nodes → row_of c = to_entry <$> numbered c.
Proof.
  intros Hc. unfold row_of, row_spec, numbered. rewrite <- list_fmap_compose.
  apply list_fmap_ext. intros k n _. unfold entry_of, to_entry. simpl.
  by rewrite (proj2 (node_split c Hc)).
Qed.

Lemma numbered_range c e :
  0 ≤ c < nodes → e ∈ numbered c → e.1.1 = c ∧ 0 ≤ e.1.2 < nodes.
Proof.
  intros Hc (n & -> & Hn)%list_elem_of_fmap. split; [done|]. simpl.
  destruct (node_split c Hc) as [Hg Hnode].
  destruct (row_entry_symmetric _ _ _ n Hg Hn) as (l' & j' & i' & Hg' & <- & _).
  by apply node_range.
Qed.

Lemma numbered_nonempty c : numbered c ≠ [].
Proof.
  unfold numbered, row_cols. rewrite fmap_app, fmap_cons. intros [_ H]%app_eq_nil. discriminate.
Qed.

(** The entries of the rows before [c]. *)
Definition before (c : Z) : list (Z * Z * double) := seqZ 0 c ≫= numbered.

Lemma rows_numbered : rows_spec = to_entry <$> before nodes.
Proof.
  rewrite rows_by_node. unfold before. rewrite list_bind_ext_in with (g := λ c, to_entry <$> numbered c).
  - generalize (seqZ 0 nodes). intros l. induction l as [|c l IH]; [done|].
    by rewrite !bind_cons, fmap_app, IH.
  - intros c Hc%elem_of_seqZ. apply row_of_numbered. lia.
Qed.

Lemma before_next c : 0 ≤ c → before (c + 1) = before c ++ numbered c.
Proof.
  intros Hc. unfold before. rewrite seqZ_app, bind_app by lia. f_equal.
  change (seqZ (0 + c) 1) with [0 + c]. rewrite Z.add_0_l. by rewrite bind_cons, app_nil_r.
Qed.

Lemma trunc_of_Z z : 0 ≤ z < 2 ^ 31 → int_of_double (of_Z z) = Ok z.
Proof.
  intros Hz. destruct (decide (z = 0)) as [->|]; [done|].
  assert (0 ≤ Z.log2 z ≤ 30) as Hl.
  { split; [apply Z.log2_nonneg|]. apply Z.lt_succ_r, Z.log2_lt_pow2; lia. }
  assert (0 < 2 ^ (52 - Z.log2 z)) by (apply Z.pow_pos_nonneg; lia).
  rewrite of_Z_pos by lia. unfold int_of_double, trunc.
  rewrite (decide_False (P := 0 ≤ Z.log2 z - 52)) by lia.
  rewrite Z2Pos.id by nia. replace (- (Z.log2 z - 52)) with (52 - Z.log2 z) by lia.
  rewrite Z.div_mul by lia. by rewrite decide_True by lia.
Qed.

(** The rest of a row, whose number is already known. *)
Lemma compress_same_row m es : ∀ pre post c xa vs ra cs rb,
  m = pre ++ (to_entry <$> es) ++ post →
  0 ≤ c < nodes → Forall (λ e, e.1.1 = c ∧ 0 ≤ e.1.2 < nodes) es →
  length vs = length pre → length cs = length pre →
  (length es ≤ length ra)%nat → (length es ≤ length rb)%nat →
  foldM (compress_entry m) (seqZ (Z.of_nat (length pre)) (Z.of_nat (length es)))
    (c, xa, vs ++ ra, cs ++ rb)
  = Ok (c, xa, (vs ++ (snd <$> es)) ++ drop (length es) ra,
        (cs ++ ((λ e, e.1.2) <$> es)) ++ drop (length es) rb).
Proof.
  induction es as [|e es IH]; intros pre post c xa vs ra cs rb Hm Hc Hes Hv Hcs Hra Hrb.
  { cbn [fmap list_fmap length drop]. by rewrite !app_nil_r. }
  apply list.Forall_cons in Hes as [[He1 He2] Hes].
  rewrite seqZ_cons by (cbn [length]; lia). cbn [foldM].
  destruct ra as [|x ra]; [cbn [length] in Hra; lia|]. destruct rb as [|y rb]; [cbn [length] in Hrb; lia|].
  erewrite bind_of_Ok.
  2: { unfold compress_entry. erewrite bind_of_Ok by (rewrite Hm, fmap_cons; apply vec_get_middle; done). cbv beta.
       unfold e_row, e_col, e_val, to_entry. cbn [fst snd].
       rewrite dlt_of_Z, He1, Z.ltb_irrefl by lia. cbn [mbind res_bind].
       bind_step (vec_set_middle (A:=double)). rewrite trunc_of_Z by lia. cbn [mbind res_bind].
       bind_step (vec_set_middle (A:=Z)). reflexivity. }
  replace (Z.succ (Z.of_nat (length pre))) with (Z.of_nat (length (pre ++ [to_entry e]))) by len.
  replace (Z.pred (Z.of_nat (length (e :: es)))) with (Z.of_nat (length es)) by (cbn [length]; lia).
  replace (vs ++ e.2 :: ra) with ((vs ++ [e.2]) ++ ra) by (by rewrite <- app_assoc).
  replace (cs ++ e.1.2 :: rb) with ((cs ++ [e.1.2]) ++ rb) by (by rewrite <- app_assoc).
  erewrite (IH _ post); try done; try (cbn [length] in *; len).
  - cbn [drop length]. rewrite !fmap_cons. by rewrite <- !app_assoc.
  - rewrite Hm, fmap_cons. by rewrite <- !app_assoc.
Qed.
Lemma dlt_before c : 0 ≤ c < nodes → dlt (of_Z (c - 1)) (of_Z c) = true.
Proof.
  intros Hc. destruct (decide (c = 0)) as [->|]; [done|].
  rewrite dlt_of_Z by lia. apply Z.ltb_lt. lia.
Qed.

(** A whole row: its first entry records where the row starts. *)
Lemma compress_row m pre es post c xa xa' vs ra cs rb :
  m = pre ++ (to_entry <$> es) ++ post → es ≠ [] →
  0 ≤ c < nodes → Forall (λ e, e.1.1 = c ∧ 0 ≤ e.1.2 < nodes) es →
  length vs = length pre → length cs = length pre →
  (length es ≤ length ra)%nat → (length es ≤ length rb)%nat →
  vec_set xa c (Z.of_nat (length pre)) = Ok xa' →
  foldM (compress_entry m) (seqZ (Z.of_nat (length pre)) (Z.of_nat (length es)))
    (c - 1, xa, vs ++ ra, cs ++ rb)
  = Ok (c, xa', (vs ++ (snd <$> es)) ++ drop (length es) ra,
        (cs ++ ((λ e, e.1.2) <$> es)) ++ drop (length es) rb).
Proof.
  intros Hm Hne Hc Hes Hv Hcs Hra Hrb Hset.
  rewrite <- (compress_same_row m es pre post c xa' vs ra cs rb) by done.
  destruct es as [|e es]; [done|]. apply list.Forall_cons in Hes as [[He1 He2] _].
  rewrite seqZ_cons by (cbn [length]; lia). cbn [foldM]. f_equal. unfold compress_entry.
  rewrite Hm, fmap_cons. cbn [app]. rewrite vec_get_middle by done. cbn [mbind res_bind].
  unfold e_row, to_entry. cbn [fst snd].
  rewrite He1, dlt_before, trunc_of_Z by lia. cbn [mbind res_bind]. rewrite Hset.
  cbn [mbind res_bind]. by rewrite dlt_of_Z, Z.ltb_irrefl by lia.
Qed.

Lemma length_before_mono c c' : 0 ≤ c → c ≤ c' → (length (before c) ≤ length (before c'))%nat.
Proof.
  intros Hc Hcc. unfold before. replace c' with (c + (c' - c)) by lia.
  rewrite seqZ_app, bind_app, length_app by lia. lia.
Qed.

(** Where the rows before [c] start. *)
Definition starts (c : Z) (xa : list Z) : Prop :=
  Z.of_nat (length xa) = nodes + 1 ∧
  ∀ r, 0 ≤ r < c → vlookup xa r = Some (Z.of_nat (length (before r))).

Lemma starts_next c xa :
  starts c xa → 0 ≤ c ≤ nodes →
  ensures (vec_set xa c (Z.of_nat (length (before c)))) (starts (c + 1)).
Proof.
  intros [Hl Hs] Hc. destruct (vlookup_lt xa c) as [x Hx]; [lia|].
  destruct (vec_modify_Ok xa c (λ _, Ok (Z.of_nat (length (before c)))) _ _ Hx eq_refl)
    as (xa' & Hset & Hl' & Hlk).
  exists xa'. split; [done|]. split; [lia|]. intros r Hr. rewrite Hlk.
  case_decide; [by subst|]. apply Hs. lia.
Qed.

Lemma compress_rows a asub xa c :
  0 ≤ c → c ≤ nodes → length a = length rows_spec → length asub = length rows_spec →
  Z.of_nat (length xa) = nodes + 1 →
  ∃ xa', starts c xa' ∧
    foldM (compress_entry rows_spec) (seqZ 0 (Z.of_nat (length (before c)))) (-1, xa, a, asub)
    = Ok (c - 1, xa', (snd <$> before c) ++ drop (length (before c)) a,
          ((λ e, e.1.2) <$> before c) ++ drop (length (before c)) asub).
Proof.
  intros Hc Hmax Ha Hasub Hxa. revert c Hc Hmax. apply (natlike_ind (λ c, c ≤ nodes → _)).
  { intros _. exists xa. split; [split; [done|lia]|done]. }
  intros c Hc IH Hmax. destruct IH as (xa1 & Hs1 & Hrun); [lia|].
  replace (Z.succ c) with (c + 1) by lia.
  destruct (starts_next c xa1 Hs1) as (xa2 & Hset & Hs2); [lia|]. exists xa2. split; [done|].
  pose proof (length_before_mono (c + 1) nodes ltac:(lia) ltac:(lia)) as Hmono.
  rewrite before_next, length_app in * by done.
  assert (length rows_spec = length (before nodes)) as Hall by (rewrite rows_numbered; apply length_fmap).
  rewrite Nat2Z.inj_add, seqZ_app, Z.add_0_l, foldM_app, Hrun by lia. cbn [mbind res_bind].
  assert (∃ post, rows_spec = (to_entry <$> before c) ++ (to_entry <$> numbered c) ++ post) as [post Hpost].
  { exists (to_entry <$> (seqZ (c + 1) (nodes - (c + 1)) ≫= numbered)).
    rewrite rows_numbered, <- !fmap_app. f_equal. rewrite app_assoc, <- before_next by done.
    unfold before. replace nodes with ((c + 1) + (nodes - (c + 1))) at 1 by lia.
    by rewrite seqZ_app, Z.add_0_l, bind_app by lia. }
  replace (length (before c)) with (length (to_entry <$> before c)) at 1 by apply length_fmap.
  rewrite (compress_row rows_spec _ (numbered c) post c xa1 xa2);
    [|done|apply numbered_nonempty|lia| |len..|rewrite length_drop; lia|rewrite length_drop; lia|].
  - replace (c + 1 - 1) with c by lia. rewrite !fmap_app, !drop_drop.
    do 3 f_equal.
  - apply list.Forall_forall. intros e He. by apply numbered_range; [lia|].
  - by rewrite length_fmap.
Qed.

(** The arrays that the steady solver hands over are the matrix, row by row. *)
Lemma compress_matrix a asub xa :
  length a = length rows_spec → length asub = length rows_spec →
  Z.of_nat (length xa) = nodes + 1 →
  ensures (compress numP dimX dimZ rows_spec a asub xa) (λ A,
    m_rows A = nodes ∧ nnz A = Z.of_nat (length rows_spec) ∧
    m_a A = snd <$> before nodes ∧ m_asub A = (λ e, e.1.2) <$> before nodes ∧
    starts (nodes + 1) (m_xa A)).
Proof.
  intros Ha Hasub Hxa.
  assert (length rows_spec = length (before nodes)) as Hall by (rewrite rows_numbered; apply length_fmap).
  assert (0 ≤ nodes) by (unfold nodes, Solver.numLayer; nia).
  destruct (compress_rows a asub xa nodes) as (xa1 & Hs1 & Hrun); [lia..|done|done|done|].
  unfold compress, for_upto. rewrite Hall at 1. rewrite Hrun. cbn [mbind res_bind].
  replace (nodes - 1 + 1) with nodes by lia. rewrite Hall.
  destruct (starts_next nodes xa1 Hs1) as (xa2 & -> & Hs2); [lia|]. apply ensures_ret.
  rewrite !drop_ge, !app_nil_r by lia. split_and!; done.
Qed.
End matrix.
