(* ===== verification/SolverRuns.v ===== *)
(** * SolverRuns: theorems about the thermal solver

    From the rows of SolverSafety.v: the conductance matrix is complete and
    symmetric, the steady solver hands SuperLU that matrix in compressed form,
    the tiled sweep of the transient solver is the plain sweep, both solvers
    return, and the transient solver puts the power of a cell at the node of
    another one. *)

From Stdlib Require Import Sorting.Sorted.
From S2P Require Import Prelude Double Configuration Solver SolverSafety.
Local Open Scope Z_scope.

Lemma foldM_triples {S} (a b c : list Z) (f : Z → Z → Z → S → res S) s :
  foldM (λ l, foldM (λ j, foldM (f l j) c) b) a s
  = foldM (λ q, f q.1 q.2.1 q.2.2) (pairs a (pairs b c)) s.
Proof.
  rewrite <- (foldM_nested (λ l p, f l p.1 p.2)). apply foldM_ext. intros l s' _.
  apply foldM_nested.
Qed.

Lemma tabulate_ok {A} n (f : Z → res A) :
  (∀ i, 0 ≤ i < n → ensures (f i) (λ _, True)) →
  ensures (tabulate n f) (λ v, length v = Z.to_nat n).
Proof.
  intros Hf. unfold tabulate.
  destruct (foldM_total (λ i acc, x ← f i; Ok (acc ++ [x]))
    (λ pre acc, length acc = length pre) (seqZ 0 n) []) as (v & Hrun & Hv); [done| |].
  - intros pre i acc Hi%elem_of_seqZ _ Hacc. destruct (Hf i) as (x & -> & _); [lia|].
    eexists. split; [done|]. rewrite !length_app. simpl. lia.
  - exists v. by rewrite length_seqZ in Hv.
Qed.

(** ** Steps in time *)

(** The tiling changes nothing: enough blocks are a sweep over all entries. *)
Lemma sweep_blocks_plain dimX dimZ fuel midx Cap Tp P dt j T :
  0 ≤ j → Z.of_nat (length midx) - j ≤ block_size * Z.of_nat fuel →
  sweep_blocks dimX dimZ (S fuel) midx Cap Tp P dt j T
  = foldM (apply_entry dimX dimZ midx Cap Tp P dt)
      (seqZ j (Z.of_nat (length midx) - j)) T.
Proof.
  set (n := Z.of_nat (length midx)).
  assert (∀ f j T, sweep_blocks dimX dimZ (S f) midx Cap Tp P dt j T =
    if decide (j < n)
    then T ← foldM (apply_entry dimX dimZ midx Cap Tp P dt)
               (seqZ j ((if decide (j + 8 < n) then j + 8 else n) - j)) T;
         sweep_blocks dimX dimZ f midx Cap Tp P dt (j + 8) T
    else Ok T) as Hstep by done.
  unfold block_size. revert j T; induction fuel as [|fuel IH]; intros j T Hj Hf; rewrite Hstep.
  - rewrite decide_False, seqZ_nil by lia. done.
  - case_decide as Hjn; [|by rewrite seqZ_nil by lia].
    set (bound := if decide (j + 8 < n) then j + 8 else n).
    assert (bound = Z.min (j + 8) n) as Hb by (unfold bound; case_decide; lia).
    assert (seqZ j (n - j) = seqZ j (bound - j) ++ seqZ bound (n - bound)) as ->.
    { replace (n - j) with ((bound - j) + (n - bound)) by lia. rewrite seqZ_app by lia.
      do 2 f_equal. lia. }
    rewrite foldM_app. destruct (foldM _ (seqZ j (bound - j)) T) as [T1|]; [|done].
    cbn [mbind res_bind]. rewrite IH by lia.
    destruct (decide (n ≤ j + 8)); [|by replace bound with (j + 8) by lia].
    by rewrite !seqZ_nil by lia.
Qed.

(** A step in time, as one sweep over the entries in order. *)
Definition plain_step (numP dimX dimZ : Z) (midx : list entry) (Cap P : list double) (dt : double)
    (buffers : list double * list double) : res (list double * list double) :=
  let '(Tp, T) := buffers in
  T ← foldM (apply_entry dimX dimZ midx Cap Tp P dt) (seqZ 0 (Z.of_nat (length midx))) T;
  cleared ← memset Tp (T_size numP dimX dimZ);
  Ok (T, cleared).

Lemma time_step_plain numP dimX dimZ midx Cap P dt buffers :
  time_step numP dimX dimZ midx Cap P dt buffers = plain_step numP dimX dimZ midx Cap P dt buffers.
Proof.
  destruct buffers as [Tp T]. unfold time_step, plain_step.
  rewrite sweep_blocks_plain by (unfold block_size; lia). by rewrite Z.sub_0_r.
Qed.

Section solver.
Context (W Lc : double) (numP dimX dimZ : Z).
Hypothesis numP_pos : 0 < numP.
Hypothesis dimX_pos : 0 < dimX.
Hypothesis dimZ_pos : 0 < dimZ.
Hypothesis nodes_int : nodes numP dimX dimZ < 2 ^ 31.

(** ** The matrix *)

(** No layer refers to a row of TSVs that is not allocated. *)
Lemma Rvert_ok : ensures (Rvert W Lc numP dimX dimZ) (λ rv, Z.of_nat (length rv) = numLayer numP + 1).
Proof.
  unfold Rvert. eapply ensures_bind.
  - apply tabulate_ok. intros l Hl. unfold layer_Rvert. case_decide as Ht; [|by apply ensures_ret].
    unfold TSV. rewrite decide_True; [by apply ensures_ret|].
    unfold mapTSV, numLayer in *. repeat case_decide; try lia.
    assert (0 ≤ (l - 1) / 3) by (apply Z.div_pos; lia).
    assert ((l - 1) / 3 < numP - 1) by (apply Z.div_lt_upper_bound; lia). lia.
  - intros v Hv. apply ensures_ret. cbn [length]. unfold numLayer in *. lia.
Qed.

Lemma calculate_Midx_ok :
  ∃ rv, Rvert W Lc numP dimX dimZ = Ok rv ∧ Z.of_nat (length rv) = numLayer numP + 1 ∧
    calculate_Midx_array W Lc numP dimX dimZ = Ok (rows_spec W Lc numP dimX dimZ rv).
Proof.
  destruct Rvert_ok as (rv & Hrv & Hlen). exists rv. split_and!; [done..|].
  unfold calculate_Midx_array. rewrite Hrv. cbn [mbind res_bind].
  destruct (fill_matrix W Lc numP dimX dimZ numP_pos dimX_pos dimZ_pos nodes_int rv Hlen)
    as ([m idx] & -> & Hm). cbn [mbind res_bind fst] in *. by subst.
Qed.

(** ** Sources of heat *)

Definition source (l c : Z) : Z := dimX * dimZ * (layerP l + 1) + c.

Lemma source_range l c : 0 ≤ l < numP → 0 ≤ c < dimX * dimZ → 0 ≤ source l c < nodes numP dimX dimZ.
Proof. unfold source, layerP, nodes, numLayer. intros. nia. Qed.

Lemma source_inj l l' c c' :
  0 ≤ c < dimX * dimZ → 0 ≤ c' < dimX * dimZ → source l c = source l' c' → l = l' ∧ c = c'.
Proof.
  unfold source, layerP. intros Hc Hc' Heq.
  destruct (Z.div_mod_unique (dimX * dimZ) (l * 3 + 1) (l' * 3 + 1) c c'); [lia..|done|lia].
Qed.

(** Numbers in mixed radix. *)
Lemma radix_range a b x y : 0 ≤ x < a → 0 ≤ y < b → 0 ≤ x * b + y < a * b.
Proof. nia. Qed.

Lemma radix_inj b x y x' y' :
  0 ≤ y < b → 0 ≤ y' < b → x * b + y = x' * b + y' → x = x' ∧ y = y'.
Proof. intros. apply (Z.div_mod_unique b); lia. Qed.

Definition power (powerM : list (list (list double))) (i j l : Z) : double :=
  default d0 (lookup3 powerM i j l).

Lemma get_power powerM i j l :
  dims3 dimX dimZ numP powerM → 0 ≤ i < dimX → 0 ≤ j < dimZ → 0 ≤ l < numP →
  get3 powerM i j l = Ok (power powerM i j l).
Proof.
  intros Hd Hi Hj Hl. destruct (dims3_lookup _ _ _ _ _ _ _ Hd Hi Hj Hl) as [p Hp].
  unfold power. rewrite Hp. by apply get3_Ok.
Qed.

(** Both solvers write the power of a cell at the place of a numbering of the
    cells: [at_ i j], injective on the grid. *)
Lemma write_power (at_ : Z → Z → Z) powerM P (triples : list (Z * (Z * Z))) (ij : Z * Z → Z * Z) :
  dims3 dimX dimZ numP powerM → Z.of_nat (length P) = nodes numP dimX dimZ →
  (∀ q, q ∈ triples ↔ 0 ≤ q.1 < numP ∧ 0 ≤ (ij q.2).1 < dimX ∧ 0 ≤ (ij q.2).2 < dimZ) →
  (∀ i j, 0 ≤ i < dimX → 0 ≤ j < dimZ → 0 ≤ at_ i j < dimX * dimZ) →
  (∀ i j i' j', 0 ≤ i < dimX → 0 ≤ j < dimZ → 0 ≤ i' < dimX → 0 ≤ j' < dimZ →
     at_ i j = at_ i' j' → i = i' ∧ j = j') →
  ensures (foldM (λ q v, b ← get3 powerM (ij q.2).1 (ij q.2).2 q.1;
                         vec_set v (source q.1 (at_ (ij q.2).1 (ij q.2).2)) b) triples P)
    (λ P', Z.of_nat (length P') = nodes numP dimX dimZ ∧
       ∀ q, q ∈ triples → vlookup P' (source q.1 (at_ (ij q.2).1 (ij q.2).2))
                          = Some (power powerM (ij q.2).1 (ij q.2).2 q.1)).
Proof.
  intros Hd HP Hq Hat Hinj.
  eapply ensures_mono; [apply (foldM_writes (λ q, source q.1 (at_ (ij q.2).1 (ij q.2).2))
    (λ q, get3 powerM (ij q.2).1 (ij q.2).2 q.1) (λ q, power powerM (ij q.2).1 (ij q.2).2 q.1))|].
  - intros q (H1 & H2 & H3)%Hq. split; [by apply get_power|]. rewrite HP.
    apply source_range; [done|by apply Hat].
  - intros q q' (A1 & A2 & A3)%Hq (B1 & B2 & B3)%Hq Heq.
    apply source_inj in Heq as [El Ec]; [|by apply Hat..].
    apply Hinj in Ec as [Ei Ej]; [|done..]. congruence.
  - intros P' (H1 & H2 & _). split; [lia|done].
Qed.

Lemma transient_power_ok powerM P :
  dims3 dimX dimZ numP powerM → Z.of_nat (length P) = nodes numP dimX dimZ →
  ensures (transient_power numP dimX dimZ powerM P) (λ P',
    Z.of_nat (length P') = nodes numP dimX dimZ ∧
    ∀ l i j, 0 ≤ l < numP → 0 ≤ i < dimX → 0 ≤ j < dimZ →
      vlookup P' (source l (i * dimZ + j)) = Some (power powerM i j l)).
Proof.
  intros Hd HP. unfold transient_power, for_upto. rewrite foldM_triples.
  destruct (write_power (λ i j, i * dimZ + j) powerM P
    (pairs (seqZ 0 numP) (pairs (seqZ 0 dimZ) (seqZ 0 dimX))) (λ p, (p.2, p.1)))
    as (P' & Hrun & Hl & HP'); [done|done| |intros; by apply radix_range|intros; by eapply radix_inj|].
  - intros [l [j i]]. rewrite !elem_of_pairs, !elem_of_seqZ. cbn [fst snd]. lia.
  - exists P'. split; [|split; [done|]].
    + rewrite <- Hrun. apply foldM_ext. intros [l [j i]] v _. cbn [fst snd]. unfold source.
      by rewrite Z.add_assoc.
    + intros l i j Hl' Hi Hj. apply (HP' (l, (j, i))).
      rewrite !elem_of_pairs, !elem_of_seqZ. lia.
Qed.

Lemma steady_power_ok powerM P :
  dims3 dimX dimZ numP powerM → Z.of_nat (length P) = nodes numP dimX dimZ →
  ensures (steady_power numP dimX dimZ powerM P) (λ P',
    Z.of_nat (length P') = nodes numP dimX dimZ ∧
    ∀ l i j, 0 ≤ l < numP → 0 ≤ i < dimX → 0 ≤ j < dimZ →
      vlookup P' (source l (j * dimX + i)) = Some (power powerM i j l)).
Proof.
  intros Hd HP. unfold steady_power, for_upto. rewrite foldM_triples.
  destruct (write_power (λ i j, j * dimX + i) powerM P
    (pairs (seqZ 0 numP) (pairs (seqZ 0 dimX) (seqZ 0 dimZ))) (λ p, (p.1, p.2)))
    as (P' & Hrun & Hl & HP'); [done|done| |..].
  - intros [l [i j]]. rewrite !elem_of_pairs, !elem_of_seqZ. cbn [fst snd]. lia.
  - intros. rewrite (Z.mul_comm dimX). by apply radix_range.
  - intros i j i' j' Hi Hj Hi' Hj' Heq. apply radix_inj in Heq; tauto.
  - exists P'. split; [|split; [done|]].
    + rewrite <- Hrun. apply foldM_ext. intros [l [i j]] v _. cbn [fst snd]. unfold source.
      by rewrite Z.add_assoc.
    + intros l i j Hl' Hi Hj. apply (HP' (l, (i, j))).
      rewrite !elem_of_pairs, !elem_of_seqZ. lia.
Qed.

Lemma ambient_ok Tamb P :
  Z.of_nat (length P) = nodes numP dimX dimZ →
  ensures (ambient W Lc dimX dimZ Tamb P) (λ P', Z.of_nat (length P') = nodes numP dimX dimZ).
Proof.
  intros HP. apply for_upto_ensures; [|done]. intros i P1 Hi HP1.
  destruct (vlookup_lt P1 i) as [x Hx].
  { rewrite HP1. unfold nodes, numLayer. nia. }
  destruct (vec_modify_Ok P1 i (λ _, Ok (Tamb / Ramb W Lc dimX dimZ)%D) _ _ Hx eq_refl)
    as (w & Hw & Hl & _).
  exists w. split; [exact Hw|congruence].
Qed.

Lemma memset_ok v :
  Z.of_nat (length v) = nodes numP dimX dimZ →
  ensures (memset v (T_size numP dimX dimZ)) (λ w, Z.of_nat (length w) = nodes numP dimX dimZ).
Proof.
  intros Hv. unfold memset. change (T_size numP dimX dimZ) with (nodes numP dimX dimZ).
  rewrite decide_True by lia. apply ensures_ret. rewrite length_app, length_replicate, length_drop. lia.
Qed.

(** ** The sweep *)

Context (rv : list double).
Hypothesis rv_length : Z.of_nat (length rv) = numLayer numP + 1.

Lemma apply_entry_ok Cap Tp P dt b T :
  Z.of_nat (length Cap) = numLayer numP + 1 →
  Z.of_nat (length Tp) = nodes numP dimX dimZ → Z.of_nat (length P) = nodes numP dimX dimZ →
  0 ≤ b < Z.of_nat (length (rows_spec W Lc numP dimX dimZ rv)) →
  Z.of_nat (length T) = nodes numP dimX dimZ →
  ensures (apply_entry dimX dimZ (rows_spec W Lc numP dimX dimZ rv) Cap Tp P dt b T)
    (λ T', Z.of_nat (length T') = nodes numP dimX dimZ).
Proof.
  intros HCap HTp HP Hb HT. unfold apply_entry.
  destruct (vec_get_lt _ b Hb) as [e He]. rewrite He. cbn [mbind res_bind].
  apply vec_get_Ok, vlookup_elem in He.
  rewrite rows_numbered in He by done. apply list_elem_of_fmap in He as (x & -> & Hx).
  unfold before in Hx. apply list_elem_of_bind in Hx as (c & Hx & Hc%elem_of_seqZ).
  destruct (numbered_range W Lc numP dimX dimZ numP_pos dimX_pos dimZ_pos nodes_int rv rv_length c x) as [Hrow Hcol]; [lia|done|].
  unfold to_entry, e_row, e_col, e_val. cbn [fst snd]. rewrite Hrow.
  rewrite !index_of_double by lia. cbn [mbind res_bind].
  assert (0 < dimX * dimZ) by nia. unfold int_div. rewrite decide_False by lia. cbn [mbind res_bind].
  rewrite Z.quot_div_nonneg by lia.
  destruct (vec_get_lt Cap (c / (dimX * dimZ))) as [cap ->].
  { rewrite HCap. split; [apply Z.div_pos; lia|]. apply Z.div_lt_upper_bound; [lia|].
    unfold nodes in Hc. lia. }
  destruct (vec_get_lt Tp x.1.2) as [tp ->]; [lia|]. cbn [mbind res_bind].
  destruct (vlookup_lt T c) as [t Ht]; [lia|].
  assert (∀ f : double → double, ensures (vec_modify T c (λ t, Ok (f t)))
    (λ T', Z.of_nat (length T') = nodes numP dimX dimZ)) as Hmod.
  { intros f. destruct (vec_modify_Ok T c (λ t, Ok (f t)) _ _ Ht eq_refl) as (w & -> & Hl & _).
    apply ensures_ret. congruence. }
  case_decide; [|apply Hmod]. destruct (vec_get_lt P c) as [p ->]; [lia|]. cbn [mbind res_bind].
  apply Hmod.
Qed.

Lemma plain_step_ok Cap P dt buffers :
  Z.of_nat (length Cap) = numLayer numP + 1 → Z.of_nat (length P) = nodes numP dimX dimZ →
  Z.of_nat (length buffers.1) = nodes numP dimX dimZ →
  Z.of_nat (length buffers.2) = nodes numP dimX dimZ →
  ensures (plain_step numP dimX dimZ (rows_spec W Lc numP dimX dimZ rv) Cap P dt buffers) (λ b,
    Z.of_nat (length b.1) = nodes numP dimX dimZ ∧ Z.of_nat (length b.2) = nodes numP dimX dimZ).
Proof.
  destruct buffers as [Tp T]. intros HCap HP HTp HT. cbn [fst snd] in *. unfold plain_step.
  eapply ensures_bind.
  - apply (foldM_ensures _ (λ T, Z.of_nat (length T) = nodes numP dimX dimZ)); [|exact HT].
    intros b T1 Hb%elem_of_seqZ HT1. by apply apply_entry_ok; [..|lia|].
  - intros T1 HT1. eapply ensures_bind; [by apply memset_ok|]. intros w Hw. by apply ensures_ret.
Qed.

(** The sources of a step: what is set before the sweeps begin. *)
Definition sources (powerM : list (list (list double))) (Tamb : double) (garbage : list double)
    : res (list double) :=
  P ← memset garbage (T_size numP dimX dimZ);
  P ← ambient W Lc dimX dimZ Tamb P;
  transient_power numP dimX dimZ powerM P.

Lemma transient_ok powerM Cap time iter T_trans Tamb garbage :
  dims3 dimX dimZ numP powerM → Z.of_nat (length Cap) = numLayer numP + 1 →
  Z.of_nat (length T_trans) = nodes numP dimX dimZ →
  Z.of_nat (length garbage) = nodes numP dimX dimZ →
  ∃ P T0, sources powerM Tamb garbage = Ok P ∧ memset garbage (T_size numP dimX dimZ) = Ok T0 ∧
    (∀ l i j, 0 ≤ l < numP → 0 ≤ i < dimX → 0 ≤ j < dimZ →
       vlookup P (source l (i * dimZ + j)) = Some (power powerM i j l)) ∧
    ensures (for_upto iter (λ _, plain_step numP dimX dimZ (rows_spec W Lc numP dimX dimZ rv) Cap P
        (time / of_Z iter)%D) (T_trans, T0)) (λ b,
      transient_thermal_solver W Lc numP dimX dimZ powerM (rows_spec W Lc numP dimX dimZ rv) Cap
        time iter T_trans Tamb garbage = Ok b.1 ∧
      Z.of_nat (length b.1) = nodes numP dimX dimZ).
Proof.
  intros Hd HCap HTt Hg.
  destruct (memset_ok garbage Hg) as (T0 & Hmem & HT0).
  destruct (ambient_ok Tamb T0 HT0) as (P1 & Hamb & HP1).
  destruct (transient_power_ok powerM P1 Hd HP1) as (P & Hpow & HP & Hval).
  exists P, T0. split.
  { unfold sources. rewrite Hmem. cbn [mbind res_bind]. rewrite Hamb. done. }
  split_and!; [done..|].
  destruct (for_upto_ensures (λ b : list double * list double,
      Z.of_nat (length b.1) = nodes numP dimX dimZ ∧ Z.of_nat (length b.2) = nodes numP dimX dimZ) iter
    (λ _, plain_step numP dimX dimZ (rows_spec W Lc numP dimX dimZ rv) Cap P (time / of_Z iter)%D)
    (T_trans, T0)) as ([Tp T'] & Hrun & Hlen & _); [|done|].
  { intros i b _ [H1 H2]. by apply plain_step_ok. }
  exists (Tp, T'). split; [done|]. split; [|done]. cbn [fst].
  unfold transient_thermal_solver. rewrite Hmem. cbn [mbind res_bind]. rewrite Hamb.
  cbn [mbind res_bind]. rewrite Hpow. cbn [mbind res_bind].
  unfold for_upto in *. rewrite (foldM_ext _ (λ _ : Z, plain_step numP dimX dimZ
    (rows_spec W Lc numP dimX dimZ rv) Cap P (time / of_Z iter)%D)) by (intros; apply time_step_plain).
  by rewrite Hrun.
Qed.

(** ** The steady solver *)

Lemma steady_ok pdgssv powerM Tamb a asub xa :
  dims3 dimX dimZ numP powerM →
  length a = length (rows_spec W Lc numP dimX dimZ rv) →
  length asub = length (rows_spec W Lc numP dimX dimZ rv) →
  Z.of_nat (length xa) = nodes numP dimX dimZ + 1 →
  (∀ A b, Z.of_nat (length b) = m_rows A → length (pdgssv A b) = length b) →
  ∃ A rhs, compress numP dimX dimZ (rows_spec W Lc numP dimX dimZ rv) a asub xa = Ok A ∧
    m_rows A = nodes numP dimX dimZ ∧ nnz A = Z.of_nat (length (rows_spec W Lc numP dimX dimZ rv)) ∧
    m_a A = snd <$> before W Lc numP dimX dimZ rv (nodes numP dimX dimZ) ∧
    m_asub A = (λ e, e.1.2) <$> before W Lc numP dimX dimZ rv (nodes numP dimX dimZ) ∧
    starts W Lc numP dimX dimZ rv (nodes numP dimX dimZ + 1) (m_xa A) ∧
    (∀ l i j, 0 ≤ l < numP → 0 ≤ i < dimX → 0 ≤ j < dimZ →
       vlookup rhs (source l (j * dimX + i)) = Some (power powerM i j l)) ∧
    ensures (steady_thermal_solver W Lc numP dimX dimZ pdgssv powerM
      (rows_spec W Lc numP dimX dimZ rv) Tamb a asub xa) (λ T,
        Z.of_nat (length T) = nodes numP dimX dimZ).
Proof.
  intros Hd Ha Hasub Hxa Hsolve.
  destruct (compress_matrix W Lc numP dimX dimZ numP_pos dimX_pos dimZ_pos nodes_int rv rv_length
    a asub xa Ha Hasub Hxa) as (A & HA & A1 & A2 & A3 & A4 & A5).
  assert (0 ≤ nodes numP dimX dimZ) as Hn by (unfold nodes, numLayer; nia).
  destruct (ambient_ok Tamb (replicate (Z.to_nat (T_size numP dimX dimZ)) d0)) as (P1 & Hamb & HP1).
  { rewrite length_replicate. change (T_size numP dimX dimZ) with (nodes numP dimX dimZ). lia. }
  destruct (steady_power_ok powerM P1 Hd HP1) as (rhs & Hpow & HP & Hval).
  exists A, rhs. split_and!; try done.
  unfold steady_thermal_solver. rewrite HA. cbn [mbind res_bind]. rewrite Hamb. cbn [mbind res_bind].
  rewrite Hpow. cbn [mbind res_bind].
  eapply ensures_mono; [apply tabulate_ok|].
  - intros i Hi. change (T_size numP dimX dimZ) with (nodes numP dimX dimZ) in Hi.
    destruct (vec_get_lt (pdgssv A rhs) i) as [t ->]; [rewrite Hsolve; lia|]. by apply ensures_ret.
  - intros T ->. change (T_size numP dimX dimZ) with (nodes numP dimX dimZ). lia.
Qed.
End solver.


(** ** Properties *)

(** C16: the conductance matrix is complete.  For every grid whose nodes are
    numbered by [int], building it returns: no row of TSVs outside its array is
    read, the second pass writes exactly the entries that the first one
    counted, the matrix is the list of the rows of all nodes in order, each
    with the node and its neighbours by increasing column, and it is symmetric,
    values included. *)
Theorem conductance_matrix (W Lc : double) (numP dimX dimZ : Z) :
  0 < numP → 0 < dimX → 0 < dimZ → nodes numP dimX dimZ < 2 ^ 31 →
  ∃ rv m, Rvert W Lc numP dimX dimZ = Ok rv ∧ calculate_Midx_array W Lc numP dimX dimZ = Ok m ∧
    m = rows_spec W Lc numP dimX dimZ rv ∧ Z.of_nat (length m) = count_entries numP dimX dimZ ∧
    (∀ l j i, in_grid numP dimX dimZ l j i →
       StronglySorted Z.lt (fst <$> row_cols W Lc numP dimX dimZ rv l j i)) ∧
    (∀ e, e ∈ m → (e_col e, e_row e, e_val e) ∈ m).
Proof.
  intros Hp Hx Hz Hn. destruct (calculate_Midx_ok W Lc numP dimX dimZ Hp Hx Hz Hn) as (rv & Hrv & Hl & Hm).
  exists rv, (rows_spec W Lc numP dimX dimZ rv). split_and!; [done..| | |].
  - by rewrite (count_entries_rows W Lc numP dimX dimZ Hp Hx Hz rv).
  - by apply row_sorted.
  - by apply rows_symmetric.
Qed.

Lemma conductance_matrix_witness :
  ∃ rv m, Rvert (dec 1 2) (dec 2 2) 2 3 4 = Ok rv ∧
    calculate_Midx_array (dec 1 2) (dec 2 2) 2 3 4 = Ok m ∧
    m = rows_spec (dec 1 2) (dec 2 2) 2 3 4 rv ∧ Z.of_nat (length m) = count_entries 2 3 4 ∧
    (∀ l j i, in_grid 2 3 4 l j i →
       StronglySorted Z.lt (fst <$> row_cols (dec 1 2) (dec 2 2) 2 3 4 rv l j i)) ∧
    (∀ e, e ∈ m → (e_col e, e_row e, e_val e) ∈ m).
Proof. apply (conductance_matrix (dec 1 2) (dec 2 2) 2 3 4); done. Defined.


Definition sample_powerM (dimX dimZ numP : Z) : list (list (list double)) :=
  replicate (Z.to_nat dimX) (replicate (Z.to_nat dimZ) (replicate (Z.to_nat numP) (dec 25 2))).


(** C17: the transient solver integrates the network.  It returns for every
    grid, power map and number of steps, with a temperature for every node: no
    index read back from the doubles of the matrix is out of range.  Its result
    is the one of the plain integration, in which a step is one sweep over the
    entries of the matrix in order: tiling the sweep by eight changes nothing.
    The power of the cell [(i, j)] is put at the place [i * dimZ + j] of its
    layer, where the matrix has the node of another cell (see
    [transient_power_misplaced]). *)
Theorem transient_integrates (W Lc : double) (numP dimX dimZ : Z)
    (powerM : list (list (list double))) (m : list entry) (time : double) (iter : Z)
    (T_trans : list double) (Tamb : double) (garbage : list double) :
  0 < numP → 0 < dimX → 0 < dimZ → nodes numP dimX dimZ < 2 ^ 31 →
  calculate_Midx_array W Lc numP dimX dimZ = Ok m → dims3 dimX dimZ numP powerM →
  Z.of_nat (length T_trans) = nodes numP dimX dimZ →
  Z.of_nat (length garbage) = nodes numP dimX dimZ →
  let Cap := calculate_Cap_array W Lc numP dimX dimZ in
  ∃ P T0, sources W Lc numP dimX dimZ powerM Tamb garbage = Ok P ∧
    memset garbage (T_size numP dimX dimZ) = Ok T0 ∧
    (∀ l i j, 0 ≤ l < numP → 0 ≤ i < dimX → 0 ≤ j < dimZ →
       vlookup P (source dimX dimZ l (i * dimZ + j)) = Some (power powerM i j l)) ∧
    ensures (for_upto iter (λ _, plain_step numP dimX dimZ m Cap P (time / of_Z iter)%D) (T_trans, T0))
      (λ b, transient_thermal_solver W Lc numP dimX dimZ powerM m Cap time iter T_trans Tamb garbage
              = Ok b.1 ∧ Z.of_nat (length b.1) = nodes numP dimX dimZ).
Proof.
  intros Hp Hx Hz Hn Hm Hd HT Hg Cap.
  destruct (calculate_Midx_ok W Lc numP dimX dimZ Hp Hx Hz Hn) as (rv & Hrv & Hl & Hm').
  rewrite Hm in Hm'. injection Hm' as ->. apply transient_ok; try done.
  unfold Cap, calculate_Cap_array. rewrite length_fmap, length_seqZ. unfold numLayer. lia.
Qed.

Lemma transient_integrates_witness :
  ∃ m T, calculate_Midx_array (dec 1 2) (dec 1 2) 1 3 4 = Ok m ∧
    transient_thermal_solver (dec 1 2) (dec 1 2) 1 3 4 (sample_powerM 3 4 1) m
      (calculate_Cap_array (dec 1 2) (dec 1 2) 1 3 4) (dec 1 4) 10
      (initialize_Temperature 1 3 4 T0) T0 (replicate 48 d0) = Ok T ∧ length T = 48%nat.
Proof.
  destruct (conductance_matrix (dec 1 2) (dec 1 2) 1 3 4) as (rv & m & _ & Hm & _); [done..|].
  destruct (transient_integrates (dec 1 2) (dec 1 2) 1 3 4 (sample_powerM 3 4 1) m (dec 1 4) 10
    (initialize_Temperature 1 3 4 T0) T0 (replicate 48 d0)) as (_ & _ & _ & _ & _ & [T T'] & _ & HT & Hl);
    [done|done|done|done|exact Hm|apply (dims3_replicate 3 4 1)|done|done|].
  exists m, T. split_and!; [done..|]. cbn [fst] in Hl. change (nodes 1 3 4) with 48 in Hl. lia.
Defined.

(** The transient solver heats the wrong cells: on any grid of at least two by
    two, the node of the cell (1, 0) gets the power of the cell (0, 1), while
    the steady solver gives it its own. *)
Lemma transient_power_misplaced numP dimX dimZ powerM P :
  0 < numP → 2 ≤ dimX → 2 ≤ dimZ →
  dims3 dimX dimZ numP powerM → Z.of_nat (length P) = nodes numP dimX dimZ →
  ∃ Pt Ps, transient_power numP dimX dimZ powerM P = Ok Pt ∧
    steady_power numP dimX dimZ powerM P = Ok Ps ∧
    ∀ l, 0 ≤ l < numP →
      vlookup Pt (node dimX dimZ (layerP l + 1) 1 0) = Some (power powerM 0 1 l) ∧
      vlookup Ps (node dimX dimZ (layerP l + 1) 1 0) = Some (power powerM 1 0 l).
Proof.
  intros Hp Hx Hz Hd HP.
  destruct (transient_power_ok numP dimX dimZ ltac:(lia) ltac:(lia) powerM P Hd HP) as (Pt & Ht & _ & Vt).
  destruct (steady_power_ok numP dimX dimZ ltac:(lia) ltac:(lia) powerM P Hd HP) as (Ps & Hs & _ & Vs).
  exists Pt, Ps. split_and!; [done..|]. intros l Hl. split.
  - rewrite <- (Vt l 0 1) by lia. f_equal. unfold node, source. lia.
  - rewrite <- (Vs l 1 0) by lia. f_equal. unfold node, source. lia.
Qed.
