(* ===== verification/Thermal.v ===== *)
(** * Thermal: power maps on the floor plan
    (src/src/thermal.cc, thermal.h, configuration.cc)

    The thermal calculator: its parameters ([InitThermalParams]), the mapping
    of channels, banks, rows and columns to cells of the die, the charging of
    energies to those cells, the refresh counters, and the epochs that hand the
    maps to the solver of Solver.v.  [ThermalParams] holds the members of
    [Config] that exist under THERMAL only.  Members that C++ leaves
    indeterminate are parameters.  The standard output and the text of the CSV
    files are left out; the values written to a row are modelled. *)

From Stdlib Require Import Ascii.
From S2P Require Import Prelude Double Common Configuration TraceFile Energy Solver.
Local Open Scope Z_scope.

(** ** Parameters *)

Record ThermalParams : Type := MkThermalParams {
  loc_mapping : string; num_row_refresh : Z;
  amb_temp : double; const_logic_power : double;
  chip_dim_x : double; chip_dim_y : double;
  num_x_grids : Z; num_y_grids : Z; mat_dim_x : Z; mat_dim_y : Z;
  bank_order : Z; bank_layer_order : Z; row_tile : Z; tile_row_num : Z;
  bank_asr : double }.

#[export] Instance ThermalParams_eta : RecordEta ThermalParams := λ t, MkThermalParams
  (loc_mapping t) (num_row_refresh t) (amb_temp t) (const_logic_power t) (chip_dim_x t)
  (chip_dim_y t) (num_x_grids t) (num_y_grids t) (mat_dim_x t) (mat_dim_y t) (bank_order t)
  (bank_layer_order t) (row_tile t) (tile_row_num t) (bank_asr t).

(** [while (row_tile * row_tile * 4 < bank_asr) row_tile *= 2]: the product
    overflows when [row_tile] reaches 2^15. *)
Fixpoint row_tile_loop (fuel : nat) (bank_asr : double) (row_tile : Z) : res Z :=
  match fuel with
  | O => Fault NoFuel
  | S fuel' =>
    if decide (2 ^ 31 ≤ row_tile * row_tile * 4) then Fault SignedOverflow
    else if dlt (of_Z (row_tile * row_tile * 4)) bank_asr
    then row_tile_loop fuel' bank_asr (row_tile * 2)
    else Ok row_tile
  end.

(** [t] holds the members before the call: [loc_mapping] is empty, the others
    are indeterminate.  When the rows are tiled, those read in the other
    branch stay as they are. *)
Definition InitThermalParams (reader : INIReader) (GetReal : string → string → double → double)
    (c : Config) (p : PowerParams) (t : ThermalParams) : res ThermalParams :=
  let gi := GetInteger reader "thermal" in
  let t := t <| const_logic_power := GetReal "thermal" "const_logic_power" (of_Z 5) |>
             <| mat_dim_x := gi "mat_dim_x" 512 |>
             <| mat_dim_y := gi "mat_dim_y" 512 |> in
  x ← int_div (rows c) (mat_dim_x t);
  y ← int_div (columns c * device_width c) (mat_dim_y t);
  let t := t <| num_x_grids := x |> <| tile_row_num := rows c |> <| num_y_grids := y |>
             <| bank_asr := (of_Z x / of_Z y)%D |> <| row_tile := 1 |> in
  if dlt (of_Z 4) (bank_asr t) && bool_decide (banks_per_group c = 1)
  then
    tile ← row_tile_loop 17 (bank_asr t) 1;
    let t := t <| row_tile := tile |>
               <| num_x_grids ::= λ n, Z.quot n tile |>
               <| tile_row_num ::= λ n, Z.quot n tile |>
               <| num_y_grids ::= λ n, n * tile |> in
    Ok (t <| bank_asr := (of_Z (num_x_grids t) / of_Z (num_y_grids t))%D |>)
  else
    nrr ← int_of_double (dceil (of_Z (rows c) / (of_Z 64000000 / (of_Z (tREFI c) * tCK p))))%D;
    Ok (t <| loc_mapping := Get reader "thermal" "loc_mapping" "" |>
          <| bank_order := gi "bank_order" 1 |>
          <| bank_layer_order := gi "bank_layer_order" 0 |>
          <| num_row_refresh := nrr |>
          <| chip_dim_x := GetReal "thermal" "chip_dim_x" (dec 1 2) |>
          <| chip_dim_y := GetReal "thermal" "chip_dim_y" (dec 1 2) |>
          <| amb_temp := GetReal "thermal" "amb_temp" (of_Z 40) |>).

(** ** The location mapping *)

(** [std::stoi], which throws on text without a number and out of range. *)
Definition stoi (s : list ascii) : res Z :=
  let '(negative, l) := drop_sign (skip_ws s) in
  let ds := (span_digits 10 l).1 in
  let v := if (negative : bool) then - number 10 ds else number 10 ds in
  if decide (ds ≠ [] ∧ - 2 ^ 31 ≤ v < 2 ^ 31) then Ok v else Fault UncaughtException.

(** One position, or a range [start:end] with both ends. *)
Definition parse_positions (item : string) : res (list Z) :=
  let '(before, rest) := span (λ c, negb (bool_decide (c = ":"%char))) (chars item) in
  match rest with
  | [] => pos ← stoi before; Ok [pos]
  | _ :: after =>
    start_pos ← stoi before; end_pos ← stoi after;
    Ok (if decide (end_pos < start_pos)
        then rev (seqZ end_pos (start_pos - end_pos + 1))
        else seqZ start_pos (end_pos - start_pos + 1))
  end.

Definition parse_field (field : string) : res (list Z) :=
  foldM (λ item acc, ps ← parse_positions item; Ok (acc ++ ps)) (StringSplit field "-"%char) [].

(** The function that [GetPhyAddress] is set to, with what it captures. *)
Inductive PhyMapping : Type :=
  | Identity
  | Mapped (mapped_pos : list (list Z)) (column_offset : Z).

Definition SetPhyAddressMapping (c : Config) (t : ThermalParams) : res PhyMapping :=
  if decide (loc_mapping t = ""%string) then Ok Identity
  else
    let bit_fields := StringSplit (loc_mapping t) ","%char in
    if decide (length bit_fields ≠ 6%nat) then Fault (ExitCode 1)
    else
      mapped_pos ← foldM (λ field acc, ps ← parse_field field; Ok (acc ++ [ps])) bit_fields [];
      column_offset ← LogBase2 (BL c);
      Ok (Mapped mapped_pos column_offset).

(** A shift of a [uint64_t]. *)
Definition shift_ok (n : Z) : res unit :=
  if decide (0 ≤ n < 64) then Ok tt else Fault UndefinedShift.

(** The bits of one field, put where they are mapped: [positions] from the
    most significant bit of [value] down. *)
Fixpoint scatter (positions : list Z) (value new_hex : Z) : res Z :=
  match positions with
  | [] => Ok new_hex
  | pos :: rest =>
    let j := Z.of_nat (length rest) in
    _ ← shift_ok j; _ ← shift_ok pos;
    scatter rest value (Z.lor new_hex (u64 (Z.shiftl (GetBitInPos (u64 value) j) pos)))
  end.

(** The fields read back, the last one first. *)
Fixpoint gather (widths : list Z) (new_hex pos : Z) : res (list Z) :=
  match widths with
  | [] => Ok []
  | w :: rest =>
    _ ← shift_ok pos; _ ← shift_ok w;
    vs ← gather rest new_hex (pos + w);
    Ok (i32 (ModuloWidth new_hex w pos) :: vs)
  end.

Definition GetPhyAddress (m : PhyMapping) (a : Address) : res Address :=
  match m with
  | Identity => Ok a
  | Mapped mapped_pos column_offset =>
    let origin_pos := [channel a; rank a; bankgroup a; bank a; row a; column a] in
    new_hex ← foldM (λ pv hex, scatter pv.1 pv.2 hex) (zip mapped_pos origin_pos) 0;
    new_pos ← gather (rev ((λ ps, Z.of_nat (length ps)) <$> mapped_pos)) new_hex column_offset;
    match rev new_pos with
    | [ch; ra; bg; ba; ro; co] => Ok (MkAddress ch ra bg ba ro co)
    | _ => Fault OutOfRange
    end
  end.

(** ** The calculator *)

Record ThermalCalculator : Type := MkThermalCalculator {
  numP : Z; dimX : Z; dimY : Z; num_case : Z;
  vault_x : Z; vault_y : Z; bank_x : Z; bank_y : Z;
  phy_mapping : PhyMapping;
  Tamb : double; time_iter : Z;
  Midx : list entry; Cap : list double;
  T_trans : list (list double);
  sample_id : Z;
  accu_Pmap : list (list double);
  cur_Pmap : list (list double);
  refresh_count : list (list Z);
  background_energy_ : list (list double);
  avg_logic_power_ : double }.

#[export] Instance ThermalCalculator_eta : RecordEta ThermalCalculator := λ s, MkThermalCalculator
  (numP s) (dimX s) (dimY s) (num_case s) (vault_x s) (vault_y s) (bank_x s) (bank_y s)
  (phy_mapping s) (Tamb s) (time_iter s) (Midx s) (Cap s) (T_trans s) (sample_id s)
  (accu_Pmap s) (cur_Pmap s) (refresh_count s) (background_energy_ s) (avg_logic_power_ s).

(** C++ integer remainder. *)
Definition int_mod (a b : Z) : res Z :=
  if decide (b = 0) then Fault DivideByZero else Ok (Z.rem a b).

(** [determineXY]: the factorisation [x * y] of the grid whose aspect ratio
    is the smallest; the first one of equals. *)
Definition aspect_ratio (xd yd : double) (x y : Z) : double :=
  if dle (of_Z y * yd) (of_Z x * xd)
  then (of_Z x * xd / of_Z y / yd)%D else (of_Z y * yd / of_Z x / xd)%D.

Definition determineXY (xd yd : double) (total_grids_ : Z) : Z :=
  (foldl (λ '(x_re, asr_re) y,
      let x := Z.quot total_grids_ y in
      if decide (x * y = total_grids_)
      then let asr := aspect_ratio xd yd x y in
           if dlt asr asr_re then (Z.quot total_grids_ y, asr) else (x_re, asr_re)
      else (x_re, asr_re))
    (1, of_Z 1000) (seqZ 1 total_grids_)).1.

Definition num_dummy : Z := 2.

Definition is_stacked (c : Config) : bool := IsHMC c || IsHBM c.

(** The dimensions that the constructor chooses: [numP], [bank_x], [bank_y],
    [vault_x], [vault_y].  A device that is not stacked has no vaults: the two
    members keep what they held ([garbage]). *)
Definition floor_plan (c : Config) (t : ThermalParams) (garbage : Z * Z)
    : res (Z * Z * Z * Z * Z) :=
  if IsHMC c then
    let bank_x := 1 in let bank_y := 2 in
    let xd := (of_Z bank_x * bank_asr t)%D in
    let yd := (of_Z bank_y * of_Z 1)%D in
    let vault_x := determineXY xd yd (channels c) in
    vault_y ← int_div (channels c) vault_x;
    Ok (num_dies c + 1, bank_x, bank_y, vault_x, vault_y)
  else if IsHBM c then Ok (num_dies c + 1, 8, 2, 1, 2)
  else
    let bank_x := determineXY (bank_asr t) (of_Z 1) (banks c) in
    bank_y ← int_div (banks c) bank_x;
    Ok (1, bank_x, bank_y, garbage.1, garbage.2).

(** [search p test n]: the first of the [p] numbers from [n] on that passes
    the test, or the number after them. *)
Fixpoint search (p : positive) (test : Z → bool) (n : Z) : Z + Z :=
  match p with
  | xH => if test n then inl n else inr (n + 1)
  | xO p' =>
    match search p' test n with inl r => inl r | inr n' => search p' test n' end
  | xI p' =>
    if test n then inl n
    else match search p' test (n + 1) with inl r => inl r | inr n' => search p' test n' end
  end.

(** [calculate_time_step]: the number of steps of an epoch, from 10 up until a
    step is shorter than the smallest time constant of the network; the [int]
    overflows when there is none. *)
Definition smallest_constant (dimX dimY : Z) (Midx : list entry) (Cap : list double) : res double :=
  let layer_dim := (dimX + num_dummy) * (dimY + num_dummy) in
  foldM (λ e dt,
      idx0 ← int_of_double (e_row e + hundredth)%D;
      idx1 ← int_of_double (e_col e + hundredth)%D;
      idxC ← int_div idx0 layer_dim;
      if decide (idx0 = idx1)
      then let g := e_val e in
           c ← vec_get Cap idxC;
           Ok (if dlt (c / g) dt then (c / g)%D else dt)
      else Ok dt) Midx (of_Z 100).

Definition calculate_time_step (config : Config) (p : PowerParams) (dimX dimY : Z)
    (Midx : list entry) (Cap : list double) : res Z :=
  dt ← smallest_constant dimX dimY Midx Cap;
  let power_epoch_time := (of_Z (epoch_period config) * tCK p * dec 1 9)%D in
  match search (2 ^ 31 - 10) (λ n, negb (dle dt (power_epoch_time / of_Z n))) 10 with
  | inl n => Ok n
  | inr _ => Fault SignedOverflow
  end.

(** [InitialParameters]: the network, the steps of an epoch, and the
    temperatures of a case. *)
Definition InitialParameters (c : Config) (p : PowerParams) (t : ThermalParams)
    (numP dimX dimY : Z) (Tamb : double) : res (list entry * list double * Z * list double) :=
  let gx := dimX + num_dummy in let gy := dimY + num_dummy in
  midx ← calculate_Midx_array (chip_dim_x t) (chip_dim_y t) numP gx gy;
  let cap := calculate_Cap_array (chip_dim_x t) (chip_dim_y t) numP gx gy in
  time_iter ← calculate_time_step c p dimX dimY midx cap;
  Ok (midx, cap, time_iter, initialize_Temperature numP gx gy Tamb).

(** The constructor [ThermalCalculator(config)].  The rows that it prints to
    bank_pos.csv are those of [PrintCSV_bank]. *)
Definition ThermalCalculator_new (c : Config) (p : PowerParams) (t : ThermalParams)
    (garbage : Z * Z) : res ThermalCalculator :=
  '(numP, bank_x, bank_y, vault_x, vault_y) ← floor_plan c t garbage;
  let stacked := is_stacked c in
  let dimX := (if stacked then vault_x * bank_x else bank_x) * num_x_grids t in
  let dimY := (if stacked then vault_y * bank_y else bank_y) * num_y_grids t in
  let num_case := if stacked then 1 else ranks c * channels c in
  let Tamb := (amb_temp t + T0)%D in
  mapping ← SetPhyAddressMapping c t;
  let no_power := replicate (Z.to_nat num_case) (replicate (Z.to_nat (numP * dimX * dimY)) d0) in
  '(midx, cap, time_iter, T) ← InitialParameters c p t numP dimX dimY Tamb;
  Ok (MkThermalCalculator numP dimX dimY num_case vault_x vault_y bank_x bank_y mapping Tamb
    time_iter midx cap
    (replicate (Z.to_nat num_case) T) 0
    no_power no_power
    (replicate (Z.to_nat (channels c * ranks c)) (replicate (Z.to_nat (banks c)) 0))
    (replicate (Z.to_nat (channels c)) (replicate (Z.to_nat (ranks c)) d0)) d0).

(** ** Places *)

Section calculator.
Context (config_ : Config) (params : ThermalParams).

Definition swap_if (b : bool) (p : Z * Z) : Z * Z := if b then (p.2, p.1) else p.

Definition MapToVault (s : ThermalCalculator) (channel_id : Z) : res (Z * Z) :=
  if IsHMC config_ then
    let vault_factor := if decide (bank_order params = 0) then vault_x s else vault_y s in
    q ← int_div channel_id vault_factor; r ← int_mod channel_id vault_factor;
    Ok (swap_if (bool_decide (bank_order params = 0)) (q, r))
  else if IsHBM config_ then Ok (0, Z.rem channel_id 2)
  else Ok (0, 0).

Definition MapToBank (s : ThermalCalculator) (bankgroup_id bank_id : Z) : res (Z * Z) :=
  let abs_bank_id := bankgroup_id * banks_per_group config_ + bank_id in
  let bank_factor := if decide (bank_order params ≠ 0) then bank_y s else bank_x s in
  let swap := swap_if (bool_decide (bank_order params = 0)) in
  if IsHMC config_ then
    num_bank_per_layer ← int_div (banks config_) (num_dies config_);
    bank_same_layer ← int_mod abs_bank_id num_bank_per_layer;
    q ← int_div bank_same_layer bank_factor; r ← int_mod bank_same_layer bank_factor;
    Ok (swap (q, r))
  else if IsHBM config_ then Ok (bankgroup_id * 2 + Z.quot bank_id 2, Z.rem bank_id 2)
  else if decide (1 < bankgroups config_) then
    let '(x, y) := swap (Z.quot bank_id 2, Z.rem bank_id 2) in
    if decide (bank_x s ≤ bank_y s) then Ok (x, y + bankgroup_id * 2)
    else Ok (x + bankgroup_id * 2, y)
  else
    q ← int_div abs_bank_id bank_factor; r ← int_mod abs_bank_id bank_factor;
    Ok (swap (q, r)).

Definition MapToZ (s : ThermalCalculator) (channel_id bank_id : Z) : res Z :=
  if IsHMC config_ then
    num_bank_per_layer ← int_div (banks config_) (num_dies config_);
    q ← int_div bank_id num_bank_per_layer;
    Ok (if decide (bank_layer_order params = 0) then q else numP s - q - 2)
  else if IsHBM config_ then Ok (Z.quot channel_id 2)
  else Ok 0.

(** The first cell of a bank, in x and in y. *)
Definition bank_origin (s : ThermalCalculator) (vault bank : Z * Z) : Z * Z :=
  (vault.1 * (bank_x s * num_x_grids params) + bank.1 * num_x_grids params,
   vault.2 * (bank_y s * num_y_grids params) + bank.2 * num_y_grids params).

(** The rows of bank_pos.csv: vault, bank, start and end in x, in y, layer. *)
Definition bank_row (s : ThermalCalculator) (vault_id bg bank : Z)
    : res (Z * Z * (Z * Z) * (Z * Z) * Z) :=
  vault ← MapToVault s vault_id;
  let abs_bank_id := bg * banks_per_group config_ + bank in
  z ← MapToZ s vault_id abs_bank_id;
  b ← MapToBank s bg bank;
  let o := bank_origin s vault b in
  Ok (vault_id, abs_bank_id, (o.1, o.1 + num_x_grids params - 1),
      (o.2, o.2 + num_y_grids params - 1), z).

Definition PrintCSV_bank (s : ThermalCalculator)
    : res (list (Z * Z * (Z * Z) * (Z * Z) * Z)) :=
  for_upto (channels config_) (λ vault_id, for_upto (bankgroups config_) (λ bg,
    for_upto (banks_per_group config_) (λ bank rows,
      r ← bank_row s vault_id bg bank; Ok (rows ++ [r])))) [].

(** [MapToXY]: the cells of the columns of a burst, [device_width] bits each.
    [row_id] and the tile do not depend on the column. *)
Definition grid_y (col_id col_tile_id : Z) : res Z :=
  q ← int_div col_id (mat_dim_y params);
  per_tile ← int_div (num_y_grids params) (row_tile params);
  Ok (q + col_tile_id * per_tile).

Definition grid_x (row_id : Z) : res Z :=
  q ← int_div row_id (mat_dim_x params); int_div q (row_tile params).

Definition MapToXY (s : ThermalCalculator) (cmd : Command) (vault bank : Z * Z)
    : res (list (Z * Z)) :=
  let row_id := Row cmd in
  col_tile_id ← int_div row_id (tile_row_num params);
  gx ← grid_x row_id;
  let o := bank_origin s vault bank in
  for_upto (BL config_) (λ i cells,
      phy_loc ← GetPhyAddress (phy_mapping s)
                  ((addr cmd) <| column := column (addr cmd) + i |>);
      let col_id := column phy_loc * device_width config_ in
      for_upto (device_width config_) (λ j cells,
          gy ← grid_y (col_id + j) col_tile_id;
          Ok (cells ++ [(o.1 + gx, o.2 + gy)])) cells) [].

(** ** Charging energy *)

(** [map[case][idx] += energy] on both maps. *)
Definition charge_map (caseID_ idx : Z) (energy : double) (m : list (list double))
    : res (list (list double)) :=
  vec_modify m caseID_ (λ v, vec_modify v idx (λ e, Ok (e + energy)%D)).

Definition charge (caseID_ idx : Z) (energy : double) (s : ThermalCalculator)
    : res ThermalCalculator :=
  a ← charge_map caseID_ idx energy (accu_Pmap s);
  u ← charge_map caseID_ idx energy (cur_Pmap s);
  Ok (s <| accu_Pmap := a |> <| cur_Pmap := u |>).

(** The index of a cell in a map. *)
Definition cell (s : ThermalCalculator) (x y z : Z) : Z :=
  z * dimX s * dimY s + y * dimX s + x.

Definition LocationMappingANDaddEnergy (channel : Z) (cmd : Command) (caseID_ : Z)
    (add_energy : double) (s : ThermalCalculator) : res ThermalCalculator :=
  vault ← MapToVault s channel;
  bank ← MapToBank s (Bankgroup cmd) (Bank cmd);
  xy ← MapToXY s cmd vault bank;
  z ← MapToZ s channel (Bank cmd);
  let energy := (add_energy / of_Z (device_width config_))%D in
  foldM (λ p s, charge caseID_ (cell s p.1 p.2 z) energy s) xy s.

Definition LocationMappingANDaddEnergy_RF (channel : Z) (cmd : Command) (bank0 row0 : Z)
    (caseID_ : Z) (add_energy : double) (s : ThermalCalculator) : res ThermalCalculator :=
  bankgroup_id ← int_div bank0 (banks_per_group config_);
  bank_id ← int_mod bank0 (banks_per_group config_);
  let new_addr := (addr cmd) <| row := row0 |> <| bankgroup := bankgroup_id |>
                             <| bank := bank_id |> in
  vault ← MapToVault s channel;
  bank ← MapToBank s bankgroup_id bank_id;
  z ← MapToZ s channel bank_id;
  phy_addr ← GetPhyAddress (phy_mapping s) new_addr;
  let row_id := row phy_addr in
  col_tile_id ← int_div row_id (tile_row_num params);
  gx ← grid_x row_id;
  gy ← grid_y 0 col_tile_id;
  let o := bank_origin s vault bank in
  for_upto (num_y_grids params)
    (λ i s, charge caseID_ (cell s (o.1 + gx) (o.2 + gy + i) z) add_energy s) s.

(** The refresh of one bank: the next [num_row_refresh] rows, and the counter
    that returns to zero after the last row. *)
Definition refresh_rows (channel : Z) (cmd : Command) (rank_idx ib : Z) (case_id : Z)
    (energy : double) (s : ThermalCalculator) : res ThermalCalculator :=
  counts ← vec_get (refresh_count s) rank_idx;
  n ← vec_get counts ib;
  let row_s := n * num_row_refresh params in
  let next := if decide ((n + 1) * num_row_refresh params = rows config_) then 0 else n + 1 in
  rc ← vec_modify (refresh_count s) rank_idx (λ v, vec_set v ib next);
  let s := s <| refresh_count := rc |> in
  foldM (λ ir, LocationMappingANDaddEnergy_RF channel cmd ib ir case_id energy)
    (seqZ row_s (num_row_refresh params)) s.

(** The energy of a command that opens a row or moves data. *)
Definition command_energy (p : PowerParams) (ty : CommandType) : double :=
  match ty with
  | ACTIVATE => act_energy_inc p
  | READ | READ_PRECHARGE => read_energy_inc p
  | WRITE | WRITE_PRECHARGE => write_energy_inc p
  | _ => d0
  end.

Definition UpdateCMDPower (p : PowerParams) (channel : Z) (cmd : Command)
    (s : ThermalCalculator) : res ThermalCalculator :=
  let rank := Rank cmd in
  let device_scale := if is_stacked config_ then of_Z 1 else of_Z (devices_per_rank config_) in
  let case_id := if is_stacked config_ then 0 else channel * ranks config_ + rank in
  let rank_idx := channel * ranks config_ + rank in
  match cmd_type cmd with
  | REFRESH =>
    let energy := (ref_energy_inc p / of_Z (num_row_refresh params) / of_Z (banks config_)
                   / of_Z (num_y_grids params))%D in
    for_upto (banks config_) (λ ib,
      refresh_rows channel cmd rank_idx ib case_id (energy / of_Z 1000 / device_scale)%D) s
  | REFRESH_BANK =>
    let energy := (refb_energy_inc p / of_Z (num_row_refresh params)
                   / of_Z (num_y_grids params))%D in
    refresh_rows channel cmd rank_idx (Bank cmd) case_id (energy / of_Z 1000 / device_scale)%D s
  | ty =>
    let energy := command_energy p ty in
    if dlt d0 energy
    then
      let energy := (energy / of_Z (BL config_))%D in
      LocationMappingANDaddEnergy channel cmd case_id (energy / of_Z 1000 / device_scale)%D s
    else Ok s
  end.

Definition UpdateBackgroundEnergy (channel rank : Z) (energy : double) (s : ThermalCalculator)
    : res ThermalCalculator :=
  b ← vec_modify (background_energy_ s) channel (λ v, vec_set v rank energy);
  Ok (s <| background_energy_ := b |>).

Definition SetLogicPower (logic_power : double) (s : ThermalCalculator) : ThermalCalculator :=
  s <| avg_logic_power_ := logic_power |>.

(** ** Epochs *)

(** [p_map[j][i] += f] for every [i] of a range. *)
Definition add_range (from to : Z) (e : double) (v : list double) : res (list double) :=
  foldM (λ i v, vec_modify v i (λ d, Ok (d + e)%D)) (seqZ from (to - from)) v.

Definition UpdatePowerMaps (add_energy : double) (trans : bool) (clk : Z) (s : ThermalCalculator)
    : res ThermalCalculator :=
  let period := of_Z (if trans then epoch_period config_ else clk) in
  let layer := dimX s * dimY s in
  let logic := (avg_logic_power_ s / of_Z (dimX s) / of_Z (dimY s) * period)%D in
  let update (m : list (list double)) :=
    for_upto (num_case s) (λ j m, vec_modify m j (λ v,
      v ← add_range 0 (layer * (numP s - 1)) add_energy v;
      add_range (layer * (numP s - 1)) (layer * numP s) logic v)) m in
  if trans then m ← update (cur_Pmap s); Ok (s <| cur_Pmap := m |>)
  else m ← update (accu_Pmap s); Ok (s <| accu_Pmap := m |>).

(** The background energy of all ranks of a stacked device, per cell. *)
Definition stacked_background (s : ThermalCalculator) : double :=
  (foldl (λ e v, foldl dadd e v) d0 (background_energy_ s)
   / of_Z (dimX s * dimY s * (numP s - 1)))%D.

(** The loops over the cells of a device that is not stacked: [for (int k = 0;
    k < cells; i++)], whose step increments the channel counter [i] instead of
    [k].  [at_ k i] is the index that the body uses. *)
Fixpoint cell_loop (fuel : nat) (at_ : Z → Z → Z) (case_id cells : Z) (e : double) (k i : Z)
    (m : list (list double)) : res (Z * list (list double)) :=
  match fuel with
  | O => Fault NoFuel
  | S fuel' =>
    if decide (k < cells)
    then
      m ← vec_modify m case_id (λ v, vec_modify v (at_ k i) (λ d, Ok (d + e)%D));
      if decide (i + 1 < 2 ^ 31) then cell_loop fuel' at_ case_id cells e k (i + 1) m
      else Fault SignedOverflow
    else Ok (i, m)
  end.

(** The ranks of channel [i], which the inner loop may move on. *)
Definition rank_loop (fuel : nat) (at_ : Z → Z → Z) (s : ThermalCalculator) (j : Z)
    (st : Z * list (list double)) : res (Z * list (list double)) :=
  let '(i, m) := st in
  let case_id := i * ranks config_ + j in
  v ← vec_get (background_energy_ s) i;
  b ← vec_get v j;
  let cells := dimX s * dimY s * numP s in
  let bg_energy := (b / of_Z cells)%D in
  cell_loop fuel at_ case_id cells
    (bg_energy / of_Z 1000 / of_Z (devices_per_rank config_))%D 0 i m.

Fixpoint channel_loop (fuel : nat) (at_ : Z → Z → Z) (s : ThermalCalculator)
    (st : Z * list (list double)) : res (list (list double)) :=
  match fuel with
  | O => Fault NoFuel
  | S fuel' =>
    if decide (st.1 < channels config_)
    then
      st ← foldM (rank_loop fuel' at_ s) (seqZ 0 (ranks config_)) st;
      channel_loop fuel' at_ s (st.1 + 1, st.2)
    else Ok st.2
  end.

Definition UpdateEpoch (fuel : nat) (s : ThermalCalculator) : res ThermalCalculator :=
  if is_stacked config_
  then UpdatePowerMaps (stacked_background s / of_Z 1000)%D true (epoch_period config_) s
  else m ← channel_loop fuel (λ k _, k) s (0, cur_Pmap s); Ok (s <| cur_Pmap := m |>).

(** The background part of [PrintFinalPT], which indexes with [i]. *)
Definition final_background (fuel : nat) (clk : Z) (s : ThermalCalculator)
    : res ThermalCalculator :=
  if is_stacked config_
  then UpdatePowerMaps (stacked_background s / of_Z 1000)%D false clk s
  else m ← channel_loop fuel (λ _ i, i) s (0, accu_Pmap s); Ok (s <| accu_Pmap := m |>).

(** ** Maps for the solver *)

(** [InitPowerM]: the power of a cell, with a border of dummy cells.  The
    transient solver passes 0 for the clock. *)
Definition InitPowerM (case_id clk : Z) (s : ThermalCalculator)
    : res (list (list (list double))) :=
  let gx := dimX s + num_dummy in let gy := dimY s + num_dummy in
  let zero := replicate (Z.to_nat gx) (replicate (Z.to_nat gy)
                (replicate (Z.to_nat (numP s)) d0)) in
  let div := of_Z (if decide (clk = 0) then epoch_period config_ else clk) in
  power_map ← vec_get (if decide (clk = 0) then cur_Pmap s else accu_Pmap s) case_id;
  for_upto (dimX s) (λ i, for_upto (dimY s) (λ j, for_upto (numP s) (λ l powerM,
    e ← vec_get power_map (l * (dimX s * dimY s) + j * dimX s + i);
    modify3 powerM (i + Z.quot num_dummy 2) (j + Z.quot num_dummy 2) l
      (λ _, Ok (e / div)%D)))) zero.

Definition GetTotalPower (powerM : list (list (list double))) (s : ThermalCalculator)
    : res double :=
  for_upto (dimX s) (λ i, for_upto (dimY s) (λ j, for_upto (numP s) (λ l total,
    p ← get3 powerM (i + Z.quot num_dummy 2) (j + Z.quot num_dummy 2) l;
    Ok (total + p)%D))) d0.

Definition CalcTransT (p : PowerParams) (garbage : list double) (case_id : Z)
    (s : ThermalCalculator) : res ThermalCalculator :=
  let time := (of_Z (epoch_period config_) * tCK p * dec 1 9)%D in
  powerM ← InitPowerM case_id 0 s;
  _ ← GetTotalPower powerM s;
  T0 ← vec_get (T_trans s) case_id;
  T ← transient_thermal_solver (chip_dim_x params) (chip_dim_y params) (numP s)
        (dimX s + num_dummy) (dimY s + num_dummy) powerM (Midx s) (Cap s) time (time_iter s)
        T0 (Tamb s) garbage;
  m ← vec_set (T_trans s) case_id T;
  Ok (s <| T_trans := m |>).

(** [GetMaxTofCaseLayer]: the hottest cell of the wire layer of a die. *)
Definition GetMaxTofCaseLayer (temp_map : list (list double)) (case_id layer : Z)
    (s : ThermalCalculator) : res double :=
  let gx := dimX s + num_dummy in let gy := dimY s + num_dummy in
  let layer_pos_offset := (layerP layer + 1) * (gx * gy) in
  v ← vec_get temp_map case_id;
  for_upto (dimY s) (λ j, for_upto (dimX s) (λ i maxT,
    x ← vec_get v (layer_pos_offset + (j + Z.quot num_dummy 2) * gx + (i + Z.quot num_dummy 2));
    let t := (x - T0)%D in
    Ok (if dlt t maxT then maxT else t))) d0.

(** [GetMaxTofCase] *)
Definition GetMaxTofCase (T : list double) : double :=
  foldl (λ maxT t, if dlt maxT t then t else maxT) d0 T.

(** A row of the temperature files: case, cell, layer, power, temperature. *)
Record csv_row : Type := MkCsvRow {
  csv_case : Z; csv_x : Z; csv_y : Z; csv_layer : Z; csv_power : double; csv_temp : double }.

(** The rows of one case, layer by layer.  [show] converts the temperature. *)
Definition csv_cells (show : double → double) (P_ : list (list double)) (T : list double)
    (id scale : Z) (s : ThermalCalculator) : res (list csv_row) :=
  let gx := dimX s + num_dummy in let gy := dimY s + num_dummy in
  v ← vec_get P_ id;
  for_upto (numP s) (λ l, for_upto (dimY s) (λ j, for_upto (dimX s) (λ i rows,
    pw ← vec_get v (l * (dimX s * dimY s) + j * dimX s + i);
    tm ← vec_get T ((layerP l + 1) * (gx * gy) + (j + Z.quot num_dummy 2) * gx
                    + (i + Z.quot num_dummy 2));
    Ok (rows ++ [MkCsvRow id i j l (pw / of_Z scale)%D (show tm)])))) [].

Definition PrintCSV_trans (P_ T_ : list (list double)) (id scale : Z) (s : ThermalCalculator)
    : res (list (csv_row * Z)) :=
  T ← vec_get T_ id;
  rows ← csv_cells (λ t, t - T0)%D P_ T id scale s;
  Ok (map (λ r, (r, sample_id s)) rows).

Definition PrintCSV_final (P_ : list (list double)) (T : list double) (id scale : Z)
    (s : ThermalCalculator) : res (list csv_row) := csv_cells (λ t, t) P_ T id scale s.

(** [PrintTransPT]: the end of an epoch, with the rows that it prints. *)
Definition PrintTransPT (fuel : nat) (p : PowerParams) (garbage : list double)
    (s : ThermalCalculator) : res (ThermalCalculator * list (csv_row * Z)) :=
  s ← UpdateEpoch fuel s;
  '(s, rows) ← for_upto (num_case s) (λ ir '(s, rows),
        s ← CalcTransT p garbage ir s;
        _ ← for_upto (numP s) (λ layer maxT,
              t ← GetMaxTofCaseLayer (T_trans s) ir layer s;
              Ok (if dlt t maxT then maxT else t)) d0;
        more ← (if decide (2 ≤ output_level config_)
                then PrintCSV_trans (cur_Pmap s) (T_trans s) ir (epoch_period config_) s
                else Ok []);
        Ok (s, rows ++ more)) (s, []);
  Ok (s <| cur_Pmap ::= fmap (λ v : list double, (λ _, d0) <$> v) |>
        <| sample_id ::= λ n, n + 1 |>, rows).

(** [CalcFinalT] *)
Definition CalcFinalT (pdgssv : SuperMatrix → list double → list double)
    (a : list double) (asub xa : list Z) (clk case_id : Z) (s : ThermalCalculator)
    : res (list double) :=
  powerM ← InitPowerM case_id clk s;
  _ ← GetTotalPower powerM s;
  steady_thermal_solver (chip_dim_x params) (chip_dim_y params) (numP s)
    (dimX s + num_dummy) (dimY s + num_dummy) pdgssv powerM (Midx s) (Tamb s) a asub xa.

(** [PrintFinalPT]: for each case its temperatures, the highest one, and the
    rows of the file. *)
Definition PrintFinalPT (fuel : nat) (pdgssv : SuperMatrix → list double → list double)
    (a : list double) (asub xa : list Z) (clk : Z) (s : ThermalCalculator)
    : res (list (list double * double * list csv_row)) :=
  s ← final_background fuel clk s;
  tabulate (num_case s) (λ ir,
    T ← CalcFinalT pdgssv a asub xa clk ir s;
    rows ← PrintCSV_final (accu_Pmap s) T ir clk s;
    Ok (T, GetMaxTofCase T, rows)).
End calculator.
