(* ===== verification/ThermalSafety.v ===== *)
(** * ThermalSafety: the floor plan and the power maps

    Under a decidable condition on the geometry, every bank has a place of its
    own on the die, every command charges cells of its own bank only, and no
    index leaves the maps; the refresh counters walk through all rows.  The
    epochs of devices that are not stacked never end. *)

From S2P Require Import Prelude Double Common Configuration Energy Solver Thermal.
Local Open Scope Z_scope.

Section plan.
Context (c : Config) (t : ThermalParams).

(** ** The geometry *)

Definition vaults (s : ThermalCalculator) : Z * Z :=
  if is_stacked c then (vault_x s, vault_y s) else (1, 1).

(** The banks fit the rectangle that the constructor reserves for them. *)
Definition banks_fit_plan (s : ThermalCalculator) : Prop :=
  if IsHMC c then
    0 < num_dies c ∧ bankgroups c = 1 ∧ banks c = num_dies c * Z.quot (banks c) (num_dies c) ∧
    0 < Z.quot (banks c) (num_dies c) ≤ bank_x s * bank_y s ∧
    banks_per_group c = banks c ∧ channels c ≤ vault_x s * vault_y s ∧ numP s = num_dies c + 1
  else if IsHBM c then
    bank_x s = 8 ∧ bank_y s = 2 ∧ vault_x s = 1 ∧ vault_y s = 2 ∧ channels c ≤ 2 * num_dies c ∧
    bankgroups c ≤ 4 ∧ banks_per_group c ≤ 4 ∧ numP s = num_dies c + 1
  else numP s = 1 ∧
    if decide (1 < bankgroups c) then
      banks_per_group c ≤ 4 ∧
      (if decide (bank_x s ≤ bank_y s) then 2 ≤ bank_x s ∧ 2 * bankgroups c ≤ bank_y s
       else 2 ≤ bank_y s ∧ 2 * bankgroups c ≤ bank_x s)
    else banks_per_group c ≤ bank_x s * bank_y s.

Record plan_ok (s : ThermalCalculator) : Prop := {
  po_grids : 0 < num_x_grids t ∧ 0 < num_y_grids t;
  po_sizes : 0 < bank_x s ∧ 0 < bank_y s ∧ 0 < (vaults s).1 ∧ 0 < (vaults s).2;
  po_dimX : dimX s = (vaults s).1 * bank_x s * num_x_grids t;
  po_dimY : dimY s = (vaults s).2 * bank_y s * num_y_grids t;
  po_banks : banks_fit_plan s }.

Definition in_device (channel bg bank : Z) : Prop :=
  0 ≤ channel < channels c ∧ 0 ≤ bg < bankgroups c ∧ 0 ≤ bank < banks_per_group c.

(** Division and remainder of C++ on numbers that are not negative. *)
Lemma int_div_nonneg a b : 0 ≤ a → 0 < b → int_div a b = Ok (a / b).
Proof. intros. unfold int_div. by rewrite decide_False, Z.quot_div_nonneg by lia. Qed.

Lemma int_div_pos a b : 0 < b → int_div a b = Ok (Z.quot a b).
Proof. intros. unfold int_div. by rewrite decide_False by lia. Qed.

Lemma int_mod_nonneg a b : 0 ≤ a → 0 < b → int_mod a b = Ok (a `mod` b).
Proof. intros. unfold int_mod. by rewrite decide_False, Z.rem_mod_nonneg by lia. Qed.

(** A number in two digits, in either order, fits a rectangle. *)
Definition digits (first_x : bool) (a b n : Z) : Z * Z :=
  swap_if (negb first_x) (n / (if first_x then b else a), n `mod` (if first_x then b else a)).

Lemma digits_fit fx a b n :
  0 < a → 0 < b → 0 ≤ n < a * b → 0 ≤ (digits fx a b n).1 < a ∧ 0 ≤ (digits fx a b n).2 < b.
Proof.
  intros Ha Hb Hn. destruct fx; simpl.
  - pose proof (Z.mod_pos_bound n b Hb). assert (0 ≤ n / b < a); [|done].
    split; [apply Z.div_pos; lia|apply Z.div_lt_upper_bound; lia].
  - pose proof (Z.mod_pos_bound n a Ha). assert (0 ≤ n / a < b); [|done].
    split; [apply Z.div_pos; lia|apply Z.div_lt_upper_bound; lia].
Qed.

Lemma digits_inj fx a b n m : 0 < a → 0 < b → digits fx a b n = digits fx a b m → n = m.
Proof.
  intros Ha Hb. destruct fx; simpl; intros [= H1 H2].
  - rewrite (Z.div_mod n b), (Z.div_mod m b) by lia. congruence.
  - rewrite (Z.div_mod n a), (Z.div_mod m a) by lia. congruence.
Qed.

(** Where the three maps put a bank. *)
Definition vault_of (s : ThermalCalculator) (channel : Z) : Z * Z :=
  if IsHMC c then digits (bool_decide (bank_order t ≠ 0)) (vault_x s) (vault_y s) channel
  else if IsHBM c then (0, channel `mod` 2) else (0, 0).

Definition bank_of (s : ThermalCalculator) (bg bank : Z) : Z * Z :=
  if IsHMC c then
    digits (bool_decide (bank_order t ≠ 0)) (bank_x s) (bank_y s)
      (bank `mod` Z.quot (banks c) (num_dies c))
  else if IsHBM c then (bg * 2 + bank / 2, bank `mod` 2)
  else if decide (1 < bankgroups c) then
    let '(x, y) := swap_if (bool_decide (bank_order t = 0)) (bank / 2, bank `mod` 2) in
    if decide (bank_x s ≤ bank_y s) then (x, y + bg * 2) else (x + bg * 2, y)
  else digits (bool_decide (bank_order t ≠ 0)) (bank_x s) (bank_y s) bank.

Definition z_of (s : ThermalCalculator) (channel bank : Z) : Z :=
  if IsHMC c then
    let q := bank / Z.quot (banks c) (num_dies c) in
    if decide (bank_layer_order t = 0) then q else numP s - q - 2
  else if IsHBM c then channel / 2 else 0.

Lemma order_dec :
  bool_decide (bank_order t = 0) = negb (bool_decide (bank_order t ≠ 0)).
Proof. repeat case_bool_decide; naive_solver. Qed.

Lemma order_factor (a b : Z) :
  (if decide (bank_order t ≠ 0) then b else a) = (if bool_decide (bank_order t ≠ 0) then b else a).
Proof. by case_bool_decide; case_decide. Qed.

Lemma MapToVault_of s channel bg bank :
  plan_ok s → in_device channel bg bank → MapToVault c t s channel = Ok (vault_of s channel).
Proof.
  intros [_ Hs _ _ Hb] (Hch & _). unfold MapToVault, vault_of, vaults, is_stacked in *.
  destruct (IsHMC c); [|destruct (IsHBM c); [by rewrite Z.rem_mod_nonneg by lia|done]].
  simpl in Hs. unfold digits. rewrite order_dec.
  assert ((if decide (bank_order t = 0) then vault_x s else vault_y s)
    = (if bool_decide (bank_order t ≠ 0) then vault_y s else vault_x s)) as ->.
  { case_bool_decide; case_decide; naive_solver. }
  assert (0 < (if bool_decide (bank_order t ≠ 0) then vault_y s else vault_x s)) by (case_bool_decide; lia).
  by rewrite int_div_nonneg, int_mod_nonneg by lia.
Qed.

Lemma MapToBank_of s channel bg bank :
  plan_ok s → in_device channel bg bank → MapToBank c t s bg bank = Ok (bank_of s bg bank).
Proof.
  intros [_ Hs _ _ Hb] (_ & Hbg & Hbk). unfold MapToBank, bank_of, banks_fit_plan in *.
  rewrite order_factor, order_dec.
  assert (0 < (if bool_decide (bank_order t ≠ 0) then bank_y s else bank_x s)) by (case_bool_decide; lia).
  destruct (IsHMC c); [|destruct (IsHBM c)].
  - destruct Hb as (Hd & Hbg1 & Hbanks & Hper & Hbpg & _). replace bg with 0 by lia.
    rewrite (int_div_pos (banks c)) by lia. cbn [mbind res_bind].
    rewrite Z.mul_0_l, Z.add_0_l. rewrite int_mod_nonneg by lia. cbn [mbind res_bind].
    pose proof (Z.mod_pos_bound bank (Z.quot (banks c) (num_dies c)) ltac:(lia)).
    by rewrite int_div_nonneg, int_mod_nonneg by lia.
  - by rewrite Z.quot_div_nonneg, Z.rem_mod_nonneg by lia.
  - destruct Hb as [_ Hb]. destruct (decide (1 < bankgroups c)).
    + rewrite Z.quot_div_nonneg, Z.rem_mod_nonneg by lia.
      destruct (swap_if _ _). by case_decide.
    + replace bg with 0 by lia. rewrite Z.mul_0_l, Z.add_0_l.
      by rewrite int_div_nonneg, int_mod_nonneg by lia.
Qed.

Lemma MapToZ_of s channel bg bank :
  plan_ok s → in_device channel bg bank →
  MapToZ c t s channel bank = Ok (z_of s channel bank) ∧
  MapToZ c t s channel (bg * banks_per_group c + bank) = Ok (z_of s channel bank).
Proof.
  intros [_ Hs _ _ Hb] (Hch & Hbg & Hbk). unfold MapToZ, z_of, banks_fit_plan in *.
  destruct (IsHMC c); [|destruct (IsHBM c); [by rewrite Z.quot_div_nonneg by lia|done]].
  destruct Hb as (Hd & Hbg1 & Hbanks & Hper & Hbpg & _).
  replace (bg * banks_per_group c + bank) with bank by lia.
  rewrite (int_div_pos (banks c)) by lia. cbn [mbind res_bind].
  by rewrite int_div_nonneg by lia.
Qed.

(** ** Every bank has a place of its own *)

Lemma vault_fits s channel bg bank :
  plan_ok s → in_device channel bg bank →
  0 ≤ (vault_of s channel).1 < (vaults s).1 ∧ 0 ≤ (vault_of s channel).2 < (vaults s).2.
Proof.
  intros [_ Hs _ _ Hb] (Hch & _). unfold vault_of, vaults, is_stacked, banks_fit_plan in *.
  destruct (IsHMC c); simpl in *.
  - apply digits_fit; lia.
  - destruct (IsHBM c); simpl in *; [|lia].
    pose proof (Z.mod_pos_bound channel 2 ltac:(lia)). lia.
Qed.

Lemma half_bits bank : 0 ≤ bank < 4 → 0 ≤ bank / 2 < 2 ∧ 0 ≤ bank `mod` 2 < 2.
Proof.
  intros H. split; [|apply Z.mod_pos_bound; lia].
  split; [apply Z.div_pos; lia|apply Z.div_lt_upper_bound; lia].
Qed.

Lemma bank_fits s channel bg bank :
  plan_ok s → in_device channel bg bank →
  0 ≤ (bank_of s bg bank).1 < bank_x s ∧ 0 ≤ (bank_of s bg bank).2 < bank_y s.
Proof.
  intros [_ Hs _ _ Hb] (_ & Hbg & Hbk). unfold bank_of, banks_fit_plan in *.
  destruct (IsHMC c); [|destruct (IsHBM c)].
  - destruct Hb as (Hd & Hbg1 & Hbanks & Hper & _).
    pose proof (Z.mod_pos_bound bank (Z.quot (banks c) (num_dies c)) ltac:(lia)).
    apply digits_fit; lia.
  - pose proof (half_bits bank ltac:(lia)). simpl. lia.
  - destruct Hb as [_ Hb]. destruct (decide (1 < bankgroups c)); [|apply digits_fit; lia].
    destruct Hb as [H4 Hb]. pose proof (half_bits bank ltac:(lia)).
    unfold swap_if. case_bool_decide; simpl; case_decide; simpl; lia.
Qed.

Lemma z_fits s channel bg bank :
  plan_ok s → in_device channel bg bank →
  0 ≤ z_of s channel bank < numP s ∧ (is_stacked c = true → z_of s channel bank < numP s - 1).
Proof.
  intros [_ Hs _ _ Hb] (Hch & Hbg & Hbk). unfold z_of, is_stacked, banks_fit_plan in *.
  destruct (IsHMC c); [|destruct (IsHBM c)]; simpl.
  - destruct Hb as (Hd & Hbg1 & Hbanks & Hper & Hbpg & Hv & HP).
    assert (0 ≤ bank / Z.quot (banks c) (num_dies c) < num_dies c).
    { split; [apply Z.div_pos; lia|apply Z.div_lt_upper_bound; lia]. }
    case_decide; lia.
  - assert (0 ≤ channel / 2 < num_dies c); [|lia].
    split; [apply Z.div_pos; lia|apply Z.div_lt_upper_bound; lia].
  - destruct Hb as [-> _]. split; [lia|done].
Qed.

Lemma halves_inj x y : x / 2 = y / 2 → x `mod` 2 = y `mod` 2 → x = y.
Proof. intros. rewrite (Z.div_mod x 2), (Z.div_mod y 2) by lia. congruence. Qed.

Lemma place_inj s channel bg bank channel' bg' bank' :
  plan_ok s → in_device channel bg bank → in_device channel' bg' bank' →
  vault_of s channel = vault_of s channel' → bank_of s bg bank = bank_of s bg' bank' →
  z_of s channel bank = z_of s channel' bank' →
  bg = bg' ∧ bank = bank' ∧ (is_stacked c = true → channel = channel').
Proof.
  intros [_ Hs _ _ Hb] (Hch & Hbg & Hbk) (Hch' & Hbg' & Hbk').
  unfold vault_of, bank_of, z_of, vaults, is_stacked, banks_fit_plan in *.
  destruct (IsHMC c); [|destruct (IsHBM c)]; simpl in *.
  - destruct Hb as (Hd & Hbg1 & Hbanks & Hper & Hbpg & Hv & HP). intros Hv1 Hb1 Hz.
    apply digits_inj in Hv1; [|lia..]. apply digits_inj in Hb1; [|lia..].
    split_and!; [lia| |done].
    rewrite (Z.div_mod bank (Z.quot (banks c) (num_dies c))),
      (Z.div_mod bank' (Z.quot (banks c) (num_dies c))) by lia.
    assert (bank / Z.quot (banks c) (num_dies c) = bank' / Z.quot (banks c) (num_dies c)) as ->
      by (case_decide; lia).
    by rewrite Hb1.
  - intros [= Hv1] [= Hb1 Hb2] Hz.
    pose proof (half_bits bank ltac:(lia)). pose proof (half_bits bank' ltac:(lia)).
    assert (bg = bg') as -> by lia. split_and!; [done|apply halves_inj; lia|].
    intros _. by apply halves_inj.
  - destruct Hb as [_ Hb]. intros _ Hb1 _.
    destruct (decide (1 < bankgroups c)).
    + destruct Hb as [H4 _].
      pose proof (half_bits bank ltac:(lia)). pose proof (half_bits bank' ltac:(lia)).
      unfold swap_if in Hb1. revert Hb1. case_bool_decide; simpl; case_decide; intros [= E1 E2];
        (split; [lia|]; split; [apply halves_inj; lia|done]).
    + apply digits_inj in Hb1; [|lia..]. split_and!; [lia|done|done].
Qed.

(** *** Rectangles *)

(** The cells of the bank that is at [vault], [bank]. *)
Definition in_bank (s : ThermalCalculator) (vault bank : Z * Z) (x y : Z) : Prop :=
  let o := bank_origin t s vault bank in
  o.1 ≤ x < o.1 + num_x_grids t ∧ o.2 ≤ y < o.2 + num_y_grids t.

Lemma slot_range a b g v k x :
  0 < g → 0 ≤ v < a → 0 ≤ k < b → v * (b * g) + k * g ≤ x < v * (b * g) + k * g + g →
  0 ≤ x < a * b * g.
Proof.
  intros Hg Hv Hk Hx. assert (v * b + k + 1 ≤ a * b) as H by nia.
  assert ((v * b + k + 1) * g ≤ a * b * g) by (apply Z.mul_le_mono_nonneg_r; lia).
  split; [|lia]. assert (0 ≤ (v * b + k) * g) by (apply Z.mul_nonneg_nonneg; nia). lia.
Qed.

Lemma in_bank_on_die s vault bank x y :
  plan_ok s → 0 ≤ vault.1 < (vaults s).1 → 0 ≤ vault.2 < (vaults s).2 →
  0 ≤ bank.1 < bank_x s → 0 ≤ bank.2 < bank_y s → in_bank s vault bank x y →
  0 ≤ x < dimX s ∧ 0 ≤ y < dimY s.
Proof.
  intros [Hg Hs HX HY _] Hv1 Hv2 Hb1 Hb2 [Hx Hy]. unfold bank_origin in *. cbn [fst snd] in *.
  rewrite HX, HY. split; eapply slot_range; done || lia.
Qed.

(** The slot of a bank, and the bank's cells, from a cell. *)
Lemma in_bank_slot s vault bank x y :
  plan_ok s → 0 ≤ bank.1 < bank_x s → 0 ≤ bank.2 < bank_y s → in_bank s vault bank x y →
  x / num_x_grids t = vault.1 * bank_x s + bank.1 ∧ y / num_y_grids t = vault.2 * bank_y s + bank.2.
Proof.
  intros [Hg _ _ _ _] Hb1 Hb2 [Hx Hy]. unfold bank_origin in *. cbn [fst snd] in *.
  split; symmetry.
  - apply (Z.div_unique_pos _ _ _ (x - (vault.1 * (bank_x s * num_x_grids t) + bank.1 * num_x_grids t))); lia.
  - apply (Z.div_unique_pos _ _ _ (y - (vault.2 * (bank_y s * num_y_grids t) + bank.2 * num_y_grids t))); lia.
Qed.

Lemma in_bank_inj s vault bank vault' bank' x y :
  plan_ok s → 0 ≤ bank.1 < bank_x s → 0 ≤ bank.2 < bank_y s →
  0 ≤ bank'.1 < bank_x s → 0 ≤ bank'.2 < bank_y s →
  in_bank s vault bank x y → in_bank s vault' bank' x y → vault = vault' ∧ bank = bank'.
Proof.
  intros Hp Hb1 Hb2 Hb1' Hb2' H1 H2.
  destruct (in_bank_slot _ _ _ _ _ Hp Hb1 Hb2 H1) as [E1 E2].
  destruct (in_bank_slot _ _ _ _ _ Hp Hb1' Hb2' H2) as [E1' E2'].
  rewrite E1 in E1'. rewrite E2 in E2'.
  destruct (Z.div_mod_unique (bank_x s) vault.1 vault'.1 bank.1 bank'.1) as [A1 A2]; [lia..|].
  destruct (Z.div_mod_unique (bank_y s) vault.2 vault'.2 bank.2 bank'.2) as [A3 A4]; [lia..|].
  destruct vault, vault', bank, bank'; simpl in *; by subst.
Qed.

(** ** Rows and columns *)

(** A location mapping whose shifts are defined and whose row and column
    fields are no wider than the array. *)
Definition mapping_fits (m : PhyMapping) : Prop :=
  match m with
  | Identity => True
  | Mapped mapped_pos off =>
    ∃ ch ra bg ba ro co, mapped_pos = [ch; ra; bg; ba; ro; co] ∧ 0 ≤ off ∧
      Forall (λ ps, (length ps < 32)%nat ∧ Forall (λ p, 0 ≤ p < 64) ps) mapped_pos ∧
      off + Z.of_nat (length (concat mapped_pos)) < 64 ∧
      2 ^ Z.of_nat (length ro) ≤ rows c ∧ 2 ^ Z.of_nat (length co) ≤ columns c
  end.

Lemma shift_ok_Ok n : 0 ≤ n < 64 → shift_ok n = Ok tt.
Proof. intros. unfold shift_ok. by rewrite decide_True. Qed.

Lemma scatter_ok ps v hex :
  (length ps ≤ 64)%nat → Forall (λ p, 0 ≤ p < 64) ps → 0 ≤ hex < 2 ^ 64 →
  ensures (scatter ps v hex) (λ hex', 0 ≤ hex' < 2 ^ 64).
Proof.
  revert hex; induction ps as [|p ps IH]; intros hex Hl Hps Hh; cbn [scatter length] in *.
  { by apply ensures_ret. }
  apply list.Forall_cons in Hps as [Hp Hps]. rewrite !shift_ok_Ok by lia. cbn [mbind res_bind].
  apply IH; [lia|done|]. pose proof (u64_range (Z.shiftl (GetBitInPos (u64 v) (Z.of_nat (length ps))) p)) as Hu.
  unfold is_u64, two64 in Hu. revert Hu. generalize (u64 (Z.shiftl (GetBitInPos (u64 v) (Z.of_nat (length ps))) p)).
  intros x Hx. split; [apply Z.lor_nonneg; lia|].
  destruct (decide (Z.lor hex x = 0)) as [->|]; [lia|].
  assert (0 ≤ Z.lor hex x) by (apply Z.lor_nonneg; lia).
  apply Z.log2_lt_pow2; [lia|]. rewrite Z.log2_lor by lia.
  destruct (decide (hex = 0)), (decide (x = 0)); subst; simpl; try lia;
    apply Z.max_lub_lt; try lia; apply Z.log2_lt_pow2; lia.
Qed.

(** [ModuloWidth] reads the field of [w] bits at [pos]. *)
Lemma ModuloWidth_field h w pos :
  0 ≤ h < 2 ^ 64 → 0 ≤ w < 32 → 0 ≤ pos → 0 ≤ i32 (ModuloWidth h w pos) < 2 ^ w.
Proof.
  intros Hh Hw Hpos. unfold ModuloWidth. set (x := Z.shiftr h pos).
  assert (0 ≤ x < 2 ^ 64) as Hx.
  { unfold x. rewrite Z.shiftr_div_pow2 by lia. assert (0 < 2 ^ pos) by (apply Z.pow_pos_nonneg; lia).
    split; [apply Z.div_pos; lia|]. apply Z.div_lt_upper_bound; nia. }
  assert (0 < 2 ^ w ≤ 2 ^ 31) as Hp by (split; [apply Z.pow_pos_nonneg; lia|apply Z.pow_le_mono_r; lia]).
  assert (Z.shiftl (Z.shiftr x w) w = x - x `mod` 2 ^ w) as Hs.
  { rewrite Z.shiftl_mul_pow2, Z.shiftr_div_pow2 by lia. pose proof (Z.div_mod x (2 ^ w)). lia. }
  pose proof (Z.mod_pos_bound x (2 ^ w) ltac:(lia)) as Hm.
  assert (u64 (Z.shiftl (Z.shiftr x w) w) = Z.shiftl (Z.shiftr x w) w) as ->.
  { apply u64_small. unfold two64. rewrite Hs. pose proof (Z.mod_le x (2 ^ w)). lia. }
  assert (Z.lxor x (Z.shiftl (Z.shiftr x w) w) = x `mod` 2 ^ w) as ->.
  { apply Z.bits_inj'. intros k Hk. rewrite Z.lxor_spec, Z.shiftl_spec by done.
    destruct (decide (k < w)).
    - rewrite (Z.testbit_neg_r _ (k - w)), Z.mod_pow2_bits_low by lia. apply xorb_false_r.
    - rewrite Z.shiftr_spec, Z.mod_pow2_bits_high by lia. replace (k - w + w) with k by lia.
      apply xorb_nilpotent. }
  assert (u32 (x `mod` 2 ^ w) = x `mod` 2 ^ w) as -> by (unfold u32, two32; apply Z.mod_small; lia).
  rewrite i32_small; lia.
Qed.

Lemma gather_ok ws h pos :
  Forall (λ w, 0 ≤ w < 32) ws → 0 ≤ h < 2 ^ 64 → 0 ≤ pos → pos + foldr Z.add 0 ws < 64 →
  ensures (gather ws h pos) (Forall2 (λ w v, 0 ≤ v < 2 ^ w) ws).
Proof.
  revert pos; induction ws as [|w ws IH]; intros pos Hws Hh Hpos Hsum; cbn [gather foldr] in *.
  { by apply ensures_ret. }
  apply list.Forall_cons in Hws as [Hw Hws].
  assert (0 ≤ foldr Z.add 0 ws) by (clear -Hws; induction Hws; simpl; lia).
  rewrite !shift_ok_Ok by lia. cbn [mbind res_bind].
  eapply ensures_bind; [apply IH; [done|done|lia|lia]|]. intros vs Hvs.
  apply ensures_ret. constructor; [|done]. by apply ModuloWidth_field.
Qed.

Definition field_width (ps : list Z) : Z := Z.of_nat (length ps).

Lemma sum_widths (mp : list (list Z)) :
  foldr Z.add 0 (field_width <$> mp) = Z.of_nat (length (concat mp)).
Proof.
  induction mp as [|ps mp IH]; [done|]. rewrite fmap_cons. cbn [foldr concat].
  rewrite length_app, IH. unfold field_width. lia.
Qed.

Lemma sum_rev (l : list Z) : foldr Z.add 0 (rev l) = foldr Z.add 0 l.
Proof.
  assert (∀ l1 l2, foldr Z.add 0 (l1 ++ l2) = foldr Z.add 0 l1 + foldr Z.add 0 l2) as Happ.
  { intros l1 l2. induction l1; simpl; lia. }
  induction l as [|x l IH]; simpl; [done|]. rewrite Happ. simpl. lia.
Qed.

(** A mapped address: every field fits the width of its positions. *)
Lemma GetPhyAddress_mapped mp off a :
  mapping_fits (Mapped mp off) →
  ensures (GetPhyAddress (Mapped mp off) a) (λ a',
    0 ≤ row a' < rows c ∧ 0 ≤ column a' < columns c).
Proof.
  intros (ch & ra & bg & ba & ro & co & Hmp & Hoff & Hall & Hsum & Hro & Hco).
  unfold GetPhyAddress. eapply ensures_bind.
  - apply (foldM_ensures _ (λ h, 0 ≤ h < 2 ^ 64)); [|lia]. intros [ps v] h Hin Hh.
    apply elem_of_zip_l in Hin. rewrite list.Forall_forall in Hall. destruct (Hall ps Hin) as [Hl Hps].
    apply scatter_ok; [simpl; lia|done|done].
  - intros h Hh. change (λ ps : list Z, Z.of_nat (length ps)) with field_width. eapply ensures_bind.
    + apply (gather_ok _ h off); [|done|done|by rewrite sum_rev, sum_widths].
      apply Forall_rev, Forall_fmap. eapply list.Forall_impl; [exact Hall|].
      intros ps [Hl _]. unfold field_width. simpl. lia.
    + intros vs Hvs. rewrite Hmp in Hvs. cbn [fmap list_fmap rev app] in Hvs.
      repeat match goal with
      | H : Forall2 _ (_ :: _) _ |- _ => apply Forall2_cons_inv_l in H as (? & ? & ? & H & ->)
      | H : Forall2 _ [] _ |- _ => apply Forall2_nil_inv_l in H as ->
      end.
      cbn [rev app]. apply ensures_ret. unfold field_width in *. simpl. lia.
Qed.

Lemma GetPhyAddress_column m a :
  mapping_fits m → 0 ≤ column a < columns c →
  ensures (GetPhyAddress m a) (λ a', 0 ≤ column a' < columns c).
Proof.
  intros Hm Ha. destruct m as [|mp off]; [by apply ensures_ret|].
  eapply ensures_mono; [by apply GetPhyAddress_mapped|]. by intros a' [_ ?].
Qed.

Lemma GetPhyAddress_row m a :
  mapping_fits m → 0 ≤ row a < rows c →
  ensures (GetPhyAddress m a) (λ a', 0 ≤ row a' < rows c).
Proof.
  intros Hm Ha. destruct m as [|mp off]; [by apply ensures_ret|].
  eapply ensures_mono; [by apply GetPhyAddress_mapped|]. by intros a' [? _].
Qed.

(** The rows and the columns of a bank fit its cells. *)
Record grids_ok : Prop := {
  go_mats : 0 < mat_dim_x t ∧ 0 < mat_dim_y t ∧ 0 < row_tile t ∧ 0 < tile_row_num t;
  go_width : 0 < device_width c;
  go_rows : rows c ≤ mat_dim_x t * row_tile t * num_x_grids t;
  go_tiles : rows c ≤ tile_row_num t * row_tile t;
  go_columns : columns c * device_width c ≤ mat_dim_y t * (num_y_grids t / row_tile t) }.

Lemma grid_x_ok r :
  grids_ok → 0 ≤ r < rows c → ensures (grid_x t r) (λ g, 0 ≤ g < num_x_grids t).
Proof.
  intros [Hm Hw Hr Ht Hc] Hrow. unfold grid_x. rewrite int_div_nonneg by lia. cbn [mbind res_bind].
  assert (0 ≤ r / mat_dim_x t) by (apply Z.div_pos; lia).
  rewrite int_div_nonneg by lia. apply ensures_ret.
  split; [apply Z.div_pos; lia|]. rewrite Z.div_div by lia. apply Z.div_lt_upper_bound; lia.
Qed.

Lemma tile_ok r :
  grids_ok → 0 ≤ r < rows c →
  ensures (int_div r (tile_row_num t)) (λ g, 0 ≤ g < row_tile t).
Proof.
  intros [Hm Hw Hr Ht Hc] Hrow. rewrite int_div_nonneg by lia. apply ensures_ret.
  split; [apply Z.div_pos; lia|apply Z.div_lt_upper_bound; lia].
Qed.

Lemma grid_y_ok col tile :
  grids_ok → 0 < num_y_grids t → 0 ≤ col → col < columns c * device_width c →
  0 ≤ tile < row_tile t →
  ensures (grid_y t col tile) (λ g, 0 ≤ g < num_y_grids t).
Proof.
  intros [Hm Hw Hr Ht Hc] Hny Hcol Hmax Htile. unfold grid_y.
  rewrite !int_div_nonneg by lia. cbn [mbind res_bind]. apply ensures_ret.
  set (per := num_y_grids t / row_tile t) in *.
  assert (0 ≤ col / mat_dim_y t < per).
  { split; [apply Z.div_pos; lia|apply Z.div_lt_upper_bound; lia]. }
  assert (row_tile t * per ≤ num_y_grids t) by (apply Z.mul_div_le; lia). nia.
Qed.

(** A refresh charges whole columns of cells, which is right when the rows are
    not tiled: [col_tile_id] is then 0. *)
Lemma grid_y_refresh tile :
  grids_ok → 0 < num_y_grids t → row_tile t = 1 → 0 ≤ tile < row_tile t →
  grid_y t 0 tile = Ok 0.
Proof.
  intros [Hm Hw Hr Ht Hc] Hny H1 Htile. unfold grid_y. rewrite !int_div_nonneg by lia.
  cbn [mbind res_bind]. rewrite Zdiv_0_l. f_equal. replace tile with 0 by lia. lia.
Qed.

(** ** Charging *)

Definition lookup2 {A} (m : list (list A)) (k i : Z) : option A := v ← vlookup m k; vlookup v i.

(** [m'] differs from [m] at places of [Q] only. *)
Definition only {A} (Q : Z → Z → Prop) (m m' : list (list A)) : Prop :=
  ∀ k i, ¬ Q k i → lookup2 m' k i = lookup2 m k i.

Lemma only_trans {A} Q (m1 m2 m3 : list (list A)) : only Q m1 m2 → only Q m2 m3 → only Q m1 m3.
Proof. intros H1 H2 k i Hq. by rewrite H2, H1. Qed.

Definition maps_ok (s : ThermalCalculator) (m : list (list double)) : Prop :=
  Z.of_nat (length m) = num_case s ∧
  Forall (λ v, Z.of_nat (length v) = numP s * dimX s * dimY s) m.

Lemma charge_map_ok s k i e m :
  maps_ok s m → 0 ≤ k < num_case s → 0 ≤ i < numP s * dimX s * dimY s →
  ensures (charge_map k i e m) (λ m', maps_ok s m' ∧ only (λ k' i', k' = k ∧ i' = i) m m').
Proof.
  intros [Hl Hall] Hk Hi. unfold charge_map.
  destruct (vlookup_lt m k) as [v Hv]; [lia|].
  pose proof (Forall_vlookup _ _ _ _ Hall Hv) as Hlv. cbv beta in Hlv.
  destruct (vlookup_lt v i) as [d Hd]; [lia|].
  destruct (vec_modify_Ok v i (λ d, Ok (d + e)%D) _ _ Hd eq_refl) as (v' & Hv' & Hl' & Hlk').
  destruct (vec_modify_Ok m k (λ v, vec_modify v i (λ d, Ok (d + e)%D)) _ _ Hv Hv') as (m' & -> & Hlm & Hlk).
  apply ensures_ret. split.
  - split; [lia|]. apply list.Forall_forall. intros w (j & Hj)%list_elem_of_lookup_1.
    assert (vlookup m' (Z.of_nat j) = Some w) as Hw.
    { unfold vlookup. rewrite decide_True, Nat2Z.id by lia. done. }
    rewrite Hlk in Hw. case_decide; [injection Hw as <-; congruence|].
    by apply (Forall_vlookup _ _ _ _ Hall Hw).
  - intros k' i' Hne. unfold lookup2. rewrite Hlk. case_decide as Hkk; [|done]. subst k'.
    rewrite Hv. simpl. rewrite Hlk'. by rewrite decide_False by tauto.
Qed.

(** Energy was added at places of [Q]; nothing but the maps changed. *)
Definition charged (Q : Z → Z → Prop) (s s' : ThermalCalculator) : Prop :=
  ∃ a u, s' = s <| accu_Pmap := a |> <| cur_Pmap := u |> ∧ maps_ok s a ∧ maps_ok s u ∧
    only Q (accu_Pmap s) a ∧ only Q (cur_Pmap s) u.

Lemma charged_refl Q s : maps_ok s (accu_Pmap s) → maps_ok s (cur_Pmap s) → charged Q s s.
Proof. intros Ha Hu. exists (accu_Pmap s), (cur_Pmap s). by destruct s. Qed.

Lemma charged_trans Q s1 s2 s3 : charged Q s1 s2 → charged Q s2 s3 → charged Q s1 s3.
Proof.
  intros (a & u & -> & A1 & A2 & A3 & A4) (a' & u' & -> & B1 & B2 & B3 & B4). simpl in *.
  exists a', u'. split_and!; try done; by eapply only_trans.
Qed.

Lemma charge_ok (Q : Z → Z → Prop) k i e s :
  maps_ok s (accu_Pmap s) → maps_ok s (cur_Pmap s) →
  0 ≤ k < num_case s → 0 ≤ i < numP s * dimX s * dimY s → Q k i →
  ensures (charge k i e s) (charged Q s).
Proof.
  intros Ha Hu Hk Hi Hq. unfold charge.
  destruct (charge_map_ok s k i e _ Ha Hk Hi) as (a & -> & Ha' & Hoa). cbn [mbind res_bind].
  destruct (charge_map_ok s k i e _ Hu Hk Hi) as (u & -> & Hu' & Hou). cbn [mbind res_bind].
  apply ensures_ret. exists a, u.
  split_and!; try done; intros k' i' Hn; [apply Hoa|apply Hou]; intros [-> ->]; done.
Qed.

(** A loop of charges stays inside [Q]. *)
Lemma charged_loop {A} (Q : Z → Z → Prop) (f : A → ThermalCalculator → res ThermalCalculator) xs s :
  maps_ok s (accu_Pmap s) → maps_ok s (cur_Pmap s) →
  (∀ x s1, x ∈ xs → charged Q s s1 → ensures (f x s1) (charged Q s1)) →
  ensures (foldM f xs s) (charged Q s).
Proof.
  intros Ha Hu Hf. apply foldM_ensures; [|by apply charged_refl].
  intros x s1 Hx Hs1. eapply ensures_mono; [by apply Hf|]. intros s2. by apply charged_trans.
Qed.

Lemma cell_range s x y z :
  0 ≤ x < dimX s → 0 ≤ y < dimY s → 0 ≤ z < numP s → 0 ≤ cell s x y z < numP s * dimX s * dimY s.
Proof.
  intros Hx Hy Hz. unfold cell.
  assert (0 ≤ y * dimX s + x < dimY s * dimX s) as H by nia.
  assert (z * (dimX s * dimY s) + (y * dimX s + x) < numP s * (dimX s * dimY s)) by nia.
  assert (0 ≤ z * (dimX s * dimY s)) by (apply Z.mul_nonneg_nonneg; nia). lia.
Qed.

(** The cells of one bank of the floor plan, in a case of the maps. *)
Definition bank_cells (s : ThermalCalculator) (channel bg bank case_id k i : Z) : Prop :=
  k = case_id ∧ ∃ x y, in_bank s (vault_of s channel) (bank_of s bg bank) x y ∧
    i = cell s x y (z_of s channel bank).

Lemma bank_cell_range s channel bg bank x y :
  plan_ok s → in_device channel bg bank →
  in_bank s (vault_of s channel) (bank_of s bg bank) x y →
  0 ≤ cell s x y (z_of s channel bank) < numP s * dimX s * dimY s.
Proof.
  intros Hp Hd Hin. destruct (vault_fits _ _ _ _ Hp Hd). destruct (bank_fits _ _ _ _ Hp Hd).
  destruct (in_bank_on_die _ _ _ _ _ Hp ltac:(done) ltac:(done) ltac:(done) ltac:(done) Hin).
  apply cell_range; [done..|]. by destruct (z_fits _ _ _ _ Hp Hd).
Qed.

(** *** What a command needs *)

(** Rows are refreshed in [periods] steps of [num_row_refresh]. *)
Definition periods : Z := rows c / num_row_refresh t.

Record geometry_ok : Prop := {
  ge_grids : grids_ok;
  ge_refresh : 0 < num_row_refresh t ∧ rows c = num_row_refresh t * periods;
  ge_untiled : row_tile t = 1;
  ge_counts : 0 < ranks c ∧ 0 < bankgroups c ∧ 0 < banks_per_group c;
  ge_banks : banks c = bankgroups c * banks_per_group c }.

Definition counts_ok (rc : list (list Z)) : Prop :=
  Z.of_nat (length rc) = channels c * ranks c ∧
  Forall (λ v, Z.of_nat (length v) = banks c ∧ Forall (λ n, 0 ≤ n < periods) v) rc.

Record calc_ok (s : ThermalCalculator) : Prop := {
  ca_plan : plan_ok s;
  ca_mapping : mapping_fits (phy_mapping s);
  ca_accu : maps_ok s (accu_Pmap s);
  ca_cur : maps_ok s (cur_Pmap s);
  ca_cases : num_case s = (if is_stacked c then 1 else ranks c * channels c);
  ca_counts : counts_ok (refresh_count s) }.

(** Charging keeps all of it, and does not move the floor plan. *)
Lemma charged_calc_ok Q s s' : charged Q s s' → calc_ok s → calc_ok s'.
Proof.
  intros (a & u & -> & Ha & Hu & _) [Hp Hm _ _ Hc Hr]. destruct Hp. constructor; simpl; try done.
Qed.

Lemma charged_banks s s' channel bg bank case_id Q : charged Q s s' →
  bank_cells s' channel bg bank case_id = bank_cells s channel bg bank case_id.
Proof. by intros (a & u & -> & _). Qed.

Lemma charged_weaken (Q Q' : Z → Z → Prop) s s' :
  (∀ k i, Q k i → Q' k i) → charged Q s s' → charged Q' s s'.
Proof.
  intros HQ (a & u & -> & Ha & Hu & Hoa & Hou). exists a, u.
  split_and!; try done; intros k i Hn; [apply Hoa|apply Hou]; auto.
Qed.

(** The cells of the columns of a burst lie in the bank of the command. *)
Lemma MapToXY_ok s cmd vault bank :
  plan_ok s → mapping_fits (phy_mapping s) → grids_ok →
  0 ≤ Row cmd < rows c → 0 ≤ Column cmd → Column cmd + BL c ≤ columns c →
  ensures (MapToXY c t s cmd vault bank) (Forall (λ p, in_bank s vault bank p.1 p.2)).
Proof.
  intros Hp Hm Hg Hrow Hcol Hbl. unfold MapToXY. destruct (po_grids _ Hp) as [Hnx Hny].
  pose proof (go_width Hg).
  eapply ensures_bind; [by apply tile_ok|]. intros tile Htile.
  eapply ensures_bind; [by apply grid_x_ok|]. intros gx Hgx.
  apply for_upto_ensures; [|by constructor]. intros i cells Hi Hcells.
  eapply ensures_bind.
  { apply GetPhyAddress_column; [done|]. unfold Column in *. simpl. lia. }
  intros phy Hphy. apply for_upto_ensures; [|done]. intros j cells' Hj Hcells'. cbv beta in *.
  eapply ensures_bind.
  { assert (0 ≤ column phy * device_width c) by (apply Z.mul_nonneg_nonneg; lia).
    assert ((column phy + 1) * device_width c ≤ columns c * device_width c)
      by (apply Z.mul_le_mono_nonneg_r; lia).
    apply (grid_y_ok _ tile); [done|done|lia..|done]. }
  intros gy Hgy. cbv beta in *. apply ensures_ret, Forall_app. split; [done|]. apply Forall_singleton.
  unfold in_bank. cbn [fst snd]. lia.
Qed.

(** The case of the maps that a command belongs to. *)
Definition case_of (channel rank : Z) : Z :=
  if is_stacked c then 0 else channel * ranks c + rank.

Lemma index_of_rank channel rank :
  0 ≤ channel < channels c → 0 ≤ rank < ranks c → 0 ≤ channel * ranks c + rank < channels c * ranks c.
Proof. nia. Qed.

Lemma case_fits s channel rank :
  calc_ok s → 0 ≤ channel < channels c → 0 ≤ rank < ranks c → 0 ≤ case_of channel rank < num_case s.
Proof.
  intros Hs Hc Hr. rewrite (ca_cases _ Hs). unfold case_of. destruct (is_stacked c); [lia|].
  pose proof (index_of_rank _ _ Hc Hr). lia.
Qed.

(** A charge to a cell of a bank. *)
Lemma charge_bank s channel bg bank case_id x y e :
  calc_ok s → in_device channel bg bank → 0 ≤ case_id < num_case s →
  in_bank s (vault_of s channel) (bank_of s bg bank) x y →
  ensures (charge case_id (cell s x y (z_of s channel bank)) e s)
    (charged (bank_cells s channel bg bank case_id) s).
Proof.
  intros Hs Hd Hk Hin. apply charge_ok; [apply Hs|apply Hs|done| |].
  - by apply bank_cell_range with (bg := bg); [apply Hs|..].
  - split; [done|]. by exists x, y.
Qed.

Lemma charge_bank_loop {A} (p : A → Z * Z) s channel bg bank case_id e xs :
  calc_ok s → in_device channel bg bank → 0 ≤ case_id < num_case s →
  (∀ x, x ∈ xs → in_bank s (vault_of s channel) (bank_of s bg bank) (p x).1 (p x).2) →
  ensures (foldM (λ x s1, charge case_id (cell s1 (p x).1 (p x).2 (z_of s channel bank)) e s1) xs s)
    (charged (bank_cells s channel bg bank case_id) s).
Proof.
  intros Hs Hd Hk Hin. apply charged_loop; [apply Hs|apply Hs|].
  intros x s1 Hx Hs1. rewrite <- (charged_banks _ _ channel bg bank case_id _ Hs1).
  pose proof (charged_calc_ok _ _ _ Hs1 Hs) as Hok. specialize (Hin x Hx).
  destruct Hs1 as (a & u & -> & _).
  exact (charge_bank (s <| accu_Pmap := a |> <| cur_Pmap := u |>) channel bg bank case_id
    (p x).1 (p x).2 e Hok Hd Hk Hin).
Qed.

(** ** Commands *)

Lemma LocationMappingANDaddEnergy_ok channel cmd case_id e s :
  grids_ok → calc_ok s → in_device channel (Bankgroup cmd) (Bank cmd) →
  0 ≤ case_id < num_case s →
  0 ≤ Row cmd < rows c → 0 ≤ Column cmd → Column cmd + BL c ≤ columns c →
  ensures (LocationMappingANDaddEnergy c t channel cmd case_id e s)
    (charged (bank_cells s channel (Bankgroup cmd) (Bank cmd) case_id) s).
Proof.
  intros Hg Hs Hd Hk Hrow Hcol Hbl. pose proof (ca_plan _ Hs) as Hp.
  unfold LocationMappingANDaddEnergy.
  rewrite (MapToVault_of _ _ _ _ Hp Hd), (MapToBank_of _ _ _ _ Hp Hd). cbn [mbind res_bind].
  destruct (MapToXY_ok s cmd (vault_of s channel) (bank_of s (Bankgroup cmd) (Bank cmd))
    Hp (ca_mapping _ Hs) Hg Hrow Hcol Hbl) as (xy & -> & Hxy). cbn [mbind res_bind].
  rewrite (proj1 (MapToZ_of _ _ _ _ Hp Hd)). cbn [mbind res_bind].
  apply (charge_bank_loop id); [done..|]. intros p Hpin. rewrite list.Forall_forall in Hxy. by apply Hxy.
Qed.

(** The two numbers of a bank of a rank. *)
Lemma absolute_bank ib :
  geometry_ok → 0 ≤ ib < banks c →
  int_div ib (banks_per_group c) = Ok (ib / banks_per_group c) ∧
  int_mod ib (banks_per_group c) = Ok (ib `mod` banks_per_group c) ∧
  0 ≤ ib / banks_per_group c < bankgroups c ∧ 0 ≤ ib `mod` banks_per_group c < banks_per_group c.
Proof.
  intros [_ _ _ Hn Hb] Hib. rewrite int_div_nonneg, int_mod_nonneg by lia.
  split_and!; try done; try (apply Z.mod_pos_bound; lia).
  - apply Z.div_pos; lia.
  - apply Z.div_lt_upper_bound; lia.
Qed.

Definition refreshed_cells (s : ThermalCalculator) (channel ib : Z) : Z → Z → Z → Prop :=
  bank_cells s channel (ib / banks_per_group c) (ib `mod` banks_per_group c).

Lemma LocationMappingANDaddEnergy_RF_ok channel cmd ib row0 case_id e s :
  geometry_ok → calc_ok s → 0 ≤ channel < channels c → 0 ≤ ib < banks c →
  0 ≤ case_id < num_case s → 0 ≤ row0 < rows c →
  ensures (LocationMappingANDaddEnergy_RF c t channel cmd ib row0 case_id e s)
    (charged (refreshed_cells s channel ib case_id) s).
Proof.
  intros Hge Hs Hch Hib Hk Hrow. pose proof (ca_plan _ Hs) as Hp. destruct (po_grids _ Hp) as [Hnx Hny].
  pose proof (ge_grids Hge) as Hg. destruct (absolute_bank ib Hge Hib) as (E1 & E2 & H1 & H2).
  assert (in_device channel (ib / banks_per_group c) (ib `mod` banks_per_group c)) as Hd by done.
  unfold LocationMappingANDaddEnergy_RF. rewrite E1. cbn [mbind res_bind]. rewrite E2. cbn [mbind res_bind].
  rewrite (MapToVault_of _ _ _ _ Hp Hd), (MapToBank_of _ _ _ _ Hp Hd). cbn [mbind res_bind].
  rewrite (proj1 (MapToZ_of _ _ _ _ Hp Hd)). cbn [mbind res_bind].
  eapply ensures_bind; [by apply GetPhyAddress_row, Hrow; apply Hs|]. intros phy Hphy. cbv beta in Hphy.
  eapply ensures_bind; [by apply tile_ok|]. intros tile Htile. cbv beta in Htile.
  eapply ensures_bind; [by apply grid_x_ok|]. intros gx Hgx. cbv beta in Hgx.
  rewrite grid_y_refresh by (done || apply Hge). cbn [mbind res_bind]. unfold for_upto, refreshed_cells.
  set (o := bank_origin t s (vault_of s channel) _).
  apply (charge_bank_loop (λ i, (o.1 + gx, o.2 + 0 + i))); [done..|]. intros i Hi%elem_of_seqZ.
  unfold in_bank. fold o. cbn [fst snd]. lia.
Qed.
(** ** Refresh counters *)

(** The counters of the banks [lo] to [hi] of rank [r] went one step on. *)
Definition advanced (r lo hi : Z) (rc rc' : list (list Z)) : Prop :=
  ∀ k i, lookup2 rc' k i = if decide (k = r ∧ lo ≤ i < hi)
    then (λ n, (n + 1) `mod` periods) <$> lookup2 rc k i else lookup2 rc k i.

Lemma advanced_refl r lo rc : advanced r lo lo rc rc.
Proof. intros k i. by rewrite decide_False by lia. Qed.

Lemma advanced_snoc r lo m rc1 rc2 rc3 :
  lo ≤ m → advanced r lo m rc1 rc2 → advanced r m (m + 1) rc2 rc3 → advanced r lo (m + 1) rc1 rc3.
Proof.
  intros Hm H1 H2 k i. rewrite H2, H1.
  destruct (decide (k = r ∧ m ≤ i < m + 1)), (decide (k = r ∧ lo ≤ i < m)),
    (decide (k = r ∧ lo ≤ i < m + 1)); done || lia.
Qed.

(** A step to zero exactly after the last rows. *)
Lemma next_count n :
  geometry_ok → 0 ≤ n < periods →
  (if decide ((n + 1) * num_row_refresh t = rows c) then 0 else n + 1) = (n + 1) `mod` periods.
Proof.
  intros [_ [Hn Hr] _ _ _] H. case_decide as Hd.
  - assert (n + 1 = periods) as -> by nia. by rewrite Z.mod_same by lia.
  - assert (n + 1 ≠ periods) by nia. by rewrite Z.mod_small by lia.
Qed.

Lemma advance_count r ib rc :
  geometry_ok → counts_ok rc → 0 ≤ r < channels c * ranks c → 0 ≤ ib < banks c →
  ∃ counts n rc', vec_get rc r = Ok counts ∧ vec_get counts ib = Ok n ∧ 0 ≤ n < periods ∧
    vec_modify rc r (λ v, vec_set v ib ((n + 1) `mod` periods)) = Ok rc' ∧ counts_ok rc' ∧
    advanced r ib (ib + 1) rc rc'.
Proof.
  intros Hge [Hl Hall] Hr Hib. destruct (vlookup_lt rc r) as [v Hv]; [lia|].
  destruct (Forall_vlookup _ _ _ _ Hall Hv) as [Hlv Hnv].
  destruct (vlookup_lt v ib) as [n Hn]; [lia|].
  pose proof (Forall_vlookup _ _ _ _ Hnv Hn) as Hrange. cbv beta in Hrange.
  set (n' := (n + 1) `mod` periods).
  assert (0 ≤ n' < periods) as Hn' by (apply Z.mod_pos_bound; lia).
  destruct (vec_modify_Ok v ib (λ _, Ok n') _ _ Hn eq_refl) as (v' & Hv' & Hl' & Hlk').
  destruct (vec_modify_Ok rc r (λ v, vec_set v ib n') _ _ Hv Hv') as (rc' & Hrc' & Hlrc & Hlk).
  assert (counts_ok rc') as Hok.
  { split; [lia|].
    pose proof Hrc' as (? & ? & Hv2 & Hw & ->)%vec_modify_run. rewrite Hv in Hv2. injection Hv2 as <-.
    cbv beta in Hw. unfold vec_set in Hw. rewrite Hv' in Hw. injection Hw as <-.
    apply Forall_insert; [done|]. split; [lia|].
    apply vec_modify_run in Hv' as (? & ? & _ & [= <-] & ->). by apply Forall_insert. }
  exists v, n, rc'. split; [by apply vec_get_Ok|]. split; [by apply vec_get_Ok|].
  split; [done|]. split; [done|]. split; [done|].
  intros k i. unfold lookup2. rewrite Hlk. destruct (decide (k = r)) as [->|].
  - rewrite Hv. simpl. rewrite Hlk'. destruct (decide (i = ib)) as [->|].
    + rewrite decide_True by lia. by rewrite Hn.
    + by rewrite decide_False by lia.
  - by rewrite decide_False by tauto.
Qed.

(** What a command may do to the calculator: energy in cells of [Q], and a step
    of the counters of the banks [lo] to [hi] of rank [r]. *)
Definition updated (Q : Z → Z → Prop) (r lo hi : Z) (s s' : ThermalCalculator) : Prop :=
  ∃ rc, counts_ok rc ∧ advanced r lo hi (refresh_count s) rc ∧
    charged Q (s <| refresh_count := rc |>) s'.

Lemma updated_calc_ok Q r lo hi s s' : updated Q r lo hi s s' → calc_ok s → calc_ok s'.
Proof.
  intros (rc & Hrc & _ & Hch) [Hp Hm Ha Hu Hc _]. eapply charged_calc_ok; [exact Hch|].
  constructor; simpl; try done. by destruct Hp.
Qed.

Lemma updated_snoc Q r lo m s1 s2 s3 :
  lo ≤ m → updated Q r lo m s1 s2 → updated Q r m (m + 1) s2 s3 → updated Q r lo (m + 1) s1 s3.
Proof.
  intros Hm (rc & Hrc & Ha & (a & u & -> & A1 & A2 & A3 & A4)) (rc' & Hrc' & Ha' & Hch').
  exists rc'. split_and!; [done|by eapply advanced_snoc|]. eapply charged_trans; [|exact Hch'].
  exists a, u. by split_and!.
Qed.

Lemma updated_charged Q r s s' : counts_ok (refresh_count s) → charged Q s s' → updated Q r 0 0 s s'.
Proof.
  intros Hc Hch. exists (refresh_count s). split_and!; [done|apply advanced_refl|by destruct s].
Qed.

Lemma refresh_rows_ok channel cmd r ib case_id e s :
  geometry_ok → calc_ok s → 0 ≤ channel < channels c → 0 ≤ ib < banks c →
  0 ≤ r < channels c * ranks c → 0 ≤ case_id < num_case s →
  ensures (refresh_rows c t channel cmd r ib case_id e s)
    (updated (refreshed_cells s channel ib case_id) r ib (ib + 1) s).
Proof.
  intros Hge Hs Hch Hib Hr Hk. unfold refresh_rows.
  destruct (advance_count r ib _ Hge (ca_counts _ Hs) Hr Hib)
    as (counts & n & rc & E1 & E2 & Hn & E3 & Hrc & Hadv).
  rewrite E1. cbn [mbind res_bind]. rewrite E2. cbn [mbind res_bind].
  rewrite next_count by done. rewrite E3. cbn [mbind res_bind].
  assert (calc_ok (s <| refresh_count := rc |>)) as Hs1.
  { destruct Hs as [Hp]. constructor; simpl; try done. by destruct Hp. }
  eapply ensures_mono.
  - apply (charged_loop (refreshed_cells s channel ib case_id)); [apply Hs1|apply Hs1|].
    intros ir s1 Hir%elem_of_seqZ Hs2. destruct (ge_refresh Hge) as [Hnr Hrows].
    unfold refreshed_cells.
    change (bank_cells s) with (bank_cells (s <| refresh_count := rc |>)).
    rewrite <- (charged_banks _ _ channel _ _ case_id _ Hs2).
    apply LocationMappingANDaddEnergy_RF_ok; try done.
    + by eapply charged_calc_ok.
    + destruct Hs2 as (? & ? & -> & _). done.
    + split; [nia|]. assert ((n + 1) * num_row_refresh t ≤ rows c) by nia. lia.
  - intros s' Hs'. by exists rc.
Qed.
(** ** The energy of a command *)

(** The banks that a command is charged to.  [REFRESH_BANK] hands its bank
    within the group to a routine that takes the number within the rank, so
    the bank group is always 0. *)
Definition command_bank (cmd : Command) (bg bank : Z) : Prop :=
  match cmd_type cmd with
  | REFRESH => 0 ≤ bg < bankgroups c ∧ 0 ≤ bank < banks_per_group c
  | REFRESH_BANK => bg = 0 ∧ bank = Bank cmd
  | ACTIVATE | READ | READ_PRECHARGE | WRITE | WRITE_PRECHARGE =>
    bg = Bankgroup cmd ∧ bank = Bank cmd
  | _ => False
  end.

(** The banks within the rank whose refresh counters a command moves. *)
Definition refreshed_range (cmd : Command) : Z * Z :=
  match cmd_type cmd with
  | REFRESH => (0, banks c)
  | REFRESH_BANK => (Bank cmd, Bank cmd + 1)
  | _ => (0, 0)
  end.

Definition command_in_range (channel : Z) (cmd : Command) : Prop :=
  0 ≤ channel < channels c ∧ 0 ≤ Rank cmd < ranks c ∧
  match cmd_type cmd with
  | REFRESH_BANK => 0 ≤ Bank cmd < banks_per_group c
  | ACTIVATE | READ | READ_PRECHARGE | WRITE | WRITE_PRECHARGE =>
    0 ≤ Bankgroup cmd < bankgroups c ∧ 0 ≤ Bank cmd < banks_per_group c ∧
    0 ≤ Row cmd < rows c ∧ 0 ≤ Column cmd ∧ Column cmd + BL c ≤ columns c
  | _ => True
  end.

(** The cells of the maps that a command may change. *)
Definition command_cells (s : ThermalCalculator) (channel : Z) (cmd : Command) (k i : Z) : Prop :=
  ∃ bg bank, command_bank cmd bg bank ∧ bank_cells s channel bg bank (case_of channel (Rank cmd)) k i.

(** Commands without energy of their own. *)
Lemma dlt_d0 : dlt d0 d0 = false.
Proof. reflexivity. Qed.

Lemma refresh_cells s channel cmd ib k i :
  geometry_ok → cmd_type cmd = REFRESH → 0 ≤ ib < banks c →
  refreshed_cells s channel ib (case_of channel (Rank cmd)) k i → command_cells s channel cmd k i.
Proof.
  intros Hge Hty Hib Hc. destruct (absolute_bank ib Hge Hib) as (_ & _ & H1 & H2).
  eexists _, _. split; [|exact Hc]. unfold command_bank. by rewrite Hty.
Qed.

Lemma updated_weaken (Q Q' : Z → Z → Prop) r lo hi s s' :
  (∀ k i, Q k i → Q' k i) → updated Q r lo hi s s' → updated Q' r lo hi s s'.
Proof. intros HQ (rc & Hrc & Ha & Hc). exists rc. split_and!; try done. by eapply charged_weaken. Qed.

(** What was updated keeps the cells of the banks where they were. *)
Lemma updated_cells Q r lo hi s s' channel ib case_id :
  updated Q r lo hi s s' →
  refreshed_cells s' channel ib case_id = refreshed_cells s channel ib case_id ∧
  num_case s' = num_case s.
Proof. by intros (rc & _ & _ & (a & u & -> & _)). Qed.

Lemma refresh_all_ok channel cmd r e s :
  geometry_ok → calc_ok s → cmd_type cmd = REFRESH → 0 ≤ channel < channels c →
  0 ≤ Rank cmd < ranks c → 0 ≤ r < channels c * ranks c →
  ensures (for_upto (banks c) (λ ib,
      refresh_rows c t channel cmd r ib (case_of channel (Rank cmd)) e) s)
    (updated (command_cells s channel cmd) r 0 (banks c) s).
Proof.
  intros Hge Hs Hty Hch Hrank Hr. pose proof (case_fits s _ _ Hs Hch Hrank) as Hcase.
  apply (for_upto_total (λ ib, updated (command_cells s channel cmd) r 0 ib s)).
  - destruct Hge as [_ _ _ Hn ->]. nia.
  - apply updated_charged; [apply Hs|]. apply charged_refl; apply Hs.
  - intros ib s1 Hib Hs1. pose proof (updated_calc_ok _ _ _ _ _ _ Hs1 Hs) as Hok.
    destruct (updated_cells _ _ _ _ _ _ channel ib (case_of channel (Rank cmd)) Hs1) as [Hcells Hcases].
    destruct (refresh_rows_ok channel cmd r ib (case_of channel (Rank cmd)) e s1)
      as (s2 & Hrun & Hs2); try done; [by rewrite Hcases|].
    exists s2. split; [done|]. eapply updated_snoc; [lia|exact Hs1|].
    rewrite Hcells in Hs2. eapply updated_weaken; [|exact Hs2]. intros k i. by apply refresh_cells.
Qed.

Lemma UpdateCMDPower_ok p channel cmd s :
  geometry_ok → calc_ok s → command_in_range channel cmd →
  ensures (UpdateCMDPower c t p channel cmd s)
    (updated (command_cells s channel cmd) (channel * ranks c + Rank cmd)
       (refreshed_range cmd).1 (refreshed_range cmd).2 s).
Proof.
  intros Hge Hs (Hch & Hrank & Hin). pose proof (index_of_rank _ _ Hch Hrank) as Hr.
  pose proof (case_fits s _ _ Hs Hch Hrank) as Hcase.
  unfold UpdateCMDPower. fold (case_of channel (Rank cmd)).
  assert (∀ e, cmd_type cmd ≠ REFRESH → cmd_type cmd ≠ REFRESH_BANK →
    in_device channel (Bankgroup cmd) (Bank cmd) →
    command_bank cmd (Bankgroup cmd) (Bank cmd) →
    0 ≤ Row cmd < rows c → 0 ≤ Column cmd → Column cmd + BL c ≤ columns c →
    ensures (if dlt d0 (command_energy p (cmd_type cmd))
             then LocationMappingANDaddEnergy c t channel cmd (case_of channel (Rank cmd)) e s
             else Ok s)
      (updated (command_cells s channel cmd) (channel * ranks c + Rank cmd) 0 0 s)) as Hdata.
  { intros e _ _ Hd Hb Hrow Hcol Hbl.
    destruct (dlt _ _).
    - eapply ensures_mono; [by apply LocationMappingANDaddEnergy_ok; try done; apply Hge|].
      intros s' Hs'. apply updated_charged; [apply Hs|]. eapply charged_weaken; [|exact Hs'].
      intros k i Hc. by eexists _, _.
    - apply ensures_ret, updated_charged; [apply Hs|]. apply charged_refl; apply Hs. }
  unfold refreshed_range, command_bank in *. destruct (cmd_type cmd) eqn:Hty; cbv zeta; cbn [fst snd];
    try (destruct Hin as (Hbg & Hbk & Hrow & Hcol & Hbl); by apply Hdata).
  1, 4-6: cbn [command_energy]; rewrite dlt_d0; apply ensures_ret, updated_charged;
    [apply Hs|]; apply charged_refl; apply Hs.
  - eapply ensures_mono.
    + apply refresh_rows_ok; try done. destruct Hge as [_ _ _ Hn ->]. nia.
    + intros s'. apply updated_weaken. intros k i Hc. exists 0, (Bank cmd).
      unfold command_bank. rewrite Hty. split; [done|]. unfold refreshed_cells in Hc.
      by rewrite Z.div_small, Z.mod_small in Hc by lia.
  - by apply refresh_all_ok.
Qed.
End plan.
