(* ===== verification/ThermalRuns.v ===== *)
(** * ThermalRuns: the calculator in use

    The floor plan that the constructor chooses, the maps handed to the solver,
    epochs, and whole runs of a stacked device; then the properties of the
    thermal model, their concrete instances, and what goes wrong on devices
    that are not stacked. *)

From S2P Require Import Prelude Double Common Configuration TraceFile Energy.
From S2P Require Import Solver SolverSafety SolverRuns Thermal ThermalSafety.
Local Open Scope Z_scope.

(** ** The shape of the plan *)

(** The factor that [determineXY] returns divides the grid. *)
Lemma determineXY_factor xd yd n :
  0 < n → 0 < determineXY xd yd n ∧ determineXY xd yd n * (n / determineXY xd yd n) = n.
Proof.
  intros Hn. unfold determineXY.
  assert (∀ l st, Forall (λ y, 0 < y) l → 0 < st.1 ∧ st.1 * (n / st.1) = n →
    let st' := foldl (λ '(x_re, asr_re) y,
      let x := Z.quot n y in
      if decide (x * y = n)
      then let asr := aspect_ratio xd yd x y in
           if dlt asr asr_re then (Z.quot n y, asr) else (x_re, asr_re)
      else (x_re, asr_re)) st l in
    0 < st'.1 ∧ st'.1 * (n / st'.1) = n) as Hfold.
  { induction l as [|y l IH]; intros [x asr] Hl Hst; [done|].
    apply list.Forall_cons in Hl as [Hy Hl]. cbn [foldl]. apply IH; [done|].
    destruct (decide _) as [Hd|]; [|done]. cbv zeta. destruct (dlt _ _); [|done]. cbn [fst].
    assert (0 < Z.quot n y) by nia. split; [done|].
    rewrite <- Hd at 2. rewrite (Z.mul_comm (Z.quot n y) y), Z.div_mul by lia. lia. }
  apply Hfold; [|simpl; rewrite Z.div_1_r; lia].
  apply list.Forall_forall. intros y Hy%elem_of_seqZ. lia.
Qed.

Section runs.
Context (c : Config) (t : ThermalParams) (p : PowerParams).

(** The devices whose banks fit the plan that the constructor makes for them.
    Grouped banks need two cells across on the narrow side. *)
Definition device_fits : Prop :=
  0 < num_x_grids t ∧ 0 < num_y_grids t ∧ 0 < channels c ∧ 0 < banks c ∧
  banks c = bankgroups c * banks_per_group c ∧ 0 < bankgroups c ∧
  (if IsHMC c then bankgroups c = 1 ∧ 0 < num_dies c ∧
     banks c = num_dies c * Z.quot (banks c) (num_dies c) ∧ 0 < Z.quot (banks c) (num_dies c) ≤ 2
   else if IsHBM c then
     0 < num_dies c ∧ channels c ≤ 2 * num_dies c ∧ bankgroups c ≤ 4 ∧ banks_per_group c ≤ 4
   else if decide (1 < bankgroups c) then
     let x := determineXY (bank_asr t) (of_Z 1) (banks c) in
     banks_per_group c ≤ 4 ∧
     (if decide (x ≤ banks c / x) then 2 ≤ x ∧ 2 * bankgroups c ≤ banks c / x
      else 2 ≤ banks c / x ∧ 2 * bankgroups c ≤ x)
   else True).

(** What the constructor sets, apart from the maps. *)
Lemma new_plan garbage s :
  device_fits → ThermalCalculator_new c p t garbage = Ok s → plan_ok c t s ∧ 0 < numP s.
Proof.
  intros (Hx & Hy & Hch & Hbk & Hbanks & Hbg & Hfit) Hnew. unfold ThermalCalculator_new, InitialParameters in Hnew.
  destruct (floor_plan c t garbage) as [[[[[nP bx] by_] vx] vy]|] eqn:Hplan; [|done].
  cbn [mbind res_bind] in Hnew. simplify_res. cbn [numP].
  unfold floor_plan in Hplan. unfold is_stacked in *.
  destruct (IsHMC c) eqn:Hhmc; [|destruct (IsHBM c) eqn:Hhbm].
  - cbv zeta in Hplan.
    destruct (determineXY_factor (of_Z 1 * bank_asr t) (of_Z 2 * of_Z 1) (channels c) Hch) as [D1 D2].
    rewrite int_div_nonneg in Hplan by lia. cbn [mbind res_bind] in Hplan.
    injection Hplan as <- <- <- <- <-. split; [|lia].
    set (v := determineXY _ _ _) in *. assert (0 < channels c / v) by nia.
    constructor; unfold vaults, is_stacked, banks_fit_plan; rewrite ?Hhmc; simpl; lia.
  - injection Hplan as <- <- <- <- <-. split; [|lia].
    constructor; unfold vaults, is_stacked, banks_fit_plan; rewrite ?Hhmc, ?Hhbm; simpl; lia.
  - cbv zeta in Hplan.
    destruct (determineXY_factor (bank_asr t) (of_Z 1) (banks c) Hbk) as [D1 D2].
    rewrite int_div_nonneg in Hplan by lia. cbn [mbind res_bind] in Hplan.
    injection Hplan as <- <- <- <- <-. split; [|lia].
    set (x := determineXY _ _ _) in *. assert (0 < banks c / x) by nia.
    constructor; unfold vaults, is_stacked, banks_fit_plan; rewrite ?Hhmc, ?Hhbm; simpl; try lia.
    split; [done|]. destruct (decide (1 < bankgroups c)); [done|]. nia.
Qed.
(** ** The invariant of a run *)

Definition grid_nodes (s : ThermalCalculator) : Z :=
  nodes (numP s) (dimX s + num_dummy) (dimY s + num_dummy).

Record thermal_ok (s : ThermalCalculator) : Prop := {
  th_calc : calc_ok c t s;
  th_dies : 0 < numP s;
  th_nodes : grid_nodes s < 2 ^ 31;
  th_matrix : calculate_Midx_array (chip_dim_x t) (chip_dim_y t) (numP s) (dimX s + num_dummy)
    (dimY s + num_dummy) = Ok (Midx s);
  th_cap : Cap s = calculate_Cap_array (chip_dim_x t) (chip_dim_y t) (numP s) (dimX s + num_dummy)
    (dimY s + num_dummy);
  th_trans : Z.of_nat (length (T_trans s)) = num_case s ∧
    Forall (λ v, Z.of_nat (length v) = grid_nodes s) (T_trans s);
  th_background : Z.of_nat (length (background_energy_ s)) = channels c ∧
    Forall (λ v, Z.of_nat (length v) = ranks c) (background_energy_ s) }.

Lemma plan_dims s : plan_ok c t s → 0 < dimX s ∧ 0 < dimY s.
Proof.
  intros [Hg Hs -> -> _]. split; repeat (apply Z.mul_pos_pos; try lia).
Qed.

Lemma new_calc_ok garbage s :
  device_fits → geometry_ok c t → 0 < ranks c → 0 < periods c t →
  ThermalCalculator_new c p t garbage = Ok s → mapping_fits c (phy_mapping s) →
  grid_nodes s < 2 ^ 31 → thermal_ok s.
Proof.
  intros Hfit Hge Hranks Hper Hnew Hmap Hnodes.
  destruct (new_plan _ _ Hfit Hnew) as [Hplan Hdies]. pose proof (plan_dims s Hplan) as [HX HY].
  destruct Hfit as (Hx & Hy & Hch & Hbk & _).
  unfold ThermalCalculator_new, InitialParameters in Hnew.
  destruct (floor_plan c t garbage) as [[[[[nP bx] by_] vx] vy]|] eqn:Hp; [|done].
  cbn [mbind res_bind] in Hnew. cbv zeta in Hnew.
  set (DX := (if is_stacked c then vx * bx else bx) * num_x_grids t) in *.
  set (DY := (if is_stacked c then vy * by_ else by_) * num_y_grids t) in *.
  simplify_res. unfold grid_nodes in *. cbn in Hnodes, HX, HY, Hdies, Hmap.
  set (N := num_dummy) in *.
  constructor; [constructor| | | | | |]; try done; cbn; unfold grid_nodes; cbn.
  1, 2: split; [rewrite length_replicate; cbn|apply Forall_replicate; rewrite length_replicate; cbn];
    destruct (is_stacked c); nia.
  - split; [rewrite length_replicate; nia|]. apply Forall_replicate.
    split; [rewrite length_replicate; lia|]. apply Forall_replicate. lia.
  - split; [rewrite length_replicate; destruct (is_stacked c); nia|]. apply Forall_replicate.
    unfold initialize_Temperature. rewrite length_replicate. unfold nodes in *.
    rewrite Z2Nat.id; [done|]. unfold numLayer, N, num_dummy in *. nia.
  - split; [rewrite length_replicate; lia|]. apply Forall_replicate. rewrite length_replicate. lia.
Qed.
(** ** Maps for the solver *)

(** A loop that writes [value q] at the place [at_ q] of a vector of vectors
    of vectors. *)
Lemma foldM_fill3 {A} n1 n2 n3 (at_ : A → Z * Z * Z) (get : A → res double) (value : A → double) m xs :
  dims3 n1 n2 n3 m →
  (∀ q, q ∈ xs → get q = Ok (value q) ∧ 0 ≤ (at_ q).1.1 < n1 ∧ 0 ≤ (at_ q).1.2 < n2 ∧ 0 ≤ (at_ q).2 < n3) →
  (∀ q q', q ∈ xs → q' ∈ xs → at_ q = at_ q' → value q = value q') →
  ensures (foldM (λ q m, e ← get q; modify3 m (at_ q).1.1 (at_ q).1.2 (at_ q).2 (λ _, Ok e)) xs m)
    (λ m', dims3 n1 n2 n3 m' ∧
      ∀ q, q ∈ xs → lookup3 m' (at_ q).1.1 (at_ q).1.2 (at_ q).2 = Some (value q)).
Proof.
  intros Hm Hget Hagree.
  destruct (foldM_total (λ q m, e ← get q; modify3 m (at_ q).1.1 (at_ q).1.2 (at_ q).2 (λ _, Ok e))
    (λ pre m', dims3 n1 n2 n3 m' ∧ ∀ q, q ∈ pre → q ∈ xs →
       lookup3 m' (at_ q).1.1 (at_ q).1.2 (at_ q).2 = Some (value q)) xs m)
    as (m' & Hrun & Hd & Hv); [split; [done|set_solver]| |by exists m'; auto].
  intros pre q m1 Hq _ [Hd Hv]. destruct (Hget q Hq) as (-> & H1 & H2 & H3). cbn [mbind res_bind].
  destruct (dims3_lookup _ _ _ _ _ _ _ Hd H1 H2 H3) as [e He].
  destruct (modify3_Ok m1 _ _ _ (λ _, Ok (value q)) _ _ He eq_refl) as [m2 Hm2]. exists m2.
  split; [done|]. split; [by eapply modify3_dims|].
  destruct (modify3_inv _ _ _ _ _ _ Hm2) as (e0 & v & _ & [= <-] & Hlk).
  intros q' Hq' Hq'xs. rewrite Hlk. case_decide as Heq.
  - f_equal. apply Hagree; [done..|]. destruct (at_ q) as [[??] ?], (at_ q') as [[??] ?]. simpl in *. congruence.
  - apply Hv; [|done]. apply elem_of_app in Hq' as [Hq'| ->%list_elem_of_singleton]; [done|].
    by destruct (at_ q) as [[??] ?].
Qed.

Lemma maps_get s m k : maps_ok s m → 0 ≤ k < num_case s →
  ∃ v, vec_get m k = Ok v ∧ Z.of_nat (length v) = numP s * dimX s * dimY s.
Proof.
  intros [Hl Hall] Hk. destruct (vlookup_lt m k) as [v Hv]; [lia|]. exists v.
  split; [by apply vec_get_Ok|]. by apply (Forall_vlookup _ _ _ _ Hall Hv).
Qed.

(** The map that [InitPowerM] reads, and what it divides the energies by. *)
Definition read_map (clk : Z) (s : ThermalCalculator) : list (list double) :=
  if decide (clk = 0) then cur_Pmap s else accu_Pmap s.

Definition window (clk : Z) : double := of_Z (if decide (clk = 0) then epoch_period c else clk).

Lemma InitPowerM_ok case_id clk s :
  calc_ok c t s → 0 ≤ case_id < num_case s →
  ensures (InitPowerM c case_id clk s) (λ m,
    dims3 (dimX s + num_dummy) (dimY s + num_dummy) (numP s) m ∧
    ∀ x y z, 0 ≤ x < dimX s → 0 ≤ y < dimY s → 0 ≤ z < numP s →
      lookup3 m (x + 1) (y + 1) z
      = (λ e, e / window clk)%D <$> lookup2 (read_map clk s) case_id (cell s x y z)).
Proof.
  intros Hs Hk. unfold InitPowerM. fold (window clk). fold (read_map clk s).
  assert (maps_ok s (read_map clk s)) as Hm by (unfold read_map; case_decide; apply Hs).
  destruct (maps_get _ _ _ Hm Hk) as (v & Hv & Hl). cbv zeta. rewrite Hv. cbn [mbind res_bind].
  unfold for_upto. rewrite foldM_triples.
  set (val := λ q : Z * (Z * Z), default d0 (vlookup v (cell s q.1 q.2.1 q.2.2))).
  destruct (foldM_fill3 (dimX s + num_dummy) (dimY s + num_dummy) (numP s)
    (λ q : Z * (Z * Z), (q.1 + 1, q.2.1 + 1, q.2.2))
    (λ q, e ← vec_get v (cell s q.1 q.2.1 q.2.2); Ok (e / window clk)%D)
    (λ q, val q / window clk)%D
    (replicate (Z.to_nat (dimX s + num_dummy)) (replicate (Z.to_nat (dimY s + num_dummy))
      (replicate (Z.to_nat (numP s)) d0)))
    (pairs (seqZ 0 (dimX s)) (pairs (seqZ 0 (dimY s)) (seqZ 0 (numP s)))))
    as (m & Hrun & Hd & Hval).
  - apply dims3_replicate.
  - intros [x [y z]]. rewrite !elem_of_pairs, !elem_of_seqZ. cbn [fst snd]. intros (Hx & Hy & Hz).
    unfold num_dummy. split; [|lia].
    destruct (vlookup_lt v (cell s x y z)) as [e He].
    { rewrite Hl. apply cell_range; lia. }
    unfold val. cbn [fst snd]. rewrite He. apply vec_get_Ok in He as ->. done.
  - intros [x [y z]] [x' [y' z']] _ _ [= Ex Ey ->]. cbn [fst snd] in *.
    replace x' with x by lia. by replace y' with y by lia.
  - exists m. split; [|split; [done|]].
    + rewrite <- Hrun. apply foldM_ext. intros [x [y z]] m1 _. cbn [fst snd]. unfold cell.
      rewrite Z.mul_assoc. change (Z.quot num_dummy 2) with 1. by destruct (vec_get v _).
    + intros x y z Hx Hy Hz. specialize (Hval (x, (y, z))). cbn [fst snd] in Hval. rewrite Hval.
      2:{ rewrite !elem_of_pairs, !elem_of_seqZ. lia. }
      unfold lookup2. apply vec_get_Ok in Hv. rewrite Hv. simpl.
      destruct (vlookup_lt v (cell s x y z)) as [e He]; [rewrite Hl; by apply cell_range|].
      unfold val. cbn [fst snd]. by rewrite He.
Qed.

Lemma GetTotalPower_ok m s :
  dims3 (dimX s + num_dummy) (dimY s + num_dummy) (numP s) m →
  ensures (GetTotalPower m s) (λ _, True).
Proof.
  intros Hd. unfold GetTotalPower.
  do 3 (apply for_upto_ensures; [|done]; intros ? ? ? _).
  change (Z.quot num_dummy 2) with 1. unfold num_dummy in Hd.
  match goal with |- context [get3 m ?i ?j ?k] =>
    destruct (dims3_lookup _ _ _ _ i j k Hd) as [e He]; [lia..|] end.
  apply get3_Ok in He as ->. by apply ensures_ret.
Qed.
(** ** Epochs of a stacked device *)

(** Members that the floor plan does not depend on. *)
Ltac frame H :=
  destruct H as [[[] ? ? ? ? ?] ? ? ? ? ? ?]; constructor; [constructor; [constructor| | | | |]| | | | | |]; done.

Lemma set_cur_ok s m : thermal_ok s → maps_ok s m → thermal_ok (s <| cur_Pmap := m |>).
Proof. intros H Hm. frame H. Qed.

Lemma set_accu_ok s m : thermal_ok s → maps_ok s m → thermal_ok (s <| accu_Pmap := m |>).
Proof. intros H Hm. frame H. Qed.

Lemma set_logic_ok s e : thermal_ok s → thermal_ok (SetLogicPower e s).
Proof. intros H. frame H. Qed.

Lemma set_sample_ok s n : thermal_ok s → thermal_ok (s <| sample_id := n |>).
Proof. intros H. frame H. Qed.

Lemma set_trans_ok s T : thermal_ok s →
  Z.of_nat (length T) = num_case s ∧ Forall (λ v, Z.of_nat (length v) = grid_nodes s) T →
  thermal_ok (s <| T_trans := T |>).
Proof. intros H HT. frame H. Qed.

Lemma set_background_ok s b : thermal_ok s →
  Z.of_nat (length b) = channels c ∧ Forall (λ v, Z.of_nat (length v) = ranks c) b →
  thermal_ok (s <| background_energy_ := b |>).
Proof. intros H Hb. frame H. Qed.

(** What a command leaves of it. *)
Lemma updated_thermal_ok Q r lo hi s s' : updated c t Q r lo hi s s' → thermal_ok s → thermal_ok s'.
Proof.
  intros Hup Hs. pose proof (updated_calc_ok _ _ _ _ _ _ _ _ Hup (th_calc _ Hs)).
  destruct Hup as (rc & _ & _ & (a & u & -> & _)). destruct Hs. by constructor.
Qed.

(** A modified element keeps a property of all elements. *)
Lemma vec_modify_Forall {A} (P : A → Prop) v i f :
  Forall P v → 0 ≤ i < Z.of_nat (length v) → (∀ a, P a → ensures (f a) P) →
  ensures (vec_modify v i f) (λ w, length w = length v ∧ Forall P w).
Proof.
  intros Hall Hi Hf. destruct (vlookup_lt v i Hi) as [a Ha].
  destruct (Hf a) as (a' & Ha' & HP); [by apply (Forall_vlookup _ _ _ _ Hall Ha)|].
  destruct (vec_modify_Ok v i f a a' Ha Ha') as (w & Hw & Hl & _). exists w.
  split; [done|]. split; [done|]. apply vec_modify_run in Hw as (b & b' & Hb & Hfb & ->).
  apply Forall_insert; [done|]. congruence.
Qed.

Lemma add_range_ok from to e v :
  0 ≤ from → to ≤ Z.of_nat (length v) → ensures (add_range from to e v) (λ w, length w = length v).
Proof.
  intros Hf Ht. unfold add_range. apply foldM_ensures; [|done].
  intros i w Hi%elem_of_seqZ Hw.
  eapply ensures_mono; [apply (vec_modify_Forall (λ _, True))|].
  - by apply list.Forall_forall.
  - lia.
  - intros a _. by apply ensures_ret.
  - intros w' [Hl _]. congruence.
Qed.

(** The update of one map, shared by the epochs and the final maps. *)
Definition update_map (s : ThermalCalculator) (e logic : double) (m : list (list double)) :=
  for_upto (num_case s) (λ j m, vec_modify m j (λ v,
    v ← add_range 0 (dimX s * dimY s * (numP s - 1)) e v;
    add_range (dimX s * dimY s * (numP s - 1)) (dimX s * dimY s * numP s) logic v)) m.

Lemma update_map_ok s e logic m :
  thermal_ok s → maps_ok s m → ensures (update_map s e logic m) (maps_ok s).
Proof.
  intros Hs Hm. destruct (plan_dims s (ca_plan _ _ _ (th_calc _ Hs))) as [HX HY].
  pose proof (th_dies _ Hs) as HP. unfold update_map. apply for_upto_ensures; [|done].
  intros j m1 Hj [Hl Hall].
  eapply ensures_mono; [apply (vec_modify_Forall _ _ _ _ Hall); [lia|]|].
  - intros v Hv. cbv beta in Hv.
    assert (0 ≤ dimX s * dimY s * (numP s - 1)) by (apply Z.mul_nonneg_nonneg; nia).
    eapply ensures_bind; [apply add_range_ok; nia|]. intros w Hw. cbv beta in Hw.
    eapply ensures_mono; [apply add_range_ok; nia|]. intros w' Hw'. congruence.
  - intros m2 [Hl2 Hall2]. split; [congruence|done].
Qed.

Lemma UpdatePowerMaps_ok e trans clk s :
  thermal_ok s → ensures (UpdatePowerMaps c e trans clk s) thermal_ok.
Proof.
  intros Hs. unfold UpdatePowerMaps. cbv zeta. destruct trans.
  - eapply ensures_bind; [apply (update_map_ok s e); [done|apply Hs]|].
    intros m Hm. apply ensures_ret. by apply set_cur_ok.
  - eapply ensures_bind; [apply (update_map_ok s e); [done|apply Hs]|].
    intros m Hm. apply ensures_ret. by apply set_accu_ok.
Qed.

(** The temperatures of one case after an epoch. *)
Lemma CalcTransT_ok garbage case_id s :
  thermal_ok s → 0 ≤ case_id < num_case s → Z.of_nat (length garbage) = grid_nodes s →
  ensures (CalcTransT c t p garbage case_id s) (λ s', ∃ T, s' = s <| T_trans := T |> ∧ thermal_ok s').
Proof.
  intros Hs Hk Hg. destruct (plan_dims s (ca_plan _ _ _ (th_calc _ Hs))) as [HX HY].
  unfold CalcTransT.
  eapply ensures_bind; [apply InitPowerM_ok; [apply Hs|done]|]. intros m [Hd _].
  eapply ensures_bind; [by apply GetTotalPower_ok|]. intros _ _.
  destruct (th_trans _ Hs) as [Hl Hall]. destruct (vlookup_lt (T_trans s) case_id) as [T Hv]; [lia|].
  pose proof (Forall_vlookup _ _ _ _ Hall Hv) as HT. cbv beta in HT.
  pose proof Hv as HvT. apply vec_get_Ok in HvT as ->. cbn [mbind res_bind].
  unfold grid_nodes, num_dummy in *.
  destruct (calculate_Midx_ok (chip_dim_x t) (chip_dim_y t) (numP s) (dimX s + 2) (dimY s + 2))
    as (rv & _ & Hrv & Hm); [apply Hs|lia|lia|apply Hs|].
  pose proof (th_matrix _ Hs) as HM. unfold num_dummy in HM. rewrite Hm in HM. injection HM as <-.
  destruct (transient_ok (chip_dim_x t) (chip_dim_y t) (numP s) (dimX s + 2) (dimY s + 2)
    ltac:(apply Hs) ltac:(lia) ltac:(lia) ltac:(apply Hs) rv Hrv m (Cap s)
    (of_Z (epoch_period c) * tCK p * dec 1 9)%D (time_iter s) T (Tamb s) garbage)
    as (P & T0 & _ & _ & _ & ([b1 b2] & _ & Hrun & Hlen)); [done| |done|done|].
  { rewrite (th_cap _ Hs). unfold calculate_Cap_array. rewrite length_fmap, length_seqZ.
    pose proof (th_dies _ Hs). unfold numLayer. lia. }
  rewrite Hrun. cbn [mbind res_bind fst].
  eapply ensures_bind; [apply (vec_modify_Forall _ _ _ _ Hall); [lia|]|].
  - intros a _. by apply ensures_ret.
  - intros T' [HlT' HT']. apply ensures_ret. eexists. split; [done|].
    apply set_trans_ok; [done|]. split; [congruence|done].
Qed.

(** The hottest cell of a layer is looked up inside the grid. *)
Lemma GetMaxTofCaseLayer_ok case_id layer s :
  thermal_ok s → 0 ≤ case_id < num_case s → 0 ≤ layer < numP s →
  ensures (GetMaxTofCaseLayer (T_trans s) case_id layer s) (λ _, True).
Proof.
  intros Hs Hk Hlayer. unfold GetMaxTofCaseLayer.
  destruct (th_trans _ Hs) as [Hl Hall]. destruct (vlookup_lt (T_trans s) case_id) as [v Hv]; [lia|].
  pose proof (Forall_vlookup _ _ _ _ Hall Hv) as HT. cbv beta in HT.
  apply vec_get_Ok in Hv as ->. cbn [mbind res_bind].
  do 2 (apply for_upto_ensures; [|done]; intros ? ? ? _).
  change (Z.quot num_dummy 2) with 1.
  match goal with |- context [vec_get v ?i] => destruct (vec_get_lt v i) as [x ->] end;
    [|by apply ensures_ret].
  rewrite HT. unfold grid_nodes, nodes, numLayer, layerP, num_dummy.
  match goal with j : Z, H : 0 ≤ ?j < dimY s, i : Z, H' : 0 ≤ ?i < dimX s |- _ =>
    assert (0 ≤ (j + 1) * (dimX s + 2) + (i + 1) < (dimX s + 2) * (dimY s + 2)) by nia end.
  split; nia.
Qed.
Lemma UpdateEpoch_ok fuel s :
  is_stacked c = true → thermal_ok s → ensures (UpdateEpoch c fuel s) thermal_ok.
Proof. intros Hst Hs. unfold UpdateEpoch. rewrite Hst. by apply UpdatePowerMaps_ok. Qed.

(** The rows of a case are looked up inside its map and the grid. *)
Lemma csv_cells_ok show m T id scale s :
  maps_ok s m → 0 ≤ id < num_case s → 0 < numP s → Z.of_nat (length T) = grid_nodes s →
  ensures (csv_cells show m T id scale s) (λ _, True).
Proof.
  intros Hm Hk HP HT. unfold csv_cells. destruct (maps_get _ _ _ Hm Hk) as (v & -> & Hl). cbn [mbind res_bind].
  do 3 (apply for_upto_ensures; [|done]; intros ? ? ? _). change (Z.quot num_dummy 2) with 1.
  match goal with Hz : 0 ≤ ?l < numP s, Hj : 0 ≤ ?j < dimY s, Hi : 0 ≤ ?i < dimX s |- _ =>
    pose proof (cell_range s i j l Hi Hj Hz) as Hc;
    assert (0 ≤ (j + 1) * (dimX s + 2) + (i + 1) < (dimX s + 2) * (dimY s + 2)) as Hg by nia end.
  match goal with |- context [vec_get v ?i] => destruct (vec_get_lt v i) as [pw ->] end.
  { rewrite Hl. unfold cell in Hc. by rewrite Z.mul_assoc. }
  cbn [mbind res_bind].
  match goal with |- context [vec_get T ?i] => destruct (vec_get_lt T i) as [tm ->] end;
    [|by apply ensures_ret].
  rewrite HT. unfold grid_nodes, nodes, numLayer, layerP, num_dummy. split; nia.
Qed.

Lemma PrintCSV_trans_ok id scale s :
  thermal_ok s → 0 ≤ id < num_case s →
  ensures (PrintCSV_trans (cur_Pmap s) (T_trans s) id scale s) (λ _, True).
Proof.
  intros Hs Hid. unfold PrintCSV_trans.
  destruct (th_trans _ Hs) as [Hl Hall]. destruct (vlookup_lt (T_trans s) id) as [v Hv]; [lia|].
  pose proof (Forall_vlookup _ _ _ _ Hall Hv) as HT. cbv beta in HT.
  apply vec_get_Ok in Hv as ->. cbn [mbind res_bind].
  eapply ensures_bind; [|intros rows _; by apply ensures_ret].
  apply csv_cells_ok; [apply Hs|done|apply Hs|done].
Qed.

(** The end of an epoch: new temperatures, and an empty map of the epoch. *)
Lemma PrintTransPT_ok fuel garbage s :
  is_stacked c = true → thermal_ok s → Z.of_nat (length garbage) = grid_nodes s →
  ensures (PrintTransPT c t fuel p garbage s) (λ '(s', _), thermal_ok s' ∧
    sample_id s' = sample_id s + 1 ∧ Forall (Forall (λ e, e = d0)) (cur_Pmap s') ∧
    grid_nodes s' = grid_nodes s).
Proof.
  intros Hst Hs Hg. unfold PrintTransPT, UpdateEpoch. rewrite Hst. unfold UpdatePowerMaps.
  cbv zeta iota. fold (update_map s (stacked_background s / of_Z 1000)%D
    (avg_logic_power_ s / of_Z (dimX s) / of_Z (dimY s) * of_Z (epoch_period c))%D (cur_Pmap s)).
  destruct (update_map_ok s (stacked_background s / of_Z 1000)%D
    (avg_logic_power_ s / of_Z (dimX s) / of_Z (dimY s) * of_Z (epoch_period c))%D
    (cur_Pmap s) Hs (ca_cur _ _ _ (th_calc _ Hs))) as (m & -> & Hm). cbn [mbind res_bind].
  pose proof (set_cur_ok s m Hs Hm) as Hs1.
  eapply ensures_bind.
  - apply (for_upto_ensures (λ '(s', _), ∃ T, s' = s <| cur_Pmap := m |> <| T_trans := T |> ∧ thermal_ok s')).
    + intros ir [s1 rows] Hir (T & -> & Hs2). eapply ensures_bind.
      { apply (CalcTransT_ok garbage ir); [exact Hs2|exact Hir|exact Hg]. }
      intros s2 (T' & -> & Hs3). eapply ensures_bind.
      { apply (for_upto_ensures (λ _, True)); [|done]. intros layer mx Hlayer _.
        eapply ensures_bind; [by apply GetMaxTofCaseLayer_ok|]. intros x _. by apply ensures_ret. }
      intros mx _. eapply (ensures_bind _ _ (λ _, True)); [|intros more _; apply ensures_ret; by exists T'].
      case_decide; [by apply PrintCSV_trans_ok|by apply ensures_ret].
    + exists (T_trans s). split; [by destruct s|done].
  - intros [s1 rows] (T & -> & Hs2). apply ensures_ret. split; [|split; [done|split; [|done]]].
    + apply set_sample_ok, set_cur_ok; [done|].
      destruct Hm as [Hl Hall]. split; [by rewrite length_fmap|].
      apply Forall_fmap. eapply list.Forall_impl; [exact Hall|]. intros v Hv. simpl. by rewrite length_fmap.
    + cbn. apply Forall_fmap, list.Forall_forall. intros v _. apply Forall_fmap, list.Forall_forall. done.
Qed.

(** The temperatures at the end, from the steady solver. *)
Lemma PrintFinalPT_ok fuel pdgssv a asub xa clk s :
  is_stacked c = true → thermal_ok s →
  length a = length (Midx s) → length asub = length (Midx s) →
  Z.of_nat (length xa) = grid_nodes s + 1 →
  (∀ A b, Z.of_nat (length b) = m_rows A → length (pdgssv A b) = length b) →
  ensures (PrintFinalPT c t fuel pdgssv a asub xa clk s) (λ Ts, Z.of_nat (length Ts) = num_case s).
Proof.
  intros Hst Hs Ha Hasub Hxa Hsolve. destruct (plan_dims s (ca_plan _ _ _ (th_calc _ Hs))) as [HX HY].
  unfold PrintFinalPT, final_background. rewrite Hst. unfold UpdatePowerMaps. cbv zeta iota.
  fold (update_map s (stacked_background s / of_Z 1000)%D
    (avg_logic_power_ s / of_Z (dimX s) / of_Z (dimY s) * of_Z clk)%D (accu_Pmap s)).
  destruct (update_map_ok s (stacked_background s / of_Z 1000)%D
    (avg_logic_power_ s / of_Z (dimX s) / of_Z (dimY s) * of_Z clk)%D
    (accu_Pmap s) Hs (ca_accu _ _ _ (th_calc _ Hs))) as (m & -> & Hm). cbn [mbind res_bind].
  pose proof (set_accu_ok s m Hs Hm) as Hs1. set (s1 := s <| accu_Pmap := m |>) in *.
  assert (0 ≤ num_case s) as Hn by (destruct Hm; lia).
  eapply ensures_mono; [apply tabulate_ok|intros Ts HTs; cbv beta in HTs; rewrite HTs; change (num_case s1) with (num_case s); lia].
  intros ir Hir. eapply (ensures_bind _ _ (λ T, Z.of_nat (length T) = grid_nodes s1)).
  2:{ intros T HT. eapply ensures_bind; [|intros rows _; by apply ensures_ret].
      apply csv_cells_ok; [apply Hs1|exact Hir|apply Hs1|exact HT]. }
  unfold CalcFinalT.
  eapply ensures_bind; [apply InitPowerM_ok; [apply Hs1|done]|]. intros pm [Hd _].
  eapply ensures_bind; [by apply GetTotalPower_ok|]. intros _ _.
  unfold grid_nodes, num_dummy in *. cbn [fst snd] in *.
  destruct (calculate_Midx_ok (chip_dim_x t) (chip_dim_y t) (numP s1) (dimX s1 + 2) (dimY s1 + 2))
    as (rv & _ & Hrv & HM); [apply Hs1|cbn; lia|cbn; lia|apply Hs1|].
  assert (Midx s1 = rows_spec (chip_dim_x t) (chip_dim_y t) (numP s1) (dimX s1 + 2) (dimY s1 + 2) rv) as EM.
  { pose proof (th_matrix _ Hs1) as HM'. unfold num_dummy in HM'. congruence. }
  change (Midx s) with (Midx s1) in Ha, Hasub. rewrite EM in Ha, Hasub. rewrite EM.
  destruct (steady_ok (chip_dim_x t) (chip_dim_y t) (numP s1) (dimX s1 + 2) (dimY s1 + 2)
    ltac:(apply Hs1) ltac:(cbn; lia) ltac:(cbn; lia) ltac:(apply Hs1) rv Hrv pdgssv pm (Tamb s1) a asub xa)
    as (A & rhs & _ & _ & _ & _ & _ & _ & _ & Hfin); done.
Qed.

(** ** Runs *)

(** What the controllers and the memory system call, in any order; the fresh
    buffers of the solver hold anything. *)
Inductive thermal_event : Type :=
  | CommandIssued (channel : Z) (cmd : Command)
  | BackgroundEnergy (channel rank : Z) (energy : double)
  | LogicPower (logic_power : double)
  | EpochEnd (garbage : list double).

Definition thermal_step (ev : thermal_event) (s : ThermalCalculator) : res ThermalCalculator :=
  match ev with
  | CommandIssued channel cmd => UpdateCMDPower c t p channel cmd s
  | BackgroundEnergy channel rank energy => UpdateBackgroundEnergy channel rank energy s
  | LogicPower logic_power => Ok (SetLogicPower logic_power s)
  | EpochEnd garbage => '(s, _) ← PrintTransPT c t 1 p garbage s; Ok s
  end.

Definition event_in_range (N : Z) (ev : thermal_event) : Prop :=
  match ev with
  | CommandIssued channel cmd => command_in_range c channel cmd
  | BackgroundEnergy channel rank _ => 0 ≤ channel < channels c ∧ 0 ≤ rank < ranks c
  | LogicPower _ => True
  | EpochEnd garbage => Z.of_nat (length garbage) = N
  end.

Lemma UpdateBackgroundEnergy_ok channel rank e s :
  thermal_ok s → 0 ≤ channel < channels c → 0 ≤ rank < ranks c →
  ensures (UpdateBackgroundEnergy channel rank e s) (λ s', thermal_ok s' ∧ grid_nodes s' = grid_nodes s).
Proof.
  intros Hs Hc Hr. unfold UpdateBackgroundEnergy. destruct (th_background _ Hs) as [Hl Hall].
  eapply ensures_bind; [apply (vec_modify_Forall _ _ _ _ Hall); [lia|]|].
  - intros v Hv. cbv beta in Hv. eapply ensures_mono; [apply (vec_modify_Forall (λ _, True) v rank)|].
    + by apply list.Forall_forall.
    + lia.
    + intros a _. by apply ensures_ret.
    + intros w [Hw _]. congruence.
  - intros b [Hlb Hb]. apply ensures_ret. split; [|done]. apply set_background_ok; [done|].
    split; [congruence|done].
Qed.
Lemma thermal_step_ok ev s :
  geometry_ok c t → is_stacked c = true → thermal_ok s → event_in_range (grid_nodes s) ev →
  ensures (thermal_step ev s) (λ s', thermal_ok s' ∧ grid_nodes s' = grid_nodes s).
Proof.
  intros Hge Hst Hs Hev. destruct ev as [channel cmd|channel rank e|e|garbage]; cbn [thermal_step].
  - eapply ensures_mono; [apply UpdateCMDPower_ok; [done|apply Hs|done]|].
    intros s' Hup. split; [by eapply updated_thermal_ok|].
    by destruct Hup as (rc & _ & _ & (a & u & -> & _)).
  - destruct Hev. by apply UpdateBackgroundEnergy_ok.
  - apply ensures_ret. split; [by apply set_logic_ok|done].
  - eapply ensures_bind; [by apply PrintTransPT_ok|]. intros [s' rows] (H & _ & _ & Hn).
    by apply ensures_ret.
Qed.

(** ** Epochs of the other devices *)

(** The loop over cells never gets past cell 0. *)
Lemma cell_loop_overflows fuel case_id cells e i m s :
  maps_ok s m → 0 ≤ case_id < num_case s → 0 < cells → 0 < numP s * dimX s * dimY s →
  i < 2 ^ 31 → 2 ^ 31 < Z.of_nat fuel + i →
  cell_loop fuel (λ k _, k) case_id cells e 0 i m = Fault SignedOverflow.
Proof.
  revert i m; induction fuel as [|fuel IH]; intros i m Hm Hk Hc Hn Hi Hf; [lia|].
  cbn [cell_loop]. rewrite decide_True by lia.
  destruct (charge_map_ok s case_id 0 e m Hm Hk) as (m1 & Hrun & Hm1 & _); [lia|].
  unfold charge_map in Hrun. rewrite Hrun. cbn [mbind res_bind].
  destruct (decide (i + 1 < 2 ^ 31)); [|done]. apply IH; [done..|lia].
Qed.

(** With the other index, it leaves the map. *)
Lemma cell_loop_leaves fuel case_id cells e i m s :
  maps_ok s m → 0 ≤ case_id < num_case s → 0 < cells → 0 ≤ i →
  i ≤ numP s * dimX s * dimY s → numP s * dimX s * dimY s < 2 ^ 31 →
  numP s * dimX s * dimY s < Z.of_nat fuel + i →
  cell_loop fuel (λ _ i, i) case_id cells e 0 i m = Fault OutOfRange.
Proof.
  revert i m; induction fuel as [|fuel IH]; intros i m Hm Hk Hc H0 Hi Hn Hf; [lia|].
  cbn [cell_loop]. rewrite decide_True by lia.
  destruct (decide (i = numP s * dimX s * dimY s)) as [->|].
  - destruct Hm as [Hl Hall]. destruct (vlookup_lt m case_id) as [v Hv]; [lia|].
    pose proof (Forall_vlookup _ _ _ _ Hall Hv) as Hlv. cbv beta in Hlv.
    unfold vec_modify at 1, vec_get at 1. rewrite Hv. cbn [of_option mbind res_bind].
    unfold vec_modify, vec_get.
    destruct (vlookup v (numP s * dimX s * dimY s)) eqn:Hx; [|done].
    apply vlookup_range in Hx. lia.
  - destruct (charge_map_ok s case_id i e m Hm Hk) as (m1 & Hrun & Hm1 & _); [lia|].
    unfold charge_map in Hrun. rewrite Hrun. cbn [mbind res_bind].
    rewrite decide_True by lia. apply IH; [done..| | | |]; lia.
Qed.

(** Both epochs of a device that is not stacked, from the first cell on. *)
Lemma channel_loop_first fuel at_ s m f :
  0 < channels c → 0 < ranks c →
  Z.of_nat (length (background_energy_ s)) = channels c →
  Forall (λ v, Z.of_nat (length v) = ranks c) (background_energy_ s) →
  (∀ e, cell_loop fuel at_ 0 (dimX s * dimY s * numP s) e 0 0 m = Fault f) →
  channel_loop c (S fuel) at_ s (0, m) = Fault f.
Proof.
  intros Hch Hr Hl Hall Hcell. cbn [channel_loop fst]. rewrite decide_True by lia.
  rewrite (seqZ_cons 0 (ranks c)) by lia. cbn [foldM].
  assert (rank_loop c fuel at_ s 0 (0, m) = Fault f) as ->; [|done].
  unfold rank_loop. destruct (vlookup_lt (background_energy_ s) 0) as [v Hv]; [lia|].
  pose proof (Forall_vlookup _ _ _ _ Hall Hv) as Hlv. cbv beta in Hlv.
  destruct (vec_get_lt v 0) as [b Hb]; [lia|].
  apply vec_get_Ok in Hv as ->. cbn [mbind res_bind]. rewrite Hb. cbn [mbind res_bind].
  by rewrite Z.mul_0_l, Z.add_0_r, Hcell.
Qed.
End runs.

Lemma bank_row_ok c t s ch bg b :
  plan_ok c t s → in_device c ch bg b →
  let o := bank_origin t s (vault_of c t s ch) (bank_of c t s bg b) in
  bank_row c t s ch bg b = Ok (ch, bg * banks_per_group c + b, (o.1, o.1 + num_x_grids t - 1),
    (o.2, o.2 + num_y_grids t - 1), z_of c t s ch b).
Proof.
  intros Hp Hd. unfold bank_row. rewrite (MapToVault_of _ _ _ _ _ _ Hp Hd). cbn [mbind res_bind].
  destruct (MapToZ_of c t s _ _ _ Hp Hd) as [_ ->]. cbn [mbind res_bind].
  by rewrite (MapToBank_of _ _ _ _ _ _ Hp Hd).
Qed.

(** ** Where the plan fails *)

(** A charge does not touch the refresh counters. *)
Lemma charge_counts k i e s s' : charge k i e s = Ok s' → refresh_count s' = refresh_count s.
Proof. unfold charge. intros H. by simplify_res. Qed.

Lemma LocationMappingANDaddEnergy_RF_counts c t channel cmd ib ir k e s s' :
  LocationMappingANDaddEnergy_RF c t channel cmd ib ir k e s = Ok s' → refresh_count s' = refresh_count s.
Proof.
  unfold LocationMappingANDaddEnergy_RF. intros H. simplify_res.
  eapply (foldM_preserves _ (λ s1, refresh_count s1 = refresh_count s)); [|done|done].
  intros j s1 s2 _ Hs1 Hc. cbv beta in Hc. apply charge_counts in Hc. congruence.
Qed.

(** When [num_row_refresh] does not divide the rows, the counter of a bank is
    never set back to the first row: it grows for ever. *)
Lemma refresh_never_wraps c t channel cmd r ib k e s s' n :
  (∀ q, rows c ≠ q * num_row_refresh t) → lookup2 (refresh_count s) r ib = Some n →
  refresh_rows c t channel cmd r ib k e s = Ok s' → lookup2 (refresh_count s') r ib = Some (n + 1).
Proof.
  intros Hdiv Hn Hrun. unfold refresh_rows in Hrun. unfold lookup2 in Hn.
  destruct (vlookup (refresh_count s) r) as [v|] eqn:Hv; [simpl in Hn|done].
  pose proof Hv as Hgv. apply vec_get_Ok in Hgv. rewrite Hgv in Hrun. cbn [mbind res_bind] in Hrun.
  pose proof Hn as Hgn. apply vec_get_Ok in Hgn. rewrite Hgn in Hrun. cbn [mbind res_bind] in Hrun.
  rewrite decide_False in Hrun by (intros He; by apply (Hdiv (n + 1))).
  destruct (vec_modify_Ok v ib (λ _, Ok (n + 1)) _ _ Hn eq_refl) as (v' & Hset & _ & Hlk).
  destruct (vec_modify_Ok (refresh_count s) r (λ v, vec_set v ib (n + 1)) _ _ Hv Hset)
    as (rc & Hrc & _ & Hlk').
  rewrite Hrc in Hrun. cbn [mbind res_bind] in Hrun.
  apply (foldM_preserves _ (λ s1, refresh_count s1 = rc)) in Hrun; [|..|done].
  - rewrite Hrun. unfold lookup2. rewrite Hlk', decide_True by done. simpl.
    by rewrite Hlk, decide_True.
  - intros ir s1 s2 _ Hs1 Hc. apply LocationMappingANDaddEnergy_RF_counts in Hc. congruence.
Qed.

(** ... and the row after the last one lies in the cells of the next bank. *)
Lemma row_after_last c t :
  0 < mat_dim_x t → row_tile t = 1 → 0 ≤ num_x_grids t → rows c = mat_dim_x t * num_x_grids t →
  grid_x t (rows c) = Ok (num_x_grids t).
Proof.
  intros Hm H1 Hx Hr. unfold grid_x. rewrite H1, Hr, int_div_nonneg by nia. cbn [mbind res_bind].
  rewrite (Z.mul_comm (mat_dim_x t)), Z.div_mul by lia.
  by rewrite int_div_nonneg, Z.div_1_r by lia.
Qed.

(** A device with groups of more than two banks on a plan one bank wide: bank 2
    of every group begins where the die ends. *)
Lemma grouped_bank_off_die c t s ch bg :
  is_stacked c = false → 1 < bankgroups c → bank_order t ≠ 0 →
  bank_x s = 1 → 1 ≤ bank_y s → dimX s = bank_x s * num_x_grids t →
  ∃ y z, bank_row c t s ch bg 2
         = Ok (ch, bg * banks_per_group c + 2, (dimX s, dimX s + num_x_grids t - 1), y, z).
Proof.
  unfold is_stacked. intros [Hh Hb]%orb_false_iff Hg Ho Hx Hy Hd.
  unfold bank_row, MapToVault, MapToBank, MapToZ. rewrite Hh, Hb. cbn [mbind res_bind].
  rewrite decide_True by done. rewrite bool_decide_eq_false_2 by done. cbn [swap_if].
  change (Z.quot 2 2) with 1. change (Z.rem 2 2) with 0. rewrite decide_True by lia.
  cbn [mbind res_bind]. do 2 eexists. unfold bank_origin. cbn [fst snd].
  rewrite Hd, Hx. repeat f_equal; lia.
Qed.

(** ** Properties *)


(** C27: banks do not share cells.  For every device whose banks fit, each
    bank's rectangle of the floor plan lies on the die, on a memory layer of a
    stacked device, and two banks whose rectangles on the same layer have a
    cell in common are the same bank, of the same vault in a stacked device. *)
Theorem floor_plan_disjoint (c : Config) (t : ThermalParams) (p : PowerParams) (garbage : Z * Z)
    (s : ThermalCalculator) (ch bg b ch' bg' b' : Z) :
  device_fits c t → ThermalCalculator_new c p t garbage = Ok s →
  in_device c ch bg b → in_device c ch' bg' b' →
  ∃ x0 x1 y0 y1 z x0' x1' y0' y1' z',
    bank_row c t s ch bg b = Ok (ch, bg * banks_per_group c + b, (x0, x1), (y0, y1), z) ∧
    bank_row c t s ch' bg' b' = Ok (ch', bg' * banks_per_group c + b', (x0', x1'), (y0', y1'), z') ∧
    x1 = x0 + num_x_grids t - 1 ∧ y1 = y0 + num_y_grids t - 1 ∧
    0 ≤ x0 ∧ x1 < dimX s ∧ 0 ≤ y0 ∧ y1 < dimY s ∧ 0 ≤ z < numP s ∧
    (is_stacked c = true → z < numP s - 1) ∧
    (∀ x y, x0 ≤ x ≤ x1 → y0 ≤ y ≤ y1 → x0' ≤ x ≤ x1' → y0' ≤ y ≤ y1' → z = z' →
       bg = bg' ∧ b = b' ∧ (is_stacked c = true → ch = ch')).
Proof.
  intros Hfit Hnew Hd Hd'. destruct (new_plan _ _ _ _ _ Hfit Hnew) as [Hp _].
  destruct (po_grids _ _ _ Hp) as [Hgx Hgy].
  do 10 eexists. split; [by apply bank_row_ok|]. split; [by apply bank_row_ok|].
  destruct (vault_fits _ _ _ _ _ _ Hp Hd) as [V1 V2]. destruct (bank_fits _ _ _ _ _ _ Hp Hd) as [B1 B2].
  destruct (bank_fits _ _ _ _ _ _ Hp Hd') as [B1' B2']. destruct (z_fits _ _ _ _ _ _ Hp Hd) as [Z1 Z2].
  set (o := bank_origin t s (vault_of c t s ch) (bank_of c t s bg b)).
  destruct (in_bank_on_die c t s (vault_of c t s ch) (bank_of c t s bg b) o.1 o.2 Hp V1 V2 B1 B2)
    as [X1 Y1]; [unfold in_bank; fold o; lia|].
  destruct (in_bank_on_die c t s (vault_of c t s ch) (bank_of c t s bg b)
    (o.1 + num_x_grids t - 1) (o.2 + num_y_grids t - 1) Hp V1 V2 B1 B2)
    as [X2 Y2]; [unfold in_bank; fold o; lia|].
  split_and!; try done; try lia.
  intros x y Hx Hy Hx' Hy' Hz.
  destruct (in_bank_inj c t s (vault_of c t s ch) (bank_of c t s bg b) (vault_of c t s ch')
    (bank_of c t s bg' b') x y Hp B1 B2 B1' B2') as [Ev Eb]; [unfold in_bank; fold o; lia|unfold in_bank; lia|].
  by apply (place_inj c t s).
Qed.

(** The thermal simulation of a stacked device runs to its end.  From the
    calculator that the constructor returns, on a device whose banks fit and a
    grid whose nodes are [int]s, every sequence of commands within the device,
    background energies, logic powers and ends of epochs returns and keeps
    the calculator well-formed; and the final temperatures of every case are
    computed, whatever vectors of the right lengths the sparse solver
    returns. *)
Theorem stacked_thermal_runs (c : Config) (t : ThermalParams) (p : PowerParams) (garbage : Z * Z)
    (s : ThermalCalculator) (evs : list thermal_event) :
  device_fits c t → geometry_ok c t → 0 < periods c t → is_stacked c = true →
  ThermalCalculator_new c p t garbage = Ok s → mapping_fits c (phy_mapping s) →
  grid_nodes s < 2 ^ 31 → Forall (event_in_range c (grid_nodes s)) evs →
  ensures (foldM (thermal_step c t p) evs s) (λ s', thermal_ok c t s' ∧
    ∀ fuel pdgssv a asub xa clk,
      length a = length (Midx s') → length asub = length (Midx s') →
      Z.of_nat (length xa) = grid_nodes s' + 1 →
      (∀ A b, Z.of_nat (length b) = m_rows A → length (pdgssv A b) = length b) →
      ensures (PrintFinalPT c t fuel pdgssv a asub xa clk s') (λ Ts,
        Z.of_nat (length Ts) = num_case s')).
Proof.
  intros Hfit Hge Hper Hst Hnew Hmap Hnodes Hevs.
  assert (thermal_ok c t s) as Hs by (eapply new_calc_ok; try done; apply Hge).
  eapply ensures_mono.
  - apply (foldM_ensures _ (λ s', thermal_ok c t s' ∧ grid_nodes s' = grid_nodes s)); [|done].
    intros ev s1 Hev [Hs1 Hn]. rewrite list.Forall_forall in Hevs. specialize (Hevs ev Hev).
    rewrite <- Hn in Hevs. eapply ensures_mono; [by apply thermal_step_ok|].
    intros s2 [Hs2 Hn2]. split; [done|congruence].
  - intros s' [Hs' _]. split; [done|]. intros. by apply PrintFinalPT_ok.
Qed.

(** C40: on a device that is not stacked, no epoch ever ends.  Both loops that
    add the background energy to the cells of a rank advance the channel
    counter instead of the cell counter: at the end of an epoch that counter
    overflows, and at the end of the simulation it leaves the map. *)
Theorem epoch_never_returns (c : Config) (t : ThermalParams) (s : ThermalCalculator) (fuel : nat) (clk : Z) :
  is_stacked c = false → thermal_ok c t s → 0 < channels c → 0 < ranks c →
  numP s * dimX s * dimY s < 2 ^ 31 → 2 ^ 31 < Z.of_nat fuel →
  UpdateEpoch c (S fuel) s = Fault SignedOverflow ∧
  final_background c (S fuel) clk s = Fault OutOfRange.
Proof.
  intros Hst Hs Hch Hr Hcells Hfuel.
  destruct (plan_dims c t s (ca_plan _ _ _ (th_calc _ _ _ Hs))) as [HX HY].
  pose proof (th_dies _ _ _ Hs) as HP. destruct (th_background _ _ _ Hs) as [Hbl Hball].
  assert (0 < numP s * dimX s * dimY s) as Hpos by (repeat (apply Z.mul_pos_pos; try lia)).
  assert (0 < dimX s * dimY s * numP s) as Hpos' by lia.
  assert (0 ≤ 0 < num_case s) as Hcase.
  { rewrite (ca_cases _ _ _ (th_calc _ _ _ Hs)), Hst. nia. }
  unfold UpdateEpoch, final_background. rewrite Hst. split.
  - rewrite (channel_loop_first c fuel _ s (cur_Pmap s) SignedOverflow); try done.
    intros e. apply (cell_loop_overflows fuel 0 _ e 0 (cur_Pmap s) s); try done; [apply Hs|lia].
  - rewrite (channel_loop_first c fuel _ s (accu_Pmap s) OutOfRange); try done.
    intros e. apply (cell_loop_leaves fuel 0 _ e 0 (accu_Pmap s) s); try done; [apply Hs|lia..].
Qed.

(** ** Concrete instances *)

Definition stack_strings : list (string * string) :=
  [("protocol", "HBM"); ("address_mapping", "rorabgbachco"); ("queue_structure", "PER_BANK");
   ("row_buf_policy", "OPEN_PAGE")]%string.

(** One die with two channels of an HBM stack, one grid cell a bank. *)
Definition stack_integers : list (string * Z) :=
  [("bankgroups", 4); ("banks_per_group", 4); ("rows", 16384); ("columns", 64);
   ("device_width", 128); ("BL", 4); ("num_dies", 1); ("tREFI", 1950);
   ("channel_size", 512); ("channels", 2); ("bus_width", 128);
   ("mat_dim_x", 16384); ("mat_dim_y", 16384); ("bank_order", 1); ("epoch_period", 5000)]%string.

(** DDR3_1Gb_x8_1333.ini, one grid cell a bank. *)
Definition flat_strings : list (string * string) :=
  [("protocol", "DDR3"); ("address_mapping", "rochrababgco"); ("queue_structure", "PER_BANK");
   ("row_buf_policy", "OPEN_PAGE"); ("loc_mapping", "30,30,30,29:27,26:13,12:3")]%string.

Definition flat_integers : list (string * Z) :=
  [("bankgroups", 1); ("banks_per_group", 8); ("rows", 16384); ("columns", 1024);
   ("device_width", 8); ("BL", 8); ("tREFI", 5200); ("channel_size", 2048); ("channels", 1);
   ("bus_width", 64); ("mat_dim_x", 16384); ("mat_dim_y", 8192); ("epoch_period", 5000)]%string.

Definition reader_of (strings : list (string * string)) (integers : list (string * Z)) : INIReader :=
  MkINIReader (λ _ k d, assoc strings k d) (λ _ k d, assoc integers k d) (λ _ _ d, d).

Definition real_of (tCK : double) (_ k : string) (d : double) : double := assoc [("tCK"%string, tCK)] k d.

Definition params_uninit : ThermalParams := MkThermalParams "" 0 d0 d0 d0 d0 0 0 0 0 0 0 0 0 d0.

Definition config_of (reader : INIReader) : Config :=
  match Config_new reader 0 with Ok c => c | Fault _ => Config_uninit end.

Definition params_of (reader : INIReader) (real : string → string → double → double) : ThermalParams :=
  let c := config_of reader in
  match InitThermalParams reader real c (InitPowerParams real c) params_uninit with
  | Ok t => t | Fault _ => params_uninit end.

Definition stack_config : Config := Eval vm_compute in config_of (reader_of stack_strings stack_integers).
Definition stack_power : PowerParams := Eval vm_compute in InitPowerParams (real_of (of_Z 2)) stack_config.
Definition stack_params : ThermalParams :=
  Eval vm_compute in params_of (reader_of stack_strings stack_integers) (real_of (of_Z 2)).

Definition flat_config : Config := Eval vm_compute in config_of (reader_of flat_strings flat_integers).
Definition flat_power : PowerParams := Eval vm_compute in InitPowerParams (real_of (dec 15 1)) flat_config.
Definition flat_params : ThermalParams :=
  Eval vm_compute in params_of (reader_of flat_strings flat_integers) (real_of (dec 15 1)).

Definition flat_positions : list (list Z) :=
  [[30]; [30]; [30]; [29; 28; 27]; rev (seqZ 13 14); rev (seqZ 3 10)].

(** The mapping, the number of nodes and of cells of a calculator. *)
Definition is_mapping (m : PhyMapping) (s : ThermalCalculator) : bool :=
  match phy_mapping s, m with
  | Identity, Identity => true
  | Mapped ps off, Mapped ps' off' => bool_decide (ps = ps' ∧ off = off')
  | _, _ => false
  end.

Lemma is_mapping_eq m s : is_mapping m s = true → phy_mapping s = m.
Proof.
  unfold is_mapping. destruct (phy_mapping s), m; try done.
  by intros [-> ->]%bool_decide_eq_true_1.
Qed.

Definition new_check (m : PhyMapping) (s : ThermalCalculator) : bool :=
  is_mapping m s && bool_decide (grid_nodes s < 2 ^ 31 ∧ numP s * dimX s * dimY s < 2 ^ 31).

Lemma new_check_Ok c p t g m :
  res_check (ThermalCalculator_new c p t g) (new_check m) = true →
  ∃ s, ThermalCalculator_new c p t g = Ok s ∧ phy_mapping s = m ∧ grid_nodes s < 2 ^ 31 ∧
    numP s * dimX s * dimY s < 2 ^ 31.
Proof.
  intros (s & Hs & Hc)%res_check_Ok. exists s. split; [done|].
  unfold new_check in Hc. apply andb_prop in Hc as [Hm Hn].
  apply bool_decide_eq_true_1 in Hn. split; [by apply is_mapping_eq|done].
Qed.

Lemma stack_new : ∃ s, ThermalCalculator_new stack_config stack_power stack_params (0, 0) = Ok s ∧
  phy_mapping s = Identity ∧ grid_nodes s < 2 ^ 31 ∧ numP s * dimX s * dimY s < 2 ^ 31.
Proof. apply (new_check_Ok _ _ _ _ Identity). vm_compute. reflexivity. Qed.

Lemma flat_new : ∃ s, ThermalCalculator_new flat_config flat_power flat_params (0, 0) = Ok s ∧
  phy_mapping s = Mapped flat_positions 3 ∧ grid_nodes s < 2 ^ 31 ∧ numP s * dimX s * dimY s < 2 ^ 31.
Proof. apply (new_check_Ok _ _ _ _ (Mapped flat_positions 3)). vm_compute. reflexivity. Qed.

Lemma stack_fits : device_fits stack_config stack_params.
Proof. by vm_compute; split_and!. Qed.

Lemma flat_fits : device_fits flat_config flat_params.
Proof. by vm_compute; split_and!. Qed.

Lemma stack_geometry : geometry_ok stack_config stack_params ∧ 0 < periods stack_config stack_params.
Proof. split; [|done]. by constructor; [constructor|..]; vm_compute. Qed.

Lemma flat_geometry : geometry_ok flat_config flat_params ∧ 0 < periods flat_config flat_params.
Proof. split; [|done]. by constructor; [constructor|..]; vm_compute. Qed.

Lemma flat_mapping : mapping_fits flat_config (Mapped flat_positions 3).
Proof.
  exists [30], [30], [30], [29; 28; 27], (rev (seqZ 13 14)), (rev (seqZ 3 10)).
  split; [done|]. split; [done|]. split.
  { apply (bool_decide_unpack _). vm_compute. done. }
  by vm_compute.
Qed.

Lemma stack_ok s :
  ThermalCalculator_new stack_config stack_power stack_params (0, 0) = Ok s →
  phy_mapping s = Identity → grid_nodes s < 2 ^ 31 →
  thermal_ok stack_config stack_params s ∧ 0 ≤ grid_nodes s.
Proof.
  intros Hs Hm Hn. assert (thermal_ok stack_config stack_params s) as Hok.
  { refine (new_calc_ok _ _ stack_power (0, 0) s stack_fits (proj1 stack_geometry) eq_refl
      (proj2 stack_geometry) Hs _ Hn). rewrite Hm. exact I. }
  split; [exact Hok|]. destruct (plan_dims _ _ s (ca_plan _ _ _ (th_calc _ _ _ Hok))).
  pose proof (th_dies _ _ _ Hok). unfold grid_nodes, nodes, numLayer, num_dummy. nia.
Qed.

Lemma flat_ok : ∃ s, ThermalCalculator_new flat_config flat_power flat_params (0, 0) = Ok s ∧
  thermal_ok flat_config flat_params s ∧ numP s * dimX s * dimY s < 2 ^ 31.
Proof.
  destruct flat_new as (s & Hs & Hm & Hn & Hc). exists s. split; [exact Hs|]. split; [|exact Hc].
  refine (new_calc_ok _ _ flat_power (0, 0) s flat_fits (proj1 flat_geometry) eq_refl
    (proj2 flat_geometry) Hs _ Hn).
  rewrite Hm. exact flat_mapping.
Qed.

(** An activation of bank 5, row 100, rank 1. *)
Definition flat_activate : Command := MkCommand ACTIVATE (MkAddress 0 1 0 5 100 0) 0.


Lemma floor_plan_disjoint_witness :
  ∃ s x0 x1 y0 y1 z, ThermalCalculator_new stack_config stack_power stack_params (0, 0) = Ok s ∧
    bank_row stack_config stack_params s 1 2 3 = Ok (1, 11, (x0, x1), (y0, y1), z) ∧
    0 ≤ x0 ∧ x1 < dimX s ∧ 0 ≤ y0 ∧ y1 < dimY s.
Proof.
  destruct stack_new as (s & Hs & _).
  destruct (floor_plan_disjoint stack_config stack_params stack_power (0, 0) s 1 2 3 0 0 0)
    as (x0 & x1 & y0 & y1 & z & x0' & x1' & y0' & y1' & z' & Hrow & _ & _ & _ & H1 & H2 & H3 & H4 & _).
  - apply stack_fits.
  - exact Hs.
  - by vm_compute; split_and!.
  - by vm_compute; split_and!.
  - exists s, x0, x1, y0, y1, z. exact (conj Hs (conj Hrow (conj H1 (conj H2 (conj H3 H4))))).
Defined.

(** Two commands, the figures of a controller, and an epoch. *)
Definition stack_events (s : ThermalCalculator) : list thermal_event :=
  [CommandIssued 1 (MkCommand ACTIVATE (MkAddress 1 0 2 3 77 0) 0);
   CommandIssued 1 (MkCommand READ (MkAddress 1 0 2 3 77 5) 0);
   BackgroundEnergy 0 0 (of_Z 1000); LogicPower (of_Z 5);
   EpochEnd (replicate (Z.to_nat (grid_nodes s)) d0);
   CommandIssued 0 (MkCommand REFRESH (MkAddress 0 0 0 0 0 0) 0)].

Lemma stacked_thermal_runs_witness :
  ∃ s s', ThermalCalculator_new stack_config stack_power stack_params (0, 0) = Ok s ∧
    foldM (thermal_step stack_config stack_params stack_power) (stack_events s) s = Ok s' ∧
    thermal_ok stack_config stack_params s'.
Proof.
  destruct stack_new as (s & Hs & Hm & Hn & _).
  destruct (stacked_thermal_runs stack_config stack_params stack_power (0, 0) s (stack_events s))
    as (s' & Hrun & Hs' & _).
  - apply stack_fits.
  - apply stack_geometry.
  - apply stack_geometry.
  - reflexivity.
  - exact Hs.
  - rewrite Hm. exact I.
  - exact Hn.
  - destruct (stack_ok s Hs Hm Hn) as [_ Hpos].
    unfold stack_events. repeat apply Forall_cons_2; try apply Forall_nil_2; cbn [event_in_range].
    1, 2, 3, 6: by vm_compute; split_and!.
    + exact I.
    + rewrite length_replicate. lia.
  - exists s, s'. exact (conj Hs (conj Hrun Hs')).
Defined.

Lemma epoch_never_returns_witness :
  ∃ s, ThermalCalculator_new flat_config flat_power flat_params (0, 0) = Ok s ∧
    UpdateEpoch flat_config (S (Z.to_nat (2 ^ 31 + 1))) s = Fault SignedOverflow.
Proof.
  destruct flat_ok as (s & Hs & Hok & Hc). exists s. split; [exact Hs|].
  apply (epoch_never_returns flat_config flat_params s (Z.to_nat (2 ^ 31 + 1)) 0).
  - reflexivity.
  - exact Hok.
  - reflexivity.
  - reflexivity.
  - exact Hc.
  - rewrite Z2Nat.id by lia. lia.
Defined.

(** Shipped devices.  DDR4_8Gb_x8_3200 refreshes 9 rows at a time, which does not
    divide its 65536 rows; DDR4_4Gb_x4_1866 gets a plan one bank wide. *)
Definition ddr4_strings : list (string * string) :=
  [("protocol", "DDR4"); ("address_mapping", "rochrababgco"); ("queue_structure", "PER_BANK");
   ("row_buf_policy", "OPEN_PAGE")]%string.

Definition ddr4_reader (device_width tREFI : Z) : INIReader :=
  reader_of ddr4_strings [("bankgroups", 4); ("banks_per_group", 4); ("rows", 65536); ("columns", 1024);
   ("device_width", device_width); ("BL", 8); ("tREFI", tREFI); ("channel_size", 16384); ("channels", 1);
   ("bus_width", 64)]%string.

Example ddr4_3200_never_wraps :
  num_row_refresh (params_of (ddr4_reader 8 12480) (real_of (dec 63 2))) = 9 ∧
  rows (config_of (ddr4_reader 8 12480)) = 65536 ∧ ∀ q, 65536 ≠ q * 9.
Proof. split; [vm_compute; reflexivity|]. split; [vm_compute; reflexivity|]. lia. Qed.

Example ddr4_x4_off_die :
  let c := config_of (ddr4_reader 4 7285) in
  let t := params_of (ddr4_reader 4 7285) (real_of (dec 107 2)) in
  floor_plan c t (0, 0) = Ok (1, 1, 16, 0, 0) ∧ is_stacked c = false ∧ 1 < bankgroups c ∧ bank_order t = 1.
Proof. by vm_compute; split_and!. Qed.
