(* ===== verification/Replay.v ===== *)
(** * Replay: the power of a recorded command trace
    (src/src/thermal_replay.h, thermal_replay.cc)

    The replay tool reads a list of timed commands, counts them in the
    statistics of their channels, tracks which banks are active to tell
    standby from idle cycles, and charges the commands' energies to the
    thermal calculator.  Three members of the statistics that it calls are
    declared nowhere in the sources (the epoch and final print with a clock and
    streams, and the background energy of a rank): they are parameters.  A file
    is the list of its lines; the lines it prints are left out. *)

From Stdlib Require Import Ascii.
From S2P Require Import Prelude Double Common Configuration TraceFile SimpleStats.
From S2P Require Import Energy Solver Thermal.
Local Open Scope Z_scope.

Record ThermalReplay : Type := MkThermalReplay {
  timed_commands_ : list (Z * Command);
  thermal_calc_ : ThermalCalculator;
  repeat_ : Z; last_clk_ : Z;
  channel_stats_ : list SimpleStats;
  bank_active_ : list (list (list (list bool))) }.

#[export] Instance ThermalReplay_eta : RecordEta ThermalReplay := λ r, MkThermalReplay
  (timed_commands_ r) (thermal_calc_ r) (repeat_ r) (last_clk_ r) (channel_stats_ r) (bank_active_ r).

(** ** Lines of a trace *)

(** [stoull], which throws on text without a number and out of range. *)
Definition stoull (s : list ascii) : res Z :=
  let '(negative, l) := drop_sign (skip_ws s) in
  let ds := (span_digits 10 l).1 in
  let n := number 10 ds in
  if decide (ds ≠ [] ∧ n < two64)
  then Ok (if (negative : bool) then u64 (- n) else n) else Fault UncaughtException.

Definition cmd_map : list (string * CommandType) :=
  [("read", READ); ("read_p", READ_PRECHARGE); ("write", WRITE); ("write_p", WRITE_PRECHARGE);
   ("activate", ACTIVATE); ("precharge", PRECHARGE); ("refresh_bank", REFRESH_BANK);
   ("refresh", REFRESH); ("self_refresh_enter", SREF_ENTER); ("self_refresh_exit", SREF_EXIT)]%string.

(** [cmd_map[name]]: an unknown name is inserted, with the first enumerator. *)
Definition cmd_type_of (name : string) : CommandType := assoc cmd_map name READ.

(** The clock and the command of a line; the command keeps its [hex_addr]. *)
Definition ParseLine (line : string) (cmd : Command) : res (Z * Command) :=
  match StringSplit line " "%char with
  | [t0; t1; t2; t3; t4; t5; t6; t7] =>
    clk ← stoull (chars t0);
    ch ← stoi (chars t2); ra ← stoi (chars t3); bg ← stoi (chars t4);
    ba ← stoi (chars t5); ro ← stoi (chars t6); co ← stoi (chars t7);
    Ok (clk, cmd <| addr := MkAddress ch ra bg ba ro co |> <| cmd_type := cmd_type_of t1 |>)
  | _ => Fault (AbruptExit "thermal_replay.cc" 104)
  end.

(** ** The replay *)

Section replay.
Context (config_ : Config) (params : ThermalParams) (power : PowerParams).
Context (PrintEpochStats PrintFinalStats : Z → SimpleStats → res SimpleStats).
Context (RankBackgroundEnergy : SimpleStats → Z → res double).

Definition no_bank_active : list (list (list (list bool))) :=
  replicate (Z.to_nat (channels config_)) (replicate (Z.to_nat (ranks config_))
    (replicate (Z.to_nat (bankgroups config_)) (replicate (Z.to_nat (banks_per_group config_)) false))).

(** The constructor; [lines] is the trace file, if it can be opened, and
    [new_stats] what [SimpleStats(config_, i)] returns. *)
Definition ThermalReplay_new (garbage : Z * Z) (lines : option (list string)) (repeat : Z)
    : res ThermalReplay :=
  calc ← ThermalCalculator_new config_ power params garbage;
  stats ← tabulate (channels config_) (λ _, SimpleStats_new config_);
  match lines with
  | None => Fault (ExitCode 1)
  | Some ls =>
    cmds ← foldM (λ line acc, p ← ParseLine line Command_default; Ok (acc ++ [p])) ls [];
    Ok (MkThermalReplay cmds calc repeat 0 stats no_bank_active)
  end.

Definition IsRankActive (r : ThermalReplay) (channel rank : Z) : res bool :=
  ranks_ ← vec_get (bank_active_ r) channel;
  rank_active ← vec_get ranks_ rank;
  Ok (existsb (existsb id) rank_active).

Definition count_name (ty : CommandType) : option string :=
  match ty with
  | READ | READ_PRECHARGE => Some "num_read_cmds"%string
  | WRITE | WRITE_PRECHARGE => Some "num_write_cmds"%string
  | ACTIVATE => Some "num_act_cmds"%string
  | PRECHARGE => Some "num_pre_cmds"%string
  | REFRESH => Some "num_ref_cmds"%string
  | REFRESH_BANK => Some "num_refb_cmds"%string
  | SREF_ENTER => Some "num_srefe_cmds"%string
  | SREF_EXIT => Some "num_srefx_cmds"%string
  | SIZE => None
  end.

(** The state of the bank after a command, where it changes. *)
Definition bank_after (ty : CommandType) : option bool :=
  match ty with
  | ACTIVATE => Some true
  | READ_PRECHARGE | WRITE_PRECHARGE | PRECHARGE => Some false
  | _ => None
  end.

(** The cycles since the last command, counted for every rank. *)
Definition count_background (past_clks : Z) (r : ThermalReplay) : res ThermalReplay :=
  for_upto (channels config_) (λ i, for_upto (ranks config_) (λ j r,
    active ← IsRankActive r i j;
    stats ← vec_modify (channel_stats_ r) i
      (IncrementVecBy (if (active : bool) then "rank_active_cycles" else "all_bank_idle_cycles") j past_clks);
    Ok (r <| channel_stats_ := stats |>))) r.

Definition set_bank (a : Address) (b : bool) (r : ThermalReplay) : res ThermalReplay :=
  active ← vec_modify (bank_active_ r) (channel a) (λ v,
             modify3 v (rank a) (bankgroup a) (bank a) (λ _, Ok b));
  Ok (r <| bank_active_ := active |>).

(** The end of an epoch, as [ProcessCMD] does it. *)
Definition print_epochs (clk : Z) (r : ThermalReplay) : res ThermalReplay :=
  for_upto (channels config_) (λ c r,
    stats ← vec_modify (channel_stats_ r) c (PrintEpochStats clk);
    for_upto (ranks config_) (λ j r,
      s ← vec_get (channel_stats_ r) c;
      bg_energy ← RankBackgroundEnergy s j;
      calc ← UpdateBackgroundEnergy c j bg_energy (thermal_calc_ r);
      Ok (r <| thermal_calc_ := calc |>)) (r <| channel_stats_ := stats |>)) r.

Definition ProcessCMD (cmd : Command) (clk : Z) (r : ThermalReplay) : res ThermalReplay :=
  r ← count_background (u64 (clk - last_clk_ r)) r;
  r ← match count_name (cmd_type cmd) with
      | Some name =>
        stats ← vec_modify (channel_stats_ r) (Channel cmd) (λ s, Ok (Increment name s));
        Ok (r <| channel_stats_ := stats |>)
      | None => Fault (AbruptExit "thermal_replay.cc" 167)
      end;
  r ← match bank_after (cmd_type cmd) with Some b => set_bank (addr cmd) b r | None => Ok r end;
  if decide (u64 (epoch_period config_) = 0) then Fault DivideByZero
  else
    r ← (if decide (clk `mod` u64 (epoch_period config_) ≠ 0) then print_epochs clk r else Ok r);
    Ok (r <| last_clk_ := clk |>).

(** One pass over the commands, from [clk]; the power is charged to channel 0. *)
Definition replay_command (clk : Z) (tc : Z * Command) (r : ThermalReplay) : res ThermalReplay :=
  r ← ProcessCMD tc.2 (u64 (clk + tc.1)) r;
  calc ← UpdateCMDPower config_ params power 0 tc.2 (thermal_calc_ r);
  Ok (r <| thermal_calc_ := calc |>).

Definition clk_offset (cmds : list (Z * Command)) : Z :=
  match rev cmds with [] => 0 | tc :: _ => tc.1 end.

Definition reset_banks (r : ThermalReplay) : res ThermalReplay :=
  for_upto (channels config_) (λ c, for_upto (ranks config_) (λ k, for_upto (bankgroups config_) (λ g,
    for_upto (banks_per_group config_) (λ b, set_bank (MkAddress c k g b 0 0) false)))) r.

Definition replay_once (st : Z * ThermalReplay) : res (Z * ThermalReplay) :=
  let '(clk, r) := st in
  r ← foldM (replay_command clk) (timed_commands_ r) r;
  r ← reset_banks r;
  Ok (u64 (clk + clk_offset (timed_commands_ r)), r).

(** [Run], with the final temperatures of [PrintFinalPT]. *)
Definition Run (fuel : nat) (pdgssv : SuperMatrix → list double → list double)
    (a : list double) (asub xa : list Z) (r : ThermalReplay)
    : res (ThermalReplay * list (list double * double * list csv_row)) :=
  '(clk, r) ← for_upto (repeat_ r) (λ _, replay_once) (0, r);
  stats ← foldM (λ s acc, s ← PrintFinalStats clk s; Ok (acc ++ [s])) (channel_stats_ r) [];
  let r := r <| channel_stats_ := stats |> in
  Ts ← PrintFinalPT config_ params fuel pdgssv a asub xa clk (thermal_calc_ r);
  Ok (r, Ts).
End replay.

(** ** The program *)

(** What the command-line parser returns; an option that is not set has the
    empty text or the default number of repetitions. *)
Inductive Parsed : Type :=
  | ParsedHelp
  | ParsedError
  | ParsedArgs (config_file trace_file : string) (repeat : option Z).

(** [main]: the exit status.  [load] reads a configuration file, [files] is the
    file system; the members of the statistics and the sparse solver are the
    parameters of the replay. *)
Definition main (PrintEpochStats PrintFinalStats : Z → SimpleStats → res SimpleStats)
    (RankBackgroundEnergy : SimpleStats → Z → res double) (garbage : Z * Z)
    (fresh_reals : Z → list double) (fresh_ints : Z → list Z)
    (fuel : nat) (pdgssv : SuperMatrix → list double → list double)
    (load : string → res (Config * ThermalParams * PowerParams))
    (files : string → option (list string)) (parsed : Parsed) : res Z :=
  match parsed with
  | ParsedHelp => Ok 0
  | ParsedError => Ok 1
  | ParsedArgs config_file trace_file repeat =>
    '(c, t, p) ← load config_file;
    r ← ThermalReplay_new c t p garbage (files trace_file) (default 10 repeat);
    let s := thermal_calc_ r in
    let nnz := Z.of_nat (length (Midx s)) in
    let n := (dimX s + num_dummy) * (dimY s + num_dummy) * (numLayer (numP s) + 1) in
    _ ← Run c t p PrintEpochStats PrintFinalStats RankBackgroundEnergy fuel pdgssv
          (fresh_reals nnz) (fresh_ints nnz) (fresh_ints (n + 1)) r;
    Ok 0
  end.
