(* ===== verification/ReplayRuns.v ===== *)
(** * ReplayRuns: the replay of a command trace

    Lines of a trace are read as they were written, and on a stacked device the
    replay of every trace of commands within the device, printed line by line,
    returns. *)

From Stdlib Require Import Ascii.
From S2P Require Import Prelude Double Common Configuration TraceFile SimpleStats Energy.
From S2P Require Import Solver SolverSafety SolverRuns Thermal ThermalSafety ThermalRuns TraceText Replay.
Local Open Scope Z_scope.

(** ** Reading a line *)

Lemma stoi_print n : 0 ≤ n < 2 ^ 31 → stoi (print_number 10 n) = Ok n.
Proof.
  intros Hn. destruct (read_number n ltac:(lia)) as (E1 & E2 & E3).
  unfold stoi. rewrite E1. cbv zeta. rewrite E3. rewrite decide_True; [done|]. split; [done|lia].
Qed.

Lemma stoull_print n : 0 ≤ n < 2 ^ 64 → stoull (print_number 10 n) = Ok n.
Proof.
  intros Hn. destruct (read_number n Hn) as (E1 & E2 & E3).
  unfold stoull. rewrite E1. cbv zeta. rewrite E3. rewrite decide_True; [done|].
  split; [done|]. unfold two64. lia.
Qed.

(** ** Lines as they are written *)

Definition print_line (tc : Z * Command) : string :=
  let a := addr tc.2 in
  join " "%char (decimal tc.1)
    [type_name (cmd_type tc.2); decimal (channel a); decimal (rank a); decimal (bankgroup a);
     decimal (bank a); decimal (row a); decimal (column a)].

Definition printable (tc : Z * Command) : Prop :=
  0 ≤ tc.1 < 2 ^ 64 ∧ cmd_type tc.2 ≠ SIZE ∧ hex_addr tc.2 = 0 ∧
  Forall (λ n, 0 ≤ n < 2 ^ 31) (let a := addr tc.2 in
    [channel a; rank a; bankgroup a; bank a; row a; column a]).

Lemma type_item ty : item_ok " "%char (type_name ty).
Proof. split; [by destruct ty|]. apply (bool_decide_unpack _). by destruct ty. Qed.

Lemma cmd_type_of_name ty : ty ≠ SIZE → cmd_type_of (type_name ty) = ty.
Proof. by destruct ty. Qed.

Lemma ParseLine_print tc : printable tc → ParseLine (print_line tc) Command_default = Ok tc.
Proof.
  destruct tc as [clk [ty [ch ra bg ba ro co] hex]]. unfold printable.
  cbn [fst snd addr cmd_type hex_addr channel rank bankgroup bank row column].
  intros (Hclk & Hty & -> & Hall). unfold ParseLine, print_line. cbn [fst snd addr cmd_type channel rank bankgroup bank row column].
  rewrite StringSplit_join by (repeat apply list.Forall_cons_2; try apply list.Forall_nil_2; apply decimal_item || apply type_item).
  unfold decimal. rewrite !chars_string, stoull_print by done. cbn [mbind res_bind].
  repeat (apply list.Forall_cons in Hall as [? Hall]).
  repeat (rewrite stoi_print by done; cbn [mbind res_bind]). by rewrite cmd_type_of_name.
Qed.

(** ** Running *)

Section runs.
Context (c : Config) (t : ThermalParams) (p : PowerParams).
Context (PrintEpochStats PrintFinalStats : Z → SimpleStats → res SimpleStats).
Context (RankBackgroundEnergy : SimpleStats → Z → res double).

(** What the replay relies on in the members that are declared nowhere: on
    statistics of the configuration they return, and the statistics stay so. *)
Hypothesis PrintEpochStats_ok : ∀ clk s, stats_ok c s → ensures (PrintEpochStats clk s) (stats_ok c).
Hypothesis PrintFinalStats_ok : ∀ clk s, stats_ok c s → ensures (PrintFinalStats clk s) (stats_ok c).
Hypothesis RankBackgroundEnergy_ok : ∀ s j,
  stats_ok c s → 0 ≤ j < ranks c → ensures (RankBackgroundEnergy s j) (λ _, True).

(** The parts of the calculator that stay what the constructor made them. *)
Definition same_network (s0 s : ThermalCalculator) : Prop :=
  Midx s = Midx s0 ∧ grid_nodes s = grid_nodes s0 ∧ num_case s = num_case s0.

Record replay_ok (s0 : ThermalCalculator) (r : ThermalReplay) : Prop := {
  re_calc : thermal_ok c t (thermal_calc_ r) ∧ same_network s0 (thermal_calc_ r);
  re_stats : Z.of_nat (length (channel_stats_ r)) = channels c ∧ Forall (stats_ok c) (channel_stats_ r);
  re_banks : Z.of_nat (length (bank_active_ r)) = channels c ∧
    Forall (dims3 (ranks c) (bankgroups c) (banks_per_group c)) (bank_active_ r) }.

Definition replayable (cmd : Command) : Prop :=
  cmd_type cmd ≠ SIZE ∧ command_in_range c 0 cmd ∧ 0 ≤ Channel cmd < channels c ∧
  (bank_after (cmd_type cmd) ≠ None →
   0 ≤ Bankgroup cmd < bankgroups c ∧ 0 ≤ Bank cmd < banks_per_group c).

Lemma set_stats_ok s0 r stats :
  replay_ok s0 r → Z.of_nat (length stats) = channels c → Forall (stats_ok c) stats →
  replay_ok s0 (r <| channel_stats_ := stats |>).
Proof. intros [] Hl Hall. by constructor. Qed.

Lemma set_last_clk_ok s0 r clk : replay_ok s0 r → replay_ok s0 (r <| last_clk_ := clk |>).
Proof. intros []. by constructor. Qed.

Lemma set_calc_ok s0 r s :
  replay_ok s0 r → thermal_ok c t s → same_network s0 s → replay_ok s0 (r <| thermal_calc_ := s |>).
Proof. intros [] Hs Hn. by constructor. Qed.

(** An update of the statistics of one channel. *)
Lemma modify_stats_ok s0 r i f :
  replay_ok s0 r → 0 ≤ i < channels c → (∀ s, stats_ok c s → ensures (f s) (stats_ok c)) →
  ensures (stats ← vec_modify (channel_stats_ r) i f; Ok (r <| channel_stats_ := stats |>))
    (λ r', replay_ok s0 r' ∧ timed_commands_ r' = timed_commands_ r ∧ repeat_ r' = repeat_ r).
Proof.
  intros Hr Hi Hf. destruct (re_stats _ _ Hr) as [Hl Hall].
  eapply ensures_bind; [apply (vec_modify_Forall _ _ _ _ Hall); [lia|exact Hf]|].
  intros stats [Hls Hs]. apply ensures_ret. split; [|done]. apply set_stats_ok; [done|congruence|done].
Qed.

Lemma IsRankActive_ok s0 r i j :
  0 < bankgroups c → 0 < banks_per_group c → replay_ok s0 r → 0 ≤ i < channels c → 0 ≤ j < ranks c →
  ensures (IsRankActive r i j) (λ _, True).
Proof.
  intros Hg Hb Hr Hi Hj. destruct (re_banks _ _ Hr) as [Hl Hall]. unfold IsRankActive.
  destruct (vlookup_lt (bank_active_ r) i) as [v Hv]; [lia|].
  pose proof (Forall_vlookup _ _ _ _ Hall Hv) as Hd. cbv beta in Hd.
  apply vec_get_Ok in Hv as ->. cbn [mbind res_bind].
  destruct (dims3_lookup _ _ _ v j 0 0 Hd Hj) as [b Hlk]; [lia..|].
  unfold lookup3 in Hlk. destruct (vlookup v j) as [w|] eqn:Hw; [|done].
  apply vec_get_Ok in Hw as ->. cbn [mbind res_bind]. by apply ensures_ret.
Qed.

(** What every step keeps. *)
Definition kept (s0 : ThermalCalculator) (r r' : ThermalReplay) : Prop :=
  replay_ok s0 r' ∧ timed_commands_ r' = timed_commands_ r ∧ repeat_ r' = repeat_ r.

Lemma kept_trans s0 r1 r2 r3 : kept s0 r1 r2 → kept s0 r2 r3 → kept s0 r1 r3.
Proof. intros (_ & E1 & E2) (H & E3 & E4). split; [done|]. split; congruence. Qed.

Lemma kept_loop s0 r n (f : Z → ThermalReplay → res ThermalReplay) :
  replay_ok s0 r → (∀ i r1, 0 ≤ i < n → replay_ok s0 r1 → ensures (f i r1) (kept s0 r1)) →
  ensures (for_upto n f r) (kept s0 r).
Proof.
  intros Hr Hf. apply for_upto_ensures; [|done]. intros i r1 Hi Hk.
  eapply ensures_mono; [apply Hf; [done|apply Hk]|]. intros r2. by apply kept_trans.
Qed.

Lemma count_background_ok s0 r past :
  0 < bankgroups c → 0 < banks_per_group c → replay_ok s0 r →
  ensures (count_background c past r) (kept s0 r).
Proof.
  intros Hg Hb Hr. unfold count_background. apply kept_loop; [done|]. intros i r1 Hi Hr1.
  apply kept_loop; [done|]. intros j r2 Hj Hr2.
  eapply ensures_bind; [by eapply IsRankActive_ok|]. intros active _.
  apply modify_stats_ok; [done|done|]. intros s Hs. apply IncrementVecBy_ok; [done| |done].
  apply (bool_decide_unpack _). by destruct active.
Qed.

Lemma set_bank_ok s0 r a b :
  replay_ok s0 r → 0 ≤ channel a < channels c → 0 ≤ rank a < ranks c →
  0 ≤ bankgroup a < bankgroups c → 0 ≤ bank a < banks_per_group c →
  ensures (set_bank a b r) (kept s0 r).
Proof.
  intros Hr Hc Hk Hg Hb. destruct (re_banks _ _ Hr) as [Hl Hall]. unfold set_bank.
  eapply ensures_bind; [apply (vec_modify_Forall _ _ _ _ Hall); [lia|]|].
  - intros v Hd. cbv beta in Hd. destruct (dims3_lookup _ _ _ v _ _ _ Hd Hk Hg Hb) as [x Hx].
    destruct (modify3_Ok v _ _ _ (λ _, Ok b) _ _ Hx eq_refl) as [w Hw]. exists w.
    split; [done|]. by eapply modify3_dims.
  - intros active [Hla Ha]. apply ensures_ret. split; [|done]. destruct Hr. constructor; [done..|].
    split; [simpl; congruence|done].
Qed.
(** Background energy and commands keep the network of the calculator. *)
Lemma background_network ch rk e s s' : UpdateBackgroundEnergy ch rk e s = Ok s' → same_network s s'.
Proof. unfold UpdateBackgroundEnergy. intros H. by simplify_res. Qed.

Lemma updated_network Q r lo hi s s' : updated c t Q r lo hi s s' → same_network s s'.
Proof. by intros (rc & _ & _ & (a & u & -> & _)). Qed.

Lemma network_trans s1 s2 s3 : same_network s1 s2 → same_network s2 s3 → same_network s1 s3.
Proof. unfold same_network. intros (?&?&?) (?&?&?). split_and!; congruence. Qed.

Lemma print_epochs_ok s0 r clk :
  replay_ok s0 r →
  ensures (print_epochs c PrintEpochStats RankBackgroundEnergy clk r) (kept s0 r).
Proof.
  intros Hr. unfold print_epochs. apply kept_loop; [done|]. intros ch r1 Hch Hr1.
  destruct (re_stats _ _ Hr1) as [Hl Hall].
  eapply ensures_bind;
    [apply (vec_modify_Forall _ _ _ _ Hall); [lia|intros s Hs; by apply PrintEpochStats_ok]|].
  intros stats [Hls Hstats].
  assert (kept s0 r1 (r1 <| channel_stats_ := stats |>)) as Hk.
  { split; [|done]. apply set_stats_ok; [done|congruence|done]. }
  eapply ensures_mono; [apply kept_loop; [apply Hk|]|intros r2; by apply kept_trans].
  intros j r2 Hj Hr2. destruct (re_stats _ _ Hr2) as [Hl2 Hall2].
  destruct (vlookup_lt (channel_stats_ r2) ch) as [s Hs]; [lia|].
  pose proof (Forall_vlookup _ _ _ _ Hall2 Hs) as Hso. cbv beta in Hso.
  apply vec_get_Ok in Hs as ->. cbn [mbind res_bind].
  eapply ensures_bind; [by apply RankBackgroundEnergy_ok|]. intros e _.
  destruct (re_calc _ _ Hr2) as [Hcalc Hnet].
  destruct (UpdateBackgroundEnergy_ok c t ch j e (thermal_calc_ r2) Hcalc Hch Hj) as (s' & Hrun & Hs' & _).
  rewrite Hrun. cbn [mbind res_bind]. apply ensures_ret. split; [|done].
  apply set_calc_ok; [done|done|]. eapply network_trans; [exact Hnet|by eapply background_network].
Qed.

Lemma count_name_Some ty : ty ≠ SIZE → is_Some (count_name ty).
Proof. destruct ty; simpl; eauto. done. Qed.

Lemma ProcessCMD_ok s0 r cmd clk :
  geometry_ok c t → u64 (epoch_period c) ≠ 0 → replay_ok s0 r → replayable cmd →
  ensures (ProcessCMD c PrintEpochStats RankBackgroundEnergy cmd clk r) (kept s0 r).
Proof.
  intros Hge Hep Hr (Hty & (_ & Hrank & _) & Hch & Hbank).
  destruct (ge_counts _ _ Hge) as (_ & Hg & Hb). unfold ProcessCMD.
  eapply ensures_bind; [by apply count_background_ok|]. intros r1 Hk1.
  destruct (count_name_Some _ Hty) as [name Hname]. rewrite Hname.
  eapply ensures_bind; [apply (modify_stats_ok s0); [apply Hk1|done|]|].
  { intros s Hs. by apply ensures_ret, Increment_ok. }
  intros r2 Hk2. fold (kept s0 r1 r2) in Hk2. pose proof (kept_trans _ _ _ _ Hk1 Hk2) as Hk.
  eapply (ensures_bind _ _ (kept s0 r)).
  { destruct (bank_after (cmd_type cmd)) as [b|]; [|by apply ensures_ret].
    destruct (Hbank ltac:(done)) as [Hbg Hbk].
    eapply ensures_mono; [apply set_bank_ok; [apply Hk2|done..]|]. intros r3. by apply kept_trans. }
  intros r3 Hk3. rewrite decide_False by done.
  eapply (ensures_bind _ _ (kept s0 r)).
  { case_decide; [|by apply ensures_ret].
    eapply ensures_mono; [apply print_epochs_ok, Hk3|]. intros r4. by apply kept_trans. }
  intros r4 (Hr4 & E1 & E2). apply ensures_ret. split; [by apply set_last_clk_ok|done].
Qed.

Lemma replay_command_ok s0 r clk tc :
  geometry_ok c t → u64 (epoch_period c) ≠ 0 → replay_ok s0 r → replayable tc.2 →
  ensures (replay_command c t p PrintEpochStats RankBackgroundEnergy clk tc r) (kept s0 r).
Proof.
  intros Hge Hep Hr Hcmd. unfold replay_command.
  eapply ensures_bind; [by apply ProcessCMD_ok|]. intros r1 (Hr1 & E1 & E2).
  destruct (re_calc _ _ Hr1) as [Hcalc Hnet]. destruct Hcmd as (_ & Hin & _).
  eapply ensures_bind; [apply (UpdateCMDPower_ok c t); [done|apply Hcalc|exact Hin]|]. intros s Hup.
  apply ensures_ret. split; [|done]. apply set_calc_ok; [done|by eapply updated_thermal_ok|].
  eapply network_trans; [exact Hnet|by eapply updated_network].
Qed.

Lemma reset_banks_ok s0 r : replay_ok s0 r → ensures (reset_banks c r) (kept s0 r).
Proof.
  intros Hr. unfold reset_banks. apply kept_loop; [done|]. intros ch r1 Hch Hr1.
  apply kept_loop; [done|]. intros rk r2 Hrk Hr2. apply kept_loop; [done|]. intros g r3 Hg Hr3.
  apply kept_loop; [done|]. intros b r4 Hb Hr4. by apply set_bank_ok.
Qed.

Lemma replay_once_ok s0 clk r :
  geometry_ok c t → u64 (epoch_period c) ≠ 0 → replay_ok s0 r →
  Forall (λ tc, replayable tc.2) (timed_commands_ r) →
  ensures (replay_once c t p PrintEpochStats RankBackgroundEnergy (clk, r)) (λ st, kept s0 r st.2).
Proof.
  intros Hge Hep Hr Hcmds. unfold replay_once. rewrite list.Forall_forall in Hcmds.
  eapply (ensures_bind _ _ (kept s0 r)).
  { apply foldM_ensures; [|done]. intros tc r1 Htc Hk.
    eapply ensures_mono; [apply replay_command_ok; [done|done|apply Hk|by apply Hcmds]|].
    intros r2. by apply kept_trans. }
  intros r1 Hk1. eapply ensures_bind; [apply reset_banks_ok, Hk1|]. intros r2 Hk2.
  apply ensures_ret. by eapply kept_trans.
Qed.

Lemma Run_ok s0 r fuel pdgssv a asub xa :
  geometry_ok c t → is_stacked c = true → u64 (epoch_period c) ≠ 0 → replay_ok s0 r →
  Forall (λ tc, replayable tc.2) (timed_commands_ r) →
  length a = length (Midx s0) → length asub = length (Midx s0) →
  Z.of_nat (length xa) = grid_nodes s0 + 1 →
  (∀ A b, Z.of_nat (length b) = m_rows A → length (pdgssv A b) = length b) →
  ensures (Run c t p PrintEpochStats PrintFinalStats RankBackgroundEnergy fuel pdgssv a asub xa r)
    (λ '(r', Ts), replay_ok s0 r' ∧ timed_commands_ r' = timed_commands_ r ∧
      Z.of_nat (length Ts) = num_case s0).
Proof.
  intros Hge Hst Hep Hr Hcmds Ha Hasub Hxa Hsolve. unfold Run.
  eapply (ensures_bind _ _ (λ st, kept s0 r st.2)).
  { apply for_upto_ensures; [|done]. intros _ [clk r1] _ (Hr1 & E1 & E2). cbn [snd] in *.
    eapply ensures_mono; [apply (replay_once_ok s0); [done..|by rewrite E1]|].
    intros st. by apply (kept_trans s0 r r1). }
  intros [clk r1] (Hr1 & E1 & E2). cbn [snd] in *. destruct (re_stats _ _ Hr1) as [Hl Hall].
  rewrite list.Forall_forall in Hall.
  destruct (foldM_total (λ s acc, s ← PrintFinalStats clk s; Ok (acc ++ [s]))
    (λ pre acc, length acc = length pre ∧ Forall (stats_ok c) acc) (channel_stats_ r1) [])
    as (stats & Hrun & Hls & Hss); [done| |].
  { intros pre s acc Hs _ [Hlen Hacc]. destruct (PrintFinalStats_ok clk s (Hall s Hs)) as (s' & -> & Hs').
    eexists. split; [done|]. rewrite !length_app, Hlen. split; [done|]. apply Forall_app. by split; [|constructor]. }
  rewrite Hrun. cbn [mbind res_bind]. destruct (re_calc _ _ Hr1) as [Hcalc (N1 & N2 & N3)].
  eapply ensures_bind; [apply (PrintFinalPT_ok c t); [done|exact Hcalc|..|exact Hsolve]|].
  - change (thermal_calc_ (r1 <| channel_stats_ := stats |>)) with (thermal_calc_ r1). congruence.
  - change (thermal_calc_ (r1 <| channel_stats_ := stats |>)) with (thermal_calc_ r1). congruence.
  - change (thermal_calc_ (r1 <| channel_stats_ := stats |>)) with (thermal_calc_ r1). congruence.
  - intros Ts HTs. apply ensures_ret. split; [|split; [exact E1|]].
    + apply set_stats_ok; [done|congruence|done].
    + rewrite <- N3. exact HTs.
Qed.
End runs.

(** ** Construction *)

Lemma new_stats_ok c :
  0 ≤ channels c →
  ensures (tabulate (channels c) (λ _, SimpleStats_new c)) (λ stats,
    Z.of_nat (length stats) = channels c ∧ Forall (stats_ok c) stats).
Proof.
  intros Hc. destruct (SimpleStats_new_ok c) as (s & Hs & Hok). unfold tabulate.
  destruct (foldM_total (λ _ acc, x ← SimpleStats_new c; Ok (acc ++ [x]))
    (λ pre acc, length acc = length pre ∧ Forall (stats_ok c) acc) (seqZ 0 (channels c)) [])
    as (stats & Hrun & Hl & Hall); [done| |].
  - intros pre i acc _ _ [Hl Hall]. rewrite Hs. eexists. split; [done|].
    rewrite !length_app, Hl. split; [done|]. apply Forall_app. by split; [|constructor].
  - exists stats. split; [exact Hrun|]. split; [|done]. rewrite Hl, length_seqZ. lia.
Qed.

Lemma read_lines cmds :
  Forall printable cmds →
  foldM (λ line acc, p ← ParseLine line Command_default; Ok (acc ++ [p])) (print_line <$> cmds) [] = Ok cmds.
Proof.
  intros Hall. assert (∀ acc, foldM (λ line acc, p ← ParseLine line Command_default; Ok (acc ++ [p]))
    (print_line <$> cmds) acc = Ok (acc ++ cmds)) as Hgen; [|apply Hgen].
  induction Hall as [|tc cmds Htc _ IH]; intros acc; [by rewrite app_nil_r|].
  rewrite fmap_cons. cbn [foldM]. rewrite ParseLine_print by done. cbn [mbind res_bind].
  rewrite IH. by rewrite <- app_assoc.
Qed.

(** ** Properties *)

(** A replay reads its trace as it was written and runs to its end.  On a
    stacked device whose banks fit, from the printed lines of any list of
    timed commands within the device, the constructor returns with exactly
    these commands, and the replay, however often it is repeated, returns
    with the statistics, the bank states and the calculator well-formed and
    with the final temperatures of every case; provided that the members of
    the statistics which the sources do not declare return. *)
Theorem replay_runs (c : Config) (t : ThermalParams) (p : PowerParams)
    (PrintEpochStats PrintFinalStats : Z → SimpleStats → res SimpleStats)
    (RankBackgroundEnergy : SimpleStats → Z → res double) (garbage : Z * Z)
    (s0 : ThermalCalculator) (cmds : list (Z * Command)) (repeat : Z) (fuel : nat)
    (pdgssv : SuperMatrix → list double → list double) (a : list double) (asub xa : list Z) :
  (∀ clk s, stats_ok c s → ensures (PrintEpochStats clk s) (stats_ok c)) →
  (∀ clk s, stats_ok c s → ensures (PrintFinalStats clk s) (stats_ok c)) →
  (∀ s j, stats_ok c s → 0 ≤ j < ranks c → ensures (RankBackgroundEnergy s j) (λ _, True)) →
  device_fits c t → geometry_ok c t → 0 < periods c t → is_stacked c = true →
  u64 (epoch_period c) ≠ 0 →
  ThermalCalculator_new c p t garbage = Ok s0 → mapping_fits c (phy_mapping s0) →
  grid_nodes s0 < 2 ^ 31 → Forall (λ tc, printable tc ∧ replayable c tc.2) cmds →
  length a = length (Midx s0) → length asub = length (Midx s0) →
  Z.of_nat (length xa) = grid_nodes s0 + 1 →
  (∀ A b, Z.of_nat (length b) = m_rows A → length (pdgssv A b) = length b) →
  ∃ r, ThermalReplay_new c t p garbage (Some (print_line <$> cmds)) repeat = Ok r ∧
    timed_commands_ r = cmds ∧
    ensures (Run c t p PrintEpochStats PrintFinalStats RankBackgroundEnergy fuel pdgssv a asub xa r)
      (λ '(r', Ts), replay_ok c t s0 r' ∧ timed_commands_ r' = cmds ∧
        Z.of_nat (length Ts) = num_case s0).
Proof.
  intros He Hf Hb Hfit Hge Hper Hst Hep Hnew Hmap Hnodes Hcmds Ha Hasub Hxa Hsolve.
  assert (thermal_ok c t s0) as Hs0 by (eapply new_calc_ok; try done; apply Hge).
  destruct Hfit as (_ & _ & Hch & _).
  unfold ThermalReplay_new. rewrite Hnew. cbn [mbind res_bind].
  destruct (new_stats_ok c ltac:(lia)) as (stats & -> & Hls & Hstats). cbn [mbind res_bind].
  rewrite read_lines by (eapply list.Forall_impl; [exact Hcmds|by intros tc [? _]]). cbn [mbind res_bind].
  eexists. split; [done|]. split; [done|].
  apply (Run_ok c t p _ _ _ He Hf Hb s0 (MkThermalReplay cmds s0 repeat 0 stats (no_bank_active c)));
    try done; [|eapply list.Forall_impl; [exact Hcmds|by intros tc [_ ?]]].
  constructor; simpl; [done|done|]. unfold no_bank_active. split; [rewrite length_replicate; lia|].
  apply Forall_replicate, dims3_replicate.
Qed.

(** ** A concrete instance *)

(** A trace of four commands for the one-die stack of ThermalRuns.v. *)
Definition sample_trace : list (Z * Command) :=
  [(10, MkCommand ACTIVATE (MkAddress 1 0 2 3 77 0) 0);
   (24, MkCommand READ (MkAddress 1 0 2 3 77 5) 0);
   (60, MkCommand PRECHARGE (MkAddress 1 0 2 3 77 0) 0);
   (90, MkCommand REFRESH (MkAddress 0 0 0 0 0 0) 0)].

Lemma sample_trace_ok : Forall (λ tc, printable tc ∧ replayable stack_config tc.2) sample_trace.
Proof.
  unfold sample_trace. repeat apply list.Forall_cons_2; try apply list.Forall_nil_2;
    (split; [split; [done|]; split; [done|]; split; [done|];
             repeat apply list.Forall_cons_2; try apply list.Forall_nil_2; done|]);
    by vm_compute; split_and!.
Qed.

Lemma replay_runs_witness :
  ∃ s0 r, ThermalCalculator_new stack_config stack_power stack_params (0, 0) = Ok s0 ∧
    ThermalReplay_new stack_config stack_params stack_power (0, 0)
      (Some (print_line <$> sample_trace)) 10 = Ok r ∧ timed_commands_ r = sample_trace.
Proof.
  destruct stack_new as (s & Hs & Hm & Hn & _). destruct (stack_ok s Hs Hm Hn) as [_ Hpos].
  destruct (replay_runs stack_config stack_params stack_power (λ _ s, Ok s) (λ _ s, Ok s)
    (λ _ _, Ok d0) (0, 0) s sample_trace 10 1 (λ _ b, b) (replicate (length (Midx s)) d0)
    (replicate (length (Midx s)) 0) (replicate (Z.to_nat (grid_nodes s + 1)) 0))
    as (r & Hr & Hcmds & _).
  - intros clk st Hst. by apply ensures_ret.
  - intros clk st Hst. by apply ensures_ret.
  - intros st j _ _. by apply ensures_ret.
  - exact stack_fits.
  - exact (proj1 stack_geometry).
  - exact (proj2 stack_geometry).
  - reflexivity.
  - by vm_compute.
  - exact Hs.
  - rewrite Hm. exact I.
  - exact Hn.
  - exact sample_trace_ok.
  - by rewrite length_replicate.
  - by rewrite length_replicate.
  - rewrite length_replicate. lia.
  - done.
  - exists s, r. exact (conj Hs (conj Hr Hcmds)).
Defined.

(** An unknown command name is taken for a read. *)
Example unknown_command_reads :
  ParseLine "5 nop 0 0 0 1 7 3" Command_default = Ok (5, MkCommand READ (MkAddress 0 0 0 1 7 3) 0).
Proof. vm_compute. reflexivity. Qed.
