(* ===== verification/StackSystem.v ===== *)
(** * StackSystem: a sample memory system with a stacked device

    The one-die HBM stack of ThermalRuns.v as a memory system: its operations
    return, its addresses decode in range, and a short run of it serves a
    read of channel 1. *)

From S2P Require Import Refresh CommandQueue.
From S2P Require Import Prelude Common Configuration Timing BankState ChannelState ChannelSafety.
From S2P Require Import SimpleStats Controller ControllerSafety ControllerRuns ControllerTrace.
From S2P Require Import DramSystem DramSystemSafety SystemTrace ThermalRuns.
Local Open Scope Z_scope.

Lemma stack_config_new : Config_new (reader_of stack_strings stack_integers) 0 = Ok stack_config.
Proof. vm_compute. reflexivity. Qed.

(** The stack of ThermalRuns.v is a system whose operations return. *)
#[export] Instance stack_safe : SafeSystem stack_config.
Proof.
  split; [split|done|by eapply Config_new_channels; [apply stack_config_new|done]|done].
  - by apply (Config_new_geometry (reader_of stack_strings stack_integers) 0); [apply stack_config_new|done..].
  - reflexivity.
  - intros _. vm_compute. reflexivity.
  - intros r Hr. vm_compute in Hr. injection Hr as <-. done.
  - done.
Qed.

Lemma stack_rows : rows_in_range stack_config.
Proof. by apply (Config_new_rows (reader_of stack_strings stack_integers) 0); [apply stack_config_new|..]. Qed.

(** A read of channel 1 and the cycles that serve it. *)
Definition stack_ops : list sys_op := op_add 1050624 false :: replicate 60 op_tick.

Lemma stack_ops_ok : Forall (λ o, ∀ a wr, o = op_add a wr → 0 ≤ a) stack_ops.
Proof. unfold stack_ops. repeat constructor; intros a wr [=]; lia. Qed.

Definition stack_run (ops : list sys_op) : res (BaseDRAMSystem * list (Z * bool)) :=
  s ← JedecDRAMSystem_new stack_config 1 2; foldM (do_op stack_config) ops (s, []).

Lemma stack_sys_run ops s acc :
  Z.of_nat (length ops) < 2 ^ 63 → Forall (λ o, ∀ a wr, o = op_add a wr → 0 ≤ a) ops →
  stack_run ops = Ok (s, acc) → sys_run stack_config (foldl (λ n o, n + ticks o) 0 ops) s acc.
Proof. apply (new_sys_run stack_config 1 2), _. Qed.

Lemma stack_run_new ops s acc :
  stack_run ops = Ok (s, acc) → ∃ s0, JedecDRAMSystem_new stack_config 1 2 = Ok s0 ∧
    foldM (do_op stack_config) ops (s0, []) = Ok (s, acc).
Proof. intros (s0 & H1 & H2)%bind_Ok_inv. eauto. Qed.

(** The trace of channel 1: an activation and the read. *)
Definition stack_lines (tr : list (Z * Command)) : bool :=
  (length tr =? 2)%nat && forallb (λ e, negb (Channel e.2 =? -1)) tr
  && existsb (λ e, 0 <? Row e.2) tr.

Lemma stack_world : ∃ s acc ctl, stack_run stack_ops = Ok (s, acc) ∧
  vlookup (ctrls_ s) 1 = Some ctl ∧ stack_lines (cmd_trace_ ctl) = true.
Proof.
  assert (match stack_run stack_ops with
    | Ok x => match vlookup (ctrls_ x.1) 1 with Some t => stack_lines (cmd_trace_ t) | None => false end
    | _ => false end = true) as H by (vm_compute; reflexivity).
  destruct (stack_run stack_ops) as [[s acc]|]; [|discriminate]. exists s, acc. cbn [fst] in H.
  destruct (vlookup (ctrls_ s) 1) as [t|]; [|discriminate]. exists t. by split_and!.
Qed.

Lemma stack_lines_channels tr :
  stack_lines tr = true → Forall (λ e : Z * Command, Channel e.2 ≠ -1) tr.
Proof.
  unfold stack_lines. intros [[_ H]%andb_true_iff _]%andb_true_iff. rewrite forallb_forall in H.
  apply list.Forall_forall. intros e He%list_elem_of_In%H. by apply negb_true_iff, Z.eqb_neq in He.
Qed.
