(* ===== verification/ReplayTrace.v ===== *)
(** * ReplayTrace: the replay of the trace that a memory system wrote

    The replay tool reads the command trace of a channel (the lines that
    controller.cc writes with CMD_TRACE through the output operator of
    common.cc) and replays its power (src/src/thermal_replay.cc).  What it
    reads is what was written except for the rows and the columns, which are
    printed in base 16 and read as 0; and a trace with a refresh cannot be
    replayed, because refreshes carry the channel -1. *)

From Stdlib Require Import Ascii.
From S2P Require Import Refresh CommandQueue.
From S2P Require Import Prelude Double Common Configuration Timing BankState ChannelState ChannelSafety.
From S2P Require Import SimpleStats Controller ControllerSafety ControllerRuns ControllerTrace.
From S2P Require Import DramSystem DramSystemSafety SystemTrace TraceFile TraceText Energy.
From S2P Require Import Solver SolverSafety SolverRuns Thermal ThermalSafety ThermalRuns Replay ReplayRuns StackSystem.
Local Open Scope Z_scope.

(** ** Fields of a line *)

Lemma split_spaces n rest :
  StringSplit_loop (spaces n +:+ rest) " "%char "" = StringSplit_loop rest " "%char "".
Proof. induction n as [|n IH]; [done|]. exact IH. Qed.

Lemma split_field s n rest :
  item_ok " "%char s →
  StringSplit_loop (s +:+ spaces n +:+ " " +:+ rest) " "%char ""
  = s :: StringSplit_loop rest " "%char "".
Proof.
  intros [Hne Hs].
  change (" " +:+ rest)%string with (String " "%char rest).
  assert (spaces n +:+ String " "%char rest = String " "%char (spaces n +:+ rest))%string as ->.
  { induction n as [|n IH]; [done|]. change (String " " (spaces n +:+ String " " rest)
      = String " " (String " " (spaces n +:+ rest)))%string. by rewrite IH. }
  rewrite StringSplit_item by done. rewrite split_spaces. simpl. unfold keep_item. by rewrite decide_False.
Qed.

Lemma split_right s n rest :
  item_ok " "%char s →
  StringSplit_loop (spaces n +:+ s +:+ " " +:+ rest) " "%char ""
  = s :: StringSplit_loop rest " "%char "".
Proof. intros Hs. rewrite split_spaces. exact (split_field s 0 rest Hs). Qed.

Lemma split_end s n :
  item_ok " "%char s → StringSplit_loop (spaces n +:+ s) " "%char "" = [s].
Proof.
  intros [Hne Hs]. rewrite split_spaces, StringSplit_last by done. simpl. unfold keep_item.
  by rewrite decide_False.
Qed.

(** ** The fields of a command *)

Lemma digits_item base n :
  0 < base ≤ 16 → " "%char ∉ print_number base n.
Proof.
  intros Hb (d & Hd & Hin)%list_elem_of_fmap.
  pose proof (print_number_range base n ltac:(lia)) as Hr. rewrite list.Forall_forall in Hr.
  specialize (Hr d Hin). pose proof (digit_char_code d ltac:(lia)) as Hc. by rewrite <- Hd in Hc.
Qed.

(** The characters that a prefix puts in front. *)
Lemma chars_app s1 s2 : chars (s1 +:+ s2)%string = chars s1 ++ chars s2.
Proof. induction s1 as [|x s1 IH]; [done|]. exact (f_equal (cons x) IH). Qed.

Lemma signed_item n : item_ok " "%char (signed n).
Proof.
  unfold signed. case_decide; [|apply decimal_item]. split; [done|]. rewrite chars_app.
  intros [?%list_elem_of_singleton|H2]%elem_of_app; [done|]. by apply decimal_item in H2.
Qed.

Lemma hexadecimal_item n : item_ok " "%char (hexadecimal n).
Proof.
  assert (∀ pre m, pre ≠ ""%string → " "%char ∉ chars pre →
    item_ok " "%char (pre +:+ String.string_of_list_ascii (print_number 16 m))%string) as H.
  { intros pre m Hne Hpre. split; [by destruct pre|]. rewrite chars_app, chars_string.
    intros [?|H2]%elem_of_app; [done|]. by apply digits_item in H2. }
  unfold hexadecimal. case_decide; (apply H; [done|]; apply (bool_decide_unpack _); by vm_compute).
Qed.

Lemma stoi_signed n : - 2 ^ 31 ≤ n < 2 ^ 31 → stoi (chars (signed n)) = Ok n.
Proof.
  intros Hn. unfold signed, decimal. case_decide as Hneg.
  - destruct (read_number (- n) ltac:(lia)) as (_ & E2 & E3). rewrite chars_app, chars_string.
    unfold stoi. change (drop_sign (skip_ws (chars "-" ++ print_number 10 (- n))))
      with (true, print_number 10 (- n)).
    cbv beta iota zeta. rewrite E3, Z.opp_involutive. rewrite decide_True; [done|]. split; [done|lia].
  - rewrite chars_string. apply stoi_print. lia.
Qed.

(** [std::stoi] reads base 10: of a number with the prefix [0x] only the zero. *)
Lemma stoi_hexadecimal n : stoi (chars (hexadecimal n)) = Ok 0.
Proof. unfold hexadecimal. case_decide; by rewrite chars_app. Qed.

(** ** Lines of the trace, read back *)

(** What the replay gets of a recorded command. *)
Definition reread (e : Z * Command) : Z * Command :=
  let a := addr e.2 in
  (e.1, MkCommand (cmd_type e.2) (MkAddress (channel a) (rank a) (bankgroup a) (bank a) 0 0) 0).

Definition legible (e : Z * Command) : Prop :=
  0 ≤ e.1 < 2 ^ 64 ∧ cmd_type e.2 ≠ SIZE ∧
  Forall (λ n, - 2 ^ 31 ≤ n < 2 ^ 31)
    (let a := addr e.2 in [channel a; rank a; bankgroup a; bank a]).

Lemma ParseLine_trace {F : Fmt} `{Laws : !FmtLaws F} e :
  legible e → ParseLine (trace_line e) Command_default = Ok (reread e).
Proof.
  destruct e as [clk [ty [ch ra bg ba ro co] hex]]. unfold legible.
  cbn [fst snd addr cmd_type hex_addr channel rank bankgroup bank row column].
  intros (Hclk & Hty & Hall). unfold ParseLine, trace_line, print_command, setw_left, padding.
  cbn [fst snd addr cmd_type hex_addr channel rank bankgroup bank row column].
  rewrite fmt_left_doc, !fmt_iright_doc, !fmt_ihex_doc. unfold padding, StringSplit.
  rewrite !append_assoc.
  rewrite split_field by apply decimal_item. rewrite split_field by apply type_item.
  do 4 (rewrite split_right by apply signed_item).
  rewrite split_right by apply hexadecimal_item. rewrite split_end by apply hexadecimal_item.
  unfold decimal at 1. rewrite chars_string, stoull_print by done. cbn [mbind res_bind].
  unfold Channel, Rank, Bankgroup, Bank. cbn [addr channel rank bankgroup bank].
  repeat (apply list.Forall_cons in Hall as [? Hall]).
  repeat (rewrite stoi_signed by done; cbn [mbind res_bind]).
  rewrite !stoi_hexadecimal. cbn [mbind res_bind]. by rewrite cmd_type_of_name.
Qed.

Lemma read_trace {F : Fmt} `{Laws : !FmtLaws F} es :
  Forall legible es →
  foldM (λ line acc, p ← ParseLine line Command_default; Ok (acc ++ [p])) (trace_line <$> es) []
  = Ok (reread <$> es).
Proof.
  intros Hall. assert (∀ acc, foldM (λ line acc, p ← ParseLine line Command_default; Ok (acc ++ [p]))
    (trace_line <$> es) acc = Ok (acc ++ (reread <$> es))) as Hgen; [|apply Hgen].
  induction Hall as [|e es He _ IH]; intros acc; [by rewrite app_nil_r|].
  rewrite !fmap_cons. cbn [foldM]. rewrite ParseLine_trace by done. cbn [mbind res_bind].
  rewrite IH. by rewrite <- app_assoc.
Qed.

(** ** Replaying commands without a channel *)

Section channelless.
Context (c : Config) (t : ThermalParams) (p : PowerParams).
Context (PrintEpochStats PrintFinalStats : Z → SimpleStats → res SimpleStats).
Context (RankBackgroundEnergy : SimpleStats → Z → res double).
Hypothesis PrintEpochStats_ok : ∀ clk s, stats_ok c s → ensures (PrintEpochStats clk s) (stats_ok c).
Hypothesis RankBackgroundEnergy_ok : ∀ s j,
  stats_ok c s → 0 ≤ j < ranks c → ensures (RankBackgroundEnergy s j) (λ _, True).

(** A command that the replay takes, and one with the channel of a refresh. *)
Definition replayed_or_refresh (cmd : Command) : Prop :=
  cmd_type cmd ≠ SIZE ∧ (Channel cmd ≠ -1 → replayable c cmd).

Lemma replay_command_channelless s0 r clk tc :
  geometry_ok c t → replay_ok c t s0 r → cmd_type tc.2 ≠ SIZE → Channel tc.2 = -1 →
  replay_command c t p PrintEpochStats RankBackgroundEnergy clk tc r = Fault OutOfRange.
Proof.
  intros Hge Hr Hty Hch. destruct (ge_counts _ _ Hge) as (_ & Hg & Hb).
  destruct (count_background_ok c t s0 r (u64 (u64 (clk + tc.1) - last_clk_ r)) Hg Hb Hr) as (r1 & Hr1 & _).
  destruct (count_name_Some _ Hty) as [name Hname].
  unfold replay_command, ProcessCMD. rewrite Hr1. cbn [mbind res_bind]. by rewrite Hname, Hch.
Qed.

Lemma replay_commands_channelless s0 clk cmds r :
  geometry_ok c t → u64 (epoch_period c) ≠ 0 → replay_ok c t s0 r →
  Forall (λ tc, replayed_or_refresh tc.2) cmds → Exists (λ tc : Z * Command, Channel tc.2 = -1) cmds →
  foldM (replay_command c t p PrintEpochStats RankBackgroundEnergy clk) cmds r = Fault OutOfRange.
Proof.
  intros Hge Hep Hr Hall. revert r Hr. induction Hall as [|tc cmds [Hty Hch] _ IH]; intros r Hr Hex;
    [by apply Exists_nil in Hex|]. cbn [foldM].
  destruct (decide (Channel tc.2 = -1)) as [E|E].
  - by rewrite (replay_command_channelless s0 r clk tc Hge Hr Hty E).
  - apply Exists_cons in Hex as [?|Hex]; [done|].
    destruct (replay_command_ok c t p PrintEpochStats RankBackgroundEnergy PrintEpochStats_ok
      RankBackgroundEnergy_ok s0 r clk tc Hge Hep Hr (Hch E)) as (r1 & -> & Hk).
    cbn [mbind res_bind]. apply IH; [apply Hk|exact Hex].
Qed.

(** A replay of a trace with a refresh leaves the vector of the channels. *)
Lemma Run_channelless s0 r fuel pdgssv a asub xa :
  geometry_ok c t → u64 (epoch_period c) ≠ 0 → replay_ok c t s0 r → 0 < repeat_ r →
  Forall (λ tc, replayed_or_refresh tc.2) (timed_commands_ r) →
  Exists (λ tc : Z * Command, Channel tc.2 = -1) (timed_commands_ r) →
  Run c t p PrintEpochStats PrintFinalStats RankBackgroundEnergy fuel pdgssv a asub xa r
  = Fault OutOfRange.
Proof.
  intros Hge Hep Hr Hrep Hall Hex.
  assert (replay_once c t p PrintEpochStats RankBackgroundEnergy (0, r) = Fault OutOfRange) as Honce.
  { unfold replay_once. by rewrite (replay_commands_channelless s0 0 (timed_commands_ r) r). }
  unfold Run, for_upto. rewrite seqZ_cons by lia. cbn [foldM]. by rewrite Honce.
Qed.
End channelless.

(** ** The trace of a system *)

(** The counts of a device fit the [int]s that [std::stoi] reads. *)
Definition counts_fit_int (c : Config) : Prop :=
  channels c ≤ 2 ^ 31 ∧ ranks c ≤ 2 ^ 31 ∧ bankgroups c ≤ 2 ^ 31 ∧ banks_per_group c ≤ 2 ^ 31.

Section system.
Context (c : Config) `{Sys : !SafeSystem c}.
Context (Hrows : rows_in_range c).

(** Where the commands of a trace lie. *)
Lemma recorded_coordinates e :
  recorded c e → cmd_type e.2 ≠ SIZE ∧ -1 ≤ Channel e.2 < channels c ∧ 0 ≤ Rank e.2 < ranks c ∧
  -1 ≤ Bankgroup e.2 < bankgroups c ∧ -1 ≤ Bank e.2 < banks_per_group c ∧
  (Channel e.2 ≠ -1 → decoded c e.2).
Proof.
  intros (_ & Hv & Ha & _ & Hd). pose proof (geo_bankgroups (c:=c)). pose proof (geo_banks_per_group (c:=c)).
  unfold Channel, Rank, Bankgroup, Bank in *.
  assert (cmd_type e.2 ≠ SIZE) as Hty by (intros E; unfold IsValid in Hv; by rewrite E in Hv).
  split; [exact Hty|]. destruct Hd as [[Hh Had]|[_ (E1 & E2 & E3 & Hg & Hb)]].
  - pose proof (geo_decode (c:=c) _ Hh) as (D1 & D2 & D3). pose proof (ss_range (c:=c) _ Hh).
    unfold decoded. rewrite Had. split_and!; try lia. intros _. by split.
  - assert (0 ≤ rank (addr e.2) < ranks c) as Hr.
    { unfold cmd_addr_ok, bank_addr_ok, rank_ok in Ha. destruct (IsRankCMD e.2); [exact Ha|apply Ha]. }
    rewrite E1 in *. pose proof (ss_channels (c:=c)). split_and!; lia.
Qed.

Lemma recorded_legible e : counts_fit_int c → recorded c e → e.1 < two64 → legible e.
Proof.
  intros (? & ? & ? & ?) He Hlt. destruct (recorded_coordinates e He) as (Hty & ? & ? & ? & ? & _).
  destruct He as [Hclk _]. unfold legible, Channel, Rank, Bankgroup, Bank, two64 in *.
  split; [lia|]. split; [done|]. repeat apply list.Forall_cons_2; try apply list.Forall_nil_2; lia.
Qed.

Lemma recorded_replayed e : BL c ≤ columns c → recorded c e →
  replayed_or_refresh c (reread e).2.
Proof.
  intros HBL He. destruct (recorded_coordinates e He) as (Hty & Hch & Hrk & Hg & Hb & Hdec).
  split; [done|]. intros Hne. change (Channel (reread e).2) with (Channel e.2) in Hne.
  destruct (Hdec Hne) as [Hh Had]. pose proof (geo_decode (c:=c) _ Hh) as (D1 & D2 & D3).
  destruct (Hrows _ Hh) as (R1 & _). rewrite <- Had in *.
  assert (0 ≤ Bankgroup e.2 < bankgroups c) as Bg by exact D2.
  assert (0 ≤ Bank e.2 < banks_per_group c) as Bk by exact D3.
  split; [done|]. split.
  - split; [pose proof (ss_channels (c:=c)); lia|]. split; [exact Hrk|].
    unfold Row, Column. cbn. destruct (cmd_type e.2); try done; cbn; split_and!; lia.
  - split; [change (0 ≤ Channel e.2 < channels c); lia|]. intros _. by split.
Qed.
End system.

Lemma system_trace_recorded c n s acc i ctl :
  SafeSystem c → sys_run c n s acc → n < two64 → vlookup (ctrls_ s) i = Some ctl →
  Forall (λ e, recorded c e ∧ e.1 < two64) (cmd_trace_ ctl).
Proof.
  intros Sys Hrun Hn Ht. pose proof (sys_run_ctrl c n s acc i ctl Sys Hrun Ht) as Hc.
  destruct (sys_run_traced c n s acc ss_channels Hrun Hn i ctl Ht) as (_ & _ & _ & Hk).
  apply list.Forall_and. split; [apply (ct_recorded _ _ _ Hc)|].
  eapply list.Forall_impl; [exact Hk|]. simpl. lia.
Qed.

(** ** Properties *)


(** ** A concrete run *)

(** The formats as the documentation describes them. *)
Definition documented_fmt : Fmt := {|
  fmt_left n s := (s +:+ padding n s)%string;
  fmt_right n s := (padding n s +:+ s)%string;
  fmt_ileft n k := (signed k +:+ padding n (signed k))%string;
  fmt_iright n k := (padding n (signed k) +:+ signed k)%string;
  fmt_ihex n k := (padding n (hexadecimal k) +:+ hexadecimal k)%string |}.

Lemma documented_laws : FmtLaws documented_fmt.
Proof. by constructor. Qed.

