(* ===== verification/ThermalSystem.v ===== *)
(** * ThermalSystem: a memory system that feeds the thermal model

    In a build with THERMAL a [JedecDRAMSystem] owns a calculator that all its
    controllers share: each command that a controller issues is charged to it,
    each epoch gives it the background energy of every rank and computes the
    temperatures (src/src/dram_system.cc, controller.cc).  Nothing that the
    controllers do depends on the calculator, so the charges of a cycle are
    made here after the controller has run, in the order in which it issued
    the commands.  The member [RankBackgroundEnergy] of the statistics is
    declared nowhere in the sources and is a parameter; so are the sparse
    solver and the contents of fresh buffers. *)

From S2P Require Import Refresh CommandQueue.
From S2P Require Import Prelude Double Common Configuration Timing BankState ChannelState ChannelSafety.
From S2P Require Import SimpleStats Controller ControllerSafety ControllerRuns ControllerTrace.
From S2P Require Import DramSystem DramSystemSafety SystemTrace Energy.
From S2P Require Import Solver SolverSafety SolverRuns Thermal ThermalSafety ThermalRuns StackSystem.
Local Open Scope Z_scope.

Record ThermalSystem : Type := MkThermalSystem { dram : BaseDRAMSystem; calculator : ThermalCalculator }.

Section thermal_system.
Context (config_ : Config) (params : ThermalParams) (power : PowerParams).
Context (RankBackgroundEnergy : SimpleStats → Z → res double).
Context (fresh_reals : Z → Z → list double) (fresh_ints : Z → Z → list Z).
Context (fuel : nat) (pdgssv : SuperMatrix → list double → list double).

(** [thermal_calc_(config_)] comes before the controllers. *)
Definition ThermalSystem_new (garbage : Z * Z) (read_callback write_callback : Z) : res ThermalSystem :=
  calc ← ThermalCalculator_new config_ power params garbage;
  d ← JedecDRAMSystem_new config_ read_callback write_callback;
  Ok (MkThermalSystem d calc).

(** [UpdateCMDPower(channel_id_, cmd, clk_)] for the commands of a cycle. *)
Definition charge_commands (channel : Z) (issued : list (Z * Command)) (s : ThermalCalculator)
    : res ThermalCalculator :=
  foldM (λ e, UpdateCMDPower config_ params power channel e.2) issued s.

(** The cycle of a controller and the commands that it issues in it. *)
Definition charge_channel (i : Z) (x : ThermalSystem) : res ThermalSystem :=
  t ← vec_get (ctrls_ (dram x)) i;
  d ← DramSystem.tick_channel config_ i (dram x);
  t' ← vec_get (ctrls_ d) i;
  calc ← charge_commands (channel_id_ t') (drop (length (cmd_trace_ t)) (cmd_trace_ t')) (calculator x);
  Ok (MkThermalSystem d calc).

(** The loop over the ranks at the end of a controller's statistics. *)
Definition charge_background (t : Controller) (s : ThermalCalculator) : res ThermalCalculator :=
  for_upto (ranks config_) (λ r s,
    bg_energy ← RankBackgroundEnergy (simple_stats_ t) r;
    UpdateBackgroundEnergy (channel_id_ t) r bg_energy s) s.

(** The statistics of one controller, of an epoch or at the end. *)
Definition controller_stats (print : Controller → res Controller) (i : Z) (x : ThermalSystem)
    : res ThermalSystem :=
  v ← vec_modify (ctrls_ (dram x)) i print;
  t ← vec_get v i;
  calc ← charge_background t (calculator x);
  Ok (MkThermalSystem ((dram x) <| ctrls_ := v |>) calc).

Definition PrintEpochStats (x : ThermalSystem) : res ThermalSystem :=
  x ← for_upto (Z.of_nat (length (ctrls_ (dram x)))) (controller_stats Controller.PrintEpochStats) x;
  '(calc, _) ← PrintTransPT config_ params fuel power
    (fresh_reals (DramSystem.clk_ (dram x)) (grid_nodes (calculator x))) (calculator x);
  Ok (MkThermalSystem (dram x) calc).

(** The end of the simulation; [PrintFinalPT] gives the temperatures. *)
Definition PrintStats (x : ThermalSystem)
    : res (ThermalSystem * list (list double * double * list csv_row)) :=
  x ← for_upto (Z.of_nat (length (ctrls_ (dram x)))) (controller_stats Controller.PrintFinalStats) x;
  let s := calculator x in
  let clk := DramSystem.clk_ (dram x) in
  let nnz := Z.of_nat (length (Midx s)) in
  Ts ← PrintFinalPT config_ params fuel pdgssv (fresh_reals clk nnz) (fresh_ints clk nnz)
    (fresh_ints clk (grid_nodes s + 1)) clk s;
  Ok (x, Ts).

Definition ClockTick (x : ThermalSystem) : res ThermalSystem :=
  let n := Z.of_nat (length (ctrls_ (dram x))) in
  d ← for_upto n drain_channel (dram x);
  x ← for_upto n charge_channel (MkThermalSystem d (calculator x));
  let x := MkThermalSystem ((dram x) <| DramSystem.clk_ ::= λ k, u64 (k + 1) |>) (calculator x) in
  if decide (u64 (epoch_period config_) = 0) then Fault DivideByZero
  else if decide (DramSystem.clk_ (dram x) mod u64 (epoch_period config_) = 0)
  then PrintEpochStats x else Ok x.

(** The operations before the end; only a cycle reaches the calculator. *)
Definition thermal_op (o : sys_op) (st : ThermalSystem * list (Z * bool))
    : res (ThermalSystem * list (Z * bool)) :=
  let '(x, acc) := st in
  match o with
  | op_tick => x ← ClockTick x; Ok (x, acc)
  | op_print_stats => '(x, _) ← PrintStats x; Ok (x, acc)
  | _ => '(d, acc) ← do_op config_ o (dram x, acc); Ok (MkThermalSystem d (calculator x), acc)
  end.

(** [n] cycles after the construction. *)
Inductive thermal_run (garbage : Z * Z) : Z → ThermalSystem → list (Z * bool) → Prop :=
  | trun_new rcb wcb x : ThermalSystem_new garbage rcb wcb = Ok x → thermal_run garbage 0 x []
  | trun_op o n x acc x' acc' :
      thermal_run garbage n x acc → o ≠ op_print_stats → op_ok config_ (dram x) o →
      thermal_op o (x, acc) = Ok (x', acc') → thermal_run garbage (n + ticks o) x' acc'.
End thermal_system.

(** ** Loops over a part of the state *)

(** What a loop does to a part of its state, when that is a loop of its own. *)
Lemma for_upto_part {S X} (part : X → S) (f : Z → S → res S) (F : Z → X → res X) n x x' :
  (∀ i x1 x2, F i x1 = Ok x2 → f i (part x1) = Ok (part x2)) →
  for_upto n F x = Ok x' → for_upto n f (part x) = Ok (part x').
Proof.
  intros Hstep. unfold for_upto. generalize (seqZ 0 n). intros l. revert x.
  induction l as [|i l IH]; intros x Hrun; [simpl in *; by simplify_res|].
  cbn [foldM] in *. apply bind_Ok_inv in Hrun as (x1 & H1 & Hrun).
  rewrite (Hstep _ _ _ H1). cbn [mbind res_bind]. by apply IH.
Qed.

(** ** The memory system within *)

Section runs.
Context (c : Config) (t : ThermalParams) (p : PowerParams).
Context (RankBackgroundEnergy : SimpleStats → Z → res double).
Context (fresh_reals : Z → Z → list double) (fresh_ints : Z → Z → list Z).
Context (fuel : nat) (pdgssv : SuperMatrix → list double → list double).

Notation charge_channel := (charge_channel c t p).
Notation controller_stats := (controller_stats c RankBackgroundEnergy).
Notation PrintEpochStats := (PrintEpochStats c t p RankBackgroundEnergy fresh_reals fuel).
Notation PrintStats := (PrintStats c t RankBackgroundEnergy fresh_reals fresh_ints fuel pdgssv).
Notation ClockTick := (ClockTick c t p RankBackgroundEnergy fresh_reals fuel).
Notation thermal_op := (thermal_op c t p RankBackgroundEnergy fresh_reals fresh_ints fuel pdgssv).
Notation thermal_run := (thermal_run c t p RankBackgroundEnergy fresh_reals fresh_ints fuel pdgssv).

Lemma charge_channel_dram i x x' :
  charge_channel i x = Ok x' → DramSystem.tick_channel c i (dram x) = Ok (dram x').
Proof. unfold ThermalSystem.charge_channel. intros H. simplify_res. done. Qed.

Lemma controller_stats_dram print x x' n :
  for_upto n (controller_stats print) x = Ok x' →
  for_upto n (λ i s, v ← vec_modify (ctrls_ s) i print; Ok (s <| ctrls_ := v |>)) (dram x) = Ok (dram x').
Proof.
  apply for_upto_part. intros i x1 x2 H. unfold ThermalSystem.controller_stats in H.
  apply bind_Ok_inv in H as (v & -> & H). by simplify_res.
Qed.

Lemma ClockTick_dram x x' : ClockTick x = Ok x' → DramSystem.ClockTick c (dram x) = Ok (dram x').
Proof.
  unfold ThermalSystem.ClockTick, DramSystem.ClockTick. intros H.
  apply bind_Ok_inv in H as (d & -> & H). apply bind_Ok_inv in H as (x1 & H1 & H). cbn [mbind res_bind].
  apply (for_upto_part dram _ _ _ _ _ (λ i x1 x2, charge_channel_dram i x1 x2)) in H1.
  cbn [dram] in H1. rewrite H1. cbn [mbind res_bind dram] in *. case_decide; [done|].
  case_decide; [|by simplify_eq]. unfold ThermalSystem.PrintEpochStats in H.
  apply bind_Ok_inv in H as (x2 & Hx2%controller_stats_dram & H).
  apply bind_Ok_inv in H as ([calc rows] & _ & H). by simplify_res.
Qed.

Lemma thermal_op_dram o x acc x' acc' :
  o ≠ op_print_stats → thermal_op o (x, acc) = Ok (x', acc') →
  do_op c o (dram x, acc) = Ok (dram x', acc').
Proof.
  intros Ho. unfold ThermalSystem.thermal_op. destruct o as [a wr| |r w| | |]; try done; intros H.
  2:{ apply bind_Ok_inv in H as (x1 & H1%ClockTick_dram & H). simpl. rewrite H1. by simplify_res. }
  all: apply bind_Ok_inv in H as ([d acc1] & -> & H); by simplify_res.
Qed.

Lemma thermal_run_dram garbage n x acc : thermal_run garbage n x acc → sys_run c n (dram x) acc.
Proof.
  induction 1 as [rcb wcb x Hn|o n x acc x' acc' _ IH Ho Hok Hrun].
  - unfold ThermalSystem_new in Hn. apply bind_Ok_inv in Hn as (calc & _ & Hn).
    apply bind_Ok_inv in Hn as (d & Hd & Hn). simplify_res. by eapply run_new.
  - eapply run_op; [exact IH|exact Hok|by apply thermal_op_dram].
Qed.

(** ** What the calculator is given *)

Context `{Sys : !SafeSystem c}.
Hypothesis Hrows : rows_in_range c.
Hypothesis Hge : geometry_ok c t.
Hypothesis Hstacked : is_stacked c = true.
Hypothesis RankBackgroundEnergy_ok : ∀ s j,
  stats_ok c s → 0 ≤ j < ranks c → ensures (RankBackgroundEnergy s j) (λ _, True).
Hypothesis fresh_reals_ok : ∀ clk n, 0 ≤ n → Z.of_nat (length (fresh_reals clk n)) = n.
Hypothesis fresh_ints_ok : ∀ clk n, 0 ≤ n → Z.of_nat (length (fresh_ints clk n)) = n.
Hypothesis pdgssv_ok : ∀ A b, Z.of_nat (length b) = m_rows A → length (pdgssv A b) = length b.

Lemma recorded_in_range ch e : 0 ≤ ch < channels c → recorded c e → command_in_range c ch e.2.
Proof.
  intros Hch (_ & Hv & Ha & _ & Hd). split; [done|].
  unfold Rank, Bankgroup, Bank, Row, Column, IsValid in *.
  assert (0 ≤ rank (addr e.2) < ranks c) as Hr.
  { unfold cmd_addr_ok, bank_addr_ok, rank_ok in Ha. destruct (IsRankCMD e.2); [exact Ha|apply Ha]. }
  split; [exact Hr|]. unfold cmd_addr_ok, IsRankCMD in Ha.
  destruct Hd as [[Hh Had]|[Hn _]].
  - pose proof (geo_decode (c:=c) _ Hh) as (D1 & D2 & D3). destruct (Hrows _ Hh) as (R1 & R2 & R3).
    rewrite <- Had in *. destruct (cmd_type e.2); try done; by split_and!.
  - destruct (cmd_type e.2); try done. by destruct Ha as (_ & _ & Hb).
Qed.

Lemma charge_commands_ok ch es s :
  0 ≤ ch < channels c → Forall (recorded c) es → thermal_ok c t s →
  ensures (charge_commands c t p ch es s) (thermal_ok c t).
Proof.
  intros Hch Hes Hs. rewrite list.Forall_forall in Hes. apply foldM_ensures; [|done].
  intros e s1 He Hs1. eapply ensures_mono;
    [apply UpdateCMDPower_ok; [done|apply Hs1|by apply recorded_in_range, Hes]|].
  intros s2 Hup. by eapply updated_thermal_ok.
Qed.

Lemma charge_background_ok ctl s :
  0 ≤ channel_id_ ctl < channels c → stats_ok c (simple_stats_ ctl) → thermal_ok c t s →
  ensures (charge_background c RankBackgroundEnergy ctl s) (thermal_ok c t).
Proof.
  intros Hch Hst Hs. apply for_upto_ensures; [|done]. intros r s1 Hr Hs1.
  eapply ensures_bind; [by apply RankBackgroundEnergy_ok|]. intros e _.
  eapply ensures_mono; [by apply UpdateBackgroundEnergy_ok|]. by intros s2 [? _].
Qed.

(** Each controller is well-formed and has the number of its place. *)
Definition placed (s : BaseDRAMSystem) : Prop :=
  Z.of_nat (length (ctrls_ s)) = channels c ∧
  ∀ i ctl, vlookup (ctrls_ s) i = Some ctl → ctrl_ok c [] ctl ∧ channel_id_ ctl = i.

Lemma sys_run_placed n s acc : sys_run c n s acc → n < two64 → placed s.
Proof.
  intros Hrun Hn. pose proof (proj2 (sys_run_reachable _ _ _ _ Hrun)) as Hre.
  pose proof (sys_reachable_ok _ _ _ Sys Hre) as Hs. pose proof (ss_channels (c:=c)).
  split; [rewrite (sy_len _ _ _ Hs); lia|]. intros i ctl Hv.
  split; [by eapply sys_run_ctrl|]. by apply (sys_run_traced c n s acc ss_channels Hrun Hn i ctl Hv).
Qed.

Lemma charge_channel_ok i x ctl :
  placed (dram x) → thermal_ok c t (calculator x) → vlookup (ctrls_ (dram x)) i = Some ctl →
  clock_room c ctl →
  ensures (charge_channel i x) (λ x', placed (dram x') ∧ thermal_ok c t (calculator x') ∧
    DramSystem.clk_ (dram x') = DramSystem.clk_ (dram x) ∧
    ∀ j, j ≠ i → vlookup (ctrls_ (dram x')) j = vlookup (ctrls_ (dram x)) j).
Proof.
  intros [Hl Hp] Hs Hv Hroom. destruct (Hp i ctl Hv) as [Hc Hid].
  destruct (ClockTick_total c ctl Hc Hroom) as (ctl' & Htick & Hc' & _).
  destruct (ClockTick_ticked _ _ _ _ Htick) as [cmds Elog]. injection Elog as Eid _ _.
  unfold ThermalSystem.charge_channel, DramSystem.tick_channel. apply vec_get_Ok in Hv as Hget.
  rewrite Hget. cbn [mbind res_bind]. rewrite Htick. cbn [mbind res_bind].
  destruct (vec_set_replaced _ _ _ ctl' Hv) as (v & -> & Rl & Rv). cbn [mbind res_bind].
  assert (∀ d, ctrls_ (if is_active_cycles ctl' then d <| ctrls_ := v |>
      <| active_cycles ::= λ n, u64 (n + 1) |> <| concurrent_serve ::= λ n, u64 (n + Controller.concurrent_serve ctl') |>
      else d <| ctrls_ := v |>) = v) as Ectrls by (intros; by destruct (is_active_cycles ctl')).
  rewrite Ectrls. assert (vlookup v i = Some ctl') as Hv' by (by rewrite Rv, decide_True).
  apply vec_get_Ok in Hv' as ->. cbn [mbind res_bind].
  eapply ensures_bind; [apply charge_commands_ok; [| |exact Hs]|].
  - rewrite Eid, Hid. apply vlookup_range in Hv. lia.
  - apply list.Forall_drop, (ct_recorded _ _ _ Hc').
  - intros calc Hcalc. apply ensures_ret. cbn [dram calculator]. unfold placed. rewrite Ectrls.
    split; [|split; [done|split; [by destruct (is_active_cycles ctl')|]]].
    + split; [congruence|]. intros j u. rewrite Rv. case_decide as Hj; [|by apply Hp].
      intros [= <-]. split; [done|]. congruence.
    + intros j Hj. by rewrite Rv, decide_False.
Qed.

Lemma charge_all_ok x :
  placed (dram x) → thermal_ok c t (calculator x) →
  (∀ i ctl, vlookup (ctrls_ (dram x)) i = Some ctl → clock_room c ctl) →
  ensures (for_upto (Z.of_nat (length (ctrls_ (dram x)))) charge_channel x)
    (λ x', placed (dram x') ∧ thermal_ok c t (calculator x') ∧
      DramSystem.clk_ (dram x') = DramSystem.clk_ (dram x)).
Proof.
  intros Hp Hs Hroom.
  destruct (for_upto_total (λ i x1, placed (dram x1) ∧ thermal_ok c t (calculator x1) ∧
      DramSystem.clk_ (dram x1) = DramSystem.clk_ (dram x) ∧
      ∀ j ctl, i ≤ j → vlookup (ctrls_ (dram x1)) j = Some ctl → clock_room c ctl)
    (Z.of_nat (length (ctrls_ (dram x)))) charge_channel x) as (x' & Hrun & H1 & H2 & H3 & _); [lia| | |].
  - split_and!; try done. intros j ctl _. apply Hroom.
  - intros i x1 Hi (Hp1 & Hs1 & Hk1 & Hr1).
    destruct (vlookup_lt (ctrls_ (dram x1)) i) as [ctl Hv].
    { destruct Hp as [Hl _], Hp1 as [Hl1 _]. lia. }
    destruct (charge_channel_ok i x1 ctl Hp1 Hs1 Hv) as (x2 & Hrun & Hp2 & Hs2 & Hk2 & Ho); [by apply (Hr1 i)|].
    exists x2. split; [done|]. split_and!; [done|done|congruence|].
    intros j u Hj. rewrite Ho by lia. apply Hr1. lia.
  - by exists x'.
Qed.

Definition stats_print (print : Controller → res Controller) : Prop :=
  ∀ ctl, ctrl_ok c [] ctl → ensures (print ctl) (λ ctl', ctrl_ok c [] ctl' ∧ channel_id_ ctl' = channel_id_ ctl).

Lemma PrintEpochStats_print : stats_print Controller.PrintEpochStats.
Proof.
  intros ctl Hc. unfold Controller.PrintEpochStats.
  destruct (UpdateEpochStats_ok c (simple_stats_ (count "epoch_num" ctl))) as (st & -> & Hst).
  { apply Increment_ok, Hc. }
  apply ensures_ret. split; [|done]. apply ctrl_ok_stats; [|done]. by apply ctrl_ok_count.
Qed.

Lemma PrintFinalStats_print : stats_print Controller.PrintFinalStats.
Proof.
  intros ctl Hc. unfold Controller.PrintFinalStats.
  destruct (UpdateFinalStats_ok c (simple_stats_ ctl)) as (st & -> & Hst); [apply Hc|].
  apply ensures_ret. split; [|done]. by apply ctrl_ok_stats.
Qed.

Lemma controller_stats_ok print x :
  stats_print print → placed (dram x) → thermal_ok c t (calculator x) →
  ensures (for_upto (Z.of_nat (length (ctrls_ (dram x)))) (controller_stats print) x)
    (λ x', placed (dram x') ∧ thermal_ok c t (calculator x')).
Proof.
  intros Hprint Hp Hs. destruct Hp as [Hl Hp]. rewrite Hl.
  apply (for_upto_ensures (λ x', placed (dram x') ∧ thermal_ok c t (calculator x'))); [|by split].
  intros i x1 Hi [[Hl1 Hp1] Hs1]. destruct (vlookup_lt (ctrls_ (dram x1)) i) as [ctl Hv]; [lia|].
  destruct (Hp1 i ctl Hv) as [Hc Hid]. destruct (Hprint ctl Hc) as (ctl' & Hpr & Hc' & Hid').
  unfold ThermalSystem.controller_stats.
  destruct (vec_modify_Ok _ _ print _ _ Hv Hpr) as (v & -> & Rl & Rv). cbn [mbind res_bind].
  assert (vlookup v i = Some ctl') as Hv' by (by rewrite Rv, decide_True).
  apply vec_get_Ok in Hv' as ->. cbn [mbind res_bind].
  eapply ensures_bind; [apply charge_background_ok; [lia|apply Hc'|done]|].
  intros calc Hcalc. apply ensures_ret. split; [|done]. split; [simpl; congruence|].
  intros j u. simpl. rewrite Rv. case_decide; [|by apply Hp1]. intros [= <-]. split; [done|congruence].
Qed.

Lemma grid_nodes_nonneg s : thermal_ok c t s → 0 ≤ grid_nodes s.
Proof.
  intros Hs. destruct (plan_dims c t s (ca_plan _ _ _ (th_calc _ _ _ Hs))).
  pose proof (th_dies _ _ _ Hs). unfold grid_nodes, nodes, numLayer, num_dummy. nia.
Qed.

Lemma PrintEpochStats_ok x :
  placed (dram x) → thermal_ok c t (calculator x) →
  ensures (PrintEpochStats x) (λ x', placed (dram x') ∧ thermal_ok c t (calculator x')).
Proof.
  intros Hp Hs. unfold ThermalSystem.PrintEpochStats.
  eapply ensures_bind; [apply controller_stats_ok; [apply PrintEpochStats_print|done|done]|].
  intros x1 [Hp1 Hs1]. eapply ensures_bind; [apply PrintTransPT_ok; [done|exact Hs1|]|].
  { apply fresh_reals_ok. by apply grid_nodes_nonneg. }
  intros [calc rows] [Hcalc _]. by apply ensures_ret.
Qed.

Lemma PrintStats_ok x :
  placed (dram x) → thermal_ok c t (calculator x) →
  ensures (PrintStats x) (λ '(x', Ts), thermal_ok c t (calculator x') ∧
    Z.of_nat (length Ts) = num_case (calculator x')).
Proof.
  intros Hp Hs. unfold ThermalSystem.PrintStats.
  eapply ensures_bind; [apply controller_stats_ok; [apply PrintFinalStats_print|done|done]|].
  intros x1 [Hp1 Hs1]. pose proof (grid_nodes_nonneg _ Hs1).
  eapply ensures_bind; [apply PrintFinalPT_ok; [done|exact Hs1|..|exact pdgssv_ok]|].
  - apply Nat2Z.inj. rewrite fresh_reals_ok; lia.
  - apply Nat2Z.inj. rewrite fresh_ints_ok; lia.
  - rewrite fresh_ints_ok; lia.
  - intros Ts HTs. by apply ensures_ret.
Qed.

Lemma ClockTick_thermal n x acc :
  thermal_ok c t (calculator x) → sys_run c n (dram x) acc → n < two64 → op_ok c (dram x) op_tick →
  ensures (ClockTick x) (λ x', thermal_ok c t (calculator x')).
Proof.
  intros Hs Hrun Hn Hroom. pose proof (sys_run_placed n _ acc Hrun Hn) as [Hl Hp].
  pose proof (sys_reachable_ok _ _ _ Sys (proj2 (sys_run_reachable _ _ _ _ Hrun))) as Hsys.
  unfold ThermalSystem.ClockTick.
  destruct (drain_all_ok c acc (dram x) Hsys) as (d & Hd & Hd' & Hk & _). rewrite Hd. cbn [mbind res_bind].
  apply drain_all_logs in Hd.
  assert (length (ctrls_ d) = length (ctrls_ (dram x))) as El.
  { apply (f_equal length) in Hd. unfold logs in Hd. by rewrite !length_fmap in Hd. }
  assert (placed d) as Hpd.
  { split; [congruence|]. intros i ctl Hv. split; [apply (wo_ctrl _ _ (sy_ctl _ _ _ Hd' _ _ Hv))|].
    destruct (logs_lookup _ _ _ _ Hd Hv) as (ctl0 & Hv0 & E). injection E as Eid _ _.
    destruct (Hp _ _ Hv0) as [_ Hid]. congruence. }
  rewrite <- El. eapply ensures_bind; [apply (charge_all_ok (MkThermalSystem d (calculator x))); [done|done|]|].
  { intros i ctl Hv Hdual. rewrite (sy_clk _ _ _ Hd' _ _ Hv), Hk. by apply Hroom. }
  intros x1 (Hp1 & Hs1 & _). rewrite decide_False by apply ss_epoch.
  case_decide; [|by apply ensures_ret].
  eapply ensures_mono; [by apply PrintEpochStats_ok|]. by intros x2 [_ ?].
Qed.

Lemma thermal_op_ok n x acc o :
  thermal_ok c t (calculator x) → sys_run c n (dram x) acc → n < two64 → op_ok c (dram x) o →
  ensures (thermal_op o (x, acc)) (λ '(x', _), thermal_ok c t (calculator x')).
Proof.
  intros Hs Hrun Hn Ho. unfold ThermalSystem.thermal_op.
  pose proof (sys_reachable_ok _ _ _ Sys (proj2 (sys_run_reachable _ _ _ _ Hrun))) as Hsys.
  pose proof (do_op_ok c o (dram x) acc Sys Hsys Ho) as (d & acc' & Hdo & _).
  destruct o as [a wr| |r w| | |];
    try (rewrite Hdo; cbn [mbind res_bind]; by apply ensures_ret).
  - eapply ensures_bind; [by eapply ClockTick_thermal|]. intros x' Hx'. by apply ensures_ret.
  - eapply ensures_bind; [apply PrintStats_ok; [by eapply sys_run_placed|done]|].
    intros [x' Ts] [Hx' _]. by apply ensures_ret.
Qed.

Lemma thermal_run_ok garbage s0 n x acc :
  ThermalCalculator_new c p t garbage = Ok s0 → thermal_ok c t s0 →
  thermal_run garbage n x acc → n < two64 → thermal_ok c t (calculator x).
Proof.
  intros Hnew Hs0 Hrun. induction Hrun as [rcb wcb x Hx|o n x acc x' acc' Hx IH Ho Hok Hrun]; intros Hn.
  - unfold ThermalSystem_new in Hx. rewrite Hnew in Hx. by simplify_res.
  - pose proof (thermal_run_dram _ _ _ _ Hx) as Hsr. pose proof (ticks_range o).
    pose proof (proj1 (sys_run_reachable _ _ _ _ Hsr)).
    destruct (thermal_op_ok n x acc o (IH ltac:(lia)) Hsr ltac:(lia) Hok) as ([x2 acc2] & Hrun2 & Hs2).
    rewrite Hrun in Hrun2. by simplify_eq.
Qed.
(** A list of operations returns, and the memory system within does the same. *)
Lemma thermal_run_ops garbage s0 ops n x acc :
  ThermalCalculator_new c p t garbage = Ok s0 → thermal_ok c t s0 →
  thermal_run garbage n x acc → n + Z.of_nat (length ops) < 2 ^ 63 →
  Forall (λ o, o ≠ op_print_stats ∧ ∀ a wr, o = op_add a wr → 0 ≤ a) ops →
  ensures (foldM thermal_op ops (x, acc)) (λ '(x', acc'),
    thermal_run garbage (foldl (λ n o, n + ticks o) n ops) x' acc' ∧
    foldM (do_op c) ops (dram x, acc) = Ok (dram x', acc')).
Proof.
  intros Hnew Hs0 Hrun Hlen Hops. revert n x acc Hrun Hlen.
  induction Hops as [|o ops [Hp Ho] _ IH]; intros n x acc Hrun Hlen; [by apply ensures_ret|].
  cbn [length foldl] in *. pose proof (ticks_range o). pose proof (thermal_run_dram _ _ _ _ Hrun) as Hsr.
  assert (op_ok c (dram x) o) as Hok.
  { destruct o as [a wr| |r w| | |]; simpl; try done; [by apply (Ho a wr)|].
    intros _. rewrite (sys_run_clk c n _ acc Sys Hsr) by (unfold two64; lia). lia. }
  assert (n < two64) as Hn by (unfold two64; lia).
  pose proof (thermal_run_ok garbage s0 n x acc Hnew Hs0 Hrun Hn) as Hs.
  destruct (thermal_op_ok n x acc o Hs Hsr Hn Hok) as ([x1 acc1] & H1 & _). cbn [foldM].
  rewrite H1, (thermal_op_dram o x acc x1 acc1 Hp H1). cbn [mbind res_bind].
  apply IH; [by eapply trun_op|lia].
Qed.
End runs.

(** ** Properties *)


(** ** A concrete run: the stack serves a read *)

Definition reals_of (_ n : Z) : list double := replicate (Z.to_nat n) d0.
Definition ints_of (_ n : Z) : list Z := replicate (Z.to_nat n) 0.

Lemma replicate_length {A} (clk n : Z) (a : A) : 0 ≤ n → Z.of_nat (length (replicate (Z.to_nat n) a)) = n.
Proof. rewrite length_replicate. lia. Qed.

